(* ===== verification/_CoqProject ===== *)
-Q . S2P
Prelude.v
Channel.v
Identity.v
Url.v
Float.v
Json.v
Log.v
Encoding.v
Config.v
Crypto.v
Election.v
Db.v
Message.v
Utils.v
Transport.v
TransportSpec.v
Socket.v
Mempool.v
Block.v
Quorum.v
Forest.v
ForestSpec.v
BlockChain.v
Pacemaker.v
Protocol.v
Notarized.v
Streamlet.v
Lbft.v
HotStuff.v
Tchs.v
Fhs.v
Safety.v
Termination.v
Replica.v
Loops.v
Certified.v
Node.v
Cluster.v
Agreement.v
Debug.v
Server.v
Client.v
History.v
Benchmark.v
