(* ===== verification/Prelude.v ===== *)
(** * Bamboo: a verification development

    Bamboo is a framework of chained-BFT replicas in Go: a replica receives
    blocks, votes, timeout and view-change messages, drives one of several
    protocols (HotStuff, two-chain HotStuff, Fast HotStuff; Streamlet and LBFT are
    in the repository but not instantiated), and commits blocks of
    transactions.  Below the replica, a node dispatches messages by their type, a
    socket keeps one transport per peer, and transports carry messages over tcp,
    UDP or in-process channels; beside it, an HTTP client and a benchmark generate
    the load.  This library models all of these and proves the properties that
    make the parts correct -- and, where a part does not do what it means to, an
    execution or a theorem that shows it.

    ** The parts, their files and the code

    - Prelude.v (this file): 64-bit integers as [Z] with explicit wrap-around,
      the outcome type (a call returns, panics, loops for ever, or -- in a fuelled
      recursion -- runs out of fuel), a state monad over it, the frame rule
      [preserves], invariant triples, the [bamboo] hint database, walks in finite
      sets, sums over maps and shared lemmas.
    - Channel.v, Url.v, Float.v, Json.v: Go's buffered channels, net/url, the
      printing of floats and encoding/json, as the parts below use them.
    - Identity.v: identity/identity.go; node ids are decimal strings, with
      strconv's conversions written out.
    - Log.v, Encoding.v: log/log.go and types/encoding; severities and the level
      filter, the codec interface.
    - Config.v: config/config.go; all settings, their defaults and JSON form,
      [Load], [Save], [String] and [N].
    - Crypto.v: crypto/*.go; identifiers, hashers, key generation, the key table,
      signing and [VerifyQuorumSignature].  SHA-3 and the P-256 curve are the classes [Sha3]
      and [Ecdsa] with their laws as separate classes; [toy_sha3] and [toy_ecdsa]
      satisfy them.
    - Election.v: election/*.go; the interface as a class, [Rotation] (SHA-1 and
      big-endian decoding written out) and [Static] as instances.
    - Utils.v: utils/utils.go; random picks, [Retry], [Schedule].
    - Transport.v, TransportSpec.v: transport/transport.go; tcp and in-process
      transports with their goroutines as steps of one world, UDP as a datagram
      pipeline over gob's framing; the FIFO invariant and the delivery theorem.
    - Socket.v: socket/socket.go; peers, lazy dialling, broadcasts and fault
      injection, over the class [Net] of what a socket needs of transports.  The
      theorems are proved against its laws [NetLaws]; [transport_net_laws]
      discharges them for the transports.
    - Db.v, Message.v, Mempool.v: db/db.go, message/message.go, mempool/*.go;
      the command store, transactions, the queue with its Bloom filter (the
      bitset package is the class [BitSet]) and the producer.
    - Block.v, Quorum.v: blockchain/block.go, quorum.go; blocks, votes,
      certificates and vote collection.
    - Forest.v, ForestSpec.v: blockchain/leveled_forrest.go, vertex.go,
      container.go; the levelled forest with its containers shared through a
      store of addresses; the invariant, the abstract forest and the simulation.
    - BlockChain.v: blockchain/blockchain.go; forest and votes together, and the
      commit.
    - Pacemaker.v: pacemaker/*.go; both timeout controllers as one program over
      the class [TimeoutMsg], and the view counter with its announcements.
    - Protocol.v, HotStuff.v, Tchs.v, Fhs.v: hotstuff/hotstuff.go, tchs/tchs.go,
      fasthostuff/fhs.go; the state the three share, with a log of what was sent and of
      the votes a replica counts itself, their common view-change code, the class [Frame] of relations every effect respects, and the
      handlers of each protocol in a module of its own.
    - Notarized.v, Streamlet.v, Lbft.v: streamlet/streamlet.go, lbft/lbft.go; the
      notarized chain and the handlers the two share over the class [Variant] of
      their differences, and the two instances.
    - Safety.v: replica/safety.go; the interface the replica drives as a class,
      the laws the three protocols discharge, and the theorems proved against the
      interface for every reachable state.
    - Termination.v: the recursion between the handlers of a protocol ends; the
      class [SafetyEnds] is the promise, the three protocols discharge it.
    - Replica.v: replica/replica.go; message handlers, event loop and listeners as
      interleaved steps over protocol, mempool and statistics, and the text of a
      query's answer.
    - Loops.v: the goroutines of a replica ([Start] and its listeners) with their
      program counters, their blocking channels and the pacemaker's mutex.
    - Certified.v: what a replica keeps and sends carries only certificates it was
      given or built from votes; the class [CertifiedLaws] is the promise, the three
      protocols discharge it.
    - Node.v: node/node.go, node/http.go; registration and dispatch by dynamic
      type, the goroutines between socket and replica, the HTTP handlers, and the
      composition with the replica's handlers.
    - Cluster.v, Agreement.v: the replicas of a configuration exchanging their
      messages, and concrete runs of four of them.
    - Server.v, Debug.v: server/server.go, init.go, server/debug.go; which replicas
      a process starts, and the profile recorder.
    - Client.v: client.go, client/client.go; the HTTP client over a network
      parameter, and what the nodes' HTTP server makes of its requests.
    - History.v, Benchmark.v: benchmark/*.go; operation histories and statistics;
      the rate limiter and a run with its goroutines as steps, over the class [DB]
      which the client implements.

    ** How the model reads

    A Go method with receiver state [S] is a [M S A]: a function from the state to
    an outcome.  Nil dereferences, index errors and log.Fatal are [Panic]; errors
    are values ([error + A] or [option error], the error being its format string).
    Pointers are modelled by value except where sharing matters: forest
    containers live in a store, and writes through block pointers
    ([CommitFromThis], the certificate view in Tchs' fork rule) go to the stored
    block; a client shares its tables with the configuration.  In the protocols,
    sending on a channel or the network appends to a list, and so do the timers
    and spawned calls of Streamlet and LBFT; what becomes of a sent message is the
    subject of Socket.v, Transport.v and Node.v.  Goroutines interleave at the
    granularity of handlers (Replica.v, Node.v, Cluster.v) or of single channel
    operations (Transport.v, Loops.v, Benchmark.v); an operation that would block
    leaves the state as it is, in Loops.v it is no step.  The calls of a socket are
    made one at a time (the comment at the head of Socket.v says what that leaves
    out).  The clock, how long a sleep overruns, random numbers and the orders the
    runtime chooses for maps and goroutines are arguments.  float64 is the Standard Library's binary64
    [spec_float].

    Bounds and fuel.  [committed_levels] and [commit_loop] model Go loops that
    may never end; they may take one iteration more than there are levels,
    respectively stored ids, and report [Diverge] beyond, which is proved to be
    right: [CommitBlock_hangs] equates it with a cycle of the links they follow.
    [drain] gets one unit of fuel per container and is proved to need no more.  The
    mutual recursion of a protocol's [ProcessBlock], [ProcessVote] and view-change
    handlers takes fuel as an argument of the handler; [run_settles] proves that
    for every run some amount is enough and that any larger amount gives the same
    outcome.  The recursion of Streamlet and LBFT is fuelled in the same way; the
    theorems about it hold for every amount.  The concrete runs return with the
    units they are given (five per view in Loops.v, fifty per event in
    Agreement.v).  [ReadFull] gets one round more than bytes to read and is proved
    to return for every node.  [Retry] gets as much fuel as the loop condition allows attempts and is
    proved never to run out; [RandomPick] may draw for ever, and returns with any
    fuel that covers the draws it needs.

    ** What is proved

    - Block store: [CommitBlock] on every branch, what it commits, prunes and counts
      in a consistent store with one container per level, that nothing is committed
      twice when every block lies above its parent (which the code does not check),
      which blocks pruning reports and which it drops, that it ends on consistent
      forests, exactly when a commit loops for ever, and that the pointer structure of
      the forest implements an abstract map through every sequence of operations.
    - Certificates: vote collection builds at most one certificate per block, with
      the threshold number of distinct signers; certificates from verified votes
      verify; two quorums intersect in more than [ByzNo] nodes when
      [n <= 3*ByzNo + 1]; a timeout certificate is built exactly once per view.
    - Protocols: the voting rule of HotStuff; commits only from three-chains
      (HotStuff) or two-chains (Tchs, Fhs); well-formedness, monotonicity and
      genuineness of everything sent, for all three protocols and through any
      interleaving at the replica; the handlers' recursion ends.
    - Replicas together: in every state a cluster reaches, each certificate anyone
      holds or sent is backed by votes every one of a quorum of signers really cast;
      the event loop of a replica is stuck for good when its view announcements do not
      fit their channel, and not when they do and the listener is at its channels.
    - Notarized chains: the invariant of Streamlet's and LBFT's chain, the case
      analysis of its update, what a commit emits, whom a Byzantine vote reaches.
    - Transport, socket, node: a transport is a FIFO link under any interleaving
      and delivers everything when nothing is closed; a socket keeps one link per
      peer through any sequence of calls and faults, so a peer receives a prefix of
      what was sent to it; every message of a replica finds its handler over tcp; the
      transaction channel is well typed.
    - Client and benchmark: whom a client talks to, what [Put] reports, [Consensus]
      against agreement of histories; the limiter's rate, with sleeps that overrun; no key of a workload is
      lost or written twice; when transaction ids are distinct.
    - Supporting parts: round trips of configuration files (ASCII strings, floats that
      are whole numbers up to 1000), node ids, hashes,
      signatures, UDP packets up to 1500 bytes, history files and log levels, [Retry]'s attempts, leader election, mempool
      order, bounds and Bloom filter, the command store's conflict test,
      configuration loading and the transports and HTTP ports it leads to, the
      roles of started replicas, replica statistics, the bracketing of profiles.
    - Defects, each by a concrete execution: a block below its parent is committed
      twice; two first sends to a peer use two transports; certificates without signatures are
      accepted and committed; all nodes have the same key; honest replicas vote
      twice in a view; late messages make honest replicas commit conflicting
      blocks; a replica that catches up by 102 views deadlocks; with five
      nodes and [ByzNo = 1] conflicting certificates exist; an empty container
      crashes a commit; forks at a committed level are misreported; a block that is
      its own parent hangs a commit; forged timeouts take the view counter
      backwards; Streamlet and LBFT commit blocks off the notarized chain and crash
      on reordered certificates; unhandled messages and unreachable peers stop a
      node; a reader spins on a closed connection; simulation mode still uses tcp; a
      benchmark of a fixed number of requests never ends and none confirms anything;
      written histories cannot be read back.

    ** What is not modelled

    Code outside the repository is a parameter with named laws: SHA-3, the P-256
    curve, bitsets, the values inside gob's messages, RLP and the JSON that blocks are hashed from and clients
    exchange, net/http's exchange of a request for a response, unusual URLs, quoted
    CSV and JSON texts that are not ASCII.  Left out is I/O (opening and reading
    files, log line headers, HTTP responses).  Still open for this library: the end of
    the recursion in Streamlet and LBFT, and agreement between replicas under added
    voting guards, which the code does not have. *)

From stdpp Require Import base gmap strings numbers sorting list.

Local Open Scope Z_scope.

(** ** Machine integers

    Go's [int] and [types.View] are 64-bit signed, [uint64] and [uint] are
    64-bit unsigned.  Values are [Z]; every operation that can leave the range
    is wrapped by one of these two normalisations. *)

Definition two63 : Z := 9223372036854775808.
Definition two64 : Z := 18446744073709551616.

Definition i64 (z : Z) : Z := (z + two63) mod two64 - two63.
Definition u64 (z : Z) : Z := z mod two64.

Definition is_i64 (z : Z) : Prop := - two63 <= z < two63.
Definition is_u64 (z : Z) : Prop := 0 <= z < two64.

Declare Scope go_scope.
Delimit Scope go_scope with go.
Notation "a +! b" := (i64 (a + b)) (at level 50, left associativity) : go_scope.
Notation "a -! b" := (i64 (a - b)) (at level 50, left associativity) : go_scope.

Lemma i64_id z : is_i64 z -> i64 z = z.
Proof. unfold is_i64, i64, two63, two64. intros H. rewrite Z.mod_small; lia. Qed.

Lemma i64_range z : is_i64 (i64 z).
Proof.
  unfold is_i64, i64, two63, two64.
  pose proof (Z.mod_pos_bound (z + 9223372036854775808) 18446744073709551616). lia.
Qed.

(** Wrapping sums may be normalised once, at the end. *)
Lemma i64_add_l a b : i64 (i64 a + b) = i64 (a + b).
Proof.
  unfold i64. replace ((a + two63) mod two64 - two63 + b + two63) with ((a + two63) mod two64 + b) by lia.
  rewrite Zplus_mod_idemp_l. do 2 f_equal. lia.
Qed.
Lemma i64_add_r a b : i64 (a + i64 b) = i64 (a + b).
Proof. rewrite Z.add_comm, i64_add_l. f_equal. lia. Qed.

Lemma u64_id z : is_u64 z -> u64 z = z.
Proof. unfold is_u64, u64, two64. intros H. rewrite Z.mod_small; lia. Qed.

Lemma u64_range z : is_u64 (u64 z).
Proof. unfold is_u64, u64, two64. pose proof (Z.mod_pos_bound z 18446744073709551616). lia. Qed.

(** A non-negative signed value keeps its value under the conversion
    [uint64(v)]. *)
Lemma u64_of_i64 z : is_i64 z -> 0 <= z -> u64 z = z.
Proof. unfold is_i64, two63. intros ??. apply u64_id. unfold is_u64, two64. lia. Qed.

(** The conversion [uint64(v)] of a signed value is injective. *)
Lemma u64_inj_i64 a b : is_i64 a -> is_i64 b -> u64 a = u64 b -> a = b.
Proof.
  unfold is_i64, u64, two63, two64. intros Ha Hb H.
  pose proof (Z.div_mod a 18446744073709551616 ltac:(lia)).
  pose proof (Z.div_mod b 18446744073709551616 ltac:(lia)).
  rewrite H in *. nia.
Qed.

(** ** Outcomes

    A Go call returns, panics (nil dereference, index out of range, division by
    zero, [log.Fatal]), or never ends: [Diverge] is the result of a loop whose
    state is known to repeat.  [OutOfFuel] is the model's own: the fuel given to a
    recursion was not enough to tell. *)

Inductive outcome (A : Type) : Type :=
| Ret (a : A)
| Panic
| Diverge
| OutOfFuel.
Arguments Ret {A} a.
Arguments Panic {A}.
Arguments Diverge {A}.
Arguments OutOfFuel {A}.

(** Sequencing of outcomes, written [x ←? m ; k]. *)
Definition obind {A B} (m : outcome A) (f : A -> outcome B) : outcome B :=
  match m with Ret a => f a | Panic => Panic | Diverge => Diverge | OutOfFuel => OutOfFuel end.
Arguments obind {A B} !m f /.

Notation "x ←? y ; z" := (obind y (fun x => z))
  (at level 20, y at level 100, z at level 200, only parsing) : go_scope.
Notation "' x ←? y ; z" := (obind y (fun x => z))
  (at level 20, x pattern, y at level 100, z at level 200, only parsing) : go_scope.
Local Open Scope go_scope.

Definition of_option {A} (o : option A) : outcome A :=
  match o with Some a => Ret a | None => Panic end.

Definition returns {A} (o : outcome A) : Prop := exists a, o = Ret a.

(** ** The state monad of the model *)

Definition M (S A : Type) : Type := S -> outcome (A * S).

Definition ret {S A} (a : A) : M S A := fun s => Ret (a, s).
Definition gbind {S A B} (m : M S A) (f : A -> M S B) : M S B := fun s =>
  match m s with
  | Ret (a, s') => f a s'
  | Panic => Panic
  | Diverge => Diverge
  | OutOfFuel => OutOfFuel
  end.

Notation "x ← y ; z" := (gbind y (fun x => z))
  (at level 20, y at level 100, z at level 200, only parsing) : go_scope.
Notation "' x ← y ; z" := (gbind y (fun x => z))
  (at level 20, x pattern, y at level 100, z at level 200, only parsing) : go_scope.
Notation "y ;; z" := (gbind y (fun _ => z))
  (at level 100, z at level 200, only parsing, right associativity) : go_scope.

Definition gets {S A} (f : S -> A) : M S A := fun s => Ret (f s, s).
Definition modify {S} (f : S -> S) : M S unit := fun s => Ret (tt, f s).
Definition lift {S A} (o : outcome A) : M S A := fun s =>
  match o with Ret a => Ret (a, s) | Panic => Panic | Diverge => Diverge | OutOfFuel => OutOfFuel end.
Definition panic {S A} : M S A := fun _ => Panic.
Definition diverge {S A} : M S A := fun _ => Diverge.
Definition outOfFuel {S A} : M S A := fun _ => OutOfFuel.
Definition skip {S} : M S unit := fun s => Ret (tt, s).
Definition when {S} (b : bool) (m : M S unit) : M S unit := if b then m else skip.

(** Run a component's operation on the field of the enclosing state. *)
Definition zoom {S T A} (proj : S -> T) (upd : T -> S -> S) (m : M T A) : M S A := fun s =>
  match m (proj s) with
  | Ret (a, t') => Ret (a, upd t' s)
  | Panic => Panic
  | Diverge => Diverge
  | OutOfFuel => OutOfFuel
  end.

Lemma bind_ret {S A B} (m : M S A) (k : A -> M S B) s b s' :
  gbind m k s = Ret (b, s') <-> exists a s1, m s = Ret (a, s1) /\ k a s1 = Ret (b, s').
Proof.
  unfold gbind. destruct (m s) as [[a s1]| | |].
  - split; [by eauto | by intros (a' & s1' & [= <- <-] & ?)].
  - split; [done | by intros (? & ? & ? & _)].
  - split; [done | by intros (? & ? & ? & _)].
  - split; [done | by intros (? & ? & ? & _)].
Qed.

Lemma bind_unfold {S A B} (m : M S A) (k : A -> M S B) s a s1 :
  m s = Ret (a, s1) -> gbind m k s = k a s1.
Proof. unfold gbind. by intros ->. Qed.

Lemma zoom_ret {S T A} (proj : S -> T) upd (m : M T A) s a s' :
  zoom proj upd m s = Ret (a, s') <-> exists t', m (proj s) = Ret (a, t') /\ s' = upd t' s.
Proof.
  unfold zoom. destruct (m (proj s)) as [[a' t']| | |].
  - split; [by intros [= <- <-]; eauto | by intros (? & [= <- <-] & ->)].
  - split; [done | by intros (? & ? & _)].
  - split; [done | by intros (? & ? & _)].
  - split; [done | by intros (? & ? & _)].
Qed.

(** ** Frame reasoning

    [preserves R m]: every returning run of [m] relates its pre-state to its
    post-state by [R].  With [R] a preorder this is closed under sequencing, so
    an invariant ([fun s s' => I s -> I s']) or a monotone quantity is proved
    once per primitive operation. *)

Definition preserves {S A} (R : S -> S -> Prop) (m : M S A) : Prop :=
  forall s a s', m s = Ret (a, s') -> R s s'.

Section preserves.
Context {S : Type} (R : S -> S -> Prop) {HR : PreOrder R}.

Lemma preserves_ret {A} (a : A) : preserves R (ret a : M S A).
Proof. intros s a' s' [= _ <-]. reflexivity. Qed.

Lemma preserves_skip : preserves R skip.
Proof. intros s a' s' [= _ <-]. reflexivity. Qed.

Lemma preserves_panic {A} : preserves R (panic : M S A).
Proof. intros s a' s' H. discriminate H. Qed.

Lemma preserves_diverge {A} : preserves R (diverge : M S A).
Proof. intros s a' s' H. discriminate H. Qed.

Lemma preserves_outOfFuel {A} : preserves R (outOfFuel : M S A).
Proof. intros s a' s' H. discriminate H. Qed.

Lemma preserves_gets {A} (f : S -> A) : preserves R (gets f).
Proof. intros s a' s' [= _ <-]. reflexivity. Qed.

Lemma preserves_lift {A} (o : outcome A) : preserves R (lift o).
Proof. intros s a' s' H. unfold lift in H. destruct o; simplify_eq. reflexivity. Qed.

Lemma preserves_modify (f : S -> S) : (forall s, R s (f s)) -> preserves R (modify f).
Proof. intros Hf s a' s' [= _ <-]. apply Hf. Qed.

Lemma preserves_bind {A B} (m : M S A) (k : A -> M S B) :
  preserves R m -> (forall a, preserves R (k a)) -> preserves R (gbind m k).
Proof.
  intros Hm Hk s b s' (a & s1 & H1 & H2)%bind_ret.
  transitivity s1; [by eapply Hm | by eapply Hk].
Qed.

(** A lifted result may be used as known by the rest. *)
Lemma preserves_bind_lift {A B} (o : outcome A) (k : A -> M S B) :
  (forall a, o = Ret a -> preserves R (k a)) -> preserves R (gbind (lift o) k).
Proof.
  intros Hk s b s' H. unfold gbind, lift in H. destruct o as [a| | |]; [|done..]. by eapply Hk.
Qed.

Lemma preserves_when (b : bool) (m : M S unit) : preserves R m -> preserves R (when b m).
Proof. intros Hm. destruct b; [done | apply preserves_skip]. Qed.

Lemma preserves_zoom {T A} (RT : T -> T -> Prop) (proj : S -> T) upd (m : M T A) :
  preserves RT m -> (forall s t', RT (proj s) t' -> R s (upd t' s)) ->
  preserves R (zoom proj upd m).
Proof. intros Hm Hu s a s' (t' & H & ->)%zoom_ret. eauto. Qed.
End preserves.

Create HintDb bamboo.
#[export] Hint Resolve preserves_ret preserves_skip preserves_panic preserves_diverge preserves_outOfFuel
  preserves_gets preserves_lift : bamboo.
#[export] Hint Extern 1 (PreOrder _) => typeclasses eauto : bamboo.

(** Walk through a monadic body: split sequencing, conditionals and matches,
    and close the leaves with the [bamboo] database. *)
Ltac preserves_step :=
  match goal with
  | |- preserves _ (gbind (lift _) _) => apply preserves_bind_lift; intros ? ?
  | |- preserves _ (gbind _ _) => apply preserves_bind; [try typeclasses eauto | | intros ?]
  | |- preserves _ (when _ _) => apply preserves_when; [try typeclasses eauto |]
  | |- preserves _ (modify _) => apply preserves_modify; intros ?
  | |- preserves _ (match ?x with _ => _ end) => destruct x
  | |- preserves _ (let '_ := ?x in _) => destruct x
  end.
Ltac preserves_auto := repeat preserves_step; try solve [eauto with bamboo | done].

(** [t.Sub(u)] on times in nanoseconds, saturating at the ends of int64. *)
Definition time_Sub (t u : Z) : Z := Z.max (- two63) (Z.min (two63 - 1) (t - u))%Z.

(** ** Triples

    [triple R F I m Q]: run from a state of the invariant [I] as part of a run
    that is in [F] at its end, [m] returns only in such a state, with a result in
    [Q].  [R] is what every part of the run respects, so that [Q] may speak of
    what is still there at the end. *)
Definition triple {S A} (R : S -> S -> Prop) (F : S) (I : S -> Prop) (m : M S A) (Q : A -> Prop) : Prop :=
  forall s a s', I s -> m s = Ret (a, s') -> R s' F -> I s' /\ Q a.

Section triple.
Context {S : Type} (R : S -> S -> Prop) {HR : PreOrder R} (F : S) (I : S -> Prop).

Lemma triple_ret {A} (a : A) (Q : A -> Prop) : Q a -> triple R F I (ret a) Q.
Proof. intros HQ s a' s' HI [= <- <-]. done. Qed.
Lemma triple_skip : triple R F I skip (fun _ => True).
Proof. by intros s a s' HI [= _ <-]. Qed.
Lemma triple_panic {A} (Q : A -> Prop) : triple R F I panic Q.
Proof. intros s a s' _ H. discriminate H. Qed.
Lemma triple_outOfFuel {A} (Q : A -> Prop) : triple R F I outOfFuel Q.
Proof. intros s a s' _ H. discriminate H. Qed.
Lemma triple_lift {A} (o : outcome A) : triple R F I (lift o) (fun a => o = Ret a).
Proof. intros s a s' HI H. unfold lift in H. destruct o; simplify_eq. done. Qed.
Lemma triple_gets {A} (f : S -> A) : triple R F I (gets f) (fun a => exists s, I s /\ a = f s).
Proof. intros s a s' HI [= <- <-]. eauto. Qed.
Lemma triple_modify (f : S -> S) : (forall s, I s -> I (f s)) -> triple R F I (modify f) (fun _ => True).
Proof. intros Hf s a s' HI [= _ <-]. auto. Qed.
Lemma triple_bind {A B} (m : M S A) (k : A -> M S B) Q Q' :
  triple R F I m Q -> (forall a, preserves R (k a)) -> (forall a, Q a -> triple R F I (k a) Q') ->
  triple R F I (gbind m k) Q'.
Proof.
  intros Hm Hp Hk s b s' HI (a & s1 & H1 & H2)%bind_ret HF.
  destruct (Hm _ _ _ HI H1) as [HI1 HQ]; [transitivity s'; [by eapply Hp | done]|]. by eapply Hk.
Qed.
(** The head changes nothing. *)
Lemma triple_bind_lift {A B} (o : outcome A) (k : A -> M S B) Q :
  (forall a, o = Ret a -> triple R F I (k a) Q) -> triple R F I (gbind (lift o) k) Q.
Proof.
  intros Hk s b s' HI (a & s1 & H1 & H2)%bind_ret HF. unfold lift in H1. destruct o; simplify_eq. by eapply Hk.
Qed.
Lemma triple_bind_gets {A B} (f : S -> A) (k : A -> M S B) Q :
  (forall s, I s -> triple R F I (k (f s)) Q) -> triple R F I (gbind (gets f) k) Q.
Proof. intros Hk s b s' HI H HF. by eapply (Hk s HI). Qed.
Lemma triple_when (b : bool) (m : M S unit) :
  triple R F I m (fun _ => True) -> triple R F I (when b m) (fun _ => True).
Proof. intros Hm. destruct b; [done | apply triple_skip]. Qed.
Lemma triple_weaken {A} (m : M S A) (Q Q' : A -> Prop) :
  (forall a, Q a -> Q' a) -> triple R F I m Q -> triple R F I m Q'.
Proof. intros HQ Hm s a s' HI H HF. destruct (Hm _ _ _ HI H HF). auto. Qed.
End triple.

#[export] Hint Resolve triple_skip triple_panic triple_outOfFuel triple_lift triple_gets : bamboo.

(** Walk through a body, keeping what each read and each call returns. *)
Ltac triple_step :=
  match goal with
  | |- triple _ _ _ (gbind (lift _) _) _ => apply triple_bind_lift; intros ? ?
  | |- triple _ _ _ (gbind (gets _) _) _ => apply triple_bind_gets; intros ? ?
  | |- triple _ _ _ (gbind _ _) _ =>
      let H := fresh "H" in
      eapply triple_bind; [typeclasses eauto | solve [eauto with bamboo] | intros ?; solve [preserves_auto]
        | intros ? H; cbn beta in H]
  | |- triple _ _ _ (gbind _ _) _ =>
      eapply (triple_bind _ _ _ _ _ (fun _ => True)); [| intros ?; solve [preserves_auto] | intros ? _]
  | |- triple _ _ _ (when _ _) _ => apply triple_when
  | |- triple _ _ _ (match ?x with _ => _ end) _ => destruct x eqn:?
  | |- triple _ _ _ (let '_ := ?x in _) _ => destruct x eqn:?
  | |- triple _ _ _ (ret _) _ => apply triple_ret
  end.
Ltac triple_auto :=
  repeat triple_step; try solve [eauto with bamboo | eapply triple_weaken; [|solve [eauto with bamboo]]; done].

(** ** Fuel

    [fuelless m]: the model never runs out of fuel inside [m]. *)
Definition fuelless {S A} (m : M S A) : Prop := forall s, m s <> OutOfFuel.

Section fuelless.
Context {S : Type}.

Lemma fuelless_ret {A} (a : A) : fuelless (ret a : M S A).
Proof. done. Qed.
Lemma fuelless_skip : fuelless (skip : M S unit).
Proof. done. Qed.
Lemma fuelless_panic {A} : fuelless (panic : M S A).
Proof. done. Qed.
Lemma fuelless_diverge {A} : fuelless (diverge : M S A).
Proof. done. Qed.
Lemma fuelless_gets {A} (f : S -> A) : fuelless (gets f).
Proof. done. Qed.
Lemma fuelless_modify (f : S -> S) : fuelless (modify f).
Proof. done. Qed.
Lemma fuelless_lift {A} (o : outcome A) : o <> OutOfFuel -> fuelless (lift o : M S A).
Proof. intros Ho s. unfold lift. by destruct o. Qed.
Lemma fuelless_bind {A B} (m : M S A) (k : A -> M S B) :
  fuelless m -> (forall a, fuelless (k a)) -> fuelless (gbind m k).
Proof.
  intros Hm Hk s. specialize (Hm s). unfold gbind. destruct (m s) as [[a s']| | |]; [apply Hk|done..].
Qed.
Lemma fuelless_zoom {T A} (proj : S -> T) upd (m : M T A) : fuelless m -> fuelless (zoom proj upd m).
Proof. intros Hm s. specialize (Hm (proj s)). unfold zoom. by destruct (m (proj s)) as [[? ?]| | |]. Qed.
Lemma of_option_fuelless {A} (o : option A) : of_option o <> OutOfFuel.
Proof. by destruct o. Qed.
Lemma obind_fuelless {A B} (o : outcome A) (k : A -> outcome B) :
  o <> OutOfFuel -> (forall a, k a <> OutOfFuel) -> obind o k <> OutOfFuel.
Proof. destruct o; simpl; auto. Qed.
End fuelless.

#[export] Hint Resolve fuelless_ret fuelless_skip fuelless_panic fuelless_diverge fuelless_gets fuelless_modify
  fuelless_lift of_option_fuelless : bamboo.

Ltac fuelless_step :=
  match goal with
  | |- fuelless (gbind _ _) => apply fuelless_bind; [|intros ?]
  | |- fuelless (zoom _ _ _) => apply fuelless_zoom
  | |- fuelless (lift _) => apply fuelless_lift
  | |- fuelless (when ?b _) => unfold when; destruct b
  | |- fuelless (match ?x with _ => _ end) => destruct x
  | |- fuelless (let '_ := ?x in _) => destruct x
  | |- obind _ _ <> OutOfFuel => apply obind_fuelless; [|intros ?]
  | |- (match ?x with _ => _ end) <> OutOfFuel => destruct x
  | |- Ret _ <> OutOfFuel => discriminate
  | |- Panic <> OutOfFuel => discriminate
  | |- Diverge <> OutOfFuel => discriminate
  end.
Ltac fuelless_auto := repeat fuelless_step; try solve [eauto with bamboo | done].

(** Decompose a hypothesis [m s = Ret (a, s')] along the monadic structure. *)
Lemma Ret_pair_inj {A B} (a a' : A) (b b' : B) : Ret (a, b) = Ret (a', b') -> a = a' /\ b = b'.
Proof. by intros [= -> ->]. Qed.

(** Eliminate the variable an equation defines, its right-hand side first. *)
Ltac subst_rhs E :=
  match type of E with ?x = ?y => first [subst y | subst x | idtac] end.
Ltac ret_inv H :=
  let E1 := fresh "E" in let E2 := fresh "E" in
  apply Ret_pair_inj in H as [E1 E2]; subst_rhs E1; subst_rhs E2.
Ltac go_inv_step :=
  match goal with
  | H : Ret (_, _) = Ret (_, _) |- _ => ret_inv H
  | H : Panic = Ret _ |- _ => discriminate H
  | H : Diverge = Ret _ |- _ => discriminate H
  | H : OutOfFuel = Ret _ |- _ => discriminate H
  | H : gbind _ _ _ = Ret (_, _) |- _ =>
      let a := fresh "r" in let s := fresh "s" in
      let H1 := fresh "Hrun" in
      apply bind_ret in H as (a & s & H1 & H)
  | H : gets _ _ = Ret (_, _) |- _ => unfold gets in H; ret_inv H
  | H : modify _ _ = Ret (_, _) |- _ => unfold modify in H; ret_inv H
  | H : skip _ = Ret (_, _) |- _ => unfold skip in H; ret_inv H
  | H : panic _ = Ret (_, _) |- _ => discriminate H
  | H : diverge _ = Ret (_, _) |- _ => discriminate H
  | H : outOfFuel _ = Ret (_, _) |- _ => discriminate H
  | H : ret _ _ = Ret (_, _) |- _ => unfold ret in H; ret_inv H
  | H : zoom _ _ _ _ = Ret (_, _) |- _ =>
      let t := fresh "t" in let H1 := fresh "Hrun" in let E := fresh "E" in
      apply zoom_ret in H as (t & H1 & E); symmetry in E; subst_rhs E
  end.
Ltac go_inv := repeat (go_inv_step; cbn beta iota in * ).

(** ** Errors

    Go functions return an [error] beside their result; only whether it is nil
    and which message was built matters, so an error is its format string. *)
Abbreviation error := string (only parsing).

(** ** Generic lemmas *)

(** In a finite set, the elements below a bound that shrinks to one of them
    shrink strictly: the measure of every "walk to a lower level" loop. *)
Definition below (X : gset Z) (l : Z) : gset Z := filter (fun k => k < l) X.

Lemma below_shrink (X : gset Z) (k l : Z) :
  k ∈ X -> k < l -> (size (below X k) < size (below X l))%nat.
Proof.
  intros Hk Hl. apply subset_size. split.
  - intros x. unfold below. rewrite !elem_of_filter. intros [??]. split; [lia | done].
  - intros H. specialize (H k). unfold below in H. rewrite !elem_of_filter in H.
    destruct (H (conj Hl Hk)). lia.
Qed.

Lemma below_size (X : gset Z) (l : Z) : (size (below X l) <= size X)%nat.
Proof. apply subseteq_size. unfold below. intros x [_ ?]%elem_of_filter. done. Qed.

(** The total of a weight over a finite map. *)
Section msum.
Context {K V : Type} `{Countable K} (f : V -> nat).

Definition msum (m : gmap K V) : nat := map_fold (fun _ v acc => (f v + acc)%nat) 0%nat m.

Lemma msum_insert m k v : m !! k = None -> msum (<[k := v]> m) = (f v + msum m)%nat.
Proof. intros Hk. unfold msum. rewrite map_fold_insert_L; [done | | done]. intros. lia. Qed.

Lemma msum_update m k v v' :
  m !! k = Some v -> (msum (<[k := v']> m) + f v = msum m + f v')%nat.
Proof.
  intros Hk. rewrite <- (insert_delete_id m k v Hk) at 2.
  rewrite <- (insert_delete_eq m k v').
  rewrite !msum_insert by apply lookup_delete_eq. lia.
Qed.

Lemma msum_zero m : (forall k v, m !! k = Some v -> f v = 0%nat) -> msum m = 0%nat.
Proof.
  induction m as [|k v m Hk IH] using map_ind; intros H0; [done|].
  rewrite msum_insert by done. rewrite (H0 k v) by apply lookup_insert_eq. apply IH.
  intros k' v' E. apply (H0 k'). rewrite lookup_insert_ne; [done|]. intros <-. congruence.
Qed.

(** A map in which two entries have weight one has a total of at least two. *)
Lemma msum_two m k1 k2 v1 v2 :
  m !! k1 = Some v1 -> m !! k2 = Some v2 -> k1 <> k2 -> (f v1 + f v2 <= msum m)%nat.
Proof.
  intros H1 H2 Hne. rewrite <- (insert_delete_id m k1 v1 H1).
  rewrite <- (insert_delete_id (delete k1 m) k2 v2) by (by rewrite lookup_delete_ne).
  rewrite msum_insert, msum_insert; [lia | apply lookup_delete_eq |].
  rewrite lookup_insert_ne by congruence. rewrite lookup_delete_ne by congruence. apply lookup_delete_eq.
Qed.
End msum.

(** [goes_round R a]: from [a] the relation leads into a cycle. *)
Definition goes_round {A} (R : relation A) (a : A) : Prop := exists c, rtc R a c /\ tc R c c.

Lemma goes_round_mono {A} (R R' : relation A) a : (forall x y, R x y -> R' x y) -> goes_round R a -> goes_round R' a.
Proof.
  intros HR (c & H1 & H2). exists c.
  split; [by apply (rtc_congruence (fun x => x) R') in H1 | by apply (tc_congruence (fun x => x) R') in H2].
Qed.

(** A deterministic walk inside a finite set: once it is longer than the set it
    has entered a cycle and never ends. *)
Section walk.
Context {A : Type} `{Countable A} (next : A -> option A).

Fixpoint walks (n : nat) (a : A) : Prop :=
  match n with
  | O => True
  | S n' => exists b, next a = Some b /\ walks n' b
  end.

Lemma walks_weaken m n a : (m <= n)%nat -> walks n a -> walks m a.
Proof.
  revert m a. induction n as [|n IH]; intros [|m] a Hle; simpl; try done; [lia|].
  intros (b & ? & ?). exists b. split; [done|]. apply IH; [lia|done].
Qed.

(** The walk as a relation, and the places where it goes round for ever. *)
Definition walk_link (a b : A) : Prop := next a = Some b.
Definition walk_loops (a : A) : Prop := goes_round walk_link a.

Fixpoint trail (n : nat) (a : A) : list A :=
  match n with
  | O => []
  | S n' => a :: from_option (trail n') [] (next a)
  end.

Lemma trail_length n : forall a, walks n a -> length (trail n a) = n.
Proof.
  induction n as [|n IH]; intros a; simpl; [done|]. intros (b & Hb & Hn). rewrite Hb. simpl. by rewrite IH.
Qed.
Lemma trail_in (X : gset A) n : (forall a b, next a = Some b -> a ∈ X) ->
  forall a, walks n a -> forall x, x ∈ trail n a -> x ∈ X.
Proof.
  intros HX. induction n as [|n IH]; intros a; simpl; [intros _ x []%elem_of_nil|].
  intros (b & Hb & Hn) x. rewrite Hb. simpl. intros [->|Hx]%elem_of_cons; [by eapply HX | by eapply IH].
Qed.
Lemma trail_reaches n : forall a x, x ∈ trail n a -> rtc walk_link a x.
Proof.
  induction n as [|n IH]; intros a x; simpl; [by intros []%elem_of_nil|].
  intros [->|Hx]%elem_of_cons; [done|]. destruct (next a) as [b|] eqn:Hb; simpl in Hx; [|by apply elem_of_nil in Hx].
  eapply rtc_l; [exact Hb | by apply IH].
Qed.
(** A trail that meets a place twice. *)
Lemma trail_dup n : forall a, ~ NoDup (trail n a) -> walk_loops a.
Proof.
  induction n as [|n IH]; intros a; simpl; [intros []; constructor|]. intros Hdup.
  destruct (next a) as [b|] eqn:Hb; simpl in Hdup; [|by destruct Hdup; apply NoDup_singleton].
  destruct (decide (a ∈ trail n b)) as [Hin|Hout].
  - exists a. split; [done|]. eapply tc_rtc_r; [by apply tc_once | by apply (trail_reaches n)].
  - destruct (IH b) as (c & Hc & Hcc).
    { intros Hnd. apply Hdup. by constructor. }
    exists c. split; [by eapply rtc_l|done].
Qed.

(** More steps than places: the walk has met one of them twice. *)
Lemma walks_loops (X : gset A) a :
  (forall a b, next a = Some b -> a ∈ X) -> walks (S (size X)) a -> walk_loops a.
Proof.
  intros HX Ha. apply (trail_dup (S (size X))). intros Hnd.
  pose proof (size_list_to_set (C := gset A) _ Hnd) as Hs. rewrite trail_length in Hs by done.
  assert (list_to_set (trail (S (size X)) a) ⊆ X) as Hsub%subseteq_size; [|lia].
  intros x Hx%elem_of_list_to_set. by eapply trail_in.
Qed.

Lemma loops_walks a : walk_loops a -> forall n, walks n a.
Proof.
  intros (c & Hac & Hcc). assert (Hc : forall n x, tc walk_link x c -> walks n x).
  { induction n as [|n IH]; intros x Hx; [done|].
    inversion Hx as [? ? Hl|? y ? Hl Hy]; subst; (eexists; split; [exact Hl | by apply IH]). }
  induction Hac as [x|x y z Hl Hyz IH]; [intros n; by apply Hc|].
  intros [|n]; [done|]. exists y. split; [done|]. by apply IH.
Qed.

Lemma walks_forever (X : gset A) a :
  (forall a b, next a = Some b -> a ∈ X) -> walks (S (size X)) a -> forall n, walks n a.
Proof. intros HX Ha. by eapply loops_walks, walks_loops. Qed.
End walk.
