(* ===== verification/Channel.v ===== *)
(** * Go channels

    Buffered channels as the transports and the node use them: a bounded FIFO
    with a closed flag.  Sending on a full channel and receiving from an empty open
    one block, which is the answer [None]; sending on a closed channel and closing
    twice panic.  [ch_in] and [ch_out] are history: everything ever sent and ever
    received, which no operation reads. *)

From stdpp Require Import base list numbers.
From S2P Require Import Prelude.

Local Open Scope Z_scope.

Record chan (X : Type) := mkChan {
  ch_buf : list X;
  ch_cap : Z;
  ch_closed : bool;
  ch_in : list X;
  ch_out : list X }.
Arguments mkChan {X} ch_buf ch_cap ch_closed ch_in ch_out.
Arguments ch_buf {X} c.
Arguments ch_cap {X} c.
Arguments ch_closed {X} c.
Arguments ch_in {X} c.
Arguments ch_out {X} c.

Section chan.
Context {X : Type}.

Definition make_chan (cap : Z) : chan X := mkChan [] cap false [] [].

(** [c <- x]. *)
Definition ch_send (x : X) (c : chan X) : outcome (option (chan X)) :=
  if ch_closed c then Panic
  else if Z.of_nat (length (ch_buf c)) <? ch_cap c
  then Ret (Some (mkChan (ch_buf c ++ [x]) (ch_cap c) false (ch_in c ++ [x]) (ch_out c)))
  else Ret None.

(** [x, ok := <-c]: [None] inside is the answer of a closed, drained channel. *)
Definition ch_recv (c : chan X) : option (option X * chan X) :=
  match ch_buf c with
  | x :: rest => Some (Some x, mkChan rest (ch_cap c) (ch_closed c) (ch_in c) (ch_out c ++ [x]))
  | [] => if ch_closed c then Some (None, c) else None
  end.

Definition ch_close (c : chan X) : outcome (chan X) :=
  if ch_closed c then Panic else Ret (mkChan (ch_buf c) (ch_cap c) true (ch_in c) (ch_out c)).

(** A buffered channel is a queue: what came in is what went out followed by
    what waits. *)
Definition chan_wf (c : chan X) : Prop :=
  ch_in c = ch_out c ++ ch_buf c /\ Z.of_nat (length (ch_buf c)) <= ch_cap c /\ 0 < ch_cap c.

Lemma make_chan_wf cap : 0 < cap -> chan_wf (make_chan cap).
Proof. intros ?. unfold chan_wf. split_and!; simpl; [done | lia..]. Qed.

Lemma ch_send_inv x c c' :
  ch_send x c = Ret (Some c') ->
  ch_closed c = false /\ ch_buf c' = ch_buf c ++ [x] /\ ch_cap c' = ch_cap c /\ ch_closed c' = false /\
  ch_in c' = ch_in c ++ [x] /\ ch_out c' = ch_out c /\ Z.of_nat (length (ch_buf c)) < ch_cap c.
Proof.
  unfold ch_send. destruct (ch_closed c); [done|].
  destruct (Z.ltb_spec (Z.of_nat (length (ch_buf c))) (ch_cap c)); [|done].
  intros [= <-]. by split_and!.
Qed.

Lemma ch_recv_inv x c c' :
  ch_recv c = Some (Some x, c') ->
  ch_buf c = x :: ch_buf c' /\ ch_cap c' = ch_cap c /\ ch_closed c' = ch_closed c /\
  ch_in c' = ch_in c /\ ch_out c' = ch_out c ++ [x].
Proof.
  unfold ch_recv. destruct (ch_buf c); [by destruct (ch_closed c)|]. intros [= <- <-]. by split_and!.
Qed.

Lemma ch_send_wf x c c' : ch_send x c = Ret (Some c') -> chan_wf c -> chan_wf c'.
Proof.
  intros (_ & Hb & Hc & _ & Hi & Ho & Hlt)%ch_send_inv (H1 & H2 & H3). unfold chan_wf.
  rewrite Hb, Hc, Hi, Ho, H1, length_app, app_assoc. simpl. split_and!; [done | lia..].
Qed.

Lemma ch_recv_wf r c c' : ch_recv c = Some (r, c') -> chan_wf c -> chan_wf c'.
Proof.
  destruct r as [x|].
  - intros (Hb & Hc & _ & Hi & Ho)%ch_recv_inv (H1 & H2 & H3). unfold chan_wf.
    rewrite Hb in H1, H2. rewrite Hc, Hi, Ho, H1, <- app_assoc. simpl in *. split_and!; [done | lia..].
  - unfold ch_recv. destruct (ch_buf c); [|done]. destruct (ch_closed c); [|done]. by intros [= <-].
Qed.

Lemma ch_close_wf c c' : ch_close c = Ret c' -> chan_wf c -> chan_wf c'.
Proof. unfold ch_close. destruct (ch_closed c); [done|]. by intros [= <-]. Qed.

(** An empty open channel with room accepts, and an open channel blocks its
    receiver exactly when it is empty. *)
Lemma ch_send_room x c :
  ch_closed c = false -> Z.of_nat (length (ch_buf c)) < ch_cap c -> exists c', ch_send x c = Ret (Some c').
Proof.
  intros Hc Hl. unfold ch_send. rewrite Hc. destruct (Z.ltb_spec (Z.of_nat (length (ch_buf c))) (ch_cap c)); [eauto | lia].
Qed.

Lemma ch_recv_none c : ch_recv c = None -> ch_buf c = [].
Proof. unfold ch_recv. by destruct (ch_buf c). Qed.

Lemma ch_recv_open c : ch_closed c = false -> ch_recv c = None \/ exists x c', ch_recv c = Some (Some x, c').
Proof. intros Hc. unfold ch_recv. rewrite Hc. destruct (ch_buf c); eauto. Qed.

(** Received in order: the outgoing history is a prefix of the incoming one. *)
Lemma chan_fifo c : chan_wf c -> ch_out c `prefix_of` ch_in c.
Proof. intros (-> & _). by eexists. Qed.
End chan.

#[export] Hint Resolve make_chan_wf ch_send_wf ch_recv_wf ch_close_wf : bamboo.
