(* ===== verification/Identity.v ===== *)
(** * Node identities (identity/identity.go)

    A [NodeID] is a string; [NewNodeID] prints a number and [Node] parses it
    back.  The first section models the two functions of Go's [strconv] the
    repository uses ([Itoa], [ParseUint] in base 10 at 64 bits) and
    [big.Int]'s decimal printing and parsing, which crypto/ecdsa.go uses for
    signatures.  The main results are the round trip [Node (NewNodeID n) = n]
    on the whole positive [int] range and the exact set of values it fails on. *)

From Stdlib Require Import Ascii String.
From stdpp Require Import base countable strings numbers list.
From S2P Require Import Prelude.

Local Open Scope Z_scope.

(** ** strconv and math/big *)
Module Strconv.

Definition digit_char (d : Z) : ascii := ascii_of_N (Z.to_N (48 + d)).
Definition char_digit (c : ascii) : option Z :=
  let n := Z.of_N (N_of_ascii c) in
  if bool_decide (48 <= n <= 57) then Some (n - 48) else None.

(** Decimal digits of a non-negative number in front of [acc]; the fuel is the
    number of bits, more than the number of digits. *)
Fixpoint fmt_digits (fuel : nat) (n : Z) (acc : string) : string :=
  match fuel with
  | O => acc
  | S fuel' =>
      if n <? 10 then String (digit_char n) acc
      else fmt_digits fuel' (n / 10) (String (digit_char (n mod 10)) acc)
  end.
Definition fmt_nonneg (n : Z) : string := fmt_digits (S (Z.to_nat (Z.log2 n))) n EmptyString.

(** [big.Int.String] and, on an [int], [strconv.Itoa]. *)
Definition big_String (n : Z) : string :=
  if n <? 0 then String "-" (fmt_nonneg (- n)) else fmt_nonneg n.
Definition Itoa (n : Z) : string := big_String n.

(** The loop of [strconv.ParseUint(s, 10, 64)]: a non-digit is a syntax error,
    a product or sum past [2^64 - 1] a range error. *)
Definition cutoff : Z := (two64 - 1) / 10 + 1.
Fixpoint parse_loop (n : Z) (s : string) : option Z :=
  match s with
  | EmptyString => Some n
  | String c s' =>
      match char_digit c with
      | None => None
      | Some d =>
          if cutoff <=? n then None
          else let n1 := n * 10 + d in
               if two64 - 1 <? n1 then None else parse_loop n1 s'
      end
  end.
Definition ParseUint (s : string) : option Z :=
  match s with EmptyString => None | _ => parse_loop 0 s end.

(** [big.Int.SetString(s, 10)] on the unsigned digits, and with its sign. *)
Fixpoint big_loop (n : Z) (s : string) : option Z :=
  match s with
  | EmptyString => Some n
  | String c s' =>
      match char_digit c with None => None | Some d => big_loop (n * 10 + d) s' end
  end.
Definition big_unsigned (s : string) : option Z :=
  match s with EmptyString => None | _ => big_loop 0 s end.
Definition big_SetString (s : string) : option Z :=
  match s with
  | String c s' =>
      if decide (c = "-"%char) then Z.opp <$> big_unsigned s'
      else if decide (c = "+"%char) then big_unsigned s'
      else big_unsigned s
  | EmptyString => None
  end.

Lemma digit_code d : 0 <= d < 10 -> Z.of_N (N_of_ascii (digit_char d)) = 48 + d.
Proof.
  intros H. unfold digit_char. rewrite N_ascii_embedding by lia. lia.
Qed.

Lemma char_digit_char d : 0 <= d < 10 -> char_digit (digit_char d) = Some d.
Proof.
  intros H. unfold char_digit. rewrite digit_code by done.
  rewrite bool_decide_eq_true_2 by lia. f_equal. lia.
Qed.

Lemma digit_char_not d c : 0 <= d < 10 -> char_digit c = None -> digit_char d <> c.
Proof. intros H Hc <-. rewrite char_digit_char in Hc; [done | lia]. Qed.

(** Both parsers undo the printer; they differ only in the range check. *)
Section round_trip.
Variable step : Z -> string -> option Z.
Variable limit : Z -> Prop.
Hypothesis limit_down : forall n, 0 <= n -> limit n -> limit (n / 10).
Hypothesis step_digit : forall n d s,
  0 <= n -> 0 <= d < 10 -> limit (n * 10 + d) ->
  step n (String (digit_char d) s) = step (n * 10 + d) s.

Lemma fmt_digits_parse fuel n acc :
  0 <= n < 2 ^ Z.of_nat fuel -> (0 < fuel)%nat -> limit n ->
  step 0 (fmt_digits fuel n acc) = step n acc.
Proof.
  revert n acc. induction fuel as [|fuel IH]; intros n acc Hn Hf Hl; [lia|]. simpl.
  destruct (Z.ltb_spec n 10) as [H10|H10].
  - rewrite step_digit by (simpl; auto with lia). f_equal.
  - rewrite Nat2Z.inj_succ, Z.pow_succ_r in Hn by lia.
    assert (n / 10 < 2 ^ Z.of_nat fuel) by (apply Z.div_lt_upper_bound; lia).
    assert (0 < n / 10) by (apply Z.div_str_pos; lia).
    pose proof (Z.mod_pos_bound n 10 ltac:(lia)).
    pose proof (Z.div_mod n 10 ltac:(lia)).
    rewrite IH; [| lia | destruct fuel; simpl in *; lia | auto with lia].
    rewrite step_digit; [f_equal; lia | lia | lia |].
    by replace (n / 10 * 10 + n mod 10) with n by lia.
Qed.

Lemma fmt_nonneg_parse n : 0 <= n -> limit n -> step 0 (fmt_nonneg n) = step n EmptyString.
Proof.
  intros Hn Hl. unfold fmt_nonneg. apply fmt_digits_parse; [|lia|done].
  split; [done|]. rewrite Nat2Z.inj_succ, Z2Nat.id by apply Z.log2_nonneg.
  destruct (decide (n = 0)) as [->|]; [done|]. apply Z.log2_spec. lia.
Qed.
End round_trip.

Lemma fmt_digits_head fuel n acc :
  0 <= n -> (0 < fuel)%nat -> exists d s, 0 <= d < 10 /\ fmt_digits fuel n acc = String (digit_char d) s.
Proof.
  revert n acc. induction fuel as [|fuel IH]; intros n acc Hn Hf; [lia|]. simpl.
  destruct (Z.ltb_spec n 10); [by exists n, acc|].
  destruct fuel as [|fuel].
  - simpl. exists (n mod 10), acc. split; [apply Z.mod_pos_bound; lia|done].
  - apply IH; [apply Z.div_pos; lia | lia].
Qed.

Lemma fmt_nonneg_head n : 0 <= n -> exists d s, 0 <= d < 10 /\ fmt_nonneg n = String (digit_char d) s.
Proof. intros Hn. apply fmt_digits_head; [done | lia]. Qed.

Lemma ParseUint_fmt n : is_u64 n -> ParseUint (fmt_nonneg n) = Some n.
Proof.
  unfold is_u64. intros Hn. unfold ParseUint.
  destruct (fmt_nonneg_head n ltac:(lia)) as (d & s & Hd & E). rewrite E, <- E.
  rewrite (fmt_nonneg_parse parse_loop (fun k => k < two64)); [done | .. | lia | lia].
  - intros k Hk ?. pose proof (Z.div_le_upper_bound k 10 k). lia.
  - intros k e t Hk He Hlim. cbv beta in Hlim. simpl. rewrite char_digit_char by done.
    unfold cutoff, two64 in *.
    change ((18446744073709551616 - 1) / 10 + 1) with 1844674407370955162.
    destruct (Z.leb_spec 1844674407370955162 k); [exfalso; lia|].
    destruct (Z.ltb_spec (18446744073709551616 - 1) (k * 10 + e)); [lia | done].
Qed.

Lemma big_unsigned_fmt n : 0 <= n -> big_unsigned (fmt_nonneg n) = Some n.
Proof.
  intros Hn. unfold big_unsigned.
  destruct (fmt_nonneg_head n ltac:(lia)) as (d & s & Hd & E). rewrite E, <- E.
  rewrite (fmt_nonneg_parse big_loop (fun _ => True)); [done | done | | lia | done].
  intros k e t Hk He _. simpl. by rewrite char_digit_char.
Qed.

Lemma big_SetString_String n : big_SetString (big_String n) = Some n.
Proof.
  unfold big_String. destruct (Z.ltb_spec n 0) as [H|H].
  - unfold big_SetString. rewrite decide_True by done. rewrite big_unsigned_fmt by lia. simpl. f_equal. lia.
  - pose proof (big_unsigned_fmt n H) as E.
    destruct (fmt_nonneg_head n H) as (d & s & Hd & E'). rewrite E' in *.
    unfold big_SetString. by rewrite !decide_False by (by apply digit_char_not).
Qed.

Lemma ParseUint_minus s : ParseUint (String "-" s) = None.
Proof. reflexivity. Qed.
(** [strconv.ParseInt(s, 10, 64)], which is also [Atoi] on a 64-bit [int]: the
    value and the error, since callers that drop the error use the value.  A
    syntax error gives 0, a range error the nearest [int64]. *)
Inductive NumError := ErrSyntax | ErrRange.
Fixpoint uint_loop (n : Z) (s : string) : NumError + Z :=
  match s with
  | EmptyString => inr n
  | String c s' =>
      match char_digit c with
      | None => inl ErrSyntax
      | Some d =>
          if cutoff <=? n then inl ErrRange
          else let n1 := n * 10 + d in
               if two64 - 1 <? n1 then inl ErrRange else uint_loop n1 s'
      end
  end.
Definition int_unsigned (neg : bool) (s : string) : Z * option NumError :=
  match (match s with EmptyString => inl ErrSyntax | _ => uint_loop 0 s end) with
  | inl ErrSyntax => (0, Some ErrSyntax)
  | inl ErrRange => (if neg then - two63 else two63 - 1, Some ErrRange)
  | inr un =>
      if negb neg && (two63 <=? un) then (two63 - 1, Some ErrRange)
      else if neg && (two63 <? un) then (- two63, Some ErrRange)
      else (if neg then - un else un, None)
  end.
Definition ParseInt (s : string) : Z * option NumError :=
  match s with
  | String c s' =>
      if decide (c = "-"%char) then int_unsigned true s'
      else if decide (c = "+"%char) then int_unsigned false s'
      else int_unsigned false s
  | EmptyString => (0, Some ErrSyntax)
  end.
Definition Atoi (s : string) : Z * option NumError := ParseInt s.

Lemma uint_loop_parse n s : match uint_loop n s with inr v => Some v | inl _ => None end = parse_loop n s.
Proof.
  revert n. induction s as [|c s IH]; intros n; simpl; [done|].
  destruct (char_digit c); [|done]. destruct (cutoff <=? n); [done|].
  destruct (two64 - 1 <? n * 10 + z); [done | apply IH].
Qed.

Lemma uint_loop_ok n s v : parse_loop n s = Some v -> uint_loop n s = inr v.
Proof. rewrite <- uint_loop_parse. destruct (uint_loop n s); [done|]. by intros [= ->]. Qed.

Lemma int_unsigned_fmt (neg : bool) n :
  0 <= n -> (if neg then n <= two63 else n < two63) -> int_unsigned neg (fmt_nonneg n) = (if neg then - n else n, None).
Proof.
  intros Hn Hlim.
  assert (is_u64 n) as Hu by (unfold is_u64, two63, two64 in *; destruct neg; lia).
  pose proof (ParseUint_fmt n Hu) as E. unfold ParseUint in E. unfold int_unsigned.
  destruct (fmt_nonneg n) as [|c s] eqn:Es; [done|]. apply uint_loop_ok in E. rewrite E.
  destruct neg; simpl.
  - by destruct (Z.ltb_spec two63 n); [lia|].
  - by destruct (Z.leb_spec two63 n); [lia|].
Qed.

Lemma Atoi_Itoa n : is_i64 n -> Atoi (Itoa n) = (n, None).
Proof.
  unfold is_i64. intros Hn. unfold Itoa, big_String, Atoi. destruct (Z.ltb_spec n 0) as [H|H].
  - unfold ParseInt. rewrite decide_True by done. rewrite int_unsigned_fmt by (simpl; lia). f_equal. lia.
  - pose proof (int_unsigned_fmt false n H ltac:(simpl; lia)) as E.
    destruct (fmt_nonneg_head n H) as (d & s & Hd & E'). rewrite E' in *.
    unfold ParseInt. by rewrite !decide_False by (by apply digit_char_not).
Qed.

Lemma Itoa_inj a b : Itoa a = Itoa b -> a = b.
Proof.
  unfold Itoa. intros E. apply (f_equal big_SetString) in E. rewrite !big_SetString_String in E. congruence.
Qed.
(** [hex.EncodeToString]: two lower-case digits per byte. *)
Definition hex_digit (d : Z) : string :=
  String (ascii_of_N (Z.to_N (if d <? 10 then d + 48 else d + 87))) EmptyString.
Fixpoint hex_bytes (l : list Z) : string :=
  match l with [] => "" | b :: r => hex_digit (b / 16) +:+ hex_digit (b mod 16) +:+ hex_bytes r end.
End Strconv.

(** ** NodeID *)

Definition NodeID : Type := string.
#[global] Instance NodeID_eq_dec : EqDecision NodeID := _.
#[global] Instance NodeID_countable : Countable NodeID := _.

(** [NewNodeID]: [-node] is Go's wrapping negation, so the least [int] stays
    negative. *)
Definition NewNodeID (node : Z) : NodeID :=
  let node := if node <? 0 then i64 (- node) else node in
  Strconv.Itoa node.

(** [NodeID.Node]: a parse error is logged and read as 0; the conversion
    [int(node)] wraps. *)
Definition Node (i : NodeID) : Z :=
  match Strconv.ParseUint i with
  | None => 0
  | Some node => i64 node
  end.

Lemma Node_NewNodeID_nonneg n : 0 <= n < two63 -> Node (NewNodeID n) = n.
Proof.
  intros H. unfold Node, NewNodeID, Strconv.Itoa, Strconv.big_String.
  destruct (Z.ltb_spec n 0); [lia|]. destruct (Z.ltb_spec n 0); [lia|].
  rewrite Strconv.ParseUint_fmt by (unfold is_u64, two63, two64 in *; lia).
  apply i64_id. unfold is_i64, two63 in *. lia.
Qed.

(** Printing a node number and parsing it back gives its absolute value,
    for every Go [int] except the least one, which [NewNodeID] cannot negate:
    its identity parses to 0. *)
Theorem Node_NewNodeID n :
  is_i64 n -> Node (NewNodeID n) = if bool_decide (n = - two63) then 0 else Z.abs n.
Proof.
  intros Hn. case_bool_decide as E.
  - subst n. vm_compute. reflexivity.
  - destruct (Z.lt_ge_cases n 0) as [Hlt|Hge].
    + replace (NewNodeID n) with (NewNodeID (- n)).
      * rewrite Node_NewNodeID_nonneg; unfold is_i64 in Hn; lia.
      * unfold NewNodeID. destruct (Z.ltb_spec n 0); [|lia].
        destruct (Z.ltb_spec (- n) 0); [lia|]. rewrite i64_id; [done|].
        unfold is_i64 in *. lia.
    + rewrite Node_NewNodeID_nonneg; unfold is_i64 in Hn; lia.
Qed.

Lemma Node_NewNodeID_witness : is_i64 (-42) /\ Node (NewNodeID (-42)) = 42.
Proof.
  split; [unfold is_i64, two63; lia|].
  rewrite (Node_NewNodeID (-42)) by (unfold is_i64, two63; lia). reflexivity.
Defined.

Lemma NewNodeID_inj a b :
  0 <= a < two63 -> 0 <= b < two63 -> NewNodeID a = NewNodeID b -> a = b.
Proof. intros Ha Hb E. rewrite <- (Node_NewNodeID_nonneg a), <- (Node_NewNodeID_nonneg b), E; done. Qed.
