(* ===== verification/Url.v ===== *)
(** * Addresses (net/url as the transports and the HTTP server use it)

    [url_Parse] follows url.Parse on addresses without percent escapes, user
    information or bracketed hosts; what it does on those is the parameter
    [exotic].  Only the scheme and the host of the result are used, and the port of
    the host.  The main result: the addresses the configuration builds parse to the
    scheme, host and port they were built from. *)

From Stdlib Require Import Ascii String.
From stdpp Require Import base sets strings numbers list.
From S2P Require Import Prelude.
From S2P Require Import Identity.

Local Open Scope Z_scope.

Definition code (c : ascii) : Z := Z.of_N (N_of_ascii c).
Definition between (lo hi : Z) (c : ascii) : bool := (lo <=? code c) && (code c <=? hi).
Definition is_lower : ascii -> bool := between 97 122.
Definition is_upper : ascii -> bool := between 65 90.
Definition is_letter (c : ascii) : bool := is_lower c || is_upper c.
Definition is_digit : ascii -> bool := between 48 57.
Definition ToLower (c : ascii) : ascii := if is_upper c then ascii_of_N (N_of_ascii c + 32) else c.
Definition ToUpper (c : ascii) : ascii := if is_lower c then ascii_of_N (N_of_ascii c - 32) else c.

Definition chars : string -> list ascii := list_ascii_of_string.
Definition str : list ascii -> string := string_of_list_ascii.
Definition newline : string := String (ascii_of_N 10) "".

(** [strings.Cut] at a character, and the split at its last occurrence. *)
Fixpoint cut (c : ascii) (l : list ascii) : list ascii * option (list ascii) :=
  match l with
  | [] => ([], None)
  | x :: r => if decide (x = c) then ([], Some r) else let '(a, b) := cut c r in (x :: a, b)
  end.
Fixpoint rcut (c : ascii) (l : list ascii) : option (list ascii * list ascii) :=
  match l with
  | [] => None
  | x :: r =>
      match rcut c r with
      | Some (a, b) => Some (x :: a, b)
      | None => if decide (x = c) then Some ([], r) else None
      end
  end.

(** [strings.HasPrefix] and [strings.Contains]. *)
Fixpoint HasPrefix (p l : list ascii) : bool :=
  match p, l with
  | [], _ => true
  | x :: p', y :: l' => bool_decide (x = y) && HasPrefix p' l'
  | _ :: _, [] => false
  end.
Fixpoint Contains (p l : list ascii) : bool :=
  HasPrefix p l || match l with [] => false | _ :: l' => Contains p l' end.

(** ** url.Parse *)

Record URL := mkURL { u_Scheme : string; u_Host : string }.
#[global] Instance URL_eq_dec : EqDecision URL.
Proof. solve_decision. Defined.

(** [getScheme]: [None] is the error of a missing scheme. *)
Fixpoint get_scheme (raw acc l : list ascii) : option (list ascii * list ascii) :=
  match l with
  | [] => Some ([], raw)
  | c :: r =>
      if is_letter c then get_scheme raw (acc ++ [c]) r
      else if is_digit c || bool_decide (c ∈ chars "+-.") then
        match acc with [] => Some ([], raw) | _ => get_scheme raw (acc ++ [c]) r end
      else if decide (c = ":"%char) then match acc with [] => None | _ => Some (acc, r) end
      else Some ([], raw)
  end.

(** [validOptionalPort] on what follows the last colon. *)
Definition valid_port (l : list ascii) : bool := forallb is_digit l.

(** The ASCII characters a host may hold unescaped. *)
Definition host_char (c : ascii) : bool :=
  (128 <=? code c) || is_letter c || is_digit c ||
  bool_decide (c ∈ (ascii_of_N 34 :: chars "-_.~!$&'()*+,;=:[]<>")).

Definition parse_host (authority : list ascii) : option string :=
  match rcut ":" authority with
  | Some (_, port) =>
      if valid_port port && forallb host_char authority then Some (str authority) else None
  | None => if forallb host_char authority then Some (str authority) else None
  end.

Section parse.
(** What url.Parse answers on addresses with escapes, user information or
    brackets. *)
Context (exotic : string -> option URL).

Definition parse_plain (raw : list ascii) : option URL :=
  let u := fst (cut "#" raw) in
  if existsb (fun c => (code c <? 32) || (code c =? 127)) u then None
  else if bool_decide (u = chars "*") then Some (mkURL "" "")
  else
    match get_scheme u [] u with
    | None => None
    | Some (scheme, rest) =>
        let scheme := ToLower <$> scheme in
        let rest := fst (cut "?" rest) in
        if negb (HasPrefix (chars "/") rest) && negb (bool_decide (scheme = [])) then
          Some (mkURL (str scheme) "")
        else if negb (HasPrefix (chars "/") rest) && Contains (chars ":") (fst (cut "/" rest)) then None
        else if (negb (bool_decide (scheme = [])) || negb (HasPrefix (chars "///") rest)) &&
                HasPrefix (chars "//") rest then
          match parse_host (fst (cut "/" (drop 2 rest))) with
          | Some host => Some (mkURL (str scheme) host)
          | None => None
          end
        else Some (mkURL (str scheme) "")
    end.

Definition url_Parse (addr : string) : option URL :=
  let raw := chars addr in
  if existsb (fun c => bool_decide (c ∈ chars "%@[")) raw then exotic addr else parse_plain raw.
End parse.

(** [URL.Port]: the digits after the last colon of the host. *)
Definition u_Port (u : URL) : string :=
  match rcut ":" (chars (u_Host u)) with
  | Some (_, port) => if valid_port port then str port else ""
  | None => ""
  end.

(** ** Properties *)

Lemma chars_app a b : chars (a +:+ b) = chars a ++ chars b.
Proof. unfold chars. induction a as [|x a IH]; simpl; [done|]. by f_equal. Qed.

Lemma str_app a b : str (a ++ b) = (str a +:+ str b)%string.
Proof. unfold str. induction a as [|x a IH]; simpl; [done|]. by rewrite IH. Qed.

Lemma chars_str l : chars (str l) = l.
Proof. apply list_ascii_of_string_of_list_ascii. Qed.
Lemma str_chars s : str (chars s) = s.
Proof. apply string_of_list_ascii_of_string. Qed.

Lemma cut_notin c l : c ∉ l -> cut c l = (l, None).
Proof.
  induction l as [|x l IH]; simpl; [done|]. intros [? ?]%not_elem_of_cons.
  rewrite decide_False by done. by rewrite IH.
Qed.

Lemma cut_app c a b : c ∉ a -> cut c (a ++ c :: b) = (a, Some b).
Proof.
  induction a as [|x a IH]; simpl; [by rewrite decide_True|]. intros [? ?]%not_elem_of_cons.
  rewrite decide_False by done. by rewrite IH.
Qed.

Lemma rcut_notin c l : c ∉ l -> rcut c l = None.
Proof.
  induction l as [|x l IH]; simpl; [done|]. intros [? ?]%not_elem_of_cons.
  rewrite IH by done. by rewrite decide_False.
Qed.

Lemma rcut_app c a b : c ∉ b -> rcut c (a ++ c :: b) = Some (a, b).
Proof.
  intros Hb. induction a as [|x a IH]; simpl; [|by rewrite IH].
  rewrite rcut_notin by done. by rewrite decide_True.
Qed.

Lemma Contains_app p a b : HasPrefix p b = true -> Contains p (a ++ b) = true.
Proof.
  intros H. induction a as [|x a IH].
  - simpl. by destruct b; simpl in *; rewrite H.
  - simpl. rewrite IH. by rewrite orb_true_r.
Qed.

(** Names of hosts and dotted addresses: letters, digits, dots and dashes. *)
Definition plain_char (c : ascii) : bool := is_letter c || is_digit c || bool_decide (c ∈ chars ".-").
Definition plain (s : string) : bool := forallb plain_char (chars s).

Lemma plain_not s c : plain s = true -> plain_char c = false -> c ∉ chars s.
Proof. unfold plain. rewrite forallb_forall. intros H Hc Hin%list_elem_of_In%H. congruence. Qed.

Lemma digit_is_digit d : 0 <= d < 10 -> is_digit (Strconv.digit_char d) = true.
Proof.
  intros H. unfold is_digit, between, code. rewrite Strconv.digit_code by done.
  apply andb_true_intro. split; apply Z.leb_le; lia.
Qed.

Lemma fmt_digits_all fuel : forall n acc,
  0 <= n -> forallb is_digit (chars acc) = true ->
  forallb is_digit (chars (Strconv.fmt_digits fuel n acc)) = true.
Proof.
  induction fuel as [|fuel IH]; intros n acc Hn Ha; simpl; [done|].
  destruct (Z.ltb_spec n 10); simpl.
  - by rewrite digit_is_digit by lia.
  - apply IH; [apply Z.div_pos; lia|]. simpl. rewrite digit_is_digit; [done|].
    pose proof (Z.mod_pos_bound n 10). lia.
Qed.

Lemma Itoa_digits n : 0 <= n -> forallb is_digit (chars (Strconv.Itoa n)) = true.
Proof.
  intros Hn. unfold Strconv.Itoa, Strconv.big_String. destruct (Z.ltb_spec n 0); [lia|].
  by apply fmt_digits_all.
Qed.

Lemma is_digit_plain s : forallb is_digit (chars s) = true -> plain s = true.
Proof.
  unfold plain. rewrite !forallb_forall. intros H c Hc. unfold plain_char.
  rewrite (H c Hc). by rewrite orb_true_r.
Qed.

Lemma plain_char_host c : plain_char c = true -> host_char c = true.
Proof.
  unfold plain_char. rewrite !orb_true_iff, bool_decide_eq_true. intros [[Hc|Hc]|Hc].
  - unfold host_char. rewrite Hc. by rewrite orb_true_r.
  - unfold host_char. rewrite Hc. by rewrite orb_true_r.
  - change (chars ".-") with ["."; "-"]%char in Hc. set_unfold. by destruct Hc as [->|[->|[]]].
Qed.

(** A plain host and a port of digits, joined by a colon. *)
Lemma parse_host_plain ip port :
  plain ip = true -> forallb is_digit (chars port) = true ->
  parse_host (chars (ip +:+ ":" +:+ port)) = Some (ip +:+ ":" +:+ port)%string.
Proof.
  intros Hip Hport. unfold parse_host. rewrite !chars_app. change (chars ":") with [":"%char]. simpl app.
  rewrite rcut_app by (apply plain_not; [by apply is_digit_plain | done]).
  unfold valid_port. rewrite Hport, forallb_app. simpl.
  assert (forallb host_char (chars ip) = true) as ->.
  { unfold plain in Hip. rewrite forallb_forall in *. intros c Hc. by apply plain_char_host, Hip. }
  assert (forallb host_char (chars port) = true) as ->.
  { apply is_digit_plain in Hport. unfold plain in Hport. rewrite forallb_forall in *.
    intros c Hc. by apply plain_char_host, Hport. }
  simpl. f_equal. rewrite str_app. simpl. by rewrite !str_chars.
Qed.

Lemma plain_ctl c : plain_char c = true -> ((code c <? 32) || (code c =? 127)) = false.
Proof.
  unfold plain_char, is_letter, is_lower, is_upper, is_digit, between.
  rewrite !orb_true_iff, bool_decide_eq_true. intros Hc. apply orb_false_iff.
  rewrite Z.ltb_ge, Z.eqb_neq.
  destruct Hc as [[[Hc|Hc]|Hc]|Hc]; [apply andb_prop in Hc as [?%Z.leb_le ?%Z.leb_le]; lia..|].
  change (chars ".-") with ["."; "-"]%char in Hc. set_unfold.
  by destruct Hc as [->|[->|[]]].
Qed.

Lemma existsb_none {A} (f : A -> bool) l : (forall x, x ∈ l -> f x = false) -> existsb f l = false.
Proof.
  intros H. induction l as [|x l IH]; simpl; [done|].
  rewrite H by left. apply IH. intros y Hy. apply H. by right.
Qed.

(** Host and port as one list of characters. *)
Lemma hostport_chars ip port c :
  plain ip = true -> plain port = true ->
  c ∈ chars (ip +:+ ":" +:+ port) -> c = ":"%char \/ plain_char c = true.
Proof.
  intros Hip Hport. unfold plain in *. rewrite forallb_forall in *.
  rewrite !chars_app, !elem_of_app. intros [Hc|[Hc|Hc]].
  - right. by apply Hip, list_elem_of_In.
  - left. by apply list_elem_of_singleton in Hc.
  - right. by apply Hport, list_elem_of_In.
Qed.

(** An address [scheme://ip:port] of a plain host parses to exactly these
    parts. *)
Lemma url_Parse_plain exotic scheme ip port :
  scheme = "tcp"%string \/ scheme = "udp"%string \/ scheme = "chan"%string \/ scheme = "http"%string ->
  plain ip = true -> forallb is_digit (chars port) = true ->
  url_Parse exotic (scheme +:+ "://" +:+ ip +:+ ":" +:+ port) = Some (mkURL scheme (ip +:+ ":" +:+ port)).
Proof.
  intros Hs Hip Hport. pose proof (is_digit_plain _ Hport) as Hpp.
  pose proof (parse_host_plain ip port Hip Hport) as Hhost.
  pose proof (fun c => hostport_chars ip port c Hip Hpp) as Hin.
  set (hp := (ip +:+ ":" +:+ port)%string) in *.
  assert (forall c, c <> ":"%char -> plain_char c = false -> c ∉ chars hp) as Hno.
  { intros c Hc Hp Hx. destruct (Hin c Hx); congruence. }
  assert (forall pre f, existsb f (chars (pre +:+ "://")) = false ->
            (forall c, f c = true -> c <> ":"%char /\ plain_char c = false) ->
            existsb f (chars (pre +:+ "://" +:+ hp)) = false) as Hex.
  { intros pre f Hpre Hf. rewrite !chars_app in *. rewrite existsb_app in Hpre |- *.
    apply orb_false_iff in Hpre as [-> Hpre]. rewrite existsb_app, Hpre. simpl.
    apply existsb_none. intros c Hc. destruct (f c) eqn:E; [|done]. apply Hf in E as [? ?].
    exfalso. by apply (Hno c). }
  unfold url_Parse. rewrite Hex; [| by destruct Hs as [->|[->|[->| ->]]] |].
  2:{ intros c Hc. apply bool_decide_eq_true in Hc. change (chars "%@[") with ["%"; "@"; "["]%char in Hc.
      set_unfold. by destruct Hc as [->|[->|[->|[]]]]. }
  unfold parse_plain. rewrite cut_notin.
  2:{ rewrite !chars_app, !not_elem_of_app. split_and!; [by destruct Hs as [->|[->|[->| ->]]]; compute_done | compute_done |].
      by apply Hno. }
  simpl fst. rewrite Hex; [| by destruct Hs as [->|[->|[->| ->]]] |].
  2:{ intros c Hc. split; [intros ->; by vm_compute in Hc|].
      destruct (plain_char c) eqn:E; [|done]. by rewrite plain_ctl in Hc. }
  assert (forall x : list ascii, chars (scheme +:+ "://" +:+ hp) <> chars "*") as Hstar
    by (intros _; by destruct Hs as [->|[->|[->| ->]]]).
  rewrite bool_decide_eq_false_2 by (apply Hstar; exact []).
  assert (get_scheme (chars (scheme +:+ "://" +:+ hp)) [] (chars (scheme +:+ "://" +:+ hp)) =
          Some (chars scheme, chars ("//" +:+ hp))) as -> by (by destruct Hs as [->|[->|[->| ->]]]).
  assert ("?"%char ∉ chars ("//" +:+ hp)) as Hq.
  { rewrite chars_app, not_elem_of_app. split; [compute_done | by apply Hno]. }
  rewrite (cut_notin _ _ Hq). cbn [fst].
  assert (ToLower <$> chars scheme = chars scheme) as -> by (by destruct Hs as [->|[->|[->| ->]]]).
  assert (bool_decide (chars scheme = []) = false) as -> by (by destruct Hs as [->|[->|[->| ->]]]).
  assert (HasPrefix (chars "/") (chars ("//" +:+ hp)) = true) as -> by done.
  assert (HasPrefix (chars "//") (chars ("//" +:+ hp)) = true) as -> by done.
  simpl negb. simpl andb. cbv iota. change (drop 2 (chars ("//" +:+ hp))) with (chars hp).
  rewrite cut_notin by (by apply Hno). cbn [fst]. by rewrite Hhost, str_chars.
Qed.

Lemma u_Port_plain scheme ip port :
  forallb is_digit (chars port) = true -> u_Port (mkURL scheme (ip +:+ ":" +:+ port)) = port.
Proof.
  intros Hport. unfold u_Port. simpl u_Host. rewrite !chars_app. change (chars ":") with [":"%char]. simpl app.
  rewrite rcut_app by (apply plain_not; [by apply is_digit_plain | done]).
  unfold valid_port. by rewrite Hport, str_chars.
Qed.
