(* ===== verification/Float.v ===== *)
(** * Floating-point numbers

    float64 is IEEE binary64 in the Standard Library's [spec_float], with its
    rounding.  The two verbs the program prints floats with: %f (six decimals) and
    %v, the shortest decimal that reads back as the same number, as
    strconv.FormatFloat(x, 'g', -1, 64) finds it. *)

From Stdlib Require Import Ascii String SpecFloat.
From stdpp Require Import base strings numbers list.
From S2P Require Import Prelude.
From S2P Require Import Identity.
From S2P Require Import Url.

Local Open Scope Z_scope.
Local Open Scope go_scope.

(** ** float64 *)
Abbreviation f64_add := (SFadd 53 1024).
Abbreviation f64_sub := (SFsub 53 1024).
Abbreviation f64_mul := (SFmul 53 1024).
Abbreviation f64_div := (SFdiv 53 1024).
(** [float64(n)] of an integer. *)
Definition f64_of_Z (n : Z) : spec_float := binary_normalize 53 1024 n 0 false.
(** [int(x)] of a float in range: truncation. *)
Definition f64_trunc (x : spec_float) : Z :=
  match x with
  | S754_finite s m e =>
      let v := if e <? 0 then Z.pos m / 2 ^ (- e) else Z.pos m * 2 ^ e in
      if s then - v else v
  | _ => 0
  end.

(** The verb %f: six decimals, the exact value rounded half to even. *)
Definition scaled (m : positive) (e : Z) : Z :=
  let n := Z.pos m * 1000000 in
  if 0 <=? e then n * 2 ^ e
  else
    let d := 2 ^ (- e) in
    let q := n / d in
    let r := n mod d in
    if (d <? 2 * r) || ((2 * r =? d) && Z.odd q) then q + 1 else q.
Fixpoint pad_zeros (k : nat) (s : string) : string :=
  match k with O => s | S k' => if (length (chars s) <? S k')%nat then String "0" (pad_zeros k' s) else s end.
Definition fmt_f (x : spec_float) : string :=
  match x with
  | S754_nan => "NaN"
  | S754_infinity s => if s then "-Inf" else "+Inf"
  | S754_zero s => if s then "-0.000000" else "0.000000"
  | S754_finite s m e =>
      let v := scaled m e in
      (if s then "-" else "") +:+ Strconv.Itoa (v / 1000000) +:+ "." +:+ pad_zeros 6 (Strconv.Itoa (v mod 1000000))
  end.

(** ** The verb %v *)

(** A finite float as a fraction, with the ends of the interval of the reals that
    round to it: [x = 4 * m * 2^(e-2)], and the neighbours are halfway to the next
    mantissas (a quarter below, at the least mantissa of a binade). *)
Record interval := mkInterval { iv_low : Z; iv_x : Z; iv_up : Z; iv_den : Z; iv_inclusive : bool }.
Definition rounding_interval (m : positive) (e : Z) : interval :=
  let f := 2 ^ Z.max 0 (e - 2) in
  let low := if (Z.pos m =? 2 ^ 52) && (-1074 <? e) then 4 * Z.pos m - 1 else 4 * Z.pos m - 2 in
  mkInterval (low * f) (4 * Z.pos m * f) ((4 * Z.pos m + 2) * f) (2 ^ Z.max 0 (2 - e)) (Z.even (Z.pos m)).

(** Is [num/den] inside? *)
Definition inside (iv : interval) (num den : Z) : bool :=
  let lo := Z.compare (iv_low iv * den) (num * iv_den iv) in
  let hi := Z.compare (num * iv_den iv) (iv_up iv * den) in
  match lo, hi with
  | Lt, Lt => true
  | Eq, Lt | Lt, Eq => iv_inclusive iv
  | _, _ => false
  end.

(** [10^k] as a fraction. *)
Definition pow10 (k : Z) : Z * Z := (10 ^ Z.max 0 k, 10 ^ Z.max 0 (- k)).

(** The decimal point: [10^(dp-1) <= x < 10^dp]. *)
Fixpoint find_point (fuel : nat) (iv : interval) (dp : Z) : Z :=
  match fuel with
  | O => dp
  | S fuel' =>
      let '(n, d) := pow10 dp in
      let '(n1, d1) := pow10 (dp - 1) in
      if n * iv_den iv <=? iv_x iv * d then find_point fuel' iv (dp + 1)
      else if iv_x iv * d1 <? n1 * iv_den iv then find_point fuel' iv (dp - 1)
      else dp
  end.

(** [nd] digits: round down or up, whichever stays inside, to nearest when both
    do; otherwise one more digit. *)
Fixpoint find_digits (fuel : nat) (iv : interval) (dp nd : Z) : Z * Z :=
  let '(n, d) := pow10 (dp - nd) in
  let num := iv_x iv * d in
  let den := iv_den iv * n in
  let q := num / den in
  let r := num mod den in
  let down := inside iv (q * n) d in
  let up := inside iv ((q + 1) * n) d in
  let nearest := if (den <? 2 * r) || ((2 * r =? den) && Z.odd q) then q + 1 else q in
  match fuel with
  | O => (nearest, nd)
  | S fuel' =>
      if down && up then (nearest, nd)
      else if down then (q, nd)
      else if up then (q + 1, nd)
      else find_digits fuel' iv dp (nd + 1)
  end.

Fixpoint strip_zeros (fuel : nat) (q : Z) : Z :=
  match fuel with
  | O => q
  | S fuel' => if (q mod 10 =? 0) && negb (q =? 0) then strip_zeros fuel' (q / 10) else q
  end.

(** The digits and the position of the decimal point. *)
Definition shortest (m : positive) (e : Z) : string * Z :=
  let iv := rounding_interval m e in
  let dp := find_point 700 iv 0 in
  let '(q, nd) := find_digits 16 iv dp 1 in
  let dp := if 10 ^ nd <=? q then dp + 1 else dp in
  (Strconv.Itoa (strip_zeros 20 q), dp).

Definition zeros (k : Z) : string := str (replicate (Z.to_nat k) "0"%char).
Definition fmt_exp (digits : string) (exp : Z) : string :=
  let c := chars digits in
  (str (take 1 c) +:+ (if (1 <? length c)%nat then "." +:+ str (drop 1 c) else "") +:+ "e" +:+
   (if (exp <? 0)%Z then "-" else "+") +:+ pad_zeros 2 (Strconv.Itoa (Z.abs exp)))%string.
Definition fmt_dec (digits : string) (dp : Z) : string :=
  let c := chars digits in
  let nd := Z.of_nat (length c) in
  let whole := if 0 <? dp then (str (take (Z.to_nat dp) c) +:+ zeros (dp - nd))%string else "0"%string in
  let frac := if dp <? nd then ("." +:+ zeros (- dp) +:+ str (drop (Z.to_nat dp) c))%string else ""%string in
  (whole +:+ frac)%string.
Definition fmt_v (x : spec_float) : string :=
  match x with
  | S754_nan => "NaN"%string
  | S754_infinity s => (if s then "-Inf" else "+Inf")%string
  | S754_zero s => (if s then "-0" else "0")%string
  | S754_finite s m e =>
      let '(digits, dp) := shortest m e in
      let exp := dp - 1 in
      ((if s then "-" else "") +:+
       (if ((exp <? -4) || (6 <=? exp))%Z then fmt_exp digits exp else fmt_dec digits dp))%string
  end.

Example fmt_v_small : fmt_v <$> [f64_div (f64_of_Z 1) (f64_of_Z 3); f64_div (f64_of_Z 1) (f64_of_Z 10); f64_of_Z 100;
    f64_of_Z 123456; f64_of_Z 1234567; f64_div (f64_of_Z (-5)) (f64_of_Z 2); f64_div (f64_of_Z 1) (f64_of_Z 100000);
    f64_div (f64_of_Z 7) (f64_of_Z 0); f64_div (f64_of_Z 0) (f64_of_Z 0)]
  = ["0.3333333333333333"; "0.1"; "100"; "123456"; "1.234567e+06"; "-2.5"; "1e-05"; "+Inf"; "NaN"]%string.
Proof. vm_compute. reflexivity. Qed.
(** The least and the greatest positive float, the least normal one, and a value
    whose shortest form needs seventeen digits. *)
Example fmt_v_extreme : fmt_v <$> [S754_finite false 1 (-1074); S754_finite false 9007199254740991 971;
    S754_finite false 4503599627370496 (-1074); S754_finite false 5404319552844596 (-54);
    S754_finite false 4503599627370496 (-1)]
  = ["5e-324"; "1.7976931348623157e+308"; "2.2250738585072014e-308"; "0.30000000000000004"; "2.251799813685248e+15"]%string.
Proof. vm_compute. reflexivity. Qed.
