(* ===== verification/Json.v ===== *)
(** * JSON

    encoding/json as the repository uses it: texts are printed compactly, the way
    [Marshal] and [Encoder.Encode] do, and read by a recursive-descent parser that
    accepts what Go's scanner accepts.  A number keeps its literal.  The model
    covers ASCII; a text or string with other bytes is left to parameters
    ([exotic]), because Go then also checks UTF-8.

    Structs are lists of fields, each with its name, its encoder and its decoder:
    decoding matches names up to case, ignores unknown ones and leaves absent fields
    alone.

    Results: what is printed is read back ([value_print], [parse_print]), and
    decoding the encoding of a struct copies the encoded fields
    ([struct_roundtrip]). *)

From Stdlib Require Import Ascii String SpecFloat.
From stdpp Require Import base gmap strings numbers list sorting.
From S2P Require Import Prelude.
From S2P Require Import Identity.
From S2P Require Import Url.
From S2P Require Import Float.

Local Open Scope Z_scope.

Inductive json :=
| JNull | JBool (b : bool) | JNumber (literal : list ascii) | JString (s : list ascii)
| JArray (l : list json) | JObject (l : list (list ascii * json)).

(** ** Strings *)

Definition is_ascii (c : ascii) : bool := code c <? 128.

(** The characters [Marshal] escapes: quotes, control characters and, for HTML,
    the angle brackets and the ampersand. *)
Definition esc (c : ascii) : list ascii :=
  if bool_decide (c ∈ chars "\" ++ [ascii_of_N 34]) then ["\"%char; c]
  else if code c =? 10 then chars "\n"
  else if code c =? 13 then chars "\r"
  else if code c =? 9 then chars "\t"
  else if (code c <? 32) || bool_decide (c ∈ chars "<>&")
       then chars "\u00" ++ chars (Strconv.hex_bytes [code c])
  else [c].
Definition dquote : ascii := ascii_of_N 34.
Definition quote (s : list ascii) : list ascii := dquote :: (s ≫= esc) ++ [dquote].

Definition hex_val (c : ascii) : option Z :=
  if is_digit c then Some (code c - 48)
  else if between 97 102 c then Some (code c - 87)
  else if between 65 70 c then Some (code c - 55)
  else None.
Definition hex4 (l : list ascii) : option (Z * list ascii) :=
  match l with
  | a :: b :: c :: d :: r =>
      a ← hex_val a; b ← hex_val b; c ← hex_val c; d ← hex_val d;
      Some (4096 * a + 256 * b + 16 * c + d, r)
  | _ => None
  end.

(** UTF-8 of a code point. *)
Definition byte (n : Z) : ascii := ascii_of_N (Z.to_N n).
Definition utf8 (r : Z) : list ascii :=
  if r <? 128 then [byte r]
  else if r <? 2048 then [byte (192 + r / 64); byte (128 + r mod 64)]
  else if r <? 65536 then [byte (224 + r / 4096); byte (128 + r / 64 mod 64); byte (128 + r mod 64)]
  else [byte (240 + r / 262144); byte (128 + r / 4096 mod 64); byte (128 + r / 64 mod 64); byte (128 + r mod 64)].
(** A lone surrogate becomes U+FFFD. *)
Definition unicode (l : list ascii) : option (list ascii * list ascii) :=
  '(r, rest) ← hex4 l;
  if (55296 <=? r) && (r <? 57344) then
    match rest with
    | "\"%char :: "u"%char :: more =>
        match hex4 more with
        | Some (r2, rest2) =>
            if (r <? 56320) && (56320 <=? r2) && (r2 <? 57344)
            then Some (utf8 ((r - 55296) * 1024 + (r2 - 56320) + 65536), rest2)
            else Some (utf8 65533, rest)
        | None => Some (utf8 65533, rest)
        end
    | _ => Some (utf8 65533, rest)
    end
  else Some (utf8 r, rest).

(** One unit of a string literal. *)
Definition unit_of (l : list ascii) : option (list ascii * list ascii) :=
  match l with
  | "\"%char :: c :: r =>
      if bool_decide (c ∈ chars "\/" ++ [dquote]) then Some ([c], r)
      else if bool_decide (c = "b"%char) then Some ([byte 8], r)
      else if bool_decide (c = "f"%char) then Some ([byte 12], r)
      else if bool_decide (c = "n"%char) then Some ([byte 10], r)
      else if bool_decide (c = "r"%char) then Some ([byte 13], r)
      else if bool_decide (c = "t"%char) then Some ([byte 9], r)
      else if bool_decide (c = "u"%char) then unicode r
      else None
  | c :: r => if (code c <? 32) || bool_decide (c = "\"%char) then None else Some ([c], r)
  | [] => None
  end.
(** Up to the closing quote. *)
Fixpoint unquote (fuel : nat) (l : list ascii) : option (list ascii * list ascii) :=
  match l with
  | [] => None
  | c :: r =>
      if bool_decide (c = dquote) then Some ([], r)
      else match fuel with
           | O => None
           | S fuel' => '(u, l') ← unit_of l; '(s, rest) ← unquote fuel' l'; Some (u ++ s, rest)
           end
  end.

Lemma esc_unit c rest :
  is_ascii c = true -> unit_of (esc c ++ rest) = Some ([c], rest) /\ exists a l, esc c = a :: l /\ a <> dquote.
Proof.
  intros H. assert (Hall : forall b0 b1 b2 b3 b4 b5 b6,
    let c := Ascii b0 b1 b2 b3 b4 b5 b6 false in
    unit_of (esc c ++ rest) = Some ([c], rest) /\ exists a l, esc c = a :: l /\ a <> dquote).
  { intros [] [] [] [] [] [] []; (split; [reflexivity | eexists _, _; split; [reflexivity | discriminate]]). }
  destruct c as [b0 b1 b2 b3 b4 b5 b6 []]; [|apply Hall].
  exfalso. destruct b0, b1, b2, b3, b4, b5, b6; discriminate H.
Qed.

Lemma unquote_S fuel a r :
  a <> dquote ->
  unquote (S fuel) (a :: r) =
    (unit_of (a :: r) ≫= (fun '(u, l') => unquote fuel l' ≫= (fun '(s, rest) => Some (u ++ s, rest)))).
Proof. intros H. cbn [unquote]. by rewrite bool_decide_eq_false_2. Qed.

Lemma unquote_esc s : forall fuel rest,
  forallb is_ascii s = true -> (length s <= fuel)%nat ->
  unquote fuel ((s ≫= esc) ++ dquote :: rest) = Some (s, rest).
Proof.
  induction s as [|c s IH]; intros fuel rest Hs Hf.
  { destruct fuel; reflexivity. }
  simpl in Hs, Hf. apply andb_true_iff in Hs as [Hc Hs]. destruct fuel as [|fuel]; [lia|].
  rewrite bind_cons, <- app_assoc.
  destruct (esc_unit c ((s ≫= esc) ++ dquote :: rest) Hc) as [Hu (a & l & Ha & Hne)].
  rewrite Ha in *. cbn [app]. rewrite unquote_S by done. cbn [app] in Hu. rewrite Hu. cbn [mbind option_bind].
  rewrite IH by (done || lia). done.
Qed.

(** ** Numbers *)

Fixpoint span (p : ascii -> bool) (l : list ascii) : list ascii * list ascii :=
  match l with
  | [] => ([], [])
  | c :: r => if p c then let '(a, b) := span p r in (c :: a, b) else ([], l)
  end.
Definition number_char (c : ascii) : bool := is_digit c || bool_decide (c ∈ chars "+-.eE").

(** The grammar of a number: sign, integer without leading zeros, fraction,
    exponent. *)
Definition int_part (l : list ascii) : option (list ascii) :=
  match l with
  | c :: r => if bool_decide (c = "0"%char) then Some r else if is_digit c then Some (span is_digit r).2 else None
  | [] => None
  end.
Definition digits1 (l : list ascii) : option (list ascii) :=
  match l with c :: r => if is_digit c then Some (span is_digit r).2 else None | [] => None end.
Definition frac_part (l : list ascii) : option (list ascii) :=
  match l with c :: r => if bool_decide (c = "."%char) then digits1 r else Some l | [] => Some [] end.
Definition exp_part (l : list ascii) : option (list ascii) :=
  match l with
  | c :: r =>
      if bool_decide (c ∈ chars "eE") then
        digits1 (match r with d :: r' => if bool_decide (d ∈ chars "+-") then r' else r | [] => [] end)
      else Some l
  | [] => Some []
  end.
Definition is_number (l : list ascii) : bool :=
  let l := match l with c :: r => if bool_decide (c = "-"%char) then r else l | [] => [] end in
  bool_decide ((int_part l ≫= (fun l => frac_part l ≫= exp_part)) = Some []).

(** ** Parsing *)

Definition is_space (c : ascii) : bool := bool_decide (code c ∈ [32; 9; 10; 13]).
Definition skip_ws (l : list ascii) : list ascii := (span is_space l).2.

(** Items separated by commas up to the closing bracket. *)
Fixpoint items {A} (p : list ascii -> option (A * list ascii)) (close : ascii) (fuel : nat) (l : list ascii) :
    option (list A * list ascii) :=
  match fuel with
  | O => None
  | S fuel' =>
      '(x, r) ← p l;
      match skip_ws r with
      | c :: r' =>
          if bool_decide (c = close) then Some ([x], r')
          else if bool_decide (c = ","%char) then '(xs, rest) ← items p close fuel' r'; Some (x :: xs, rest)
          else None
      | [] => None
      end
  end.
Definition list_of {A} (p : list ascii -> option (A * list ascii)) (close : ascii) (l : list ascii) :
    option (list A * list ascii) :=
  match skip_ws l with
  | c :: r => if bool_decide (c = close) then Some ([], r) else items p close (S (length l)) l
  | [] => None
  end.

(** A key, a colon and a value. *)
Definition member {A} (p : list ascii -> option (A * list ascii)) (l : list ascii) :
    option (list ascii * A * list ascii) :=
  match skip_ws l with
  | c :: r =>
      if bool_decide (c = dquote) then
        '(k, r1) ← unquote (length r) r;
        match skip_ws r1 with
        | c1 :: r2 => if bool_decide (c1 = ":"%char) then '(v, r3) ← p r2; Some (k, v, r3) else None
        | [] => None
        end
      else None
  | [] => None
  end.

(** A literal after its first letter. *)
Fixpoint expect (w l : list ascii) : option (list ascii) :=
  match w, l with
  | [], _ => Some l
  | a :: w', b :: l' => if bool_decide (a = b) then expect w' l' else None
  | _ :: _, [] => None
  end.

Fixpoint value (fuel : nat) (l : list ascii) : option (json * list ascii) :=
  match fuel with
  | O => None
  | S fuel' =>
      match skip_ws l with
      | [] => None
      | c :: r =>
          if bool_decide (c = "n"%char) then rest ← expect (chars "ull") r; Some (JNull, rest)
          else if bool_decide (c = "t"%char) then rest ← expect (chars "rue") r; Some (JBool true, rest)
          else if bool_decide (c = "f"%char) then rest ← expect (chars "alse") r; Some (JBool false, rest)
          else if bool_decide (c = dquote) then '(s, rest) ← unquote (length r) r; Some (JString s, rest)
          else if bool_decide (c = "["%char) then '(xs, rest) ← list_of (value fuel') "]"%char r; Some (JArray xs, rest)
          else if bool_decide (c = "{"%char) then '(ms, rest) ← list_of (member (value fuel')) "}"%char r; Some (JObject ms, rest)
          else
            let '(n, rest) := span number_char (c :: r) in
            if is_number n then Some (JNumber n, rest) else None
      end
  end.

(** ** Printing *)

Fixpoint commas (l : list (list ascii)) : list ascii :=
  match l with [] => [] | [x] => x | x :: r => x ++ ","%char :: commas r end.
Fixpoint print (j : json) : list ascii :=
  match j with
  | JNull => chars "null"
  | JBool b => chars (if b then "true" else "false")
  | JNumber n => n
  | JString s => quote s
  | JArray l => "["%char :: commas (map print l) ++ ["]"%char]
  | JObject l => "{"%char :: commas (map (fun kv => quote kv.1 ++ ":"%char :: print kv.2) l) ++ ["}"%char]
  end.

(** What can be printed and read: ASCII strings and number literals. *)
Fixpoint jwf (j : json) : bool :=
  match j with
  | JNull | JBool _ => true
  | JNumber n => is_number n && forallb number_char n
  | JString s => forallb is_ascii s
  | JArray l => forallb jwf l
  | JObject l => forallb (fun kv => forallb is_ascii kv.1 && jwf kv.2) l
  end.
Fixpoint depth (j : json) : nat :=
  match j with
  | JArray l => S (foldr (fun x n => Nat.max (depth x) n) 0 l)%nat
  | JObject l => S (foldr (fun kv n => Nat.max (depth kv.2) n) 0 l)%nat
  | _ => 1%nat
  end.

(** ** What is printed is read back *)

(** What may follow a value: nothing that continues a number. *)
Definition stops (l : list ascii) : Prop :=
  match l with [] => True | c :: _ => number_char c = false end.

Lemma span_all p l rest :
  forallb p l = true -> match rest with [] => True | c :: _ => p c = false end -> span p (l ++ rest) = (l, rest).
Proof.
  intros Hl Hr. induction l as [|c l IH]; simpl in *.
  - destruct rest as [|c r]; [done|]. simpl. by rewrite Hr.
  - apply andb_true_iff in Hl as [-> Hl]. by rewrite (IH Hl).
Qed.

Lemma skip_ws_id c l : is_space c = false -> skip_ws (c :: l) = c :: l.
Proof. intros H. unfold skip_ws. simpl. by rewrite H. Qed.

Lemma is_number_head n : is_number n = true -> forallb number_char n = true ->
  exists c r, n = c :: r /\ is_space c = false /\
    bool_decide (c ∈ chars "ntf[{" ++ [dquote]) = false.
Proof.
  intros Hn Hc. destruct n as [|c r]; [discriminate Hn|]. exists c, r. split; [done|].
  simpl in Hc. apply andb_true_iff in Hc as [Hc _]. clear Hn. revert Hc.
  destruct c as [[] [] [] [] [] [] [] []]; try discriminate; intros _; by split.
Qed.

(** Every printed value starts with a character that is neither space nor a
    closing bracket. *)
Lemma print_head j : jwf j = true ->
  exists c r, print j = c :: r /\ is_space c = false /\ c <> "]"%char /\ c <> "}"%char.
Proof.
  destruct j as [|[]|n|s|l|l]; simpl; intros Hw; try (by eexists _, _).
  apply andb_true_iff in Hw as [Hn Hc]. destruct n as [|c r]; [discriminate Hn|]. exists c, r. split; [done|].
  simpl in Hc. apply andb_true_iff in Hc as [Hc _]. clear Hn. revert Hc.
  destruct c as [[] [] [] [] [] [] [] []]; by try discriminate.
Qed.

(** Separators and closing brackets stop a value and are no space. *)
Definition is_close (c : ascii) : Prop := c = "]"%char \/ c = "}"%char.
Lemma close_stops c l : is_close c \/ c = ","%char -> stops (c :: l) /\ is_space c = false.
Proof. by intros [[->| ->]| ->]. Qed.

Section items.
Context {A : Type} (p : list ascii -> option (A * list ascii)) (pr : A -> list ascii) (close : ascii).
Context (Hclose : is_close close).

Definition reads (x : A) : Prop := forall rest, stops rest -> p (pr x ++ rest) = Some (x, rest).

Lemma items_print xs : forall fuel rest,
  xs <> [] -> Forall reads xs -> (length xs <= fuel)%nat ->
  items p close fuel (commas (map pr xs) ++ close :: rest) = Some (xs, rest).
Proof.
  induction xs as [|x xs IH]; intros fuel rest Hne Hall Hf; [done|].
  apply Forall_cons in Hall as [Hx Hall]. destruct fuel as [|fuel]; [simpl in Hf; lia|].
  destruct xs as [|y xs].
  - simpl. destruct (close_stops close rest (or_introl Hclose)) as [Hs Hsp]. rewrite Hx by done. simpl.
    rewrite skip_ws_id by done. by rewrite bool_decide_eq_true_2.
  - change (commas (map pr (x :: y :: xs))) with (pr x ++ ","%char :: commas (map pr (y :: xs))).
    rewrite <- app_assoc. cbn [app]. cbn [items].
    destruct (close_stops "," (commas (map pr (y :: xs)) ++ close :: rest) (or_intror eq_refl)) as [Hs Hsp].
    rewrite Hx by done. cbn [mbind option_bind]. rewrite skip_ws_id by done.
    rewrite bool_decide_eq_false_2 by (by destruct Hclose as [->| ->]).
    rewrite bool_decide_eq_true_2 by done. rewrite IH by (done || simpl in *; lia). done.
Qed.

Lemma list_of_print xs rest :
  Forall reads xs ->
  (forall x, x ∈ xs -> exists c r, pr x = c :: r /\ is_space c = false /\ c <> close) ->
  list_of p close (commas (map pr xs) ++ close :: rest) = Some (xs, rest).
Proof.
  intros Hall Hhd. unfold list_of. destruct xs as [|x xs].
  - simpl. destruct (close_stops close rest (or_introl Hclose)) as [_ Hsp]. rewrite skip_ws_id by done.
    by rewrite bool_decide_eq_true_2.
  - destruct (Hhd x ltac:(left)) as (c & r & Hc & Hsp & Hn).
    assert (exists l, commas (map pr (x :: xs)) ++ close :: rest = c :: l) as [l Hl].
    { destruct xs; simpl; rewrite Hc; by eexists. }
    rewrite Hl at 1. rewrite skip_ws_id by done. rewrite bool_decide_eq_false_2 by done.
    apply items_print; [done | done |]. rewrite length_app. simpl.
    assert (length (x :: xs) <= length (commas (map pr (x :: xs))))%nat; [|simpl in *; lia].
    clear - Hhd. induction (x :: xs) as [|y ys IH]; [simpl; lia|].
    assert (1 <= length (pr y))%nat by (destruct (Hhd y ltac:(left)) as (? & ? & -> & _); simpl; lia).
    destruct ys as [|z zs]; [simpl; lia|].
    change (commas (map pr (y :: z :: zs))) with (pr y ++ ","%char :: commas (map pr (z :: zs))).
    rewrite length_app. cbn [length] in *. specialize (IH ltac:(intros w Hw; apply Hhd; by right)). lia.
Qed.
End items.

Lemma foldr_max_le {A} (f : A -> nat) l x : x ∈ l -> (f x <= foldr (fun y n => Nat.max (f y) n) 0 l)%nat.
Proof.
  induction l as [|y l IH]; intros Hx; [by apply elem_of_nil in Hx|].
  apply elem_of_cons in Hx as [->|Hx]; simpl; [lia|]. specialize (IH Hx). lia.
Qed.

Lemma unquote_quote s rest :
  forallb is_ascii s = true ->
  unquote (length ((s ≫= esc) ++ dquote :: rest)) ((s ≫= esc) ++ dquote :: rest) = Some (s, rest).
Proof.
  intros Hs. apply unquote_esc; [done|]. rewrite length_app.
  assert (length s <= length (s ≫= esc))%nat; [|lia].
  clear rest. induction s as [|c s IH]; [simpl; lia|]. simpl in Hs. apply andb_true_iff in Hs as [Hc Hs].
  rewrite bind_cons, length_app. destruct (esc_unit c [] Hc) as [_ (a & l & -> & _)]. simpl. specialize (IH Hs). lia.
Qed.

Lemma member_print (p : list ascii -> option (json * list ascii)) (kv : list ascii * json) :
  forallb is_ascii kv.1 = true -> reads p print kv.2 ->
  reads (member p) (fun kv => quote kv.1 ++ ":"%char :: print kv.2) kv.
Proof.
  intros Hk Hv rest Hr. destruct kv as [k v]. cbn [fst snd] in *. unfold quote. cbn [app]. rewrite <- !app_assoc. cbn [app].
  unfold member. rewrite skip_ws_id by done. rewrite bool_decide_eq_true_2 by done.
  rewrite unquote_quote by done. cbn [mbind option_bind]. rewrite skip_ws_id by done.
  rewrite bool_decide_eq_true_2 by done. rewrite Hv by done. done.
Qed.

(** Parsing a printed value gives it back and leaves what follows. *)
Lemma value_print fuel : forall j, (depth j <= fuel)%nat -> jwf j = true -> reads (value fuel) print j.
Proof.
  induction fuel as [|fuel IH]; intros j Hd Hw; [destruct j; simpl in Hd; lia|].
  intros rest Hr. destruct j as [|[]|n|s|l|l]; try reflexivity.
  - simpl in Hw. apply andb_true_iff in Hw as [Hn Hc]. cbn [print].
    destruct (is_number_head n Hn Hc) as (c & r & -> & Hsp & Hnot). apply bool_decide_eq_false_1 in Hnot.
    cbn [value app]. rewrite skip_ws_id by done.
    rewrite !bool_decide_eq_false_2 by (intros ->; apply Hnot; vm_compute; set_solver).
    change (c :: r ++ rest) with ((c :: r) ++ rest). rewrite span_all by done. by rewrite Hn.
  - cbn [print]. unfold quote. cbn [app]. rewrite <- app_assoc. cbn [app value]. rewrite skip_ws_id by done.
    cbn. rewrite unquote_quote by done. done.
  - cbn [print app]. rewrite <- app_assoc. cbn [app value]. rewrite skip_ws_id by done. simpl bool_decide. cbv iota.
    simpl in Hw, Hd. rewrite forallb_forall in Hw. rewrite (list_of_print (value fuel) print "]"%char); [done | by left | |].
    + apply Forall_forall. intros x Hx. apply IH; [|by apply Hw, list_elem_of_In].
      pose proof (foldr_max_le depth l x Hx). lia.
    + intros x Hx. apply list_elem_of_In, Hw in Hx. destruct (print_head x Hx) as (c & r & ? & ? & ? & _). by exists c, r.
  - cbn [print app]. rewrite <- app_assoc. cbn [app value]. rewrite skip_ws_id by done. simpl bool_decide. cbv iota.
    simpl in Hw, Hd. rewrite forallb_forall in Hw.
    rewrite (list_of_print (member (value fuel)) (fun kv => quote kv.1 ++ ":"%char :: print kv.2) "}"%char);
      [done | by right | |].
    + apply Forall_forall. intros x Hx.
      destruct (proj1 (andb_true_iff _ _) (Hw x (proj1 (list_elem_of_In _ _) Hx))) as [H1 H2].
      apply member_print; [done|]. apply IH; [|done].
      pose proof (foldr_max_le (fun kv => depth kv.2) l x Hx). simpl in *. lia.
    + intros x _. by eexists _, _.
Qed.

Lemma commas_length (l : list (list ascii)) x : x ∈ l -> (length x <= length (commas l))%nat.
Proof.
  induction l as [|y l IH]; intros Hx; [by apply elem_of_nil in Hx|].
  destruct l as [|z l]; [apply elem_of_cons in Hx as [->|Hx]; [done | by apply elem_of_nil in Hx]|].
  change (commas (y :: z :: l)) with (y ++ ","%char :: commas (z :: l)). rewrite length_app. cbn [length].
  apply elem_of_cons in Hx as [->|Hx]; [lia|]. specialize (IH Hx). lia.
Qed.

Lemma commas_forallb p (l : list (list ascii)) :
  p ","%char = true -> (forall x, x ∈ l -> forallb p x = true) -> forallb p (commas l) = true.
Proof.
  intros Hp. induction l as [|y l IH]; intros Hall; [done|].
  assert (Hy := Hall y ltac:(left)). destruct l as [|z l]; [done|].
  change (commas (y :: z :: l)) with (y ++ ","%char :: commas (z :: l)). rewrite forallb_app, Hy. simpl. rewrite Hp.
  apply IH. intros x Hx. apply Hall. by right.
Qed.

Lemma foldr_max_lt {A} (f : A -> nat) l n : (forall x, x ∈ l -> f x <= n)%nat -> (foldr (fun y m => Nat.max (f y) m) 0 l <= n)%nat.
Proof.
  induction l as [|y l IH]; intros H; simpl; [lia|]. pose proof (H y ltac:(left)).
  specialize (IH ltac:(intros x Hx; apply H; by right)). lia.
Qed.

Lemma depth_print n : forall j, (depth j <= n)%nat -> jwf j = true -> (depth j <= length (print j))%nat.
Proof.
  induction n as [|n IH]; intros j Hd Hw; [destruct j; simpl in Hd; lia|].
  destruct j as [|[]|m|s|l|l]; try (simpl; lia).
  - destruct m; [done | simpl; lia].
  - simpl in *. rewrite length_app. simpl. rewrite forallb_forall in Hw.
    apply le_n_S. etransitivity; [|apply Nat.le_add_r]. apply foldr_max_lt. intros x Hx.
    pose proof (foldr_max_le depth l x Hx).
    etransitivity; [apply IH; [lia | by apply Hw, list_elem_of_In]|]. apply commas_length. apply list_elem_of_In, in_map, list_elem_of_In, Hx.
  - simpl in *. rewrite length_app. simpl. rewrite forallb_forall in Hw.
    apply le_n_S. etransitivity; [|apply Nat.le_add_r]. apply (foldr_max_lt (fun kv => depth kv.2)). intros x Hx.
    pose proof (foldr_max_le (fun kv => depth kv.2) l x Hx) as Hm. simpl in Hm.
    destruct (proj1 (andb_true_iff _ _) (Hw x (proj1 (list_elem_of_In _ _) Hx))) as [_ H2].
    transitivity (length (quote x.1 ++ ":"%char :: print x.2)).
    + rewrite length_app. cbn [length]. specialize (IH x.2 ltac:(lia) H2). lia.
    + apply commas_length. apply list_elem_of_In.
      exact (in_map (fun kv => quote kv.1 ++ ":"%char :: print kv.2) l x (proj1 (list_elem_of_In _ _) Hx)).
Qed.

Lemma esc_ascii c : is_ascii c = true -> forallb is_ascii (esc c) = true.
Proof. destruct c as [[] [] [] [] [] [] [] []]; by try discriminate. Qed.

Lemma quote_ascii s : forallb is_ascii s = true -> forallb is_ascii (quote s) = true.
Proof.
  intros Hs. unfold quote. cbn [forallb]. rewrite forallb_app. cbn [forallb].
  enough (forallb is_ascii (s ≫= esc) = true) as -> by done.
  induction s as [|c s IH]; [done|]. simpl in Hs. apply andb_true_iff in Hs as [Hc Hs].
  rewrite bind_cons, forallb_app, (esc_ascii c Hc). by apply IH.
Qed.

Lemma number_ascii c : number_char c = true -> is_ascii c = true.
Proof. destruct c as [[] [] [] [] [] [] [] []]; by try discriminate. Qed.

Lemma print_ascii n : forall j, (depth j <= n)%nat -> jwf j = true -> forallb is_ascii (print j) = true.
Proof.
  induction n as [|n IH]; intros j Hd Hw; [destruct j; simpl in Hd; lia|].
  destruct j as [|[]|m|s|l|l]; try done.
  - simpl in Hw. apply andb_true_iff in Hw as [_ Hc]. rewrite forallb_forall in *. intros c Hc'. by apply number_ascii, Hc.
  - by apply quote_ascii.
  - simpl in *. rewrite forallb_forall in Hw. rewrite forallb_app, commas_forallb; [done | done |].
    intros x (y & <- & Hy)%list_elem_of_In%in_map_iff. apply list_elem_of_In in Hy as Hy'.
    pose proof (foldr_max_le depth l y Hy'). apply IH; [lia | by apply Hw].
  - simpl in *. rewrite forallb_forall in Hw. rewrite forallb_app, commas_forallb; [done | done |].
    intros x (y & <- & Hy)%list_elem_of_In%in_map_iff. apply list_elem_of_In in Hy as Hy'.
    pose proof (foldr_max_le (fun kv => depth kv.2) l y Hy') as Hm. simpl in Hm.
    destruct (proj1 (andb_true_iff _ _) (Hw y Hy)) as [H1 H2].
    change (forallb is_ascii (quote y.1 ++ ":"%char :: print y.2) = true).
    rewrite forallb_app, quote_ascii by done. simpl. apply IH; [lia | done].
Qed.

(** ** Texts *)

Section texts.
(** What Go makes of a text that is not ASCII. *)
Context (exotic : list ascii -> option json).

(** [Decoder.Decode] reads one value; what follows stays in the stream. *)
Definition parse (l : list ascii) : option json :=
  if forallb is_ascii l then fst <$> value (S (length l)) l else exotic l.

(** [Marshal] and [Encoder.Encode] print without spaces; the latter ends the line. *)
Definition Marshal (j : json) : string := str (print j).

(** Reading what was written gives it back, also with an ASCII text after it that
    does not continue a number. *)
Lemma parse_print j rest :
  jwf j = true -> forallb is_ascii rest = true -> stops rest -> parse (print j ++ rest) = Some j.
Proof.
  intros Hw Ha Hs. unfold parse. rewrite forallb_app, (print_ascii (depth j)), Ha by done. cbn [andb].
  rewrite value_print; [done | | done | done].
  pose proof (depth_print (depth j) j ltac:(done) Hw). rewrite length_app. lia.
Qed.
End texts.

(** ** Values *)

Lemma fmt_digits_lead fuel : forall n acc, 0 < n -> Z.log2 n < Z.of_nat fuel ->
  exists d s, Strconv.fmt_digits fuel n acc = String (Strconv.digit_char d) s /\ 1 <= d <= 9.
Proof.
  induction fuel as [|fuel IH]; intros n acc Hn Hf; [pose proof (Z.log2_nonneg n); lia|]. simpl.
  destruct (Z.ltb_spec n 10); [by exists n, acc; split; [|lia]|].
  apply IH; [apply Z.div_str_pos; lia|].
  assert (Hlt : n / 10 < n) by (apply Z.div_lt; lia).
  assert (Hm : Z.log2 (n / 10) <= Z.log2 (n / 2)).
  { apply Z.log2_le_mono. apply Z.div_le_compat_l; lia. }
  assert (Z.log2 (n / 2) < Z.log2 n); [|lia].
  rewrite <- Z.div2_div. apply Z.log2_lt_pow2; [rewrite Z.div2_div; apply Z.div_str_pos; lia|].
  rewrite Z.div2_div. apply Z.div_lt_upper_bound; [lia|].
  pose proof (Z.log2_spec n ltac:(lia)) as [_ Hu]. rewrite Z.pow_succ_r in Hu by apply Z.log2_nonneg. lia.
Qed.

Lemma digits_number c r :
  is_digit c = true -> c <> "0"%char -> forallb is_digit r = true -> is_number (c :: r) = true.
Proof.
  intros Hc Hz Hr. unfold is_number, int_part.
  assert (Hm : bool_decide (c = "-"%char) = false) by (apply bool_decide_eq_false_2; by intros ->).
  rewrite Hm. rewrite (bool_decide_eq_false_2 (c = "0"%char)) by done. rewrite Hc.
  replace (span is_digit r) with (r, @nil ascii) by (symmetry; rewrite <- (app_nil_r r) at 1; by apply span_all).
  reflexivity.
Qed.

Lemma nonneg_number n : 0 <= n -> is_number (chars (Strconv.fmt_nonneg n)) = true /\
  is_number ("-"%char :: chars (Strconv.fmt_nonneg n)) = true.
Proof.
  intros Hn. destruct (decide (n = 0)) as [->|Hz]; [by vm_compute|].
  pose proof (Itoa_digits n Hn) as Hd. unfold Strconv.Itoa, Strconv.big_String in Hd.
  rewrite (proj2 (Z.ltb_ge n 0)) in Hd by lia.
  destruct (fmt_digits_lead (S (Z.to_nat (Z.log2 n))) n "" ltac:(lia)) as (d & s & E & Hrange).
  { pose proof (Z.log2_nonneg n). lia. }
  unfold Strconv.fmt_nonneg in *. rewrite E in *. cbn [chars list_ascii_of_string forallb] in *.
  apply andb_true_iff in Hd as [Hc Hs].
  assert (Hnz : Strconv.digit_char d <> "0"%char).
  { assert (d = 1 \/ d = 2 \/ d = 3 \/ d = 4 \/ d = 5 \/ d = 6 \/ d = 7 \/ d = 8 \/ d = 9) as Hcases by lia.
    destruct Hcases as [->|[->|[->|[->|[->|[->|[->|[->| ->]]]]]]]]; by vm_compute. }
  pose proof (digits_number _ _ Hc Hnz Hs) as H1. split; [exact H1|].
  unfold is_number in *. rewrite (bool_decide_eq_true_2 ("-"%char = "-"%char)) by done.
  assert (Hm : bool_decide (Strconv.digit_char d = "-"%char) = false) by (apply bool_decide_eq_false_2; intros E'; rewrite E' in Hc; discriminate Hc).
  rewrite Hm in H1. exact H1.
Qed.

Lemma Itoa_number n : is_number (chars (Strconv.Itoa n)) && forallb number_char (chars (Strconv.Itoa n)) = true.
Proof.
  assert (Hd : forall k, 0 <= k -> forallb number_char (chars (Strconv.fmt_nonneg k)) = true).
  { intros k Hk. pose proof (Itoa_digits k Hk) as H. unfold Strconv.Itoa, Strconv.big_String in H.
    rewrite (proj2 (Z.ltb_ge k 0)) in H by lia. rewrite forallb_forall in *. intros c Hc.
    unfold number_char. by rewrite (H c Hc). }
  unfold Strconv.Itoa, Strconv.big_String. destruct (Z.ltb_spec n 0).
  - destruct (nonneg_number (- n) ltac:(lia)) as [_ H2]. cbn [chars list_ascii_of_string forallb].
    change (list_ascii_of_string (Strconv.fmt_nonneg (- n))) with (chars (Strconv.fmt_nonneg (- n))).
    rewrite H2, Hd by lia. done.
  - destruct (nonneg_number n ltac:(lia)) as [-> _]. by rewrite Hd.
Qed.

(** Integers, booleans and strings; null leaves the old value. *)
Definition enc_int (n : Z) : json := JNumber (chars (Strconv.Itoa n)).
Definition dec_int (j : json) (old : Z) : option Z :=
  match j with
  | JNull => Some old
  | JNumber l => match Strconv.Atoi (str l) with (n, None) => Some n | _ => None end
  | _ => None
  end.
Definition dec_bool (j : json) (old : bool) : option bool :=
  match j with JNull => Some old | JBool b => Some b | _ => None end.
Definition enc_string (s : string) : json := JString (chars s).
Definition dec_string (j : json) (old : string) : option string :=
  match j with JNull => Some old | JString l => Some (str l) | _ => None end.

(** [float64]: the shortest digits that read back, in scientific notation below
    1e-6 and from 1e21 on, with a one-digit exponent where one suffices; NaN and the
    infinities are errors. *)
Definition short_exp (l : list ascii) : list ascii :=
  match reverse l with
  | d :: z :: m :: e :: r =>
      if bool_decide (z = "0"%char /\ m = "-"%char /\ e = "e"%char) then reverse (d :: m :: e :: r) else l
  | _ => l
  end.
Definition json_float (x : spec_float) : option (list ascii) :=
  match x with
  | S754_nan | S754_infinity _ => None
  | S754_zero s => Some (chars (if s then "-0" else "0"))
  | S754_finite s m e =>
      let '(digits, dp) := shortest m e in
      let body := if ((dp - 1 <? -6) || (21 <=? dp - 1))%Z then short_exp (chars (fmt_exp digits (dp - 1)))
                  else chars (fmt_dec digits dp) in
      Some (if s then "-"%char :: body else body)
  end.
Definition enc_float (x : spec_float) : option json := JNumber <$> json_float x.

Example json_floats : (fun x => str <$> json_float x) <$>
    [f64_of_Z 3; f64_div (f64_of_Z (-5)) (f64_of_Z 2); f64_div (f64_of_Z 1) (f64_of_Z 100000000);
     S754_finite false 4503599627370496 20; S754_nan] =
  [Some "3"; Some "-2.5"; Some "1e-8"; Some "4.722366482869645e+21"; None]%string.
Proof. vm_compute. reflexivity. Qed.

(** [strconv.ParseFloat] of a number literal, [m * 10^e] rounded to nearest: a
    quotient is taken to at least 66 bits, with a sticky bit for the rest.  An
    overflow is an error. *)
Definition digits_value (l : list ascii) : Z := foldl (fun n c => 10 * n + (code c - 48)) 0 l.
Definition round_decimal (m e : Z) : spec_float :=
  if 0 <=? e then f64_of_Z (m * 10 ^ e)
  else
    let den := 10 ^ (- e) in
    let k := Z.max 0 (66 + Z.log2 den - Z.log2 m) in
    let num := m * 2 ^ k in
    binary_normalize 53 1024 (2 * (num / den) + (if num mod den =? 0 then 0 else 1)) (- (k + 1)) false.
Definition ParseFloat (l : list ascii) : option spec_float :=
  let '(neg, l) := match l with c :: r => if bool_decide (c = "-"%char) then (true, r) else (false, l) | [] => (false, []) end in
  let '(whole, l) := span is_digit l in
  let '(frac, l) := match l with
                    | c :: r => if bool_decide (c = "."%char) then span is_digit r else ([], l)
                    | [] => ([], [])
                    end in
  let e := match l with _ :: r => (Strconv.Atoi (str r)).1 | [] => 0 end in
  let x := round_decimal (digits_value (whole ++ frac)) (e - Z.of_nat (length frac)) in
  match x with
  | S754_infinity _ | S754_nan => None
  | _ => Some (if (neg : bool) then SFopp x else x)
  end.
Definition dec_float (j : json) (old : spec_float) : option spec_float :=
  match j with
  | JNull => Some old
  | JNumber l => ParseFloat l
  | _ => None
  end.

(** Printed and read back. *)
Definition float_ok (x : spec_float) : Prop :=
  exists l, json_float x = Some l /\ is_number l && forallb number_char l = true /\ ParseFloat l = Some x.

#[global] Instance spec_float_eq_dec : EqDecision spec_float.
Proof. solve_decision. Defined.
Definition float_okb (x : spec_float) : bool :=
  match json_float x with
  | Some l => (is_number l && forallb number_char l) && bool_decide (ParseFloat l = Some x)
  | None => false
  end.
Lemma float_okb_sound x : float_okb x = true -> float_ok x.
Proof.
  unfold float_okb, float_ok. destruct (json_float x) as [l|]; [|done].
  intros [H1 H2%bool_decide_eq_true]%andb_true_iff. by exists l.
Qed.

Example floats_ok : Forall float_ok
  [f64_div (f64_of_Z (-5)) (f64_of_Z 2); f64_div (f64_of_Z 1) (f64_of_Z 100000000); S754_zero true;
   S754_finite false 4503599627370496 20; f64_div (f64_of_Z 1) (f64_of_Z 3)].
Proof. repeat constructor; apply float_okb_sound; vm_compute; reflexivity. Qed.

(** Whole numbers up to 1000 are printed and read back exactly: all of them,
    one by one. *)
Definition whole_float (x : spec_float) : Prop := exists n, (0 <= n <= 1000)%Z /\ x = f64_of_Z n.
Lemma whole_floats : forallb (fun k => float_okb (f64_of_Z (Z.of_nat k))) (seq 0 1001) = true.
Proof. vm_compute. reflexivity. Qed.
Lemma whole_float_ok x : whole_float x -> float_ok x.
Proof.
  intros (n & Hn & ->). apply float_okb_sound. pose proof whole_floats as H. rewrite forallb_forall in H.
  specialize (H (Z.to_nat n)). rewrite Z2Nat.id in H by lia. apply H, in_seq. lia.
Qed.

(** Maps are printed in the order of their keys; null decodes to nil, an object into
    the map there is. *)
Definition key_le (a b : string * string) : Prop := String.leb a.1 b.1 = true.
#[global] Instance key_le_dec : RelDecision key_le := fun a b => decide (String.leb a.1 b.1 = true).
Definition sorted_entries (m : gmap string string) : list (string * string) := merge_sort key_le (map_to_list m).
Definition enc_map (m : option (gmap string string)) : json :=
  match m with
  | None => JNull
  | Some m => JObject ((fun kv => (chars kv.1, enc_string kv.2)) <$> sorted_entries m)
  end.
Fixpoint dec_entries (l : list (list ascii * json)) (m : gmap string string) : option (gmap string string) :=
  match l with
  | [] => Some m
  | (k, j) :: rest => v ← dec_string j ""%string; dec_entries rest (<[str k := v]> m)
  end.
Definition dec_map (j : json) (old : option (gmap string string)) : option (option (gmap string string)) :=
  match j with
  | JNull => Some None
  | JObject l => Some <$> dec_entries l (default ∅ old)
  | _ => None
  end.

Lemma dec_enc_int n old : is_i64 n -> dec_int (enc_int n) old = Some n.
Proof. intros H. unfold dec_int, enc_int. rewrite str_chars. by rewrite Strconv.Atoi_Itoa. Qed.
Lemma dec_enc_string s old : dec_string (enc_string s) old = Some s.
Proof. unfold dec_string, enc_string. by rewrite str_chars. Qed.

Lemma dec_entries_insert l : forall m,
  dec_entries ((fun kv => (chars kv.1, enc_string kv.2)) <$> l) m = Some (foldl (fun m kv => <[kv.1 := kv.2]> m) m l).
Proof.
  induction l as [|[k v] l IH]; intros m; [done|]. cbn [fmap list_fmap dec_entries fst snd].
  rewrite dec_enc_string, str_chars. apply IH.
Qed.

Lemma foldl_insert_lookup (l : list (string * string)) : forall (m : gmap string string) k,
  NoDup l.*1 ->
  foldl (fun m kv => <[kv.1 := kv.2]> m) m l !! k =
    match list_to_map (M := gmap string string) l !! k with Some v => Some v | None => m !! k end.
Proof.
  induction l as [|[k' v'] l IH]; intros m k Hnd; [simpl; by rewrite lookup_empty|].
  cbn [fmap list_fmap fst] in Hnd. apply NoDup_cons in Hnd as [Hn Hnd]. cbn [foldl]. rewrite IH by done.
  cbn [list_to_map foldr uncurry fst snd]. destruct (decide (k = k')) as [->|Hk].
  - rewrite !lookup_insert_eq. by rewrite not_elem_of_list_to_map_1.
  - rewrite !lookup_insert_ne by done. done.
Qed.

Lemma dec_enc_map m old :
  dec_map (enc_map m) old = Some ((fun m => m ∪ default ∅ old) <$> m).
Proof.
  destruct m as [m|]; [|done]. cbn [enc_map dec_map]. rewrite dec_entries_insert. cbn [fmap option_fmap option_map].
  do 2 f_equal. apply map_eq. intros k. unfold sorted_entries.
  assert (Hp : merge_sort key_le (map_to_list m) ≡ₚ map_to_list m) by apply merge_sort_Permutation.
  assert (Hnd : NoDup (merge_sort key_le (map_to_list m)).*1) by (rewrite Hp; apply NoDup_fst_map_to_list).
  rewrite foldl_insert_lookup by done. rewrite (list_to_map_proper _ _ Hnd Hp), list_to_map_to_list.
  rewrite lookup_union. by destruct (m !! k), (default ∅ old !! k).
Qed.

(** ** Structs *)

Record Field (C : Type) := mkField {
  f_name : string;
  f_enc : C -> option json;
  f_dec : json -> C -> option C }.
Arguments mkField {C} _ _ _.
Arguments f_name {C} _.
Arguments f_enc {C} _ _.
Arguments f_dec {C} _ _ _.

Definition fold_case (l : list ascii) : list ascii := map ToLower l.

Section structs.
Context {C : Type}.

(** The names of the structs here differ also up to case. *)
Definition find_field (fields : list (Field C)) (k : list ascii) : option (Field C) :=
  find (fun f => bool_decide (fold_case (chars (f_name f)) = fold_case k)) fields.

Fixpoint enc_fields (fields : list (Field C)) (c : C) : option (list (list ascii * json)) :=
  match fields with
  | [] => Some []
  | f :: rest => j ← f_enc f c; l ← enc_fields rest c; Some ((chars (f_name f), j) :: l)
  end.
Definition enc_struct (fields : list (Field C)) (c : C) : option json := JObject <$> enc_fields fields c.

Fixpoint dec_fields (fields : list (Field C)) (l : list (list ascii * json)) (c : C) : option C :=
  match l with
  | [] => Some c
  | (k, j) :: rest =>
      c' ← match find_field fields k with Some f => f_dec f j c | None => Some c end;
      dec_fields fields rest c'
  end.
Definition dec_struct (fields : list (Field C)) (j : json) (c : C) : option C :=
  match j with JNull => Some c | JObject l => dec_fields fields l c | _ => None end.

(** Decoding the encoded field of [c] copies it. *)
Definition copies (c : C) (f : Field C) (copy : C -> C -> C) : Prop :=
  forall j d, f_enc f c = Some j -> f_dec f j d = Some (copy c d).

Definition distinct_names (fields : list (Field C)) : bool :=
  bool_decide (NoDup ((fun f => fold_case (chars (f_name f))) <$> fields)).

Lemma find_field_in fields f :
  NoDup ((fun f => fold_case (chars (f_name f))) <$> fields) -> f ∈ fields ->
  find_field fields (chars (f_name f)) = Some f.
Proof.
  unfold find_field. induction fields as [|g fields IH]; intros Hnd Hf; [by apply elem_of_nil in Hf|].
  cbn [fmap list_fmap] in Hnd. apply NoDup_cons in Hnd as [Hg Hnd]. simpl.
  apply elem_of_cons in Hf as [->|Hf]; [by rewrite bool_decide_eq_true_2|].
  rewrite bool_decide_eq_false_2; [by apply IH|]. intros E. apply Hg. rewrite E. apply list_elem_of_fmap. by exists f.
Qed.

(** Decoding what a struct was encoded to copies every field, in order. *)
Lemma struct_roundtrip fields copiers c d j :
  distinct_names fields = true -> Forall2 (copies c) fields copiers ->
  enc_struct fields c = Some j ->
  dec_struct fields j d = Some (foldl (fun d copy => copy c d) d copiers).
Proof.
  intros Hnd%bool_decide_eq_true_1 H2. unfold enc_struct. destruct (enc_fields fields c) as [l|] eqn:El; [|done].
  intros [= <-]. simpl.
  enough (Hgen : forall some l copiers d, Forall2 (copies c) some copiers -> (forall f, f ∈ some -> f ∈ fields) ->
    enc_fields some c = Some l -> dec_fields fields l d = Some (foldl (fun d copy => copy c d) d copiers))
    by (by eapply Hgen).
  clear - Hnd. induction some as [|f some IH]; intros l copiers d H2 Hin El; simpl in El.
  { inversion H2; subst. by injection El as <-. }
  inversion H2 as [|? copy ? copiers' Hf Hrest]; subst.
  destruct (f_enc f c) as [j|] eqn:Ej; [|done]. simpl in El.
  destruct (enc_fields some c) as [l'|] eqn:El'; [|done]. injection El as <-. simpl.
  rewrite find_field_in by (done || apply Hin; by left). rewrite (Hf _ d Ej). simpl.
  eapply IH; [done | | done]. intros g Hg. apply Hin. by right.
Qed.

(** Fields by their type; [set] writes the field. *)
Definition int_field (name : string) (get : C -> Z) (set : Z -> C -> C) : Field C :=
  mkField name (fun c => Some (enc_int (get c))) (fun j c => v ← dec_int j (get c); Some (set v c)).
Definition bool_field (name : string) (get : C -> bool) (set : bool -> C -> C) : Field C :=
  mkField name (fun c => Some (JBool (get c))) (fun j c => v ← dec_bool j (get c); Some (set v c)).
Definition string_field (name : string) (get : C -> string) (set : string -> C -> C) : Field C :=
  mkField name (fun c => Some (enc_string (get c))) (fun j c => v ← dec_string j (get c); Some (set v c)).
Definition float_field (name : string) (get : C -> spec_float) (set : spec_float -> C -> C) : Field C :=
  mkField name (fun c => enc_float (get c)) (fun j c => v ← dec_float j (get c); Some (set v c)).
Definition map_field (name : string) (get : C -> option (gmap string string))
    (set : option (gmap string string) -> C -> C) : Field C :=
  mkField name (fun c => Some (enc_map (get c))) (fun j c => v ← dec_map j (get c); Some (set v c)).

Definition ascii_name (s : string) : bool := forallb is_ascii (chars s).
(** The field can be printed. *)
Definition prints (c : C) (f : Field C) : Prop :=
  ascii_name (f_name f) = true /\ exists j, f_enc f c = Some j /\ jwf j = true.

(** A field of [c] that survives the round trip, with what is copied. *)
Definition sound (c : C) (f : Field C) (copy : C -> C -> C) : Prop := prints c f /\ copies c f copy.

Lemma int_sound c name get set :
  ascii_name name = true -> is_i64 (get c) -> sound c (int_field name get set) (fun c d => set (get c) d).
Proof.
  intros Hn Hi. split; [split; [done|]; eexists; split; [reflexivity | apply Itoa_number]|].
  intros j d [= <-]. cbn [f_dec int_field]. by rewrite dec_enc_int.
Qed.
Lemma bool_sound c name get set :
  ascii_name name = true -> sound c (bool_field name get set) (fun c d => set (get c) d).
Proof. intros Hn. split; [split; [done|]; by eexists|]. by intros j d [= <-]. Qed.
Lemma string_sound c name get set :
  ascii_name name = true -> ascii_name (get c) = true -> sound c (string_field name get set) (fun c d => set (get c) d).
Proof.
  intros Hn Hs. split; [split; [done|]; by eexists|]. intros j d [= <-]. cbn [f_dec string_field].
  by rewrite dec_enc_string.
Qed.
Lemma float_sound c name get set :
  ascii_name name = true -> float_ok (get c) -> sound c (float_field name get set) (fun c d => set (get c) d).
Proof.
  intros Hn (l & Hl & Hw & Hp). split.
  - split; [done|]. exists (JNumber l). simpl. unfold enc_float. by rewrite Hl.
  - intros j d Hj. cbn [f_enc f_dec float_field] in *. unfold enc_float in Hj. rewrite Hl in Hj.
    injection Hj as <-. cbn [dec_float]. by rewrite Hp.
Qed.

Definition ascii_map (m : option (gmap string string)) : Prop :=
  map_Forall (fun k v => ascii_name k = true /\ ascii_name v = true) (default ∅ m).
Lemma map_sound c name get set :
  ascii_name name = true -> ascii_map (get c) ->
  sound c (map_field name get set) (fun c d => set ((fun m => m ∪ default ∅ (get d)) <$> get c) d).
Proof.
  intros Hn Hm. split.
  - split; [done|]. eexists. split; [reflexivity|]. unfold enc_map. destruct (get c) as [m|]; [|done].
    cbn [jwf]. rewrite forallb_forall. intros [k v] (kv & [= -> ->] & Hin)%list_elem_of_In%list_elem_of_fmap.
    unfold sorted_entries in Hin. rewrite (merge_sort_Permutation key_le) in Hin.
    destruct kv as [k v]. apply elem_of_map_to_list in Hin. destruct (Hm _ _ Hin) as [H1 H2].
    unfold ascii_name in *. simpl in *. by rewrite H1, H2.
  - intros j d [= <-]. cbn [f_dec map_field]. by rewrite dec_enc_map.
Qed.

Lemma enc_fields_prints c fields :
  Forall (prints c) fields -> exists l, enc_fields fields c = Some l /\ jwf (JObject l) = true.
Proof.
  induction 1 as [|f fields [Hn (j & Hj & Hw)] _ (l & Hl & Hwl)]; [by exists []|].
  simpl. rewrite Hj, Hl. eexists. split; [reflexivity|]. simpl in *. unfold ascii_name in Hn. by rewrite Hn, Hw.
Qed.

(** Encoding a struct whose fields are sound, and decoding it. *)
Lemma struct_sound fields copiers c :
  distinct_names fields = true -> Forall2 (sound c) fields copiers ->
  exists j, enc_struct fields c = Some j /\ jwf j = true /\
    forall d, dec_struct fields j d = Some (foldl (fun d copy => copy c d) d copiers).
Proof.
  intros Hnd H2. destruct (enc_fields_prints c fields) as (l & Hl & Hw).
  { clear Hnd. induction H2 as [|f copy fields copiers [Hp _] _ IH]; by constructor. }
  exists (JObject l). unfold enc_struct. rewrite Hl. split; [done|]. split; [done|]. intros d.
  apply (struct_roundtrip fields copiers c d); [done | | by unfold enc_struct; rewrite Hl].
  eapply Forall2_impl; [exact H2|]. by intros f copy [_ Hc].
Qed.
End structs.

(** A field that is a struct itself. *)
Definition struct_field {C D} (name : string) (fields : list (Field D)) (get : C -> D) (set : D -> C -> C) : Field C :=
  mkField name (fun c => enc_struct fields (get c)) (fun j c => v ← dec_struct fields j (get c); Some (set v c)).
Lemma struct_field_sound {C D} (c : C) name (fields : list (Field D)) copiers get set :
  ascii_name name = true -> distinct_names fields = true -> Forall2 (sound (get c)) fields copiers ->
  sound c (struct_field name fields get set) (fun c d => set (foldl (fun d copy => copy (get c) d) (get d) copiers) d).
Proof.
  intros Hn Hnd H2. destruct (struct_sound fields copiers (get c) Hnd H2) as (j & Hj & Hw & Hd). split.
  - split; [done|]. by exists j.
  - intros j' d Hj'. cbn [f_enc f_dec struct_field] in *. rewrite Hj in Hj'. injection Hj' as <-. by rewrite Hd.
Qed.
