(* ===== verification/Log.v ===== *)
(** * Logging (log/log.go)

    The severity flag, the four loggers and the level filter.  A line that is
    written is its destination, the prefix of its logger and the formatted text; the
    date, time and file name a logger adds are left out.  What
    the two variants of a function (Debug, Debugf, ...) format is their text
    argument.  [strings.ToUpper] is ASCII; what it makes of other strings is the
    parameter [wide].

    Results: setting the level by name, in any case, and printing it round-trips; a
    message is written exactly when its level is at least the configured one. *)

From Stdlib Require Import Ascii String.
From stdpp Require Import base sets strings numbers list.
From S2P Require Import Prelude.
From S2P Require Import Url.

Local Open Scope Z_scope.
Local Open Scope go_scope.

(** ** Severities *)
Definition severity : Type := Z.
Definition DEBUG : severity := 0.
Definition INFO : severity := 1.
Definition WARNING : severity := 2.
Definition ERROR : severity := 3.
Definition names : list string := ["DEBUG"; "INFO"; "WARNING"; "ERROR"]%string.

Definition strings_ToUpper (wide : string -> string) (s : string) : string :=
  if existsb (fun c => 128 <=? code c) (chars s) then wide s else str (ToUpper <$> chars s).

(** The loop of [Set] from index [i] on. *)
Fixpoint set_loop (i : Z) (l : list string) (value : string) (threshold : severity) : severity :=
  match l with
  | [] => threshold
  | name :: more => set_loop (i + 1) more value (if decide (name = value) then i else threshold)
  end.
Definition severity_Set (wide : string -> string) (value : string) : severity :=
  set_loop 0 names (strings_ToUpper wide value) INFO.
Definition severity_String (s : severity) : outcome string :=
  if 0 <=? s then of_option (names !! Z.to_nat s) else Panic.

(** ** The logger *)
Inductive Dest := Stdout | Stderr | File (name : string).
(** A [stdlog.Logger]: where it writes, and its prefix. *)
Record Sink := mkSink { sk_out : list Dest; sk_prefix : string }.
(** [lg_buffer] is the chain of free buffers; [lg_lines] what has been written. *)
Record logger := mkLogger {
  lg_buffer : list (list ascii);
  lg_debug : Sink;
  lg_info : Sink;
  lg_warning : Sink;
  lg_err : Sink;
  lg_severity : severity;
  lg_dir : string;
  lg_lines : list (Dest * string * string) }.

(** The logger after the package's [init]. *)
Definition init_logger : logger :=
  mkLogger [] (mkSink [Stdout] "[DEBUG] ") (mkSink [Stdout] "[INFO] ") (mkSink [Stderr] "[WARNING] ")
    (mkSink [Stderr] "[ERROR] ") DEBUG "" [].

(** [Setup] opens the file [path] for everything; warnings and errors also go to
    stderr. *)
Definition Setup (path : string) : M logger unit :=
  modify (fun l =>
    let f := File path in
    mkLogger (lg_buffer l) (mkSink [f] "[DEBUG] ") (mkSink [f] "[INFO] ") (mkSink [f; Stderr] "[WARNING] ")
      (mkSink [f; Stderr] "[ERROR] ") (lg_severity l) (lg_dir l) (lg_lines l)).

Definition output (s : Sink) (text : string) : M logger unit :=
  modify (fun l =>
    mkLogger (lg_buffer l) (lg_debug l) (lg_info l) (lg_warning l) (lg_err l) (lg_severity l) (lg_dir l)
      (lg_lines l ++ ((fun d => (d, sk_prefix s, text)) <$> sk_out s))).

Definition Debug (text : string) : M logger unit :=
  l ← gets (fun l => l);
  when (lg_severity l =? DEBUG) (output (lg_debug l) text).
Definition Info (text : string) : M logger unit :=
  l ← gets (fun l => l);
  when (lg_severity l <=? INFO) (output (lg_info l) text).
Definition Warning (text : string) : M logger unit :=
  l ← gets (fun l => l);
  when (lg_severity l <=? WARNING) (output (lg_warning l) text).
Definition Error (text : string) : M logger unit :=
  l ← gets (fun l => l);
  output (lg_err l) text.
(** The process exits: like every fatal error, a panic of the model. *)
Definition Fatal (text : string) : M logger unit := Error text;; panic.

(** [getBuffer] takes a free buffer, emptied, or a new one; [print] fills it and looks
    at its last byte. *)
Definition getBuffer : M logger (list ascii) :=
  modify (fun l =>
    mkLogger (tail (lg_buffer l)) (lg_debug l) (lg_info l) (lg_warning l) (lg_err l) (lg_severity l) (lg_dir l)
      (lg_lines l));;
  ret [].
Definition print (text : string) : M logger unit :=
  b ← getBuffer;
  if bool_decide (b ++ chars text = []) then panic else skip.
Definition printf (text : string) : M logger unit := getBuffer;; skip.

(** ** Properties *)

(** [severity_Set] always gives one of the four levels. *)
Lemma severity_Set_range wide value : DEBUG <= severity_Set wide value <= ERROR.
Proof.
  unfold severity_Set. generalize (strings_ToUpper wide value). intros v. cbn [set_loop names].
  unfold DEBUG, INFO, ERROR. repeat destruct (decide (_ = v)); lia.
Qed.

(** Setting the level to the printed name of a level, in any mixture of cases,
    sets that level; every other name sets INFO. *)
Theorem severity_roundtrip wide s value :
  (forall name, severity_String s = Ret name ->
     strings_ToUpper wide value = name -> severity_Set wide value = s) /\
  (strings_ToUpper wide value ∉ names -> severity_Set wide value = INFO).
Proof.
  split.
  - intros name Hs Hv. unfold severity_Set. rewrite Hv. unfold severity_String in Hs.
    destruct (Z.leb_spec 0 s) as [H0|]; [|done].
    destruct (names !! Z.to_nat s) as [nm|] eqn:E; [|done]. injection Hs as ->.
    assert (s < 4) as H4 by (apply lookup_lt_Some in E; simpl in E; lia).
    assert (s = 0 \/ s = 1 \/ s = 2 \/ s = 3) as Hc by lia.
    destruct Hc as [->|[->|[->| ->]]]; vm_compute in E; injection E as <-; reflexivity.
  - intros Hn. unfold severity_Set. generalize dependent (strings_ToUpper wide value). intros v Hn.
    unfold names in *. cbn [set_loop]. rewrite !decide_False; [done|..]; intros <-; apply Hn; set_solver.
Qed.

(** A message of level [lv] passes to the logger of its level exactly when
    the configured severity is at most [lv]. *)
Definition log_at (lv : severity) : string -> M logger unit :=
  if lv =? DEBUG then Debug else if lv =? INFO then Info else if lv =? WARNING then Warning else Error.
Definition sink_of (lv : severity) (l : logger) : Sink :=
  if lv =? DEBUG then lg_debug l else if lv =? INFO then lg_info l else if lv =? WARNING then lg_warning l else lg_err l.
Lemma level_filter lv text l :
  DEBUG <= lv <= ERROR -> DEBUG <= lg_severity l <= ERROR ->
  log_at lv text l = when (lg_severity l <=? lv) (output (sink_of lv l) text) l.
Proof.
  unfold DEBUG, ERROR. intros Hlv Hs. assert (lv = 0 \/ lv = 1 \/ lv = 2 \/ lv = 3) as Hc by lia.
  destruct Hc as [->|[->|[->| ->]]]; [| done | done |]; unfold log_at, sink_of; simpl.
  - unfold Debug, gbind, gets. assert ((lg_severity l =? DEBUG) = (lg_severity l <=? 0)) as ->; [|done].
    unfold DEBUG. destruct (Z.eqb_spec (lg_severity l) 0), (Z.leb_spec (lg_severity l) 0); lia.
  - unfold Error, gbind, gets. by destruct (Z.leb_spec (lg_severity l) 3); [|lia].
Qed.

(** An empty message makes [print] index before its buffer. *)
Lemma print_empty l : print "" l = Panic.
Proof. reflexivity. Qed.

Lemma Info_returns text l : exists l', Info text l = Ret (tt, l').
Proof. unfold Info, gbind, gets, when. destruct (lg_severity l <=? INFO); eexists; reflexivity. Qed.
