(* ===== verification/Encoding.v ===== *)
(** * Codecs (types/encoding/)

    The interface [Encoder] and its two implementations, which wrap encoding/json
    and go-ethereum's rlp.  The marshalling functions of the two packages are
    parameters; a decoder fills the value it is given, which here is its result. *)

From Stdlib Require Import String.
From stdpp Require Import base list.
From S2P Require Import Prelude.

Local Open Scope go_scope.

(** The part of the interface that is not derived. *)
Class Encoder (V : Type) := {
  Encode : V -> error + list Z;
  Decode : list Z -> option error * V }.

(** The codec of a package with functions [marshal] and [unmarshal]: json.go wraps
    json.Marshal and json.Unmarshal, rlp.go wraps rlp.EncodeToBytes and
    rlp.DecodeBytes. *)
Definition json_Encoder {V} (Marshal : V -> error + list Z) (Unmarshal : list Z -> option error * V) : Encoder V :=
  {| Encode val := Marshal val; Decode b := Unmarshal b |}.
Definition rlp_Encoder {V} (EncodeToBytes : V -> error + list Z) (DecodeBytes : list Z -> option error * V) : Encoder V :=
  {| Encode val := EncodeToBytes val; Decode b := DecodeBytes b |}.

Section must.
Context {V : Type} {E : Encoder V}.

Definition MustEncode (val : V) : outcome (list Z) :=
  match Encode val with inl err => Panic | inr b => Ret b end.
Definition MustDecode (b : list Z) : outcome V :=
  match Decode b with (Some err, _) => Panic | (None, v) => Ret v end.

(** The same two methods of the rlp codec. *)
Definition rlp_MustEncode (EncodeToBytes : V -> error + list Z) (val : V) : outcome (list Z) :=
  match EncodeToBytes val with inl err => Panic | inr b => Ret b end.
Definition rlp_MustDecode (DecodeBytes : list Z -> option error * V) (b : list Z) : outcome V :=
  match DecodeBytes b with (Some err, _) => Panic | (None, v) => Ret v end.

(** What [Decode] undoes, the panicking variants undo. *)
Lemma Must_roundtrip v b :
  Encode v = inr b -> Decode b = (None, v) ->
  (bs ←? MustEncode v; MustDecode bs) = Ret v.
Proof. intros H1 H2. unfold MustEncode, MustDecode. rewrite H1. simpl. by rewrite H2. Qed.
End must.
