(* ===== verification/Config.v ===== *)
(** * Configuration (config/config.go)

    The configuration record with every field of the Go struct, its accessors
    its JSON form: [Save] and [String] encode it, [Load] decodes a file and fills
    the address tables from the lines of ips.txt.  Reading the files is I/O: their
    contents are arguments.  [Load] here is the part after decoding, [LoadFile] the
    whole.  The float fields are IEEE doubles in the Standard Library's
    [spec_float] representation.

    Results: which nodes a loaded configuration has, and that loading what [Save]
    wrote gives the configuration back. *)

From Stdlib Require Import Ascii String SpecFloat.
From stdpp Require Import base gmap strings numbers list.
From coqutil Require Import Datatypes.RecordSetters.
From S2P Require Import Prelude.
From S2P Require Import Identity.
From S2P Require Import Url.
From S2P Require Import Float.
From S2P Require Import Json.

Local Open Scope Z_scope.
Local Open Scope go_scope.

(** [Bconfig]: the benchmark's settings. *)
Record Bconfig := mkBconfig {
  bench_T : Z;
  bench_N : Z;
  bench_K : Z;
  bench_Throttle : Z;
  bench_Concurrency : Z;
  bench_Distribution : string;
  bench_Conflicts : Z;
  bench_Min : Z;
  bench_Mu : spec_float;
  bench_Sigma : spec_float;
  bench_Move : bool;
  bench_Speed : Z
}.
Definition zero_Bconfig : Bconfig :=
  mkBconfig 0 0 0 0 0 "" 0 0 (S754_zero false) (S754_zero false) false 0.

(** A nil map is [None]: reading it is like reading an empty map, writing to it
    panics. *)
Record Config := mkConfig {
  Addrs : option (gmap NodeID string);
  HTTPAddrs : option (gmap NodeID string);
  cfg_Policy : string;
  cfg_Threshold : spec_float;
  cfg_Thrifty : bool;
  cfg_BufferSize : Z;
  ChanBufferSize : Z;
  MultiVersion : bool;
  Timeout : Z;
  ByzNo : Z;
  BSize : Z;
  cfg_Fixed : bool;
  cfg_Benchmark : Bconfig;
  cfg_Delta : Z;
  cfg_Pprof : bool;
  cfg_MaxRound : Z;
  Strategy : string;
  PayloadSize : Z;
  Master : NodeID;
  cfg_Delay : Z;
  cfg_DErr : Z;
  MemSize : Z;
  cfg_Slow : Z;
  cfg_Crash : Z;
  cfg_BroadcastQC : bool;
  cfg_Longest : bool;
  ForkATK : bool;
  cfg_DelayATK : bool;
  Algorithm : string;
  cfg_OutputLog : bool;
  config_hasher : string;
  config_signer : string;
  config_n : Z
}.

(** The double 3.0: mantissa [3 * 2^51] of 53 bits, exponent -51. *)
Definition float_three : spec_float := S754_finite false 6755399441055744 (-51).

Definition MakeDefaultConfig : Config :=
  {| Addrs := None; HTTPAddrs := None; cfg_Policy := "consecutive"; cfg_Threshold := float_three;
     cfg_Thrifty := false; cfg_BufferSize := 1024;
     ChanBufferSize := 1024; MultiVersion := false; Timeout := 0; ByzNo := 0; BSize := 0;
     cfg_Fixed := false; cfg_Benchmark := zero_Bconfig; cfg_Delta := 0; cfg_Pprof := false;
     cfg_MaxRound := 0; Strategy := ""; PayloadSize := 0; Master := ""; cfg_Delay := 0; cfg_DErr := 0;
     MemSize := 0; cfg_Slow := 0; cfg_Crash := 0; cfg_BroadcastQC := false; cfg_Longest := false;
     ForkATK := false; cfg_DelayATK := false; Algorithm := ""; cfg_OutputLog := false;
     config_hasher := "sha3_256"; config_signer := "ECDSA_P256"; config_n := 0 |}.

(** [GetTimer]: the timeout in nanoseconds, a wrapping product. *)
Definition GetTimer (c : Config) : Z := i64 (Timeout c * 1000000).

Definition Config_N (c : Config) : Z := config_n c.
Definition GetHashScheme (c : Config) : string := config_hasher c.
Definition GetSignatureScheme (c : Config) : string := config_signer c.

(** [Config.IDs]: the keys of the address map (Go's iteration order is
    unspecified; the model takes the map's own order). *)
Definition IDs (c : Config) : list NodeID := (map_to_list (default ∅ (Addrs c))).*1.

Definition IsByzantine (c : Config) (id : NodeID) : bool := Node id <=? ByzNo c.

Definition map_write (m : option (gmap NodeID string)) (k : NodeID) (v : string) :
    outcome (gmap NodeID string) :=
  match m with Some m => Ret (<[k := v]> m) | None => Panic end.

(** The loop of [Load] over the scanned lines of ips.txt, [i] the next node
    number. *)
Fixpoint load_ips (i : Z) (lines : list string) (addrs http : option (gmap NodeID string)) :
    outcome (option (gmap NodeID string) * option (gmap NodeID string)) :=
  match lines with
  | [] => Ret (addrs, http)
  | ip :: rest =>
      let id := NewNodeID i in
      let port := Strconv.Itoa (i64 (3734 + i)) in
      let addr := ("tcp://" +:+ ip +:+ ":" +:+ port)%string in
      let portHttp := Strconv.Itoa (i64 (8069 + i)) in
      let addrHttp := ("http://" +:+ ip +:+ ":" +:+ portHttp)%string in
      addrs' ←? map_write addrs id addr;
      http' ←? map_write http id addrHttp;
      load_ips (i64 (i + 1)) rest (Some addrs') (Some http')
  end.

(** A configuration with other address tables and node count; [Load] counts the
    addresses. *)
Definition with_tables (a h : option (gmap NodeID string)) (n : Z) (c : Config) : Config :=
  {| Addrs := a; HTTPAddrs := h; cfg_Policy := cfg_Policy c; cfg_Threshold := cfg_Threshold c;
     cfg_Thrifty := cfg_Thrifty c; cfg_BufferSize := cfg_BufferSize c; ChanBufferSize := ChanBufferSize c;
     MultiVersion := MultiVersion c; Timeout := Timeout c; ByzNo := ByzNo c; BSize := BSize c;
     cfg_Fixed := cfg_Fixed c; cfg_Benchmark := cfg_Benchmark c; cfg_Delta := cfg_Delta c;
     cfg_Pprof := cfg_Pprof c; cfg_MaxRound := cfg_MaxRound c;
     Strategy := Strategy c; PayloadSize := PayloadSize c; Master := Master c;
     cfg_Delay := cfg_Delay c; cfg_DErr := cfg_DErr c;
     MemSize := MemSize c; cfg_Slow := cfg_Slow c; cfg_Crash := cfg_Crash c;
     cfg_BroadcastQC := cfg_BroadcastQC c; cfg_Longest := cfg_Longest c; ForkATK := ForkATK c;
     cfg_DelayATK := cfg_DelayATK c; Algorithm := Algorithm c; cfg_OutputLog := cfg_OutputLog c;
     config_hasher := config_hasher c; config_signer := config_signer c; config_n := n |}.
Definition set_tables (c : Config) (a h : option (gmap NodeID string)) : Config :=
  with_tables a h (Z.of_nat (size (default ∅ a))) c.

Definition Load (decoded : Config) (lines : list string) : outcome Config :=
  '(a, h) ←? load_ips 1 lines (Addrs decoded) (HTTPAddrs decoded);
  Ret (set_tables decoded a h).

(** A configuration with other fault and benchmark settings: what the concrete
    examples of the library vary. *)
Definition set_faults (byz : Z) (strategy : string) (slow crash : Z) (b : Bconfig) (c : Config) : Config :=
  {| Addrs := Addrs c; HTTPAddrs := HTTPAddrs c; cfg_Policy := cfg_Policy c; cfg_Threshold := cfg_Threshold c;
     cfg_Thrifty := cfg_Thrifty c; cfg_BufferSize := cfg_BufferSize c; ChanBufferSize := ChanBufferSize c;
     MultiVersion := MultiVersion c; Timeout := Timeout c; ByzNo := byz; BSize := BSize c;
     cfg_Fixed := cfg_Fixed c; cfg_Benchmark := b; cfg_Delta := cfg_Delta c;
     cfg_Pprof := cfg_Pprof c; cfg_MaxRound := cfg_MaxRound c;
     Strategy := strategy; PayloadSize := PayloadSize c; Master := Master c;
     cfg_Delay := cfg_Delay c; cfg_DErr := cfg_DErr c;
     MemSize := MemSize c; cfg_Slow := slow; cfg_Crash := crash;
     cfg_BroadcastQC := cfg_BroadcastQC c; cfg_Longest := cfg_Longest c; ForkATK := ForkATK c;
     cfg_DelayATK := cfg_DelayATK c; Algorithm := Algorithm c; cfg_OutputLog := cfg_OutputLog c;
     config_hasher := config_hasher c; config_signer := config_signer c; config_n := config_n c |}.

(** ** Properties *)

Lemma load_ips_dom lines i addrs http a h :
  1 <= i -> i + Z.of_nat (length lines) < two63 ->
  load_ips i lines (Some addrs) (Some http) = Ret (a, h) ->
  exists a', a = Some a' /\
    (forall id, is_Some (a' !! id) <->
       is_Some (addrs !! id) \/
       exists k, i <= k < i + Z.of_nat (length lines) /\ id = NewNodeID k).
Proof.
  revert i addrs http. induction lines as [|ip lines IH]; intros i addrs http Hi Hlen; simpl.
  - intros [= <- <-]. exists addrs. split; [done|]. intros id. split; [by left|].
    intros [?|(k & Hk & _)]; [done | lia].
  - simpl in *. intros H.
    rewrite i64_id in H by (unfold is_i64, two63 in *; lia).
    apply IH in H as (a' & -> & Ha'); [|lia|lia]. exists a'. split; [done|].
    intros id. rewrite Ha', lookup_insert_is_Some. split.
    + intros [[<-|[_ ?]]|(k & Hk & ->)]; [right; exists i; split; [lia|done] | by left |].
      right. exists k. split; [lia|done].
    + intros [?|(k & Hk & ->)].
      * left. destruct (decide (NewNodeID i = id)); [by left | by right].
      * destruct (decide (k = i)) as [->|]; [by left; left|].
        right. exists k. split; [lia | done].
Qed.

Lemma load_ips_returns lines i addrs http :
  returns (load_ips i lines (Some addrs) (Some http)).
Proof.
  revert i addrs http. induction lines as [|ip lines IH]; intros i addrs http; simpl; [by eexists|].
  simpl. apply IH.
Qed.

(** The node ids [1 .. k], as the rest of the development uses them. *)
Definition node_ids (k : nat) : list NodeID := (fun i => NewNodeID (Z.of_nat i)) <$> seq 1 k.

Lemma node_ids_NoDup k : Z.of_nat k < two63 -> NoDup (node_ids k).
Proof.
  intros Hk. apply NoDup_fmap_2_strong; [|apply NoDup_seq].
  intros a b Ha%elem_of_seq Hb%elem_of_seq E. apply NewNodeID_inj in E; lia.
Qed.

Lemma elem_of_node_ids k id :
  id ∈ node_ids k <-> exists i, 1 <= i < 1 + Z.of_nat k /\ id = NewNodeID i.
Proof.
  unfold node_ids. rewrite list_elem_of_fmap. split.
  - intros (j & -> & Hj%elem_of_seq). exists (Z.of_nat j). split; [lia|done].
  - intros (i & Hi & ->). exists (Z.to_nat i). split; [by rewrite Z2Nat.id by lia|].
    apply elem_of_seq. lia.
Qed.

(** Loading a configuration whose address maps are present but empty from
    a file of [k] addresses returns a configuration with exactly the nodes
    [1 .. k], [n] of them. *)
Theorem Load_nodes c lines :
  Addrs c = Some ∅ -> HTTPAddrs c = Some ∅ -> 1 + Z.of_nat (length lines) < two63 ->
  exists c', Load c lines = Ret c' /\
    Config_N c' = Z.of_nat (length lines) /\
    (forall id, id ∈ IDs c' <-> id ∈ node_ids (length lines)).
Proof.
  intros HA HH Hlen. unfold Load. rewrite HA, HH.
  destruct (load_ips_returns lines 1 ∅ ∅) as [[a h] E]. rewrite E. simpl.
  eexists. split; [done|].
  apply load_ips_dom in E as (a' & -> & Ha'); [|lia|lia].
  assert (dom a' = list_to_set (node_ids (length lines))) as Hdom.
  { apply set_eq. intros id. rewrite elem_of_dom, elem_of_list_to_set, elem_of_node_ids, Ha'.
    rewrite lookup_empty. split; [intros [[? ?]|?]; done | by right]. }
  split.
  - unfold Config_N. simpl. rewrite <- size_dom, Hdom, size_list_to_set.
    + unfold node_ids. by rewrite length_fmap, length_seq.
    + apply node_ids_NoDup. lia.
  - intros id. unfold IDs. simpl.
    rewrite <- (elem_of_list_to_set (C := gset NodeID) id (node_ids _)), <- Hdom, elem_of_dom.
    rewrite list_elem_of_fmap. split.
    + intros ([k v] & -> & Hin%elem_of_map_to_list). by eexists.
    + intros [v Hv]. exists (id, v). split; [done|]. by apply elem_of_map_to_list.
Qed.

Lemma Load_nodes_witness :
  exists c', Load (set_tables MakeDefaultConfig (Some ∅) (Some ∅)) ["10.0.0.1"; "10.0.0.2"]%string
             = Ret c' /\ Config_N c' = 2 /\ (forall id, id ∈ IDs c' <-> id ∈ node_ids 2).
Proof.
  apply (Load_nodes (set_tables MakeDefaultConfig (Some ∅) (Some ∅)) ["10.0.0.1"; "10.0.0.2"]%string);
    [reflexivity | reflexivity | vm_compute; reflexivity].
Defined.

(** ** The JSON form *)

Import DoubleBraceUpdate.

Definition bench_fields : list (Field Bconfig) :=
  [int_field "T" bench_T (fun v c => c {{ bench_T := v }});
   int_field "N" bench_N (fun v c => c {{ bench_N := v }});
   int_field "K" bench_K (fun v c => c {{ bench_K := v }});
   int_field "Throttle" bench_Throttle (fun v c => c {{ bench_Throttle := v }});
   int_field "Concurrency" bench_Concurrency (fun v c => c {{ bench_Concurrency := v }});
   string_field "Distribution" bench_Distribution (fun v c => c {{ bench_Distribution := v }});
   int_field "Conflicts" bench_Conflicts (fun v c => c {{ bench_Conflicts := v }});
   int_field "Min" bench_Min (fun v c => c {{ bench_Min := v }});
   float_field "Mu" bench_Mu (fun v c => c {{ bench_Mu := v }});
   float_field "Sigma" bench_Sigma (fun v c => c {{ bench_Sigma := v }});
   bool_field "Move" bench_Move (fun v c => c {{ bench_Move := v }});
   int_field "Speed" bench_Speed (fun v c => c {{ bench_Speed := v }})].

(** The exported fields under the names of their tags, in the order of the
    struct. *)
Definition config_fields : list (Field Config) :=
  [map_field "address" Addrs (fun v c => c {{ Addrs := v }});
   map_field "http_address" HTTPAddrs (fun v c => c {{ HTTPAddrs := v }});
   string_field "policy" cfg_Policy (fun v c => c {{ cfg_Policy := v }});
   float_field "threshold" cfg_Threshold (fun v c => c {{ cfg_Threshold := v }});
   bool_field "thrifty" cfg_Thrifty (fun v c => c {{ cfg_Thrifty := v }});
   int_field "buffer_size" cfg_BufferSize (fun v c => c {{ cfg_BufferSize := v }});
   int_field "chan_buffer_size" ChanBufferSize (fun v c => c {{ ChanBufferSize := v }});
   bool_field "multiversion" MultiVersion (fun v c => c {{ MultiVersion := v }});
   int_field "timeout" Timeout (fun v c => c {{ Timeout := v }});
   int_field "byzNo" ByzNo (fun v c => c {{ ByzNo := v }});
   int_field "bsize" BSize (fun v c => c {{ BSize := v }});
   bool_field "fixed" cfg_Fixed (fun v c => c {{ cfg_Fixed := v }});
   struct_field "benchmark" bench_fields cfg_Benchmark (fun v c => c {{ cfg_Benchmark := v }});
   int_field "delta" cfg_Delta (fun v c => c {{ cfg_Delta := v }});
   bool_field "pprof" cfg_Pprof (fun v c => c {{ cfg_Pprof := v }});
   int_field "maxRound" cfg_MaxRound (fun v c => c {{ cfg_MaxRound := v }});
   string_field "strategy" Strategy (fun v c => c {{ Strategy := v }});
   int_field "payload_size" PayloadSize (fun v c => c {{ PayloadSize := v }});
   string_field "master" Master (fun v c => c {{ Master := v }});
   int_field "delay" cfg_Delay (fun v c => c {{ cfg_Delay := v }});
   int_field "derr" cfg_DErr (fun v c => c {{ cfg_DErr := v }});
   int_field "memsize" MemSize (fun v c => c {{ MemSize := v }});
   int_field "slow" cfg_Slow (fun v c => c {{ cfg_Slow := v }});
   int_field "crash" cfg_Crash (fun v c => c {{ cfg_Crash := v }});
   bool_field "broadcastQC" cfg_BroadcastQC (fun v c => c {{ cfg_BroadcastQC := v }});
   bool_field "longest" cfg_Longest (fun v c => c {{ cfg_Longest := v }});
   bool_field "forkATK" ForkATK (fun v c => c {{ ForkATK := v }});
   bool_field "delayATK" cfg_DelayATK (fun v c => c {{ cfg_DelayATK := v }});
   string_field "algo" Algorithm (fun v c => c {{ Algorithm := v }});
   bool_field "outputLog" cfg_OutputLog (fun v c => c {{ cfg_OutputLog := v }})].

(** [String]: an encoding error is logged. *)
Definition Config_String (c : Config) : string :=
  match enc_struct config_fields c with Some j => Marshal j | None => ""%string end.

(** [Save]: the error and the contents of the file; [created] is the error of
    [os.Create]. *)
Definition Save (created : option error) (c : Config) : option error * string :=
  match created with
  | Some err => (Some err, ""%string)
  | None =>
      match enc_struct config_fields c with
      | Some j => (None, (Marshal j +:+ newline)%string)
      | None => (Some "json: unsupported value"%string, ""%string)
      end
  end.

(** [Load]: [text] is the file, [None] if it cannot be opened; every error is
    fatal.  [c] is the configuration there is, [lines] those of ips.txt. *)
Definition LoadFile (exotic : list ascii -> option json) (text : option string) (lines : list string) (c : Config) :
    outcome Config :=
  match text with
  | None => Panic
  | Some text =>
      match parse exotic (chars text) with
      | None => Panic
      | Some j => match dec_struct config_fields j c with None => Panic | Some c => Load c lines end
      end
  end.

Example default_text : Config_String (set_tables MakeDefaultConfig (Some {["1" := "tcp://10.0.0.1:3735"]}) None)%string =
  str (map (fun c => if bool_decide (c = "'"%char) then dquote else c) (chars
  "{'address':{'1':'tcp://10.0.0.1:3735'},'http_address':null,'policy':'consecutive','threshold':3,'thrifty':false,'buffer_size':1024,'chan_buffer_size':1024,'multiversion':false,'timeout':0,'byzNo':0,'bsize':0,'fixed':false,'benchmark':{'T':0,'N':0,'K':0,'Throttle':0,'Concurrency':0,'Distribution':'','Conflicts':0,'Min':0,'Mu':0,'Sigma':0,'Move':false,'Speed':0},'delta':0,'pprof':false,'maxRound':0,'strategy':'','payload_size':0,'master':'','delay':0,'derr':0,'memsize':0,'slow':0,'crash':0,'broadcastQC':false,'longest':false,'forkATK':false,'delayATK':false,'algo':'','outputLog':false}")).
Proof. vm_compute. reflexivity. Qed.

(** What the round trip below asks of a configuration: machine integers, ASCII
    strings, and whole numbers up to 1000 in the three float settings. *)
Definition bench_ok (b : Bconfig) : Prop :=
  Forall is_i64 [bench_T b; bench_N b; bench_K b; bench_Throttle b; bench_Concurrency b; bench_Conflicts b; bench_Min b;
                 bench_Speed b] /\
  ascii_name (bench_Distribution b) = true /\ whole_float (bench_Mu b) /\ whole_float (bench_Sigma b).
Definition config_ok (c : Config) : Prop :=
  Forall is_i64 [cfg_BufferSize c; ChanBufferSize c; Timeout c; ByzNo c; BSize c; cfg_Delta c; cfg_MaxRound c;
                 PayloadSize c; cfg_Delay c; cfg_DErr c; MemSize c; cfg_Slow c; cfg_Crash c] /\
  Forall (fun s => ascii_name s = true) [cfg_Policy c; Strategy c; Master c; Algorithm c] /\
  ascii_map (Addrs c) /\ ascii_map (HTTPAddrs c) /\ whole_float (cfg_Threshold c) /\ bench_ok (cfg_Benchmark c).

Ltac sound_fields :=
  repeat first
    [ apply List.Forall2_nil
    | apply List.Forall2_cons;
      [ first [ apply int_sound | apply bool_sound | apply string_sound | apply float_sound | apply map_sound ];
        first [ assumption | vm_compute; reflexivity ] | ] ].

Lemma bench_sound b : bench_ok b ->
  exists copiers, Forall2 (sound b) bench_fields copiers /\ forall d, foldl (fun d copy => copy b d) d copiers = b.
Proof.
  intros (Hi & Hs & Hm%whole_float_ok & Hg%whole_float_ok). repeat (apply Forall_cons in Hi as [? Hi]).
  eexists. split; [unfold bench_fields; sound_fields|]. intros d. destruct b, d. reflexivity.
Qed.

(** Decoding the encoding into a configuration without address tables replaces
    everything but the unexported fields. *)
Definition exported (c d : Config) : Config :=
  c {{ config_hasher := config_hasher d; config_signer := config_signer d; config_n := config_n d }}.

Lemma config_sound c : config_ok c ->
  exists j, enc_struct config_fields c = Some j /\ jwf j = true /\
    forall d, Addrs d = None -> HTTPAddrs d = None -> dec_struct config_fields j d = Some (exported c d).
Proof.
  intros (Hi & Hs & Ha & Hh & Ht%whole_float_ok & Hb). repeat (apply Forall_cons in Hi as [? Hi]). repeat (apply Forall_cons in Hs as [? Hs]).
  destruct (bench_sound _ Hb) as (bc & Hbc & Hbd).
  edestruct (struct_sound config_fields) as (j & Hj & Hw & Hd); [vm_compute; reflexivity | |].
  { unfold config_fields. repeat first [ apply List.Forall2_nil | apply List.Forall2_cons;
      [ first [ apply int_sound | apply bool_sound | apply string_sound | apply float_sound | apply map_sound
              | apply (struct_field_sound c "benchmark" bench_fields bc) ];
        first [ eassumption | vm_compute; reflexivity ] | ] ]. }
  exists j. split; [exact Hj|]. split; [exact Hw|]. intros d HA HH. rewrite Hd. f_equal. cbn [foldl].
  rewrite Hbd. destruct c as [a h], d. simpl in HA, HH. subst. unfold exported. cbn.
  assert (forall m : option (gmap NodeID string), (fun m0 => m0 ∪ ∅) <$> m = m) as Hu
    by (intros [m|]; [simpl; by rewrite map_union_empty | done]).
  by rewrite !Hu.
Qed.

(** C33.  Loading what [Save] wrote gives the configuration back: for a
    configuration of machine integers and ASCII strings whose three float settings
    are whole numbers up to 1000, a process that starts from the defaults and reads
    the file, with an empty ips.txt, has every exported setting as it was saved; of
    the unexported fields, which the file does not have, hasher and signer are the
    defaults and the node count is the number of addresses. *)
Theorem Save_Load exotic c :
  config_ok c ->
  exists text, Save None c = (None, text) /\
    LoadFile exotic (Some text) [] MakeDefaultConfig =
      Ret (c {{ config_hasher := config_hasher MakeDefaultConfig; config_signer := config_signer MakeDefaultConfig;
                config_n := Z.of_nat (size (default ∅ (Addrs c))) }}).
Proof.
  intros Hok. destruct (config_sound c Hok) as (j & Hj & Hw & Hd). unfold Save. rewrite Hj.
  eexists. split; [reflexivity|]. unfold LoadFile, Marshal.
  rewrite chars_app, chars_str, parse_print by done. rewrite Hd by done.
  unfold Load. cbn [load_ips obind]. destruct c. reflexivity.
Qed.

Definition saved : Config :=
  set_tables MakeDefaultConfig (Some {["1" := "tcp://10.0.0.1:3735"]}) (Some {["1" := "http://10.0.0.1:8070"]}).
Lemma Save_Load_witness :
  config_ok saved /\ exists text, Save None saved = (None, text) /\
    LoadFile (fun _ => None) (Some text) [] MakeDefaultConfig =
      Ret (saved {{ config_hasher := config_hasher MakeDefaultConfig; config_signer := config_signer MakeDefaultConfig;
                    config_n := 1 }}).
Proof.
  assert (Hok : config_ok saved).
  { assert (Hw : forall n, (0 <= n <= 1000)%Z -> whole_float (f64_of_Z n)) by (intros n Hn; by exists n).
    unfold config_ok, bench_ok. split_and!.
    - repeat constructor; vm_compute; discriminate.
    - repeat constructor.
    - apply (map_Forall_singleton _ "1"%string "tcp://10.0.0.1:3735"%string). vm_compute. split; reflexivity.
    - apply (map_Forall_singleton _ "1"%string "http://10.0.0.1:8070"%string). vm_compute. split; reflexivity.
    - exact (Hw 3%Z ltac:(lia)).
    - repeat constructor; vm_compute; discriminate.
    - reflexivity.
    - exact (Hw 0%Z ltac:(lia)).
    - exact (Hw 0%Z ltac:(lia)). }
  split; [exact Hok|]. exact (Save_Load (fun _ => None) saved Hok).
Defined.
