(* ===== verification/Crypto.v ===== *)
(** * Identifiers, hashes and signatures (crypto/)

    - [Identifier] is Go's [[32]byte]; [HashToID] copies a hash into it.
    - The hashers of sha3.go wrap golang.org/x/crypto/sha3, which is not part of
      the repository: the digest functions are the fields of class [Sha3].
    - Signing and verification wrap the curve operations of crypto/ecdsa: class
      [Ecdsa].  The repository's own code (key tables indexed by node number,
      decimal serialisation of [r] and [s], quorum verification) is modelled as
      it stands, including the index panics. *)

From Stdlib Require Import Ascii String.
From stdpp Require Import base gmap strings numbers list.
From S2P Require Import Prelude.
From S2P Require Import Identity.
From S2P Require Import Config.

Local Open Scope Z_scope.
Local Open Scope go_scope.

Abbreviation bytes := (list Z) (only parsing).

(** ** id.go *)

Definition Identifier : Type := list Z.
#[global] Instance Identifier_eq_dec : EqDecision Identifier := _.
#[global] Instance Identifier_countable : Countable Identifier := _.

(** [var id Identifier]: 32 zero bytes. *)
Definition zeroID : Identifier := replicate 32 0.

(** Go's [copy(dst, src)]: the first [min (len dst) (len src)] elements. *)
Definition go_copy {A} (dst src : list A) : list A :=
  take (length dst) src ++ drop (length src) dst.

Definition HashToID (hash : bytes) : Identifier := go_copy zeroID hash.
Definition IDToByte (id : Identifier) : bytes := id.

Lemma length_go_copy {A} (dst src : list A) : length (go_copy dst src) = length dst.
Proof. unfold go_copy. rewrite length_app, length_take, length_drop. lia. Qed.

(** Converting an identifier to bytes and back is the identity, and every
    hash gives an identifier of 32 bytes. *)
Theorem HashToID_IDToByte (id : Identifier) (hash : bytes) :
  length (HashToID hash) = 32%nat /\ (length id = 32%nat -> HashToID (IDToByte id) = id).
Proof.
  split; [apply length_go_copy|]. intros H. unfold HashToID, IDToByte, go_copy, zeroID.
  rewrite length_replicate, drop_ge, app_nil_r by (rewrite length_replicate; lia).
  apply take_ge. lia.
Qed.

(** ** hash.go and sha3.go *)

(** [Hash] is [[]byte]. *)
Definition Hash_Equal (h input : bytes) : bool := bool_decide (h = input).

(** [Hex]: [hex.EncodeToString]. *)
Definition Hash_Hex (h : bytes) : string := Strconv.hex_bytes h.

(** [BytesToHash]: [make([]byte, len(b))], then [copy]. *)
Definition BytesToHash (b : bytes) : bytes := go_copy (replicate (length b) 0) b.

(** [HashesToBytes]: the loop stores [hashes[i]] at index [i] of a slice of the
    same length. *)
Fixpoint hashesToBytes_loop (i : nat) (hashes : list bytes) (b : list bytes) : list bytes :=
  match hashes with [] => b | h :: rest => hashesToBytes_loop (S i) rest (<[i := h]> b) end.
Definition HashesToBytes (hashes : list bytes) : list bytes :=
  hashesToBytes_loop 0 hashes (replicate (length hashes) []).

Lemma hashesToBytes_loop_spec hashes pre tail :
  length tail = length hashes ->
  hashesToBytes_loop (length pre) hashes (pre ++ tail) = pre ++ hashes.
Proof.
  revert pre tail. induction hashes as [|h rest IH]; intros pre [|t tail] Hl; try done.
  simpl in *. rewrite insert_app_r_alt, Nat.sub_diag by lia. simpl.
  replace (S (length pre)) with (length (pre ++ [h])) by (rewrite length_app; simpl; lia).
  replace (pre ++ h :: tail) with ((pre ++ [h]) ++ tail) by (by rewrite <- app_assoc).
  rewrite IH by lia. by rewrite <- app_assoc.
Qed.

(** The two conversions copy: they return what they are given, [Equal] to it. *)
Theorem hash_conversions (b : bytes) (hashes : list bytes) :
  Hash_Equal (BytesToHash b) b = true /\ HashesToBytes hashes = hashes.
Proof.
  split.
  - apply bool_decide_eq_true_2. unfold BytesToHash, go_copy.
    rewrite length_replicate, take_ge, drop_ge, app_nil_r by (rewrite ?length_replicate; lia). done.
  - apply (hashesToBytes_loop_spec hashes [] (replicate (length hashes) [])). by rewrite length_replicate.
Qed.

(** The digests of golang.org/x/crypto/sha3, with their documented lengths. *)
Class Sha3 := {
  sha3_224 : bytes -> bytes;
  sha3_256 : bytes -> bytes;
  sha3_384 : bytes -> bytes;
  sha3_512 : bytes -> bytes }.
Class Sha3Laws (H : Sha3) : Prop := {
  sha3_224_len d : length (sha3_224 d) = 28%nat;
  sha3_256_len d : length (sha3_256 d) = 32%nat;
  sha3_384_len d : length (sha3_384 d) = 48%nat;
  sha3_512_len d : length (sha3_512 d) = 64%nat }.

Section hashers.
Context {H : Sha3}.

Inductive HashAlg := SHA3_224 | SHA3_256 | SHA3_384 | SHA3_512.

(** A hasher: its algorithm and the bytes written since the last reset. *)
Record Hasher := mkHasher { h_alg : HashAlg; h_written : bytes }.

Definition outputSize (a : HashAlg) : nat :=
  match a with SHA3_224 => 32 | SHA3_256 => 32 | SHA3_384 => 32 | SHA3_512 => 32 end.

Definition digest (a : HashAlg) (d : bytes) : bytes :=
  match a with
  | SHA3_224 => sha3_224 d | SHA3_256 => sha3_256 d
  | SHA3_384 => sha3_384 d | SHA3_512 => sha3_512 d
  end.

Definition NewSHA3_224 : Hasher := mkHasher SHA3_224 [].
Definition NewSHA3_256 : Hasher := mkHasher SHA3_256 [].
Definition NewSHA3_384 : Hasher := mkHasher SHA3_384 [].
Definition NewSHA3_512 : Hasher := mkHasher SHA3_512 [].

(** The constants [SHA3_224] to [SHA3_512] of hash.go. *)
Definition alg_name (a : HashAlg) : string :=
  match a with
  | SHA3_224 => "sha3_224" | SHA3_256 => "sha3_256" | SHA3_384 => "sha3_384" | SHA3_512 => "sha3_512"
  end.

Definition NewHasher (hashType : string) : error + Hasher :=
  if decide (hashType = alg_name SHA3_224) then inr NewSHA3_224
  else if decide (hashType = alg_name SHA3_256) then inr NewSHA3_256
  else if decide (hashType = alg_name SHA3_384) then inr NewSHA3_384
  else if decide (hashType = alg_name SHA3_512) then inr NewSHA3_512
  else inl "Invalid hasher type!"%string.

Definition Hasher_Reset : M Hasher unit := modify (fun s => mkHasher (h_alg s) []).
Definition Hasher_Write (d : bytes) : M Hasher unit :=
  modify (fun s => mkHasher (h_alg s) (h_written s ++ d)).

(** [hash.Hash.Sum(b)] appends the digest to [b] and leaves the state. *)
Definition Hasher_Sum (b : bytes) : M Hasher bytes :=
  gets (fun s => b ++ digest (h_alg s) (h_written s)).

(** [ComputeHash]: reset, write, sum onto an empty slice. *)
Definition ComputeHash (data : bytes) : M Hasher bytes :=
  Hasher_Reset;; Hasher_Write data;; Hasher_Sum [].

(** Appending to [backing[:0]]: in place when the backing array has room,
    otherwise the runtime reallocates and [backing] keeps its contents. *)
Definition append_in_place (backing data : bytes) : bytes :=
  if decide (length data <= length backing)%nat then go_copy backing data else backing.

(** [SumHash]: [digest := make(Hash, outputSize); s.Sum(digest[:0]); s.Reset();
    return digest] - the slice returned by [Sum] is discarded. *)
Definition SumHash : M Hasher bytes :=
  a ← gets h_alg;
  d ← Hasher_Sum [];
  Hasher_Reset;;
  ret (append_in_place (replicate (outputSize a) 0) d).

(** [ComputeHash] is the digest of its argument whatever was written
    before.  [SumHash] agrees with the digest of what was written for SHA3-256
    only: for SHA3-384 and SHA3-512 the declared output length is 32, the
    append reallocates, and the result is 32 zero bytes for every input. *)
Theorem SumHash_spec (HL : Sha3Laws H) (s : Hasher) (data : bytes) :
  ComputeHash data s = Ret (digest (h_alg s) data, mkHasher (h_alg s) data) /\
  SumHash s = Ret (match h_alg s with
                   | SHA3_224 => sha3_224 (h_written s) ++ [0; 0; 0; 0]
                   | SHA3_256 => sha3_256 (h_written s)
                   | SHA3_384 | SHA3_512 => replicate 32 0
                   end, mkHasher (h_alg s) []).
Proof.
  split; [reflexivity|]. destruct s as [a w]. destruct HL as [H1 H2 H3 H4].
  specialize (H1 w); specialize (H2 w); specialize (H3 w); specialize (H4 w).
  unfold SumHash. cbv [gbind ret gets Hasher_Sum Hasher_Reset modify h_alg h_written].
  unfold append_in_place, go_copy. destruct a; cbn [digest outputSize app].
  - rewrite decide_True by (rewrite length_replicate; lia). rewrite length_replicate, H1.
    by rewrite take_ge by lia.
  - rewrite decide_True by (rewrite length_replicate; lia). rewrite length_replicate, H2.
    rewrite take_ge by lia. by rewrite drop_ge, app_nil_r by (rewrite length_replicate; lia).
  - by rewrite decide_False by (rewrite length_replicate; lia).
  - by rewrite decide_False by (rewrite length_replicate; lia).
Qed.

(** [MakeID]: SHA3-256 of the encoded value.  The encoder
    (types/encoding/json over encoding/json) is the argument. *)
Definition MakeID {A} (encode : A -> bytes) (body : A) : Identifier := HashToID (sha3_256 (encode body)).
End hashers.

(** A digest family of the documented lengths. *)
Definition toy_sha3 : Sha3 := {|
  sha3_224 d := replicate 28 (Z.of_nat (length d)); sha3_256 d := replicate 32 (Z.of_nat (length d));
  sha3_384 d := replicate 48 (Z.of_nat (length d)); sha3_512 d := replicate 64 (Z.of_nat (length d)) |}.

Lemma toy_sha3_laws : Sha3Laws toy_sha3.
Proof. split; intros d; reflexivity. Qed.

Lemma SumHash_spec_witness :
  SumHash (H := toy_sha3) (mkHasher SHA3_512 [1; 2; 3]) = Ret (replicate 32 0, mkHasher SHA3_512 []).
Proof.
  exact (proj2 (SumHash_spec (H := toy_sha3) toy_sha3_laws (mkHasher SHA3_512 [1; 2; 3]) [])).
Defined.

(** ** signature.go, ecdsa.go and sign.go *)

(** [Signature] is [[][]byte]; the two byte slices are the decimal strings of
    [r] and [s]. *)
Abbreviation Signature := (list string) (only parsing).
Abbreviation AggSig := (list (list string)) (only parsing).

Record ECDSASignature := mkECDSA { sig_r : Z; sig_s : Z }.

(** The names of the signing algorithms. *)
Definition ECDSA_P256 : string := "ECDSA_P256".
Definition ECDSA_SECp256k1 : string := "ECDSA_SECp256k1".
Definition BLS_BLS12381 : string := "BLS_BLS12381".

(** The curve operations of Go's crypto/ecdsa over P-256.  [ecdsa_GenerateKey]
    takes [ecdsa_seedLen] bytes from its source of randomness with
    [io.ReadFull] and computes the key from them and nothing else, as the package
    did in the Go version of go.mod (1.14); it and [ecdsa_Sign] return
    [None] for a non-nil error.  [big_undefined] is the value a failed
    [big.Int.SetString] leaves behind. *)
Class Ecdsa := {
  EcPrivateKey : Type;
  EcPublicKey : Type;
  ecdsa_public : EcPrivateKey -> EcPublicKey;
  ecdsa_seedLen : nat;
  ecdsa_GenerateKey : bytes -> option EcPrivateKey;
  ecdsa_Sign : EcPrivateKey -> bytes -> option (Z * Z);
  ecdsa_Verify : EcPublicKey -> bytes -> Z -> Z -> bool;
  big_undefined : string -> Z }.

(** The documented contract of the scheme: a signature verifies under the key
    pair that made it. *)
Class EcdsaLaws (E : Ecdsa) : Prop :=
  ecdsa_sign_verify : forall (k : EcPrivateKey) m r s,
    ecdsa_Sign k m = Some (r, s) -> ecdsa_Verify (ecdsa_public k) m r s = true.

Section signing.
Context {E : Ecdsa}.

(** [ecdsa_p256_PrivateKey] and [ecdsa_p256_PublicKey]: the only
    implementations of the interfaces [PrivateKey] and [PublicKey]. *)
Record PrivateKey := mkPrivateKey { priv_SignAlg : string; priv_key : EcPrivateKey }.
Record PublicKey := mkPublicKey { pub_SignAlg : string; pub_key : EcPublicKey }.

Definition PrivateKey_PublicKey (priv : PrivateKey) : PublicKey :=
  mkPublicKey ECDSA_P256 (ecdsa_public (priv_key priv)).
Definition PrivateKey_Algorithm (priv : PrivateKey) : string := priv_SignAlg priv.
Definition PublicKey_Algorithm (pub : PublicKey) : string := pub_SignAlg pub.

(** The package variables [keys] and [pubKeys]; a nil interface is [None]. *)
Record KeyTable := mkKeys {
  keys : list (option PrivateKey);
  pubKeys : list (option PublicKey) }.

Definition ToECDSA (sig : Signature) : outcome ECDSASignature :=
  rs ←? of_option (sig !! 0%nat);
  ss ←? of_option (sig !! 1%nat);
  Ret (mkECDSA (default (big_undefined rs) (Strconv.big_SetString rs))
                (default (big_undefined ss) (Strconv.big_SetString ss))).

(** [ecdsa_p256_PrivateKey.Sign] with an optional hasher. *)
Definition PrivateKey_Sign (priv : PrivateKey) (msg : bytes) (hasher : option (bytes -> bytes)) :
    error + Signature :=
  let m := match hasher with Some h => h msg | None => msg end in
  match ecdsa_Sign (priv_key priv) m with
  | None => inl "ecdsa.Sign"%string
  | Some (r, s) => inr [Strconv.big_String r; Strconv.big_String s]
  end.

(** [ecdsa_p256_PublicKey.Verify]: the error is always nil. *)
Definition PublicKey_Verify (pub : PublicKey) (sig : Signature) (hash : bytes) :
    outcome (bool * option error) :=
  es ←? ToECDSA sig;
  Ret (ecdsa_Verify (pub_key pub) hash (sig_r es) (sig_s es), None).

(** [StaticRand.Read(x)]: the buffer afterwards and the count returned.  The
    buffer is not written. *)
Definition StaticRand_Read (sr : NodeID) (x : bytes) : bytes * Z := (x, Node sr).

(** [io.ReadFull]: read into [buf[n:]] until [n] reaches the length.  A
    negative count makes the next slice panic; a count of 0 with a nil error
    leaves [n] and the buffer alone, and the loop never ends.  Every other
    round advances [n], so [S (length buf)] rounds are enough. *)
Fixpoint readFull_loop (fuel : nat) (read : bytes -> bytes * Z) (buf : bytes) (n : Z) : outcome bytes :=
  if Z.of_nat (length buf) <=? n then Ret buf
  else match fuel with
       | O => OutOfFuel
       | S fuel' =>
           if n <? 0 then Panic
           else let '(x, nn) := read (drop (Z.to_nat n) buf) in
                if nn =? 0 then Diverge
                else readFull_loop fuel' read (take (Z.to_nat n) buf ++ x) (n + nn)
       end.
Definition ReadFull (read : bytes -> bytes * Z) (buf : bytes) : outcome bytes :=
  readFull_loop (S (length buf)) read buf 0.

Definition GenerateKey (signer : string) (id : NodeID) : outcome (error + option PrivateKey) :=
  if decide (signer = ECDSA_P256) then
    seed ←? ReadFull (StaticRand_Read id) (replicate ecdsa_seedLen 0);
    match ecdsa_GenerateKey seed with
    | None => Ret (inl "ecdsa.GenerateKey"%string)
    | Some priv => Ret (inr (Some (mkPrivateKey signer priv)))
    end
  else if decide (signer = ECDSA_SECp256k1) then Ret (inr None)
  else if decide (signer = BLS_BLS12381) then Ret (inr None)
  else Ret (inl "Invalid signature scheme!"%string).

(** The loop of [SetKeys] at index [i], [k] nodes to go; calling [PublicKey] on
    the nil key of an unsupported scheme panics. *)
Fixpoint setKeys_loop (signer : string) (k : nat) (i : nat) (t : KeyTable) :
    outcome (option error * KeyTable) :=
  match k with
  | O => Ret (None, t)
  | S k' =>
      key ←? GenerateKey signer (NewNodeID (Z.of_nat i + 1));
      match key with
      | inl e => Ret (Some e, t)
      | inr None => Panic
      | inr (Some priv) =>
          setKeys_loop signer k' (S i)
            (mkKeys (<[i := Some priv]> (keys t)) (<[i := Some (PrivateKey_PublicKey priv)]> (pubKeys t)))
      end
  end.

Definition SetKeys (c : Config) : outcome (option error * KeyTable) :=
  let n := Z.to_nat (Config_N c) in
  setKeys_loop (GetSignatureScheme c) n 0 (mkKeys (replicate n None) (replicate n None)).

(** Indexing a slice with an [int]: a negative or too large index panics. *)
Definition go_index {A} (l : list A) (i : Z) : outcome A :=
  if i <? 0 then Panic else of_option (l !! Z.to_nat i).

Definition PrivSign (t : KeyTable) (data : bytes) (nodeID : NodeID) (hasher : option (bytes -> bytes)) :
    outcome (error + Signature) :=
  o ←? go_index (keys t) (Node nodeID - 1);
  k ←? of_option o;
  Ret (PrivateKey_Sign k data hasher).

Definition PubVerify (t : KeyTable) (sig : Signature) (data : bytes) (nodeID : NodeID) :
    outcome (bool * option error) :=
  o ←? go_index (pubKeys t) (Node nodeID - 1);
  k ←? of_option o;
  PublicKey_Verify k sig data.

(** [VerifyQuorumSignature]: the loop over [aggSigners] at index [i]. *)
Fixpoint verifyQuorum_loop (t : KeyTable) (sigs : AggSig) (blockID : Identifier) (i : nat)
    (signers : list NodeID) : outcome (bool * option error) :=
  match signers with
  | [] => Ret (true, None)
  | signer :: rest =>
      sig ←? of_option (sigs !! i);
      '(ok, err) ←? PubVerify t sig (IDToByte blockID) signer;
      match err with
      | Some e => Ret (false, Some e)
      | None => if ok then verifyQuorum_loop t sigs blockID (S i) rest else Ret (false, None)
      end
  end.

Definition VerifyQuorumSignature (t : KeyTable) (sigs : AggSig) (blockID : Identifier)
    (signers : list NodeID) : outcome (bool * option error) :=
  verifyQuorum_loop t sigs blockID 0 signers.

(** The public half of the table matches its private half. *)
Definition keys_match (t : KeyTable) : Prop :=
  pubKeys t = (fun o : option PrivateKey => PrivateKey_PublicKey <$> o) <$> keys t.

Lemma go_index_fmap {A B} (f : A -> B) (l : list A) i :
  go_index (f <$> l) i = match go_index l i with Ret a => Ret (f a) | Panic => Panic | Diverge => Diverge | OutOfFuel => OutOfFuel end.
Proof.
  unfold go_index, of_option. destruct (i <? 0); [done|].
  rewrite list_lookup_fmap. by destruct (l !! Z.to_nat i).
Qed.

Lemma setKeys_loop_match signer k i t err t' :
  keys_match t -> setKeys_loop signer k i t = Ret (err, t') -> keys_match t'.
Proof.
  revert i t. induction k as [|k IH]; intros i t Ht H; simpl in H; [by simplify_eq|].
  destruct (GenerateKey _ _) as [[e|[priv|]]| | |]; simpl in H; [by simplify_eq | | done..].
  eapply IH; [|done]. unfold keys_match in *. simpl. by rewrite Ht, list_fmap_insert.
Qed.

Lemma SetKeys_match c err t : SetKeys c = Ret (err, t) -> keys_match t.
Proof.
  apply setKeys_loop_match. unfold keys_match. simpl. by rewrite fmap_replicate.
Qed.

(** A signature verifies under the public half of the key that made it. *)
Lemma key_sign_verify (EL : EcdsaLaws E) k data sig :
  PrivateKey_Sign k data None = inr sig ->
  PublicKey_Verify (PrivateKey_PublicKey k) sig data = Ret (true, None).
Proof.
  unfold PrivateKey_Sign. destruct (ecdsa_Sign (priv_key k) data) as [[r s]|] eqn:Es; [|done].
  intros [= <-]. unfold PublicKey_Verify, ToECDSA. simpl.
  rewrite !Strconv.big_SetString_String. simpl. by rewrite (EL _ _ _ _ Es).
Qed.

Lemma PrivSign_inv t data id sig :
  PrivSign t data id None = Ret (inr sig) ->
  exists k, go_index (keys t) (Node id - 1) = Ret (Some k) /\ PrivateKey_Sign k data None = inr sig.
Proof.
  unfold PrivSign. destruct (go_index (keys t) _) as [[k|]| | |]; try done. simpl.
  intros [= H]. by exists k.
Qed.

Lemma verify_indexed (EL : EcdsaLaws E) t data id k sig :
  keys_match t -> go_index (keys t) (Node id - 1) = Ret (Some k) ->
  PrivateKey_Sign k data None = inr sig -> PubVerify t sig data id = Ret (true, None).
Proof.
  intros Hm Hk Hs. unfold PubVerify. rewrite Hm, go_index_fmap, Hk. simpl. by apply key_sign_verify.
Qed.

Lemma sign_verify (EL : EcdsaLaws E) t data id sig :
  keys_match t ->
  PrivSign t data id None = Ret (inr sig) -> PubVerify t sig data id = Ret (true, None).
Proof. intros Hm (k & Hk & Hs)%PrivSign_inv. by eapply verify_indexed. Qed.

(** What [PrivSign] produces with the keys [SetKeys] installed, [PubVerify]
    accepts for the same node and data: the decimal serialisation of the curve
    signature loses nothing. *)
Theorem PrivSign_PubVerify (EL : EcdsaLaws E) c err t data id sig :
  SetKeys c = Ret (err, t) ->
  PrivSign t data id None = Ret (inr sig) -> PubVerify t sig data id = Ret (true, None).
Proof. intros Ht. apply (sign_verify EL). by eapply SetKeys_match. Qed.

(** ** Every node has the same key *)

Lemma readFull_loop_static id buf fuel n :
  0 < Node id -> 0 <= n -> Z.of_nat (length buf) - n < Z.of_nat fuel ->
  readFull_loop fuel (StaticRand_Read id) buf n = Ret buf.
Proof.
  intros Hid. revert n. induction fuel as [|fuel IH]; intros n Hn Hf; simpl;
    destruct (Z.leb_spec (Z.of_nat (length buf)) n); try done; [lia|].
  rewrite (proj2 (Z.ltb_ge n 0)) by lia. rewrite (proj2 (Z.eqb_neq (Node id) 0)) by lia.
  rewrite take_drop. apply IH; lia.
Qed.

Lemma ReadFull_static id buf : 0 < Node id -> ReadFull (StaticRand_Read id) buf = Ret buf.
Proof. intros H. apply readFull_loop_static; lia. Qed.

(** The key of a P-256 node does not depend on the node. *)
Definition static_key : option PrivateKey :=
  mkPrivateKey ECDSA_P256 <$> ecdsa_GenerateKey (replicate ecdsa_seedLen 0).

Lemma GenerateKey_static signer id key :
  0 < Node id -> GenerateKey signer id = Ret (inr (Some key)) -> static_key = Some key.
Proof.
  intros Hid. unfold GenerateKey, static_key. repeat case_decide; try done.
  rewrite ReadFull_static by done. simpl. destruct (ecdsa_GenerateKey _); [|done].
  intros [= <-]. by subst.
Qed.

Lemma setKeys_loop_static signer k i t t' :
  Z.of_nat (i + k) < two63 -> length (keys t) = (i + k)%nat ->
  (forall j, (j < i)%nat -> keys t !! j = Some static_key) ->
  setKeys_loop signer k i t = Ret (None, t') -> keys t' = replicate (i + k) static_key.
Proof.
  revert i t. induction k as [|k IH]; intros i t Hb Hl Hs H; simpl in H.
  - simplify_eq. rewrite Nat.add_0_r in *. symmetry. apply replicate_as_Forall. split; [done|].
    apply Forall_lookup. intros j x Hx. pose proof (lookup_lt_Some _ _ _ Hx).
    rewrite Hs in Hx by lia. by simplify_eq.
  - destruct (GenerateKey _ _) as [[e|[priv|]]| | |] eqn:Hg; simpl in H; try done.
    apply GenerateKey_static in Hg; [|rewrite Node_NewNodeID_nonneg by lia; lia].
    replace (i + S k)%nat with (S i + k)%nat in * by lia.
    apply (IH (S i) _ ltac:(lia)) in H; [done | by simpl; rewrite length_insert |].
    simpl. intros j Hj. destruct (decide (j = i)) as [->|].
    + rewrite list_lookup_insert_eq by lia. by rewrite Hg.
    + rewrite list_lookup_insert_ne by done. apply Hs. lia.
Qed.

Lemma SetKeys_static c t :
  Config_N c < two63 -> SetKeys c = Ret (None, t) -> keys t = replicate (Z.to_nat (Config_N c)) static_key.
Proof.
  intros Hn. unfold SetKeys. apply (setKeys_loop_static _ _ 0).
  - simpl. unfold two63 in *. lia.
  - simpl. by rewrite length_replicate.
  - intros j Hj. lia.
Qed.

(** C36.  [StaticRand.Read] reports bytes it never writes, so every key is
    derived from the same zero seed: once [SetKeys] has succeeded, a signature
    any node makes verifies as a signature of every other node.  Signatures
    authenticate no one. *)
Theorem signatures_interchangeable (EL : EcdsaLaws E) c t data i j sig :
  SetKeys c = Ret (None, t) -> Config_N c < two63 ->
  PrivSign t data i None = Ret (inr sig) ->
  1 <= Node j <= Config_N c -> PubVerify t sig data j = Ret (true, None).
Proof.
  intros Ht Hn (k & Hk & Hs)%PrivSign_inv Hj.
  assert (Hm := SetKeys_match _ _ _ Ht). apply SetKeys_static in Ht as Hr; [|done].
  eapply (verify_indexed EL); [done| |exact Hs].
  unfold go_index in *. destruct (Z.ltb_spec (Node i - 1) 0); [done|].
  destruct (Z.ltb_spec (Node j - 1) 0); [lia|]. unfold of_option in *. rewrite Hr in *.
  destruct (replicate _ _ !! Z.to_nat (Node i - 1)) as [x|] eqn:Hx; [|done].
  apply lookup_replicate in Hx as [-> _]. simplify_eq.
  rewrite lookup_replicate_2 by lia. congruence.
Qed.

(** A signer list is vouched for when the signature at each of its positions
    verifies. *)
Definition vouched (t : KeyTable) (sigs : AggSig) (blockID : Identifier) (i : nat)
    (signers : list NodeID) : Prop :=
  forall j id, signers !! j = Some id ->
    exists sig, sigs !! (i + j)%nat = Some sig /\ PubVerify t sig (IDToByte blockID) id = Ret (true, None).

Lemma PubVerify_err t sig data id b err : PubVerify t sig data id = Ret (b, err) -> err = None.
Proof.
  unfold PubVerify, PublicKey_Verify.
  destruct (go_index _ _) as [[k|]| | |]; simpl; try done.
  destruct (ToECDSA sig); simpl; try done. by intros [= _ <-].
Qed.

Lemma verifyQuorum_loop_spec t sigs blockID i signers :
  verifyQuorum_loop t sigs blockID i signers = Ret (true, None) <-> vouched t sigs blockID i signers.
Proof.
  revert i. induction signers as [|id rest IH]; intros i; simpl.
  { split; [intros _ j id Hj; by destruct j | done]. }
  unfold of_option. simpl. split.
  - destruct (sigs !! i) as [sig|] eqn:Hs; [|done].
    simpl. destruct (PubVerify t sig (IDToByte blockID) id) as [[[] [e|]]| | |] eqn:Hv; try done.
    simpl. intros H. apply IH in H. intros [|j] id' Hj; simpl in Hj.
    + simplify_eq. exists sig. by rewrite Nat.add_0_r.
    + destruct (H j id' Hj) as (sig' & ? & ?). exists sig'.
      by replace (i + S j)%nat with (S i + j)%nat by lia.
  - intros H. destruct (H 0%nat id eq_refl) as (sig & Hs & Hv). rewrite Nat.add_0_r in Hs.
    rewrite Hs. simpl. rewrite Hv. simpl. apply IH. intros j id' Hj.
    destruct (H (S j) id' Hj) as (sig' & ? & ?). exists sig'.
    by replace (S i + j)%nat with (i + S j)%nat by lia.
Qed.

(** [VerifyQuorumSignature] accepts exactly the aggregates in which the
    signature at each signer's position verifies for that signer.  Neither the
    number of signers nor their distinctness is part of the check. *)
Theorem VerifyQuorumSignature_spec t sigs blockID signers :
  VerifyQuorumSignature t sigs blockID signers = Ret (true, None) <->
  forall j id, signers !! j = Some id ->
    exists sig, sigs !! j = Some sig /\ PubVerify t sig (IDToByte blockID) id = Ret (true, None).
Proof. apply verifyQuorum_loop_spec. Qed.
End signing.

(** A toy scheme satisfying the contract: the key is made of 40 bytes, as Go's
    is for P-256, and the signature of [m] under key [k] is [(k, sum of m)]. *)
Definition toy_ecdsa : Ecdsa := {|
  EcPrivateKey := Z; EcPublicKey := Z; ecdsa_public k := k; ecdsa_seedLen := 40;
  ecdsa_GenerateKey seed := Some (1 + foldr Z.add 0 seed);
  ecdsa_Sign k m := Some (k, foldr Z.add 0 m);
  ecdsa_Verify k m r s := bool_decide (r = k) && bool_decide (s = foldr Z.add 0 m);
  big_undefined _ := 0 |}.

Lemma toy_ecdsa_laws : EcdsaLaws toy_ecdsa.
Proof.
  intros k m r s [= <- <-]. simpl. by rewrite !bool_decide_eq_true_2.
Qed.

Definition toy_config : Config :=
  set_tables MakeDefaultConfig
    (Some (<["1"%string := ""%string]> (<["2"%string := ""%string]> (<["3"%string := ""%string]>
      (<["4"%string := ""%string]> ∅))))) (Some ∅).
Definition toy_keys : KeyTable (E := toy_ecdsa) :=
  mkKeys (E := toy_ecdsa) (replicate 4 (Some (mkPrivateKey (E := toy_ecdsa) ECDSA_P256 1)))
    (replicate 4 (Some (mkPublicKey (E := toy_ecdsa) ECDSA_P256 1))).

Lemma PrivSign_PubVerify_witness :
  PubVerify (E := toy_ecdsa) toy_keys ["1"; "12"]%string [3; 4; 5] "2"%string = Ret (true, None).
Proof.
  refine (PrivSign_PubVerify (E := toy_ecdsa) toy_ecdsa_laws toy_config None toy_keys
            [3; 4; 5] "2"%string ["1"; "12"]%string _ _).
  - reflexivity.
  - reflexivity.
Defined.

Lemma signatures_interchangeable_witness :
  PrivSign (E := toy_ecdsa) toy_keys [3; 4; 5] "2"%string None = Ret (inr ["1"; "12"]%string) /\
  PubVerify (E := toy_ecdsa) toy_keys ["1"; "12"]%string [3; 4; 5] "4"%string = Ret (true, None).
Proof.
  split; [reflexivity|].
  apply (signatures_interchangeable (E := toy_ecdsa) toy_ecdsa_laws toy_config toy_keys
            [3; 4; 5] "2"%string "4"%string ["1"; "12"]%string);
    [reflexivity | reflexivity | reflexivity | vm_compute; split; discriminate].
Defined.
