(* ===== verification/Election.v ===== *)
(** * Leader election (election/)

    The [Election] interface and its two implementations, [Rotation]
    (hash-driven rotation) and [Static].  [Rotation] hashes the decimal string
    of the view with Go's crypto/sha1, which is written out here as an
    executable function, so that leaders can be computed.

    The interface's contract, [ElectionLaws], is that among the configured
    nodes exactly one is the leader of each view, the one [FindLeaderFor]
    names; both implementations discharge it. *)

From Stdlib Require Import String Ascii.
From stdpp Require Import base gmap strings numbers list.
From S2P Require Import Prelude.
From S2P Require Import Identity.
From S2P Require Import Config.

Local Open Scope Z_scope.
Local Open Scope go_scope.

(** ** crypto/sha1 *)
Module Sha1.

Definition w32 (z : Z) : Z := Z.land z 4294967295.
Definition rotl (n x : Z) : Z := w32 (Z.lor (Z.shiftl x n) (Z.shiftr x (32 - n))).
Definition not32 (x : Z) : Z := 4294967295 - x.

Definition be32 (w : Z) : list Z :=
  [Z.shiftr w 24 mod 256; Z.shiftr w 16 mod 256; Z.shiftr w 8 mod 256; w mod 256].
Definition be64 (n : Z) : list Z := be32 (w32 (Z.shiftr n 32)) ++ be32 (w32 n).

Definition pad (msg : list Z) : list Z :=
  let len := Z.of_nat (length msg) in
  msg ++ [128] ++ replicate (Z.to_nat ((55 - len) mod 64)) 0 ++ be64 (8 * len).

Fixpoint words (bs : list Z) : list Z :=
  match bs with
  | a :: b :: c :: d :: rest =>
      (Z.shiftl a 24 + Z.shiftl b 16 + Z.shiftl c 8 + d) :: words rest
  | _ => []
  end.

(** The message schedule: 64 more words from the sixteen of the block, the
    newest first in [acc]. *)
Fixpoint schedule (k : nat) (acc : list Z) : list Z :=
  match k with
  | O => reverse acc
  | S k' =>
      let g i := default 0 (acc !! i) in
      schedule k' (rotl 1 (Z.lxor (Z.lxor (g 2%nat) (g 7%nat)) (Z.lxor (g 13%nat) (g 15%nat))) :: acc)
  end.

Record st := mkst { sa : Z; sb : Z; sc : Z; sd : Z; se : Z }.

Definition round (t : nat) (w : Z) (s : st) : st :=
  let b := sb s in let c := sc s in let d := sd s in
  let '(f, k) :=
    if decide (t < 20)%nat then (Z.lor (Z.land b c) (Z.land (not32 b) d), 1518500249)
    else if decide (t < 40)%nat then (Z.lxor (Z.lxor b c) d, 1859775393)
    else if decide (t < 60)%nat then
      (Z.lor (Z.lor (Z.land b c) (Z.land b d)) (Z.land c d), 2400959708)
    else (Z.lxor (Z.lxor b c) d, 3395469782) in
  mkst (w32 (rotl 5 (sa s) + f + se s + k + w)) (sa s) (rotl 30 b) c d.

Fixpoint rounds (t : nat) (ws : list Z) (s : st) : st :=
  match ws with [] => s | w :: ws' => rounds (S t) ws' (round t w s) end.

Definition block (h : st) (chunk : list Z) : st :=
  let s := rounds 0 (schedule 64 (reverse (words chunk))) h in
  mkst (w32 (sa h + sa s)) (w32 (sb h + sb s)) (w32 (sc h + sc s)) (w32 (sd h + sd s))
       (w32 (se h + se s)).

Fixpoint blocks (k : nat) (h : st) (bs : list Z) : st :=
  match k with O => h | S k' => blocks k' (block h (take 64 bs)) (drop 64 bs) end.

Definition init : st := mkst 1732584193 4023233417 2562383102 271733878 3285377520.

Definition sum (msg : list Z) : list Z :=
  let p := pad msg in
  let h := blocks (length p / 64) init p in
  be32 (sa h) ++ be32 (sb h) ++ be32 (sc h) ++ be32 (sd h) ++ be32 (se h).

(** The FIPS 180 test vector "abc". *)
Example sum_abc : sum [97; 98; 99] =
  [169; 153; 62; 54; 71; 6; 129; 106; 186; 62; 37; 113; 120; 80; 194; 108; 156; 208; 216; 157].
Proof. vm_compute. reflexivity. Qed.

Lemma sum_length msg : length (sum msg) = 20%nat.
Proof. reflexivity. Qed.

Lemma be32_bytes w : Forall (fun b => 0 <= b < 256) (be32 w).
Proof. unfold be32. repeat constructor; apply Z.mod_pos_bound; lia. Qed.

Lemma sum_bytes msg : Forall (fun b => 0 <= b < 256) (sum msg).
Proof. unfold sum. repeat apply Forall_app_2; apply be32_bytes. Qed.
End Sha1.

(** [binary.BigEndian.Uint64]: panics on fewer than eight bytes. *)
Definition BigEndian_Uint64 (bs : list Z) : outcome Z :=
  match bs with
  | b0 :: b1 :: b2 :: b3 :: b4 :: b5 :: b6 :: b7 :: _ =>
      Ret (foldl (fun acc b => acc * 256 + b) 0 [b0; b1; b2; b3; b4; b5; b6; b7])
  | _ => Panic
  end.

(** [[]byte(s)]. *)
Fixpoint string_bytes (s : string) : list Z :=
  match s with EmptyString => [] | String c s' => Z.of_N (N_of_ascii c) :: string_bytes s' end.

(** [a % b] on uint64: division by zero panics. *)
Definition u64_mod (a b : Z) : outcome Z := if b =? 0 then Panic else Ret (a mod b).

(** ** The interface *)

Class Election := {
  IsLeader : NodeID -> Z -> outcome bool;
  FindLeaderFor : Z -> outcome NodeID }.

(** The contract over the nodes [ids]: for each view [FindLeaderFor] names one of
    them, and that one is the only node of [ids] [IsLeader] accepts. *)
Class ElectionLaws (El : Election) (ids : list NodeID) : Prop := {
  leader_member v : exists id, FindLeaderFor v = Ret id /\ id ∈ ids;
  leader_unique v id : id ∈ ids -> exists b, IsLeader id v = Ret b /\ (b = true <-> FindLeaderFor v = Ret id) }.

(** ** rotation.go *)

Record Rotation := NewRotation { peerNo : Z }.

Definition Rotation_data (view : Z) : outcome Z :=
  BigEndian_Uint64 (Sha1.sum (string_bytes (Strconv.Itoa (i64 (view + 1))))).

Definition Rotation_IsLeader (r : Rotation) (id : NodeID) (view : Z) : outcome bool :=
  if view <=? 3 then
    if Node id <? peerNo r then Ret false else Ret true
  else
    data ←? Rotation_data view;
    m ←? u64_mod data (u64 (peerNo r));
    Ret (m =? u64 (Node id - 1)).

Definition Rotation_FindLeaderFor (r : Rotation) (view : Z) : outcome NodeID :=
  if view <=? 3 then Ret (NewNodeID (peerNo r))
  else
    data ←? Rotation_data view;
    m ←? u64_mod data (u64 (peerNo r));
    Ret (NewNodeID (i64 (u64 (m + 1)))).

Definition rotation_election (r : Rotation) : Election :=
  {| IsLeader := Rotation_IsLeader r; FindLeaderFor := Rotation_FindLeaderFor r |}.

(** ** static.go *)

Record Static := NewStatic { master : NodeID }.
Definition Static_IsLeader (st : Static) (id : NodeID) (view : Z) : outcome bool :=
  Ret (bool_decide (id = master st)).
Definition Static_FindLeaderFor (st : Static) (view : Z) : outcome NodeID := Ret (master st).

Definition static_election (st : Static) : Election :=
  {| IsLeader := Static_IsLeader st; FindLeaderFor := Static_FindLeaderFor st |}.

(** ** Properties *)

Lemma Rotation_data_range view : exists d, Rotation_data view = Ret d /\ is_u64 d.
Proof.
  unfold Rotation_data. remember (string_bytes _) as m. clear Heqm.
  pose proof (Sha1.sum_length m) as Hl. pose proof (Sha1.sum_bytes m) as Hb.
  destruct (Sha1.sum m) as [|b0 [|b1 [|b2 [|b3 [|b4 [|b5 [|b6 [|b7 rest]]]]]]]]; simpl in Hl; try lia.
  eexists. split; [reflexivity|]. simpl. rewrite !List.Forall_cons_iff in Hb. unfold is_u64, two64. lia.
Qed.

(** For views above 3 both methods are functions of one residue. *)
Lemma Rotation_residue n view :
  0 < n < two63 -> 3 < view ->
  exists m, 0 <= m < n /\
    Rotation_FindLeaderFor (NewRotation n) view = Ret (NewNodeID (m + 1)) /\
    forall id, Rotation_IsLeader (NewRotation n) id view = Ret (m =? u64 (Node id - 1)).
Proof.
  intros Hn Hv. destruct (Rotation_data_range view) as (d & Hd & _).
  assert (u64 n = n) as Hu by (apply u64_id; unfold is_u64, two63, two64 in *; lia).
  exists (d mod n). pose proof (Z.mod_pos_bound d n ltac:(lia)).
  unfold Rotation_FindLeaderFor, Rotation_IsLeader. rewrite Hd.
  destruct (Z.leb_spec view 3); [lia|]. simpl. unfold u64_mod. rewrite Hu.
  destruct (Z.eqb_spec n 0); [lia|]. simpl.
  rewrite u64_id by (unfold is_u64, two63, two64 in *; lia).
  rewrite i64_id by (unfold is_i64, two63 in *; lia). done.
Qed.

(** Rotation implements the election contract for the nodes [1 .. n]: in
    every view exactly one of them is the leader, [FindLeaderFor] returns it and
    [IsLeader] accepts it and refuses the others. *)
Theorem Rotation_laws (n : nat) :
  (0 < n)%nat -> Z.of_nat n < two63 ->
  ElectionLaws (rotation_election (NewRotation (Z.of_nat n))) (node_ids n).
Proof.
  intros Hpos Hn. split.
  - intros v. simpl. destruct (Z.le_gt_cases v 3) as [Hv|Hv].
    + exists (NewNodeID (Z.of_nat n)). unfold Rotation_FindLeaderFor.
      destruct (Z.leb_spec v 3); [|lia]. split; [done|]. apply elem_of_node_ids.
      exists (Z.of_nat n). split; [lia|done].
    + destruct (Rotation_residue (Z.of_nat n) v) as (m & Hm & -> & _); [lia|lia|].
      eexists. split; [done|]. apply elem_of_node_ids. exists (m + 1). split; [lia|done].
  - intros v id (i & Hi & ->)%elem_of_node_ids. simpl.
    destruct (Z.le_gt_cases v 3) as [Hv|Hv].
    + unfold Rotation_IsLeader, Rotation_FindLeaderFor. simpl.
      destruct (Z.leb_spec v 3); [|lia]. rewrite Node_NewNodeID_nonneg by lia.
      destruct (Z.ltb_spec i (Z.of_nat n)); eexists; (split; [done|]).
      * split; [done|]. intros [= E%NewNodeID_inj]; lia.
      * split; [|done]. intros _. do 2 f_equal. lia.
    + destruct (Rotation_residue (Z.of_nat n) v) as (m & Hm & -> & HL); [lia|lia|].
      eexists. split; [apply HL|]. rewrite Node_NewNodeID_nonneg by lia.
      rewrite u64_id by (unfold is_u64, two63, two64 in *; lia). rewrite Z.eqb_eq. split.
      * intros ->. do 2 f_equal. lia.
      * intros [= E%NewNodeID_inj]; lia.
Qed.

Lemma Rotation_laws_witness :
  ElectionLaws (rotation_election (NewRotation 4)) (node_ids 4) /\
  Rotation_FindLeaderFor (NewRotation 4) 5 = Ret "3"%string.
Proof.
  split; [|vm_compute; reflexivity].
  apply (Rotation_laws 4); [lia | unfold two63; lia].
Defined.

Lemma Static_laws m ids : m ∈ ids -> ElectionLaws (static_election (NewStatic m)) ids.
Proof.
  intros Hm. split.
  - intros v. by exists m.
  - intros v id Hid. simpl. eexists. split; [done|]. rewrite bool_decide_eq_true.
    unfold Static_FindLeaderFor. simpl. split; [by intros -> | by intros [= ->]].
Qed.
