(* ===== verification/Db.v ===== *)
(** * The key-value state machine (db/db.go)

    Commands and the multi-version store.  A Go nil slice is [None]: [put]
    ignores it, so a command with a nil value is a read.  Locks are left out:
    each method runs under the database's own mutex from start to end.

    Results: the history invariant of a multi-version store, and the soundness
    and completeness of [Conflict] with respect to reordering. *)

From Stdlib Require Import Ascii String.
From stdpp Require Import base gmap strings numbers list sorting.
From S2P Require Import Prelude.
From S2P Require Import Identity.
From S2P Require Import Json.
From S2P Require Import Config.

Local Open Scope Z_scope.
Local Open Scope go_scope.

Definition Key : Type := Z.
Definition Value : Type := option (list Z).

Record Command := mkCommand {
  c_Key : Key;
  c_Value : Value;
  c_ClientID : NodeID;
  c_CommandID : Z }.
#[global] Instance Command_eq_dec : EqDecision Command.
Proof. solve_decision. Defined.

Definition Empty (c : Command) : bool :=
  bool_decide (c_Key c = 0) && bool_decide (c_Value c = None) &&
  bool_decide (c_ClientID c = ""%string) && bool_decide (c_CommandID c = 0).
Definition IsRead (c : Command) : bool := bool_decide (c_Value c = None).
Definition IsWrite (c : Command) : bool := bool_decide (c_Value c <> None).

(** [bytes.Equal] does not distinguish nil from an empty slice. *)
Definition bytes_Equal (a b : Value) : bool := bool_decide (default [] a = default [] b).
Definition Equal (c a : Command) : bool :=
  bool_decide (c_Key c = c_Key a) && bytes_Equal (c_Value c) (c_Value a) &&
  bool_decide (c_ClientID c = c_ClientID a) && bool_decide (c_CommandID c = c_CommandID a).

(** [Command.String]: decimal key and command id, the value in lower-case
    hexadecimal. *)
Definition Command_String (c : Command) : string :=
  match c_Value c with
  | None =>
      "Get{key=" +:+ Strconv.Itoa (c_Key c) +:+ " id=" +:+ c_ClientID c +:+
      " cid=" +:+ Strconv.Itoa (c_CommandID c) +:+ "}"
  | Some v =>
      "Put{key=" +:+ Strconv.Itoa (c_Key c) +:+ " value=" +:+ Strconv.hex_bytes v +:+ " id=" +:+ c_ClientID c +:+
      " cid=" +:+ Strconv.Itoa (c_CommandID c)
  end.

Record database := mkDb {
  data : gmap Key (list Z);
  version : Z;
  multiversion : bool;
  history : gmap Key (list (list Z)) }.

Definition NewDatabase (c : Config) : database := mkDb ∅ 0 (MultiVersion c) ∅.

Definition put (k : Key) (v : Value) : M database unit :=
  modify (fun d =>
    match v with
    | None => d
    | Some v =>
        mkDb (<[k := v]> (data d)) (i64 (version d + 1)) (multiversion d)
             (if multiversion d then <[k := default [] (history d !! k) ++ [v]]> (history d)
              else history d)
    end).

Definition Execute (c : Command) : M database Value :=
  v ← gets (fun d => data d !! c_Key c);
  put (c_Key c) (c_Value c);;
  ret v.

Definition Get (k : Key) : M database Value := gets (fun d => data d !! k).
Definition Put (k : Key) (v : Value) : M database unit := put k v.
Definition Version (k : Key) : M database Z := gets version.
Definition History (k : Key) : M database (list (list Z)) := gets (fun d => default [] (history d !! k)).

(** [String]: the JSON object of the data, keys as decimal strings in string
    order, values in base64. *)
Definition base64_char (n : Z) : ascii :=
  ascii_of_N (Z.to_N (if n <? 26 then n + 65 else if n <? 52 then n + 71 else if n <? 62 then n - 4
                      else if n =? 62 then 43 else 47)).
Fixpoint base64 (l : list Z) : string :=
  match l with
  | [] => ""
  | [a] => String (base64_char (a / 4)) (String (base64_char (a mod 4 * 16)) "==")
  | [a; b] => String (base64_char (a / 4)) (String (base64_char (a mod 4 * 16 + b / 16))
                (String (base64_char (b mod 16 * 4)) "="))
  | a :: b :: c :: r => String (base64_char (a / 4)) (String (base64_char (a mod 4 * 16 + b / 16))
                (String (base64_char (b mod 16 * 4 + c / 64)) (String (base64_char (c mod 64)) (base64 r))))
  end.
Definition database_String (d : database) : string :=
  Marshal (JObject ((fun kv => (list_ascii_of_string kv.1, enc_string kv.2)) <$>
    merge_sort key_le ((fun kv => (Strconv.Itoa kv.1, base64 kv.2)) <$> map_to_list (data d)))).

Definition Conflict (gamma delta : Command) : bool :=
  if bool_decide (c_Key gamma = c_Key delta) then negb (IsRead gamma) || negb (IsRead delta) else false.

(** The inner and outer loops of [ConflictBatch]. *)
Fixpoint conflict_inner (c : Command) (batch2 : list Command) : bool :=
  match batch2 with [] => false | d :: rest => if Conflict c d then true else conflict_inner c rest end.
Fixpoint ConflictBatch (batch1 batch2 : list Command) : bool :=
  match batch1 with
  | [] => false
  | c :: rest => if conflict_inner c batch2 then true else ConflictBatch rest batch2
  end.

(** ** Properties *)

(** Run two commands; the results are given in the order gamma, delta. *)
Definition gamma_first (gamma delta : Command) : M database (Value * Value) :=
  a ← Execute gamma; b ← Execute delta; ret (a, b).
Definition delta_first (gamma delta : Command) : M database (Value * Value) :=
  b ← Execute delta; a ← Execute gamma; ret (a, b).

(** [Conflict] is exact: two commands do not conflict if and only if, from
    every database, executing them in either order gives the same two results
    and the same final database. *)
Theorem Conflict_exact gamma delta :
  Conflict gamma delta = false <-> forall d, gamma_first gamma delta d = delta_first gamma delta d.
Proof.
  destruct gamma as [k1 v1 ci1 id1], delta as [k2 v2 ci2 id2].
  unfold Conflict, IsRead, gamma_first, delta_first, Execute. simpl. split.
  - intros Hc d. case_bool_decide as Hk.
    + destruct v1, v2; simpl in Hc; try done.
    + cbv [gbind gets put modify ret]. simpl.
      destruct v1 as [v1|], v2 as [v2|]; simpl; try (rewrite !lookup_insert_ne by done); try done.
      destruct (multiversion d).
      * rewrite !lookup_insert_ne by done. rewrite (insert_insert_ne (data d)) by done.
        by rewrite (insert_insert_ne (history d)) by done.
      * by rewrite (insert_insert_ne (data d)) by done.
  - intros H. case_bool_decide as Hk; [subst k2|done].
    specialize (H (mkDb ∅ 0 false ∅)).
    destruct v1 as [v1|], v2 as [v2|]; try done; exfalso;
      cbv [gbind gets put modify ret] in H; simpl in H;
      rewrite ?lookup_insert_eq, ?lookup_empty in H; discriminate H.
Qed.

Lemma conflict_inner_spec c batch : conflict_inner c batch = existsb (Conflict c) batch.
Proof. induction batch as [|d rest IH]; simpl; [done|]. rewrite IH. by destruct (Conflict c d). Qed.

Lemma ConflictBatch_spec batch1 batch2 :
  ConflictBatch batch1 batch2 = existsb (fun c => existsb (Conflict c) batch2) batch1.
Proof.
  induction batch1 as [|c rest IH]; simpl; [done|]. rewrite IH, conflict_inner_spec.
  by destruct (existsb _ _).
Qed.

(** The invariant of a multi-version store. *)
Definition db_inv (d : database) : Prop :=
  multiversion d = true -> forall k, last (default [] (history d !! k)) = data d !! k.

Lemma put_inv k v : preserves (fun d d' => db_inv d -> db_inv d') (put k v).
Proof.
  apply preserves_modify. intros d Hd. destruct v as [v|]; [|done].
  intros Hm k'. simpl in *. rewrite Hm. destruct (decide (k = k')) as [->|Hne].
  - rewrite !lookup_insert_eq. simpl. apply last_snoc.
  - rewrite !lookup_insert_ne by done. by apply Hd.
Qed.

(** A read returns the last value written; in a multi-version store the
    last entry of a key's history is its current value, initially and after
    every command; and executing a command returns the value before it. *)
Theorem Execute_spec c d v d' :
  db_inv d -> Execute c d = Ret (v, d') ->
  db_inv d' /\ v = data d !! c_Key c /\
  data d' !! c_Key c = (match c_Value c with Some w => Some w | None => v end) /\
  (forall k, k <> c_Key c -> data d' !! k = data d !! k /\ history d' !! k = history d !! k).
Proof.
  intros Hd H. unfold Execute in H. go_inv. destruct r0. apply put_inv in Hrun0 as Hp.
  specialize (Hp Hd). unfold put in Hrun0. go_inv. split; [done|]. split; [done|].
  destruct (c_Value c) as [w|]; simpl; [|done]. rewrite lookup_insert_eq. split; [done|].
  intros k Hk. rewrite lookup_insert_ne by done. split; [done|].
  destruct (multiversion d); [|done]. by rewrite lookup_insert_ne.
Qed.

Lemma Execute_spec_witness :
  let c := mkCommand 3 (Some [7]) "1"%string 0 in
  data (mkDb {[3 := [7]]} 1 true {[3 := [[7]]]}) !! c_Key c = Some [7].
Proof.
  intros c. destruct (Execute_spec c (mkDb ∅ 0 true ∅) None (mkDb {[3 := [7]]} 1 true {[3 := [[7]]]}))
    as (_ & _ & H & _).
  - intros _ k. simpl. by rewrite !lookup_empty.
  - vm_compute. reflexivity.
  - exact H.
Defined.

Example string_of_database :
  list_ascii_of_string (database_String (mkDb {[10 := [77; 97; 110]; 9 := [77]; 2 := [255; 254]]} 3 false ∅)) =
  (fun c => if bool_decide (c = "'"%char) then dquote else c) <$>
    list_ascii_of_string "{'10':'TWFu','2':'//4=','9':'TQ=='}".
Proof. vm_compute. reflexivity. Qed.
