(* ===== verification/Message.v ===== *)
(** * Client messages (message/message.go)

    The message structs.  The reply channel of a request ([C chan ...]) is not a
    field: whoever holds the request passes its channel to [Reply].  Times are in
    nanoseconds. *)

From Stdlib Require Import String.
From stdpp Require Import base gmap strings numbers list sorting.
From S2P Require Import Prelude.
From S2P Require Import Identity.
From S2P Require Import Json.
From S2P Require Import Db.
From S2P Require Import Channel.

Local Open Scope Z_scope.

Record Transaction := mkTxn {
  t_Command : Command;
  t_Properties : gmap string string;
  t_Timestamp : Z;
  t_NodeID : NodeID;
  t_ID : string }.
#[global] Instance Transaction_eq_dec : EqDecision Transaction.
Proof. solve_decision. Defined.

Record TransactionReply := mkReply {
  tr_Command : Command;
  tr_Value : Value;
  tr_Properties : gmap string string;
  tr_Delay : Z;
  tr_Err : option error }.

Definition NewReply (delay : Z) : TransactionReply :=
  mkReply (mkCommand 0 None ""%string 0) None ∅ delay None.

(** [Reply]: a send on the reply channel; [None] is a nil channel, on which a send
    blocks for ever. *)
Definition send_reply {X} (C : option (chan X)) (reply : X) : outcome (option (chan X)) :=
  match C with None => Ret None | Some c => ch_send reply c end.
Definition Transaction_Reply (C : option (chan TransactionReply)) (reply : TransactionReply) :
    outcome (option (chan TransactionReply)) := send_reply C reply.

(** Direct reads, queries of the statistics and the registration message; a
    [Query] holds nothing but its reply channel. *)
Record Read := mkRead { rd_CommandID : Z; rd_Key : Key }.
Record ReadReply := mkReadReply { rr_CommandID : Z; rr_Value : Value }.
Inductive Query := mkQuery.
Record QueryReply := mkQueryReply { qr_Info : string }.
Definition Query_Reply (C : option (chan QueryReply)) (reply : QueryReply) :
    outcome (option (chan QueryReply)) := send_reply C reply.
Record Register := mkRegister { reg_Client : bool; reg_ID : NodeID; reg_Addr : string }.

Definition set_Timestamp (now : Z) (t : Transaction) : Transaction :=
  mkTxn (t_Command t) (t_Properties t) now (t_NodeID t) (t_ID t).

(** The String methods used in log messages. *)
Definition Transaction_String (t : Transaction) : string :=
  ("Transaction {cmd=" +:+ Command_String (t_Command t) +:+ " nid=" +:+ t_NodeID t +:+ "}")%string.
Definition Read_String (r : Read) : string :=
  ("Read {cid=" +:+ Strconv.Itoa (rd_CommandID r) +:+ ", key=" +:+ Strconv.Itoa (rd_Key r) +:+ "}")%string.

(** %v of a map: the entries in the order of the keys. *)
Definition fmt_map (m : gmap string string) : string :=
  ("map[" +:+ String.concat " " ((fun kv => kv.1 +:+ ":" +:+ kv.2)%string <$> sorted_entries m) +:+ "]")%string.
Definition TransactionReply_String (r : TransactionReply) : string :=
  ("TransactionReply {cmd=" +:+ Command_String (tr_Command r) +:+ " value=" +:+
   Strconv.hex_bytes (default [] (tr_Value r)) +:+ " prop=" +:+ fmt_map (tr_Properties r) +:+ "}")%string.

Example reply_text :
  TransactionReply_String (mkReply (mkCommand 7 None "2" 1) (Some [1; 254])
    {["b" := "y"; "a" := "x"]} 0 None)%string =
  "TransactionReply {cmd=Get{key=7 id=2 cid=1} value=01fe prop=map[a:x b:y]}"%string.
Proof. vm_compute. reflexivity. Qed.
