(* ===== verification/Utils.v ===== *)
(** * Helpers (utils/utils.go)

    Searching and maxima of integer slices, random picks, [Retry] and
    [Schedule].  The random source is a stream: [rnd k n] is the answer to the
    [k]-th call of [Intn(n)], and the state of a computation is the number of
    calls made.  [Retry] runs a fallible operation over any state and records the
    durations it slept. *)

From stdpp Require Import base gmap strings numbers list sorting.
From S2P Require Import Prelude.
From S2P Require Import Identity.
From S2P Require Import Config.
From S2P Require Import Crypto.
From S2P Require Import Message.

Local Open Scope Z_scope.
Local Open Scope go_scope.

Fixpoint FindIntSlice (slice : list Z) (val : Z) : bool :=
  match slice with
  | [] => false
  | item :: rest => if item =? val then true else FindIntSlice rest val
  end.

Definition Max (a b : Z) : Z := if a <? b then b else a.

(** [VMax]: [v[0]] panics on an empty argument list. *)
Definition VMax (v : list Z) : outcome Z :=
  match v with
  | [] => Panic
  | x :: _ => Ret (foldl (fun max i => if max <? i then i else max) x v)
  end.

(** ** Random picks *)

(** Calls of math/rand draw from a stream. *)
Section random.
Context (rnd : nat -> Z -> Z).

(** [rand.Intn] panics on a bound that is not positive. *)
Definition Intn (n : Z) : M nat Z := fun k => if n <=? 0 then Panic else Ret (rnd k n, S k).

(** The inner loop of [RandomPick]: draw until the number is new. *)
Fixpoint pick_new (fuel : nat) (n : Z) (picked : list Z) : M nat Z :=
  match fuel with
  | O => outOfFuel
  | S fuel' =>
      randomID ← Intn n;
      if FindIntSlice picked randomID then pick_new fuel' n picked else ret randomID
  end.

Fixpoint pick_loop (fuel : nat) (n : Z) (todo : nat) (picked : list Z) : M nat (list Z) :=
  match todo with
  | O => ret picked
  | S todo' =>
      randomID ← pick_new fuel n picked;
      pick_loop fuel n todo' (picked ++ [randomID])
  end.

Definition RandomPick (fuel : nat) (n f : Z) : M nat (list Z) := pick_loop fuel n (Z.to_nat f) [].

(** [MapRandomKeyGet]: any key of the map; an empty one makes [Intn] panic. *)
Definition MapRandomKeyGet {K V} `{Countable K} (m : gmap K V) : M nat K :=
  let keys := (map_to_list m).*1 in
  i ← Intn (Z.of_nat (length keys));
  lift (of_option (keys !! Z.to_nat i)).
End random.

(** ** Joining a master *)

(** [ConnectToMaster]: [dial] is the error of [net.Dial]; [decode] decodes the
    master's answer into the configuration there is.  Both errors are fatal.  The
    result is the message sent and the configuration afterwards. *)
Definition ConnectToMaster (dial : option error) (decode : Config -> option error * Config)
    (client : bool) (id : NodeID) (Configuration : Config) : outcome (Register * Config) :=
  match dial with
  | Some err => Panic
  | None =>
      match decode Configuration with
      | (Some err, _) => Panic
      | (None, c) => Ret (mkRegister client id ""%string, c)
      end
  end.

(** [IdentifierFixture]: [random] are the bytes [rand.Read] delivers. *)
Definition IdentifierFixture (random : list Z) : Identifier := go_copy zeroID random.

(** ** Retry *)

Section retry.
Context {S : Type} (f : S -> option error * S).

(** The loop of [Retry] at attempt [i]; [slept] are the pauses so far. *)
Fixpoint retry_loop (fuel : nat) (i attempts sleep : Z) (slept : list Z) (s : S) :
    outcome (option error * list Z * S) :=
  match fuel with
  | O => OutOfFuel
  | Datatypes.S fuel' =>
      match f s with
      | (None, s') => Ret (None, slept, s')
      | (Some err, s') =>
          if attempts -! 1 <=? i then Ret (Some "after %d attempts, last error: %s"%string, slept, s')
          else retry_loop fuel' (i +! 1) attempts sleep (slept ++ [i64 (sleep * (i +! 1))]) s'
      end
  end.

(** [attempts - 1] is computed at the width of an [int]; the fuel is the number
    of attempts that comparison allows. *)
Definition Retry (attempts sleep : Z) (s : S) : outcome (option error * list Z * S) :=
  retry_loop (Datatypes.S (Z.to_nat (attempts -! 1))) 0 attempts sleep [] s.
End retry.

(** ** Schedule

    The goroutine calls [f], then waits for the delay or for the stop channel:
    [events] is what its successive selects see. *)
Inductive Wake := Tick | Stopped.
Fixpoint schedule_loop {S} (f : S -> S) (events : list Wake) (s : S) : S :=
  match events with
  | Tick :: rest => schedule_loop f rest (f s)
  | Stopped :: _ | [] => s
  end.
Definition Schedule {S} (f : S -> S) (events : list Wake) (s : S) : S := schedule_loop f events (f s).

(** ** Properties *)

Lemma FindIntSlice_spec l v : FindIntSlice l v = true <-> v ∈ l.
Proof.
  induction l as [|x l IH]; simpl; [by rewrite elem_of_nil|].
  rewrite elem_of_cons. destruct (Z.eqb_spec x v) as [->|Hne]; [by split; [left|]|].
  rewrite IH. split; [by right|]. by intros [->|?].
Qed.

Lemma FindIntSlice_false l v : FindIntSlice l v = false <-> v ∉ l.
Proof. rewrite <- FindIntSlice_spec. by destruct (FindIntSlice l v). Qed.

Lemma VMax_fold l : forall x,
  let m := foldl (fun max i => if max <? i then i else max) x l in
  x <= m /\ (m = x \/ m ∈ l) /\ forall y, y ∈ l -> y <= m.
Proof.
  induction l as [|i l IH]; intros x; simpl.
  - split; [lia|]. split; [by left|]. by intros y ?%elem_of_nil.
  - destruct (IH (if x <? i then i else x)) as (H1 & H2 & H3). set (m := foldl _ _ _) in *.
    destruct (Z.ltb_spec x i); (split; [lia|]; split;
      [destruct H2 as [->|?]; [first [by left | by right; left] | by right; right]
      |intros y [->|?]%elem_of_cons; [lia | auto]]).
Qed.

(** [VMax] of a non-empty vector is its greatest element. *)
Lemma VMax_spec l m : VMax l = Ret m -> m ∈ l /\ forall y, y ∈ l -> y <= m.
Proof.
  destruct l as [|x l]; [done|]. unfold VMax. pose proof (VMax_fold (x :: l) x) as (_ & Hin & Hmax).
  set (m' := foldl _ _ _) in *. intros [= <-]. split; [|done]. destruct Hin as [->|?]; [by left | done].
Qed.

Section random_facts.
Context (rnd : nat -> Z -> Z) (rnd_range : forall k n, 0 < n -> 0 <= rnd k n < n).

Lemma pick_new_S fuel n picked k :
  0 < n -> pick_new rnd (S fuel) n picked k =
    if FindIntSlice picked (rnd k n) then pick_new rnd fuel n picked (S k) else Ret (rnd k n, S k).
Proof.
  intros Hn. cbn [pick_new]. unfold gbind, Intn. destruct (Z.leb_spec n 0); [lia|].
  by destruct (FindIntSlice picked (rnd k n)).
Qed.

Lemma pick_new_ret fuel n picked k v k' :
  pick_new rnd fuel n picked k = Ret (v, k') -> 0 <= v < n /\ v ∉ picked.
Proof.
  revert k. induction fuel as [|fuel IH]; intros k; [done|]. cbn [pick_new]. intros H. go_inv.
  unfold Intn in Hrun. destruct (Z.leb_spec n 0); [done|]. go_inv.
  destruct (FindIntSlice picked (rnd k n)) eqn:E; [eauto|]. go_inv.
  split; [by apply rnd_range | by apply FindIntSlice_false].
Qed.

Lemma pick_loop_ret fuel n todo : forall picked k l k',
  NoDup picked -> Forall (fun v => 0 <= v < n) picked ->
  pick_loop rnd fuel n todo picked k = Ret (l, k') ->
  length l = (length picked + todo)%nat /\ NoDup l /\ Forall (fun v => 0 <= v < n) l.
Proof.
  induction todo as [|todo IH]; intros picked k l k' Hnd Hr; cbn [pick_loop]; intros H; go_inv.
  - split; [lia|done].
  - apply pick_new_ret in Hrun as [Hv Hnew]. apply IH in H.
    + rewrite length_app in H. simpl in H. split; [lia | apply H].
    + apply NoDup_app. split_and!; [done | | apply NoDup_singleton].
      intros x Hx ->%list_elem_of_singleton. done.
    + apply Forall_app. auto.
Qed.

Lemma pick_new_returns n picked k :
  0 < n -> (forall v k, 0 <= v < n -> exists j, (k <= j)%nat /\ rnd j n = v) ->
  (exists v, 0 <= v < n /\ v ∉ picked) ->
  exists fuel v k', pick_new rnd fuel n picked k = Ret (v, k').
Proof.
  intros Hn Hfair (v & Hv & Hnew). destruct (Hfair v k Hv) as (j & Hj & Ev).
  exists (S (j - k)). assert (exists d, j = (k + d)%nat) as [d ->] by (exists (j - k)%nat; lia).
  replace (k + d - k)%nat with d by lia. clear Hj.
  revert k Ev. induction d as [|d IH]; intros k Ev; rewrite pick_new_S by done.
  - rewrite Nat.add_0_r in Ev. rewrite Ev, (proj2 (FindIntSlice_false _ _) Hnew). by do 2 eexists.
  - destruct (FindIntSlice picked (rnd k n)); [|by do 2 eexists].
    apply (IH (S k)). by replace (S k + d)%nat with (k + S d)%nat by lia.
Qed.

Lemma pick_new_more fuel n picked k v k' fuel' :
  (fuel <= fuel')%nat -> pick_new rnd fuel n picked k = Ret (v, k') ->
  pick_new rnd fuel' n picked k = Ret (v, k').
Proof.
  revert fuel' k. induction fuel as [|fuel IH]; intros fuel' k Hle; [done|].
  destruct fuel' as [|fuel']; [lia|]. cbn [pick_new]. intros H. go_inv.
  erewrite bind_unfold by done.
  destruct (FindIntSlice picked r); [apply IH; [lia | done] | done].
Qed.

Lemma pick_loop_more fuel fuel' n todo : (fuel <= fuel')%nat -> forall picked k l k',
  pick_loop rnd fuel n todo picked k = Ret (l, k') ->
  pick_loop rnd fuel' n todo picked k = Ret (l, k').
Proof.
  intros Hle. induction todo as [|todo IH]; intros picked k l k'; cbn [pick_loop]; intros H; [done|].
  go_inv. erewrite bind_unfold by (by eapply pick_new_more). auto.
Qed.

(** The numbers below [n] outside a list shorter than [n]. *)
Lemma fresh_below n (picked : list Z) :
  Z.of_nat (length picked) < n -> exists v, 0 <= v < n /\ v ∉ picked.
Proof.
  intros Hlen. destruct (decide (Forall (fun x => x ∈ picked) (seqZ 0 n))) as [Hall|Hex].
  - exfalso. assert (seqZ 0 n ⊆+ picked) as Hs%submseteq_length.
    { apply NoDup_submseteq; [apply NoDup_seqZ|]. by apply Forall_forall. }
    rewrite length_seqZ in Hs. lia.
  - apply not_Forall_Exists in Hex; [|apply _]. apply Exists_exists in Hex as (x & Hx%elem_of_seqZ & ?).
    exists x. split; [lia | done].
Qed.

Lemma pick_loop_returns n todo : forall picked k,
  0 < n -> (forall v k, 0 <= v < n -> exists j, (k <= j)%nat /\ rnd j n = v) ->
  Z.of_nat (length picked + todo) <= n ->
  exists fuel l k', pick_loop rnd fuel n todo picked k = Ret (l, k').
Proof.
  induction todo as [|todo IH]; intros picked k Hn Hfair Hlen; [by exists 0%nat, picked, k|].
  destruct (pick_new_returns n picked k Hn Hfair) as (f1 & v & k1 & E1); [apply fresh_below; lia|].
  destruct (IH (picked ++ [v]) k1 Hn Hfair) as (f2 & l & k2 & E2); [rewrite length_app; simpl; lia|].
  exists (f1 + f2)%nat, l, k2. cbn [pick_loop].
  rewrite (bind_unfold _ _ _ v k1) by (eapply pick_new_more; [|done]; lia).
  eapply pick_loop_more; [|done]. lia.
Qed.
End random_facts.

(** [RandomPick(n, f)] with a source that keeps producing every number: for
    [0 <= f <= n] some amount of fuel is enough, and whatever it returns are
    [f] distinct numbers of [0 .. n-1]; asked for more numbers than there are it
    never returns, whatever the source and the fuel. *)
Theorem RandomPick_spec (rnd : nat -> Z -> Z) n f k :
  (forall k n, 0 < n -> 0 <= rnd k n < n) ->
  (forall v k, 0 <= v < n -> exists j, (k <= j)%nat /\ rnd j n = v) ->
  0 < n -> 0 <= f ->
  (forall fuel l k', RandomPick rnd fuel n f k = Ret (l, k') ->
     Z.of_nat (length l) = f /\ NoDup l /\ Forall (fun v => 0 <= v < n) l) /\
  ((exists fuel, returns (RandomPick rnd fuel n f k)) <-> f <= n).
Proof.
  intros Hr Hfair Hn Hf.
  assert (forall fuel l k', RandomPick rnd fuel n f k = Ret (l, k') ->
     Z.of_nat (length l) = f /\ NoDup l /\ Forall (fun v => 0 <= v < n) l) as Hspec.
  { intros fuel l k' H. apply (pick_loop_ret rnd Hr) in H as (Hl & ? & ?); [|constructor..].
    simpl in Hl. split; [lia | done]. }
  split; [done|]. split.
  - intros (fuel & [l k'] & H). destruct (Hspec _ _ _ H) as (Hl & Hnd & Hrange).
    assert (l ⊆+ seqZ 0 n) as Hs%submseteq_length.
    { apply NoDup_submseteq; [done|]. intros x Hx. apply elem_of_seqZ.
      rewrite Forall_forall in Hrange. specialize (Hrange x Hx). lia. }
    rewrite length_seqZ in Hs. lia.
  - intros Hle. destruct (pick_loop_returns rnd n (Z.to_nat f) [] k) as (fuel & l & k' & E);
      [done | done | simpl; lia | by exists fuel; eexists].
Qed.

Lemma RandomPick_spec_witness :
  (exists fuel, returns (RandomPick (fun k n => Z.of_nat k mod n) fuel 4 2 0%nat)) <-> 2 <= 4.
Proof.
  apply (RandomPick_spec (fun k n => Z.of_nat k mod n) 4 2 0%nat); [| | lia | lia].
  - intros k n Hn. apply Z.mod_pos_bound. lia.
  - intros v k Hv. exists (4 * k + Z.to_nat v)%nat. split; [lia|].
    replace (Z.of_nat (4 * k + Z.to_nat v)) with (v + Z.of_nat k * 4) by lia.
    rewrite Z.mod_add by lia. apply Z.mod_small. lia.
Defined.

(** ** Retry: how often it calls and how long it sleeps *)
Section retry_facts.
Context {S : Type} (f : S -> option error * S).

(** The state after [k] calls, and whether the [k]-th call (from 0) failed. *)
Fixpoint after_calls (k : nat) (s : S) : S :=
  match k with O => s | Datatypes.S k' => after_calls k' (snd (f s)) end.
Definition fails_at (k : nat) (s : S) : Prop := fst (f (after_calls k s)) <> None.

Definition pauses (sleep : Z) (from k : nat) : list Z :=
  (fun j => i64 (sleep * Z.of_nat (j + 1))) <$> seq from k.

Lemma pauses_S sleep from k :
  pauses sleep from (Datatypes.S k) = i64 (sleep * Z.of_nat (from + 1)) :: pauses sleep (Datatypes.S from) k.
Proof. done. Qed.

Lemma retry_loop_S fuel i attempts sleep slept s :
  retry_loop f (Datatypes.S fuel) i attempts sleep slept s =
    match f s with
    | (None, s') => Ret (None, slept, s')
    | (Some err, s') =>
        if attempts -! 1 <=? i then Ret (Some "after %d attempts, last error: %s"%string, slept, s')
        else retry_loop f fuel (i +! 1) attempts sleep (slept ++ [i64 (sleep * (i +! 1))]) s'
    end.
Proof. done. Qed.

Lemma retry_loop_spec attempts sleep left : forall i slept s,
  (i + left)%nat = Z.to_nat (Z.max 1 attempts - 1) -> is_i64 attempts -> - two63 < attempts ->
  exists k, (k <= left)%nat /\ (forall j, (j < k)%nat -> fails_at j s) /\
    retry_loop f (Datatypes.S left) (Z.of_nat i) attempts sleep slept s =
      Ret (fst (f (after_calls k s)) ≫= (fun _ => Some "after %d attempts, last error: %s"%string),
           slept ++ pauses sleep i k, after_calls (Datatypes.S k) s) /\
    (fails_at k s -> k = left).
Proof.
  induction left as [|left IH]; intros i slept s Hi Ha Hmin;
    (assert (attempts -! 1 = attempts - 1) as E1 by (apply i64_id; unfold is_i64 in *; lia));
    rewrite retry_loop_S, E1; destruct (f s) as [[err|] s'] eqn:Ef.
  - exists 0%nat. split_and!; [lia | intros; lia | | done].
    rewrite (proj2 (Z.leb_le _ _)) by lia. simpl. by rewrite Ef, app_nil_r.
  - exists 0%nat. split_and!; [lia | intros; lia | | done]. simpl. by rewrite Ef, app_nil_r.
  - rewrite (proj2 (Z.leb_gt _ _)) by lia.
    assert (Z.of_nat i +! 1 = Z.of_nat (Datatypes.S i)) as E2.
    { rewrite i64_id; [lia|]. unfold is_i64 in *. lia. }
    rewrite E2.
    destruct (IH (Datatypes.S i) (slept ++ [i64 (sleep * Z.of_nat (Datatypes.S i))]) s')
      as (k & Hk & Hf & E & Hend); [lia | done | done |].
    exists (Datatypes.S k). rewrite pauses_S. replace (i + 1)%nat with (Datatypes.S i) by lia.
    split_and!; [lia | | |].
    + intros [|j] Hj; unfold fails_at; simpl; [by rewrite Ef|]. rewrite Ef. apply Hf. lia.
    + rewrite E, <- app_assoc. cbn [after_calls]. by rewrite Ef.
    + unfold fails_at in *. simpl. rewrite Ef. simpl. intros Hx. by rewrite Hend.
  - exists 0%nat. split_and!; [lia | intros; lia | |].
    + simpl. by rewrite Ef, app_nil_r.
    + unfold fails_at. simpl. by rewrite Ef.
Qed.

(** Reasoning about a successful [Retry]: failures keep [P], the success gives
    [Q]. *)
Lemma Retry_inv (P Q : S -> Prop) attempts sleep s slept s' :
  (forall s e s', P s -> f s = (Some e, s') -> P s') ->
  (forall s s', P s -> f s = (None, s') -> Q s') ->
  P s -> Retry f attempts sleep s = Ret (None, slept, s') -> Q s'.
Proof.
  intros HP HQ. unfold Retry. generalize (@nil Z) as acc. generalize 0 as i.
  generalize (Datatypes.S (Z.to_nat (attempts -! 1))) as fuel. intros fuel. revert s.
  induction fuel as [|fuel IH]; intros s i acc Hs; [done|]. rewrite retry_loop_S.
  destruct (f s) as [[e|] s1] eqn:E; [|intros [= _ <-]; eauto].
  destruct (attempts -! 1 <=? i); [done|]. apply IH. eauto.
Qed.
End retry_facts.

Lemma Retry_fails {S} (f : S -> option error * S) attempts sleep s :
  is_i64 attempts -> - two63 < attempts -> (forall k, (k < Z.to_nat (Z.max 1 attempts))%nat -> fails_at f k s) ->
  exists e slept s', Retry f attempts sleep s = Ret (Some e, slept, s').
Proof.
  intros Ha Hmin Hfail.
  destruct (retry_loop_spec f attempts sleep (Z.to_nat (Z.max 1 attempts - 1)) 0 [] s)
    as (k & Hk & Hf & E & Hend); [lia | done | done |].
  unfold Retry. rewrite (i64_id (attempts - 1)) by (unfold is_i64 in *; lia).
  replace (Z.to_nat (attempts - 1)) with (Z.to_nat (Z.max 1 attempts - 1)) by lia.
  change (Z.of_nat 0) with 0 in E. rewrite E.
  specialize (Hfail k ltac:(lia)). unfold fails_at in Hfail. destruct (fst (f (after_calls f k s))); [eauto | by destruct Hfail].
Qed.

(** [Retry] always returns: it calls [f] at least once and at most
    [max 1 attempts] times, stops at the first success and then reports none, and
    reports an error exactly when every one of these calls failed.  Between two
    calls it sleeps [sleep] times the number of calls made so far: the delay
    grows linearly, not exponentially. *)
Theorem Retry_spec {S} (f : S -> option error * S) attempts sleep s :
  is_i64 attempts -> - two63 < attempts ->
  exists k, (k < Z.to_nat (Z.max 1 attempts))%nat /\
    (forall j, (j < k)%nat -> fails_at f j s) /\
    (exists r, Retry f attempts sleep s = Ret (r, pauses sleep 0 k, after_calls f (Datatypes.S k) s) /\
       (r = None <-> ~ fails_at f k s)) /\
    (fails_at f k s -> Datatypes.S k = Z.to_nat (Z.max 1 attempts)).
Proof.
  intros Ha Hmin.
  destruct (retry_loop_spec f attempts sleep (Z.to_nat (Z.max 1 attempts - 1)) 0 [] s)
    as (k & Hk & Hf & E & Hend); [lia | done | done |].
  exists k. split_and!; [lia | done | | intros ?%Hend; lia].
  eexists. split.
  - unfold Retry. rewrite (i64_id (attempts - 1)) by (unfold is_i64 in *; lia).
    replace (Z.to_nat (attempts - 1)) with (Z.to_nat (Z.max 1 attempts - 1)) by lia. apply E.
  - unfold fails_at. destruct (fst (f (after_calls f k s))); simpl; [|by split; [intros _ [] |]].
    split; [done|]. intros []. done.
Qed.

(** Four failures in a row, then success: five attempts are enough, and three
    are not. *)
Definition flaky_dial (n : nat) : option error * nat :=
  match n with O => (None, O) | S n' => (Some "server not ready"%string, n') end.

Lemma Retry_spec_witness :
  exists k, (k < 5)%nat /\ (forall j, (j < k)%nat -> fails_at flaky_dial j 4%nat) /\
    (exists r, Retry flaky_dial 5 50 4%nat = Ret (r, pauses 50 0 k, after_calls flaky_dial (S k) 4%nat) /\
       (r = None <-> ~ fails_at flaky_dial k 4%nat)) /\
    (fails_at flaky_dial k 4%nat -> S k = 5%nat).
Proof. apply (Retry_spec flaky_dial 5 50 4%nat); unfold is_i64, two63; lia. Defined.

Example Retry_runs :
  Retry flaky_dial 5 50 4%nat = Ret (None, [50; 100; 150; 200], 0%nat) /\
  Retry flaky_dial 3 50 4%nat = Ret (Some "after %d attempts, last error: %s"%string, [50; 100], 1%nat).
Proof. by vm_compute. Qed.

(** The scheduled function runs once at the start and once per tick before the
    stop. *)
Lemma Schedule_count ticks rest (n : nat) :
  Schedule S (replicate ticks Tick ++ Stopped :: rest) n = (n + ticks + 1)%nat.
Proof.
  unfold Schedule. enough (forall n, schedule_loop S (replicate ticks Tick ++ Stopped :: rest) n = (n + ticks)%nat)
    as -> by lia. induction ticks as [|t IH]; intros k; simpl; [lia|]. rewrite IH. lia.
Qed.
