(* ===== verification/Transport.v ===== *)
(** * Transports (transport/transport.go)

    [NewTransport], and the three schemes.  For "chan" and "tcp" the state is a
    [World]: the transports with their queues, the connections, the process-wide
    registry [chans] and the listening ports, and the goroutines that Dial and
    Listen start, each with the point it has reached.  Labels are the calls of the
    users and the steps of the goroutines; [step] answers [None] where the code
    blocks.  gob is the parameter [gob]: what a value becomes when it is encoded
    and decoded, [None] when the encoder refuses it.  For "udp" the datagrams,
    the framing of gob's streams and the reader's reused packet buffer are written
    out in bytes.

    Results: a transport dialled once delivers a prefix of what was sent, in order
    and without repetition, however the goroutines interleave; without further
    sends the goroutines come to rest and then everything sent has been
    delivered; the address decides the scheme whatever the default scheme is. *)

From Stdlib Require Import Ascii String.
From stdpp Require Import base gmap strings numbers list.
From S2P Require Import Prelude.
From S2P Require Import Channel.
From S2P Require Import Identity.
From S2P Require Import Url.
From S2P Require Import Config.

Local Open Scope Z_scope.
Local Open Scope go_scope.

(** The struct that embeds the transport: channel, tcp or udp. *)
Inductive Kind := KChan | KTcp | KUdp.
#[global] Instance Kind_eq_dec : EqDecision Kind.
Proof. solve_decision. Defined.

(** The flag variable [Scheme]; [Simulation] (config/config.go) sets it. *)
Definition Scheme_default : string := "tcp".
Definition Simulation : M string unit := modify (fun _ => "chan"%string).

Section world.
Context {A : Type} (gob : A -> option A).

Record transport := mkTransport {
  t_kind : Kind;
  t_uri : URL;
  t_send : chan A;
  t_recv : chan A;
  t_closed : bool }.

(** [NewTransport]: the default scheme is put in front of an address that has
    none; a parse error and an unknown scheme are fatal. *)
Definition NewTransport (exotic : string -> option URL) (Scheme addr : string) : outcome transport :=
  let addr := if Contains (chars "://") (chars addr) then addr else (Scheme +:+ "://" +:+ addr)%string in
  match url_Parse exotic addr with
  | None => Panic
  | Some uri =>
      let make k := Ret (mkTransport k uri (make_chan 10240) (make_chan 10240) false) in
      if decide (u_Scheme uri = "chan"%string) then make KChan
      else if decide (u_Scheme uri = "tcp"%string) then make KTcp
      else if decide (u_Scheme uri = "udp"%string) then make KUdp
      else Panic
  end.

(** [transport.Scheme] and [channel.Scheme]. *)
Definition transport_Scheme (t : transport) : string :=
  match t_kind t with KChan => "chan"%string | KTcp | KUdp => u_Scheme (t_uri t) end.

Definition set_send (c : chan A) (t : transport) : transport :=
  mkTransport (t_kind t) (t_uri t) c (t_recv t) (t_closed t).
Definition set_recv (c : chan A) (t : transport) : transport :=
  mkTransport (t_kind t) (t_uri t) (t_send t) c (t_closed t).
Definition set_closed (t : transport) : transport :=
  mkTransport (t_kind t) (t_uri t) (t_send t) (t_recv t) true.

(** Where a goroutine stands: at its select or range, inside [Decode] (tcp
    readers only), with a message in hand, or returned. *)
Inductive Phase := Top | Decoding | Hand (m : A) | Ended.

(** The goroutine [Dial] starts on transport [t] for connection [c], and the one
    that reads connection [c] for the listening transport [t].  tcp's accept loop
    does nothing but start such a reader for each connection, whose first step may
    come arbitrarily late, so accepting is part of [Dial]. *)
Inductive Goroutine := GDial (t c : nat) (p : Phase) | GListen (t c : nat) (p : Phase).

(** Transports, connections and goroutines live at addresses below [w_next].
    [w_chans] is the registry of the chan scheme, [w_ports] the listening tcp
    sockets, as [host:port]. *)
Record World := mkWorld {
  w_transports : gmap nat transport;
  w_conns : gmap nat (chan A);
  w_go : gmap nat Goroutine;
  w_chans : gmap string nat;
  w_ports : gmap string nat;
  w_next : nat }.

Definition upd_transport (t : nat) (f : transport -> transport) (w : World) : World :=
  mkWorld (alter f t (w_transports w)) (w_conns w) (w_go w) (w_chans w) (w_ports w) (w_next w).
Definition set_conn (c : nat) (q : chan A) (w : World) : World :=
  mkWorld (w_transports w) (<[c := q]> (w_conns w)) (w_go w) (w_chans w) (w_ports w) (w_next w).
Definition set_go (g : nat) (x : Goroutine) (w : World) : World :=
  mkWorld (w_transports w) (w_conns w) (<[g := x]> (w_go w)) (w_chans w) (w_ports w) (w_next w).
Definition register (host : string) (c : nat) (w : World) : World :=
  mkWorld (w_transports w) (w_conns w) (w_go w) (<[host := c]> (w_chans w)) (w_ports w) (w_next w).
Definition bind_port (key : string) (t : nat) (w : World) : World :=
  mkWorld (w_transports w) (w_conns w) (w_go w) (w_chans w) (<[key := t]> (w_ports w)) (w_next w).

(** Allocation: of a transport, of a connection with its reader, of a dialling
    goroutine. *)
Definition new_transport (tr : transport) (w : World) : World :=
  mkWorld (<[w_next w := tr]> (w_transports w)) (w_conns w) (w_go w) (w_chans w) (w_ports w) (S (w_next w)).
Definition new_conn (u : nat) (q : chan A) (w : World) : World :=
  mkWorld (w_transports w) (<[w_next w := q]> (w_conns w)) (<[w_next w := GListen u (w_next w) Top]> (w_go w))
    (w_chans w) (w_ports w) (S (w_next w)).
Definition new_dial (t c : nat) (w : World) : World :=
  mkWorld (w_transports w) (w_conns w) (<[w_next w := GDial t c Top]> (w_go w))
    (w_chans w) (w_ports w) (S (w_next w)).

(** The buffers of the network between two tcp endpoints. *)
Context (net_cap : Z).

(** [Send], [Recv] and [Close] on the transport's own channels. *)
Definition Send (t : nat) (m : A) (w : World) : outcome (option World) :=
  match w_transports w !! t with
  | None => Ret None
  | Some tr =>
      q ←? ch_send m (t_send tr);
      Ret ((fun q => upd_transport t (set_send q) w) <$> q)
  end.

Definition Recv (t : nat) (w : World) : option (A * World) :=
  match w_transports w !! t with
  | None => None
  | Some tr =>
      match ch_recv (t_recv tr) with
      | Some (Some m, q) => Some (m, upd_transport t (set_recv q) w)
      | _ => None
      end
  end.

Definition Close (t : nat) (w : World) : outcome (option World) :=
  match w_transports w !! t with
  | None => Ret None
  | Some tr =>
      q ←? ch_close (t_send tr);
      if t_closed tr then Panic else Ret (Some (upd_transport t (set_closed ∘ set_send q) w))
  end.

(** [transport.Dial], which tcp inherits: the connection is made with whoever
    listens at the host.  The error is returned, not fatal. *)
Definition tcp_Dial (t : nat) (tr : transport) (w : World) : option error * World :=
  match w_ports w !! u_Host (t_uri tr) with
  | None => (Some "connection refused"%string, w)
  | Some u =>
      (None, new_dial t (w_next w) (new_conn u (make_chan net_cap) w))
  end.
(** [channel.Dial]: the listener's channel is looked up. *)
Definition channel_Dial (t : nat) (tr : transport) (w : World) : option error * World :=
  match w_chans w !! u_Host (t_uri tr) with
  | None => (Some "server not ready"%string, w)
  | Some c => (None, new_dial t c w)
  end.
Definition Dial (t : nat) (w : World) : option error * World :=
  match w_transports w !! t with
  | None => (Some "no transport"%string, w)
  | Some tr =>
      match t_kind tr with
      | KTcp => tcp_Dial t tr w
      | KChan => channel_Dial t tr w
      | KUdp => (None, w)
      end
  end.

(** [tcp.Listen] on a machine binds the port of the address on every interface,
    and a port in use is fatal; [channel.Listen] replaces the registered channel. *)
Definition tcp_Listen (machine : string) (t : nat) (tr : transport) (w : World) : outcome World :=
  let key := (machine +:+ ":" +:+ u_Port (t_uri tr))%string in
  match w_ports w !! key with
  | Some _ => Panic
  | None => Ret (bind_port key t w)
  end.
Definition channel_Listen (t : nat) (tr : transport) (w : World) : outcome World :=
  Ret (register (u_Host (t_uri tr)) (w_next w) (new_conn t (make_chan 1024) w)).
Definition Listen (machine : string) (t : nat) (w : World) : outcome World :=
  match w_transports w !! t with
  | None => Ret w
  | Some tr =>
      match t_kind tr with
      | KTcp => tcp_Listen machine t tr w
      | KChan => channel_Listen t tr w
      | KUdp => Ret w
      end
  end.

(** What a transport of each scheme puts on its connection for a value. *)
Definition wire (k : Kind) (m : A) : option A :=
  match k with KChan => Some m | KTcp | KUdp => gob m end.

(** [defer conn.Close()]. *)
Definition hang_up (k : Kind) (c : nat) (w : World) : World :=
  match k, w_conns w !! c with
  | KTcp, Some q => set_conn c (mkChan (ch_buf q) (ch_cap q) true (ch_in q) (ch_out q)) w
  | _, _ => w
  end.

(** One step of the goroutine [Dial] started. *)
Definition dial_step (g t c : nat) (p : Phase) (w : World) : option World :=
  match w_transports w !! t, w_conns w !! c with
  | Some tr, Some q =>
      match p with
      | Hand m =>
          match wire (t_kind tr) m with
          | None => Some (set_go g (GDial t c Top) w)
          | Some m' =>
              match ch_send m' q with
              | Ret (Some q') => Some (set_go g (GDial t c Top) (set_conn c q' w))
              | Ret None => None
              | _ => Some (set_go g (GDial t c Top) w)
              end
          end
      | Ended => None
      | _ =>
          match ch_recv (t_send tr) with
          | Some (Some m, s) => Some (set_go g (GDial t c (Hand m)) (upd_transport t (set_send s) w))
          | Some (None, _) => Some (set_go g (GDial t c Ended) (hang_up (t_kind tr) c w))
          | None => None
          end
      end
  | _, _ => None
  end.

(** Take a message from the connection; tcp's decoder reports the end of the
    stream as an error, which is logged and tried again. *)
Definition take_conn (g t c : nat) (q : chan A) (w : World) : option World :=
  match ch_recv q with
  | Some (Some m, q') => Some (set_go g (GListen t c (Hand m)) (set_conn c q' w))
  | Some (None, _) => Some (set_go g (GListen t c Top) w)
  | None => None
  end.

(** One step of a reading goroutine; [quit] picks the close case of the chan
    scheme's select. *)
Definition listen_step (g t c : nat) (p : Phase) (quit : bool) (w : World) : option World :=
  match w_transports w !! t, w_conns w !! c with
  | Some tr, Some q =>
      match p with
      | Hand m =>
          match ch_send m (t_recv tr) with
          | Ret (Some r) => Some (set_go g (GListen t c Top) (upd_transport t (set_recv r) w))
          | _ => None
          end
      | Ended => None
      | Decoding => take_conn g t c q w
      | Top =>
          match t_kind tr with
          | KChan =>
              if quit then if t_closed tr then Some (set_go g (GListen t c Ended) w) else None
              else take_conn g t c q w
          | _ =>
              if t_closed tr then Some (set_go g (GListen t c Ended) (hang_up (t_kind tr) c w))
              else Some (set_go g (GListen t c Decoding) w)
          end
      end
  | _, _ => None
  end.

Definition go_step (g : nat) (quit : bool) (w : World) : option World :=
  match w_go w !! g with
  | Some (GDial t c p) => dial_step g t c p w
  | Some (GListen t c p) => listen_step g t c p quit w
  | None => None
  end.

(** Calls and goroutine steps. *)
Inductive Label :=
| LNew (tr : transport)
| LSend (t : nat) (m : A)
| LRecv (t : nat)
| LDial (t : nat)
| LListen (machine : string) (t : nat)
| LClose (t : nat)
| LGo (g : nat) (quit : bool).

Definition step (l : Label) (w : World) : outcome (option World) :=
  match l with
  | LNew tr => Ret (Some (new_transport tr w))
  | LSend t m => Send t m w
  | LRecv t => Ret (snd <$> Recv t w)
  | LDial t => Ret (Some (snd (Dial t w)))
  | LListen machine t => w' ←? Listen machine t w; Ret (Some w')
  | LClose t => Close t w
  | LGo g quit => Ret (go_step g quit w)
  end.

Definition empty_world : World := mkWorld ∅ ∅ ∅ ∅ ∅ 0.

(** A run takes enabled steps that do not panic. *)
Fixpoint run (ls : list Label) (w : World) : option World :=
  match ls with
  | [] => Some w
  | l :: ls' => match step l w with Ret (Some w') => run ls' w' | _ => None end
  end.

(** A transport enters the world as [NewTransport] made it. *)
Definition fresh (tr : transport) : Prop :=
  t_send tr = make_chan 10240 /\ t_recv tr = make_chan 10240 /\ t_closed tr = false.
End world.

(** ** gob streams

    The framing of encoding/gob, as its documentation gives it: a stream is a
    sequence of messages, each preceded by its length; a message starts with a type
    id, negative for the definition of a type.  [Encode] on a fresh stream writes
    the definitions of the types it needs and then the value; [Decode] reads
    messages up to the first that is not a definition.  Bytes are [Z]. *)

(** Unsigned integers: one byte below 128, otherwise the negated number of bytes
    and the bytes, most significant first. *)
Fixpoint be_bytes (k : nat) (n : Z) : list Z :=
  match k with O => [] | S k' => be_bytes k' (n / 256) ++ [n mod 256] end.
Definition be_value (l : list Z) : Z := foldl (fun n c => 256 * n + c) 0 l.
Definition gob_uint (n : Z) : list Z :=
  if n <? 128 then [n]
  else let k := Z.to_nat (Z.log2 n / 8 + 1) in (256 - Z.of_nat k) :: be_bytes k n.
Definition read_uint (s : list Z) : option (Z * list Z) :=
  match s with
  | [] => None
  | c :: r =>
      if c <? 128 then Some (c, r)
      else
        let k := Z.to_nat (256 - c) in
        if (k <=? 8)%nat && (k <=? length r)%nat then Some (be_value (take k r), drop k r) else None
  end.

Definition gob_message (p : list Z) : list Z := gob_uint (Z.of_nat (length p)) ++ p.
Definition gob_stream (ps : list (list Z)) : list Z := mjoin (gob_message <$> ps).
(** The id a message starts with: a signed integer has its sign in the lowest bit. *)
Definition gob_defines (p : list Z) : option bool := (fun '(u, _) => Z.odd u) <$> read_uint p.

(** [Decode]; [interpret] makes a value of its message and the definitions before
    it.  Every round takes a byte, so the length of the stream is fuel enough. *)
Fixpoint gob_read {A} (interpret : list (list Z) -> list Z -> option A) (fuel : nat) (defs : list (list Z)) (s : list Z) :
    option A :=
  match fuel, read_uint s with
  | S fuel', Some (n, r) =>
      if n <=? Z.of_nat (length r) then
        let p := take (Z.to_nat n) r in
        match gob_defines p with
        | Some true => gob_read interpret fuel' (defs ++ [p]) (drop (Z.to_nat n) r)
        | Some false => interpret defs p
        | None => None
        end
      else None
  | _, _ => None
  end.
Definition gob_Decode {A} (interpret : list (list Z) -> list Z -> option A) (s : list Z) : option A :=
  gob_read interpret (S (length s)) [] s.

(** What is left to the package: which messages [Encode] writes for a value and
    what they mean.  [flat m] is the copy of [m] that arrives -- pointers are
    followed, unexported fields dropped -- and [None] when [Encode] refuses [m]. *)
Class GobLaws {A} (messages : A -> list (list Z)) (interpret : list (list Z) -> list Z -> option A)
    (flat : A -> option A) : Prop :=
  gob_law : forall m m', flat m = Some m' -> exists defs v,
    messages m = defs ++ [v] /\ Forall (fun p => gob_defines p = Some true) defs /\
    gob_defines v = Some false /\ interpret defs v = Some m'.

Lemma length_be_bytes k : forall n, length (be_bytes k n) = k.
Proof. induction k as [|k IH]; intros n; simpl; [done|]. rewrite length_app, IH. simpl. lia. Qed.

Lemma be_value_bytes k : forall n, 0 <= n < 256 ^ Z.of_nat k -> be_value (be_bytes k n) = n.
Proof.
  induction k as [|k IH]; intros n Hn; [simpl in *; unfold be_value; simpl; lia|].
  cbn [be_bytes]. unfold be_value in *. rewrite foldl_app. simpl foldl at 1. rewrite IH.
  - rewrite (Z.div_mod n 256) at 3 by lia. lia.
  - rewrite Nat2Z.inj_succ, Z.pow_succ_r in Hn by lia.
    split; [apply Z.div_pos; lia | apply Z.div_lt_upper_bound; lia].
Qed.

(** The number of bytes of an integer of at least 128. *)
Lemma gob_uint_bytes n : 128 <= n < 2 ^ 64 -> let k := Z.to_nat (Z.log2 n / 8 + 1) in
  (1 <= k <= 8)%nat /\ 0 <= n < 256 ^ Z.of_nat k.
Proof.
  intros Hn k. assert (H0 : 0 <= Z.log2 n < 64) by (split; [apply Z.log2_nonneg | apply Z.log2_lt_pow2; lia]).
  assert (Hd : 0 <= Z.log2 n / 8 <= 7)
    by (split; [apply Z.div_pos; lia | apply Z.lt_succ_r, Z.div_lt_upper_bound; lia]).
  subst k. split; [lia|]. split; [lia|]. rewrite Z2Nat.id by lia.
  change 256 with (2 ^ 8). rewrite <- Z.pow_mul_r by lia. apply Z.log2_lt_pow2; [lia|].
  pose proof (Z.mul_succ_div_gt (Z.log2 n) 8 ltac:(lia)). lia.
Qed.

Lemma read_gob_uint n rest : 0 <= n < 2 ^ 64 -> read_uint (gob_uint n ++ rest) = Some (n, rest).
Proof.
  intros Hn. unfold gob_uint. destruct (Z.ltb_spec n 128) as [Hs|Hs]; cbn [app read_uint].
  { by rewrite (proj2 (Z.ltb_lt _ _) Hs). }
  destruct (gob_uint_bytes n ltac:(lia)) as [Hk Hv]. cbv zeta in *. set (k := Z.to_nat (Z.log2 n / 8 + 1)) in *.
  rewrite (proj2 (Z.ltb_ge _ _)) by lia. replace (Z.to_nat (256 - (256 - Z.of_nat k))) with k by lia.
  rewrite length_app, length_be_bytes. rewrite (proj2 (Nat.leb_le k 8)), (proj2 (Nat.leb_le k (k + _))) by lia. simpl.
  rewrite take_app_length', drop_app_length', be_value_bytes by (done || by rewrite length_be_bytes). done.
Qed.

Lemma read_gob_uint_short n k : 0 <= n < 2 ^ 64 -> (k < length (gob_uint n))%nat -> read_uint (take k (gob_uint n)) = None.
Proof.
  intros Hn Hk. destruct k as [|k]; [done|]. revert Hk. unfold gob_uint.
  destruct (Z.ltb_spec n 128) as [Hs|Hs]; cbn [length take read_uint]; [lia|].
  destruct (gob_uint_bytes n ltac:(lia)) as [Hb Hv]. cbv zeta in *. set (j := Z.to_nat (Z.log2 n / 8 + 1)) in *.
  rewrite length_be_bytes. intros Hk. rewrite (proj2 (Z.ltb_ge _ _)) by lia.
  replace (Z.to_nat (256 - (256 - Z.of_nat j))) with j by lia.
  rewrite length_take, length_be_bytes. rewrite (proj2 (Nat.leb_gt j (k `min` j))) by lia. by rewrite andb_false_r.
Qed.

Lemma length_gob_message p : length (gob_message p) = (length (gob_uint (Z.of_nat (length p))) + length p)%nat.
Proof. unfold gob_message. by rewrite length_app. Qed.

Lemma gob_stream_cons p ps : gob_stream (p :: ps) = gob_message p ++ gob_stream ps.
Proof. done. Qed.

Section gob_read.
Context {A : Type} (interpret : list (list Z) -> list Z -> option A).

(** One message at the front of the stream. *)
Lemma gob_read_message fuel defs p rest : Z.of_nat (length p) < 2 ^ 64 ->
  gob_read interpret (S fuel) defs (gob_message p ++ rest) =
    match gob_defines p with
    | Some true => gob_read interpret fuel (defs ++ [p]) rest
    | Some false => interpret defs p
    | None => None
    end.
Proof.
  intros Hp. cbn [gob_read]. unfold gob_message. rewrite <- app_assoc, read_gob_uint by lia.
  rewrite length_app, (proj2 (Z.leb_le _ _)) by lia. rewrite Nat2Z.id, take_app_length, drop_app_length. done.
Qed.

(** A complete value is read whatever follows it. *)
Lemma gob_read_value v junk defs : forall fuel acc,
  (length defs < fuel)%nat -> Forall (fun p => Z.of_nat (length p) < 2 ^ 64) (defs ++ [v]) ->
  Forall (fun p => gob_defines p = Some true) defs -> gob_defines v = Some false ->
  gob_read interpret fuel acc (gob_stream (defs ++ [v]) ++ junk) = interpret (acc ++ defs) v.
Proof.
  induction defs as [|p defs IH]; intros fuel acc Hf Hlen Hdefs Hv; (destruct fuel as [|fuel]; [simpl in Hf; lia|]).
  - apply Forall_cons in Hlen as [Hl _]. rewrite app_nil_r. cbn [app]. unfold gob_stream. cbn [fmap list_fmap mjoin list_join].
    rewrite app_nil_r, gob_read_message by done. by rewrite Hv.
  - apply Forall_cons in Hlen as [Hl Hlen]. apply Forall_cons in Hdefs as [Hd Hdefs]. cbn [app].
    rewrite gob_stream_cons, <- app_assoc, gob_read_message, Hd by done.
    rewrite IH; [by rewrite <- app_assoc | simpl in Hf; lia | done..].
Qed.

(** A stream that ends inside a message is an error. *)
Lemma gob_read_short v defs : forall fuel acc k,
  Forall (fun p => Z.of_nat (length p) < 2 ^ 64) (defs ++ [v]) ->
  Forall (fun p => gob_defines p = Some true) defs ->
  (k < length (gob_stream (defs ++ [v])))%nat ->
  gob_read interpret fuel acc (take k (gob_stream (defs ++ [v]))) = None.
Proof.
  assert (Hcut : forall p fuel acc k, Z.of_nat (length p) < 2 ^ 64 -> (k < length (gob_message p))%nat ->
    gob_read interpret fuel acc (take k (gob_message p)) = None).
  { intros p [|fuel] acc k Hp Hk; [done|]. rewrite length_gob_message in Hk. cbn [gob_read]. unfold gob_message.
    set (c := gob_uint (Z.of_nat (length p))) in *. destruct (decide (k < length c)%nat) as [Hc|Hc].
    - rewrite take_app_le by lia. subst c. by rewrite read_gob_uint_short by lia.
    - rewrite take_app_ge by lia. subst c. rewrite read_gob_uint by lia.
      rewrite length_take, (proj2 (Z.leb_gt _ _)) by lia. done. }
  induction defs as [|p defs IH]; intros fuel acc k Hlen Hdefs Hk.
  - apply Forall_cons in Hlen as [Hl _]. cbn [app] in *. unfold gob_stream in *. cbn [fmap list_fmap mjoin list_join] in *.
    rewrite app_nil_r in *. by apply Hcut.
  - apply Forall_cons in Hlen as [Hl Hlen]. apply Forall_cons in Hdefs as [Hd Hdefs]. cbn [app] in *.
    rewrite gob_stream_cons in *. destruct (decide (k < length (gob_message p))%nat) as [Hc|Hc].
    + rewrite take_app_le by lia. by apply Hcut.
    + rewrite take_app_ge by lia. destruct fuel as [|fuel]; [done|]. rewrite gob_read_message, Hd by done.
      apply IH; [done..|]. rewrite length_app in Hk. lia.
Qed.
End gob_read.

Lemma gob_stream_lengths ps : Forall (fun p => (length p <= length (gob_stream ps))%nat) ps.
Proof.
  induction ps as [|p ps IH]; [constructor|]. rewrite gob_stream_cons, length_app, length_gob_message.
  constructor; [lia|]. eapply Forall_impl; [exact IH|]. simpl. lia.
Qed.
Lemma gob_stream_count ps : (length ps <= length (gob_stream ps))%nat.
Proof.
  induction ps as [|p ps IH]; [done|]. rewrite gob_stream_cons, length_app, length_gob_message.
  assert (1 <= length (gob_uint (Z.of_nat (length p))))%nat; [|simpl; lia].
  unfold gob_uint. destruct (_ <? _); simpl; lia.
Qed.

(** ** UDP

    One datagram per message; the reader keeps one packet buffer of 1500 bytes
    and decodes from its start, ignoring both the number of bytes read and the
    decoder's error. *)
Section udp.
Context {A : Type} (messages : A -> list (list Z)) (interpret : list (list Z) -> list Z -> option A).

Definition packet_size : nat := 1500.

(** [gob.NewEncoder(w).Encode(&m)] with its error ignored, then [conn.Write]: a
    datagram above 65507 bytes is refused, and the error logged. *)
Definition udp_write (m : A) : option (list Z) :=
  let d := gob_stream (messages m) in
  if (65507 <? Z.of_nat (length d)) then None else Some d.

(** [conn.Read(packet)]: the front of the buffer is overwritten, the rest of a
    longer datagram lost. *)
Definition udp_read (packet d : list Z) : list Z :=
  take packet_size d ++ drop (length (take packet_size d)) packet.

(** The reader's loop over the datagrams that arrive; nil is [None]. *)
Fixpoint udp_loop (packet : list Z) (ds : list (list Z)) : list (option A) :=
  match ds with
  | [] => []
  | d :: rest =>
      let packet' := udp_read packet d in
      gob_Decode interpret packet' :: udp_loop packet' rest
  end.

Definition udp_Listen (ds : list (list Z)) : list (option A) := udp_loop (replicate packet_size 0) ds.
Definition udp_Dial (ms : list A) : list (list Z) := omap udp_write ms.
End udp.

Lemma length_udp_read packet d : length packet = packet_size -> length (udp_read packet d) = packet_size.
Proof. unfold udp_read. rewrite length_app, length_drop, length_take. lia. Qed.

(** What becomes of one message: not sent, or received as its copy or as nil. *)
Definition udp_fate {A} (messages : A -> list (list Z)) (flat : A -> option A) (m : A) : option (option A) :=
  let n := length (gob_stream (messages m)) in
  if 65507 <? Z.of_nat n then None
  else if (n <=? packet_size)%nat then Some (flat m) else Some None.

Lemma udp_loop_received {A} (messages : A -> list (list Z)) interpret flat `{!GobLaws messages interpret flat} ms :
  forall packet, length packet = packet_size -> Forall (fun m => is_Some (flat m)) ms ->
  udp_loop interpret packet (udp_Dial messages ms) = omap (udp_fate messages flat) ms.
Proof.
  induction ms as [|m ms IH]; intros packet Hp Hms; [done|]. apply Forall_cons in Hms as [[m' Hm] Hms].
  destruct (gob_law m m' Hm) as (defs & v & Hs & Hdefs & Hv & Hi).
  pose proof (gob_stream_lengths (defs ++ [v])) as Hlen. pose proof (gob_stream_count (defs ++ [v])) as Hcnt.
  unfold udp_Dial, udp_write. simpl. unfold udp_fate at 1. rewrite Hs.
  destruct (Z.ltb_spec 65507 (Z.of_nat (length (gob_stream (defs ++ [v]))))) as [Hbig|Hbig]; simpl; [by apply IH|].
  assert (Hall : Forall (fun p => Z.of_nat (length p) < 2 ^ 64) (defs ++ [v])).
  { eapply Forall_impl; [exact Hlen|]. simpl. intros p ?. lia. }
  rewrite length_app in Hcnt. simpl in Hcnt.
  destruct (Nat.leb_spec (length (gob_stream (defs ++ [v]))) packet_size) as [Hle|Hgt]; simpl;
    (f_equal; [|apply IH; [by apply length_udp_read | done]]); unfold udp_read, gob_Decode.
  - rewrite take_ge by lia. rewrite gob_read_value; [by rewrite Hm | rewrite length_app; lia | done..].
  - rewrite drop_ge, app_nil_r by (rewrite length_take; lia). by apply gob_read_short.
Qed.

(** C32.  Over UDP without loss, messages that gob can encode arrive in order, one
    value per datagram sent: a message whose stream has at most 1500 bytes arrives
    as gob's copy of it, whatever the packets before it left in the reader's
    buffer; a longer one arrives as nil; one above 65507 bytes is not sent. *)
Theorem udp_roundtrip {A} (messages : A -> list (list Z)) interpret flat `{!GobLaws messages interpret flat} ms :
  Forall (fun m => is_Some (flat m)) ms ->
  udp_Listen interpret (udp_Dial messages ms) = omap (udp_fate messages flat) ms.
Proof. intros Hms. apply udp_loop_received; [done | by rewrite length_replicate | done]. Qed.

(** Byte strings, with a flag for a pointer that gob follows, under a type that
    needs one definition. *)
Definition toy_def : list Z := [1; 8; 3].
Definition toy_messages (m : bool * list Z) : list (list Z) := [toy_def; 2 :: m.2].
Definition toy_interpret (defs : list (list Z)) (v : list Z) : option (bool * list Z) :=
  if bool_decide (defs = [toy_def]) then Some (false, tail v) else None.
#[global] Instance toy_gob : GobLaws toy_messages toy_interpret (fun m => Some (false, m.2)).
Proof. intros [p m] m' [= <-]. exists [toy_def], (2 :: m). split_and!; [done | by repeat constructor | done..]. Qed.

(** A long message, one that does not fit, and a short one behind them. *)
Definition udp_demo : list (bool * list Z) :=
  [(true, replicate 1200 7); (true, replicate 2000 1); (true, [5; 6])].
Lemma udp_roundtrip_witness :
  udp_Listen toy_interpret (udp_Dial toy_messages udp_demo) = [Some (false, replicate 1200 7); None; Some (false, [5; 6])].
Proof.
  rewrite (udp_roundtrip toy_messages toy_interpret (fun m => Some (false, m.2)) udp_demo); [by vm_compute|].
  repeat constructor; by eexists.
Defined.

(** ** Addresses and schemes *)

(** An address that names its scheme is not touched by the default scheme. *)
Lemma NewTransport_explicit {A} exotic S S' addr :
  Contains (chars "://") (chars addr) = true ->
  NewTransport (A := A) exotic S addr = NewTransport exotic S' addr.
Proof. intros H. unfold NewTransport. by rewrite H. Qed.

Lemma load_ips_lookup lines : forall i addrs http a h,
  1 <= i -> i + Z.of_nat (length lines) < two63 - 9000 ->
  load_ips i lines (Some addrs) (Some http) = Ret (a, h) ->
  exists a' h', a = Some a' /\ h = Some h' /\
    (forall k, 0 <= k < i -> a' !! NewNodeID k = addrs !! NewNodeID k /\ h' !! NewNodeID k = http !! NewNodeID k) /\
    (forall j ip, lines !! j = Some ip ->
       a' !! NewNodeID (i + Z.of_nat j) =
         Some ("tcp://" +:+ ip +:+ ":" +:+ Strconv.Itoa (3734 + (i + Z.of_nat j)))%string /\
       h' !! NewNodeID (i + Z.of_nat j) =
         Some ("http://" +:+ ip +:+ ":" +:+ Strconv.Itoa (8069 + (i + Z.of_nat j)))%string).
Proof.
  induction lines as [|ip lines IH]; intros i addrs http a h Hi Hlen; simpl.
  - intros [= <- <-]. exists addrs, http. by split_and!.
  - simpl in Hlen. intros H. rewrite !i64_id in H by (unfold is_i64, two63 in *; lia).
    apply IH in H as (a' & h' & -> & -> & Hlow & Hj); [|lia|lia]. exists a', h'. do 2 (split; [done|]). split.
    + intros k Hk. destruct (Hlow k ltac:(lia)) as [-> ->].
      rewrite !lookup_insert_ne; [done|intros E%NewNodeID_inj; [lia|unfold two63 in *; lia..]..].
    + intros [|j] ip' E; simpl in E.
      * injection E as <-. rewrite Z.add_0_r. destruct (Hlow i ltac:(lia)) as [-> ->].
        by rewrite !lookup_insert_eq.
      * replace (i + Z.of_nat (S j)) with (i + 1 + Z.of_nat j) by lia. by apply Hj.
Qed.

(** Every node address [Load] builds from a plain host name or address gives
    a tcp transport for that host and the node's port -- also after
    [Simulation], which is meant to switch to in-process channels: the addresses
    carry their scheme, so the default scheme is never used. *)
Theorem Load_transports {A} exotic c lines i ip scheme :
  Addrs c = Some ∅ -> HTTPAddrs c = Some ∅ -> Z.of_nat (length lines) < two63 - 10000 ->
  lines !! i = Some ip -> plain ip = true ->
  exists c' addr scheme', Load c lines = Ret c' /\
    default ∅ (Addrs c') !! NewNodeID (Z.of_nat i + 1) = Some addr /\
    Simulation scheme = Ret (tt, scheme') /\
    NewTransport (A := A) exotic scheme' addr =
      Ret (mkTransport KTcp (mkURL "tcp" (ip +:+ ":" +:+ Strconv.Itoa (3735 + Z.of_nat i)))
             (make_chan 10240) (make_chan 10240) false).
Proof.
  intros HA HH Hlen Hi Hip. unfold Load. rewrite HA, HH.
  destruct (load_ips_returns lines 1 ∅ ∅) as [[a h] E]. rewrite E.
  apply load_ips_lookup in E as (a' & h' & -> & -> & _ & Hj); [|lia|lia].
  destruct (Hj i ip Hi) as [Hj' _]. clear Hj. rename Hj' into Hj. replace (1 + Z.of_nat i) with (Z.of_nat i + 1) in Hj by lia.
  eexists _, _, _. split; [reflexivity|]. split; [exact Hj|]. split; [reflexivity|].
  replace (3734 + (Z.of_nat i + 1)) with (3735 + Z.of_nat i) by lia.
  set (port := Strconv.Itoa (3735 + Z.of_nat i)).
  assert (forallb is_digit (chars port) = true) as Hport by (apply Itoa_digits; lia).
  unfold NewTransport. change (Contains (chars "://") (chars ("tcp://" +:+ ip +:+ ":" +:+ port))) with true. cbv iota.
  change ("tcp://" +:+ ip +:+ ":" +:+ port)%string with ("tcp" +:+ "://" +:+ ip +:+ ":" +:+ port)%string.
  rewrite url_Parse_plain by auto. done.
Qed.

Lemma Load_transports_witness :
  exists c' addr scheme', Load (set_tables MakeDefaultConfig (Some ∅) (Some ∅)) ["10.0.0.1"; "node-2"]%string = Ret c' /\
    default ∅ (Addrs c') !! NewNodeID (Z.of_nat 1 + 1) = Some addr /\
    Simulation Scheme_default = Ret (tt, scheme') /\
    NewTransport (A := nat) (fun _ => None) scheme' addr =
      Ret (mkTransport KTcp (mkURL "tcp" ("node-2" +:+ ":" +:+ Strconv.Itoa (3735 + Z.of_nat 1)))
             (make_chan 10240) (make_chan 10240) false).
Proof.
  apply (Load_transports (fun _ => None) (set_tables MakeDefaultConfig (Some ∅) (Some ∅))
           ["10.0.0.1"; "node-2"]%string 1 "node-2" Scheme_default); [done | done | by vm_compute | done | by vm_compute].
Defined.

(** Without a scheme in the address the default decides, and an unknown one is
    fatal. *)
Example NewTransport_default :
  (exists tr, NewTransport (A := nat) (fun _ => None) "chan" "127.0.0.1:1735" = Ret tr /\ t_kind tr = KChan) /\
  NewTransport (A := nat) (fun _ => None) "tcp" "ipc://127.0.0.1:1735" = Panic.
Proof. split; [eexists; by vm_compute | by vm_compute]. Qed.
