(* ===== verification/TransportSpec.v ===== *)
(** * Delivery over the chan and tcp transports

    The invariant of the transports' world and what it gives: per sending
    transport, the messages taken from the receiver's queue are a prefix of the
    messages sent, in order; and a world left alone comes to rest with every
    message delivered. *)

From Stdlib Require Import String.
From stdpp Require Import base gmap strings numbers list.
From S2P Require Import Prelude.
From S2P Require Import Channel.
From S2P Require Import Identity.
From S2P Require Import Url.
From S2P Require Import Config.
From S2P Require Import Transport.

Local Open Scope Z_scope.
Local Open Scope go_scope.

Section spec.
Context {A : Type} (gob : A -> option A) (net_cap : Z).
(** Which transport a message was sent on; encoding keeps it. *)
Context (origin : A -> nat).

Abbreviation World := (@World A).
Abbreviation Label := (@Label A).
Abbreviation Phase := (@Phase A).
Abbreviation Goroutine := (@Goroutine A).
Abbreviation no_chan := (@make_chan A 1).
Implicit Types (w : World) (p : Phase).

(** The queues of a world, empty where nothing is allocated. *)
Definition sendq (w : World) (t : nat) : chan A := from_option t_send no_chan (w_transports w !! t).
Definition recvq (w : World) (t : nat) : chan A := from_option t_recv no_chan (w_transports w !! t).
Definition connq (w : World) (c : nat) : chan A := default no_chan (w_conns w !! c).
Definition kindof (w : World) (t : nat) : Kind := from_option t_kind KUdp (w_transports w !! t).

Definition hand (p : Phase) : list A := match p with Hand m => [m] | _ => [] end.

(** The messages of transport [t] in a list. *)
Definition from (t : nat) (l : list A) : list A := filter (fun x => origin x = t) l.

Lemma from_app t l k : from t (l ++ k) = from t l ++ from t k.
Proof. apply filter_app. Qed.
Lemma from_none t l : (forall x, x ∈ l -> origin x <> t) -> from t l = [].
Proof.
  intros H. unfold from. induction l as [|x l IH]; [done|].
  rewrite filter_cons_False by (apply H; left). apply IH. intros y Hy. apply H. by right.
Qed.
Lemma from_nil_inv t l x : from t l = [] -> x ∈ l -> origin x <> t.
Proof.
  intros H Hx E. assert (x ∈ from t l) as Hf by (by apply list_elem_of_filter). rewrite H in Hf.
  by apply elem_of_nil in Hf.
Qed.
Lemma from_nil_sub t l k : from t l = [] -> (forall x, x ∈ k -> x ∈ l) -> from t k = [].
Proof. intros H Hs. apply from_none. intros x Hx. eapply from_nil_inv; eauto. Qed.
Lemma from_one t x : origin x = t -> from t [x] = [x].
Proof. intros H. unfold from. by rewrite filter_cons_True. Qed.
Lemma from_other t x : origin x <> t -> from t [x] = [].
Proof. intros H. unfold from. by rewrite filter_cons_False. Qed.

(** ** The general invariant *)
Record good (w : World) : Prop := {
  g_send : forall t, chan_wf (sendq w t);
  g_recv : forall t, chan_wf (recvq w t);
  g_conn : forall c, chan_wf (connq w c);
  g_fresh : forall k, (w_next w <= k)%nat ->
    w_transports w !! k = None /\ w_conns w !! k = None /\ w_go w !! k = None;
  g_dials : forall g t c p, w_go w !! g = Some (GDial t c p) ->
    is_Some (w_transports w !! t) /\ is_Some (w_conns w !! c);
  g_listens : forall g t c p, w_go w !! g = Some (GListen t c p) ->
    is_Some (w_transports w !! t) /\ is_Some (w_conns w !! c);
  g_reader : forall c, is_Some (w_conns w !! c) -> exists g u p, w_go w !! g = Some (GListen u c p);
  g_one_reader : forall g1 g2 u1 u2 c p1 p2,
    w_go w !! g1 = Some (GListen u1 c p1) -> w_go w !! g2 = Some (GListen u2 c p2) -> g1 = g2;
  g_chans : forall h c, w_chans w !! h = Some c -> is_Some (w_conns w !! c);
  g_ports : forall h u, w_ports w !! h = Some u -> is_Some (w_transports w !! u);
  g_origin : forall t x, x ∈ ch_in (sendq w t) -> origin x = t;
  g_hand : forall g t c m, w_go w !! g = Some (GDial t c (Hand m)) -> origin m = t;
  g_recv_open : forall t, ch_closed (recvq w t) = false
}.

Lemma sendq_upd w t f t' :
  sendq (upd_transport t f w) t' =
    if decide (t = t') then from_option (t_send ∘ f) no_chan (w_transports w !! t) else sendq w t'.
Proof.
  unfold sendq, upd_transport. simpl. case_decide as E.
  - subst. rewrite lookup_alter_eq. by destruct (w_transports w !! t').
  - by rewrite lookup_alter_ne.
Qed.
Lemma recvq_upd w t f t' :
  recvq (upd_transport t f w) t' =
    if decide (t = t') then from_option (t_recv ∘ f) no_chan (w_transports w !! t) else recvq w t'.
Proof.
  unfold recvq, upd_transport. simpl. case_decide as E.
  - subst. rewrite lookup_alter_eq. by destruct (w_transports w !! t').
  - by rewrite lookup_alter_ne.
Qed.
Lemma upd_transport_some w t f t' :
  is_Some (w_transports (upd_transport t f w) !! t') <-> is_Some (w_transports w !! t').
Proof.
  simpl. destruct (decide (t = t')) as [->|]; [|by rewrite lookup_alter_ne].
  rewrite lookup_alter_eq. by rewrite fmap_is_Some.
Qed.
Lemma connq_set w c q c' : connq (set_conn c q w) c' = if decide (c = c') then q else connq w c'.
Proof.
  unfold connq. simpl. case_decide as E; [subst; by rewrite lookup_insert_eq | by rewrite lookup_insert_ne].
Qed.

(** Each primitive change of the world keeps the invariant. *)
Lemma good_upd w t f :
  (forall tr, w_transports w !! t = Some tr ->
     chan_wf (t_send (f tr)) /\ chan_wf (t_recv (f tr)) /\ ch_closed (t_recv (f tr)) = false /\
     (forall x, x ∈ ch_in (t_send (f tr)) -> origin x = t)) ->
  good w -> good (upd_transport t f w).
Proof.
  intros Hf []. split; try done.
  - intros t'. rewrite sendq_upd. case_decide; [subst|done].
    destruct (w_transports w !! t') as [tr|] eqn:E; simpl; [by apply Hf | by apply make_chan_wf].
  - intros t'. rewrite recvq_upd. case_decide; [subst|done].
    destruct (w_transports w !! t') as [tr|] eqn:E; simpl; [by apply Hf | by apply make_chan_wf].
  - intros k Hk. destruct (g_fresh0 k Hk) as (E & ? & ?). split_and!; [|done..].
    simpl. rewrite lookup_alter_None. done.
  - intros g t' c p Hg. rewrite upd_transport_some. by eapply g_dials0.
  - intros g t' c p Hg. rewrite upd_transport_some. by eapply g_listens0.
  - intros h u Hu. rewrite upd_transport_some. by eapply g_ports0.
  - intros t' x. rewrite sendq_upd. case_decide; [subst|apply g_origin0].
    destruct (w_transports w !! t') as [tr|] eqn:E; simpl; [by apply Hf | by intros ?%elem_of_nil].
  - intros t'. rewrite recvq_upd. case_decide; [subst|done].
    destruct (w_transports w !! t') as [tr|] eqn:E; simpl; [by apply Hf | done].
Qed.

Lemma good_set_conn w c q : is_Some (w_conns w !! c) -> chan_wf q -> good w -> good (set_conn c q w).
Proof.
  intros Hc Hq [].
  assert (forall c', is_Some (w_conns (set_conn c q w) !! c') <-> is_Some (w_conns w !! c')) as Hiff.
  { intros c'. simpl. destruct (decide (c = c')) as [->|];
      [rewrite lookup_insert_eq; by split | by rewrite lookup_insert_ne]. }
  split; try done.
  - intros c'. rewrite connq_set. by case_decide.
  - intros k Hk. destruct (g_fresh0 k Hk) as (? & E & ?). split_and!; [done| |done].
    simpl. rewrite lookup_insert_ne; [done|]. intros ->. rewrite E in Hc. by destruct Hc.
  - intros g t c' p Hg. rewrite Hiff. by eapply g_dials0.
  - intros g t c' p Hg. rewrite Hiff. by eapply g_listens0.
  - intros c'. rewrite Hiff. apply g_reader0.
  - intros h c'. rewrite Hiff. apply g_chans0.
Qed.

(** A goroutine moves on: its transport and connection stay. *)
Definition moves (x y : Goroutine) : Prop :=
  match x, y with
  | GDial t c _, GDial t' c' p => t = t' /\ c = c' /\ (forall m, p = Hand m -> origin m = t)
  | GListen t c _, GListen t' c' _ => t = t' /\ c = c'
  | _, _ => False
  end.

Lemma good_set_go w g x y :
  w_go w !! g = Some x -> moves x y -> good w -> good (set_go g y w).
Proof.
  intros Hx Hm [].
  assert (forall g' y', w_go (set_go g y w) !! g' = Some y' -> g' = g /\ y' = y \/ w_go w !! g' = Some y') as Hgo.
  { intros g' y'. simpl. rewrite lookup_insert_Some. naive_solver. }
  split; try done.
  - intros k Hk. destruct (g_fresh0 k Hk) as (? & ? & E). split_and!; [done..|].
    simpl. rewrite lookup_insert_ne; [done|]. by intros ->; rewrite E in Hx.
  - intros g' t c p [[-> <-]|?]%Hgo; [|eauto]. destruct x; [|done]. destruct Hm as (-> & -> & _). eauto.
  - intros g' t c p [[-> <-]|?]%Hgo; [|eauto]. destruct x; [done|]. destruct Hm as (-> & ->). eauto.
  - intros c (g' & u & p & E)%g_reader0. destruct (decide (g' = g)) as [->|].
    + rewrite Hx in E. simplify_eq. destruct y; [done|]. destruct Hm as (<- & <-).
      exists g, u, p0. simpl. by rewrite lookup_insert_eq.
    + exists g', u, p. simpl. by rewrite lookup_insert_ne.
  - intros g1 g2 u1 u2 c p1 p2 [[-> E1]|E1]%Hgo [[-> E2]|E2]%Hgo; [done| | |eauto]; subst y;
      (destruct x as [|u c0 p]; [done|]; destruct Hm as (-> & ->)); eauto.
  - intros g' t c m [[-> <-]|?]%Hgo; [|eauto]. destruct x; [|done]. destruct Hm as (-> & _ & Hm). by apply Hm.
Qed.

Lemma good_new_transport w tr :
  fresh tr -> good w -> good (new_transport tr w).
Proof.
  intros (Hs & Hr & Hc) [].
  assert (w_transports w !! w_next w = None) as Hn by (by apply g_fresh0).
  assert (forall t, is_Some (w_transports w !! t) -> is_Some (w_transports (new_transport tr w) !! t)) as Hmono.
  { intros t Ht. simpl. rewrite lookup_insert_ne; [done|]. intros <-. rewrite Hn in Ht. by destruct Ht. }
  split; try done.
  - intros t. unfold sendq. simpl. destruct (decide (w_next w = t)) as [<-|];
      [rewrite lookup_insert_eq; simpl; rewrite Hs; by apply make_chan_wf | rewrite lookup_insert_ne by done; apply g_send0].
  - intros t. unfold recvq. simpl. destruct (decide (w_next w = t)) as [<-|];
      [rewrite lookup_insert_eq; simpl; rewrite Hr; by apply make_chan_wf | rewrite lookup_insert_ne by done; apply g_recv0].
  - intros k Hk. simpl in *. rewrite lookup_insert_ne by lia. apply g_fresh0. lia.
  - intros g t c p Hg. destruct (g_dials0 g t c p Hg). eauto.
  - intros g t c p Hg. destruct (g_listens0 g t c p Hg). eauto.
  - intros h u Hu. eauto.
  - intros t x. unfold sendq. simpl. destruct (decide (w_next w = t)) as [<-|];
      [rewrite lookup_insert_eq; simpl; rewrite Hs; by intros ?%elem_of_nil | rewrite lookup_insert_ne by done; apply g_origin0].
  - intros t. unfold recvq. simpl. destruct (decide (w_next w = t)) as [<-|];
      [rewrite lookup_insert_eq; simpl; by rewrite Hr | rewrite lookup_insert_ne by done; apply g_recv_open0].
Qed.

Lemma good_new_conn w u cap :
  0 < cap -> is_Some (w_transports w !! u) -> good w -> good (new_conn u (make_chan cap) w).
Proof.
  intros Hcap Hu []. destruct (g_fresh0 (w_next w) ltac:(lia)) as (_ & Hnc & Hng).
  set (w' := new_conn u (make_chan cap) w).
  assert (forall c, is_Some (w_conns w' !! c) <-> c = w_next w \/ is_Some (w_conns w !! c)) as Hiff.
  { intros c. simpl. rewrite lookup_insert_is_Some. split; [intros [<-|[_ ?]]; auto|].
    intros [->|?]; [by left|]. destruct (decide (w_next w = c)); [by left | by right]. }
  assert (forall g y, w_go w' !! g = Some y -> g = w_next w /\ y = GListen u (w_next w) Top \/ w_go w !! g = Some y) as Hgo.
  { intros g y. simpl. rewrite lookup_insert_Some. naive_solver. }
  assert (forall g t c p, w_go w !! g = Some (GListen t c p) -> c <> w_next w) as Hne.
  { intros g t c p [_ [? E]]%g_listens0 ->. congruence. }
  split; try done.
  - intros c. unfold connq. simpl. destruct (decide (w_next w = c)) as [<-|];
      [rewrite lookup_insert_eq; by apply make_chan_wf | rewrite lookup_insert_ne by done; apply g_conn0].
  - intros k Hk. simpl in *. rewrite !lookup_insert_ne by lia. apply g_fresh0. lia.
  - intros g t c p [[_ ?]|Hg]%Hgo; [done|]. rewrite Hiff. destruct (g_dials0 _ _ _ _ Hg). auto.
  - intros g t c p [[_ [= -> -> _]]|Hg]%Hgo; rewrite Hiff; [auto|]. destruct (g_listens0 _ _ _ _ Hg). auto.
  - intros c [->|(g & t & p & E)%g_reader0]%Hiff.
    + exists (w_next w), u, Top. simpl. by rewrite lookup_insert_eq.
    + exists g, t, p. simpl. rewrite lookup_insert_ne; [done|]. by intros <-; rewrite Hng in E.
  - intros g1 g2 u1 u2 c p1 p2 [[-> E1]|E1]%Hgo [[-> E2]|E2]%Hgo; [done| | |eauto]; simplify_eq;
      by apply Hne in E1 || by apply Hne in E2.
  - intros h c Hc%g_chans0. rewrite Hiff. auto.
  - intros g t c m [[_ ?]|Hg]%Hgo; [done|eauto].
Qed.

Lemma good_new_dial w t c :
  is_Some (w_transports w !! t) -> is_Some (w_conns w !! c) -> good w -> good (new_dial t c w).
Proof.
  intros Ht Hc []. destruct (g_fresh0 (w_next w) ltac:(lia)) as (_ & _ & Hng).
  assert (forall g y, w_go (new_dial t c w) !! g = Some y -> g = w_next w /\ y = GDial t c Top \/ w_go w !! g = Some y) as Hgo.
  { intros g y. simpl. rewrite lookup_insert_Some. naive_solver. }
  split; try done.
  - intros k Hk. simpl in *. rewrite !lookup_insert_ne by lia. apply g_fresh0. lia.
  - intros g t' c' p [[_ [= -> -> _]]|Hg]%Hgo; [done | by eapply g_dials0].
  - intros g t' c' p [[_ ?]|Hg]%Hgo; [done | by eapply g_listens0].
  - intros c' (g & u & p & E)%g_reader0. exists g, u, p. simpl.
    rewrite lookup_insert_ne; [done|]. by intros <-; rewrite Hng in E.
  - intros g1 g2 u1 u2 c' p1 p2 [[_ ?]|E1]%Hgo [[_ ?]|E2]%Hgo; [done..|eauto].
  - intros g t' c' m [[_ ?]|Hg]%Hgo; [done|eauto].
Qed.

Lemma good_register w h c : is_Some (w_conns w !! c) -> good w -> good (register h c w).
Proof.
  intros Hc []. split; try done. intros h' c'. simpl. rewrite lookup_insert_Some. naive_solver.
Qed.
Lemma good_bind_port w h t : is_Some (w_transports w !! t) -> good w -> good (bind_port h t w).
Proof.
  intros Hc []. split; try done. intros h' c'. simpl. rewrite lookup_insert_Some. naive_solver.
Qed.

(** ** What a transport's messages go through *)

(** Goroutine [g] dials for [t] on [c], respectively reads [c] for [u], with the
    messages [h] in hand. *)
Definition dials (w : World) (g t c : nat) (h : list A) : Prop :=
  exists p, w_go w !! g = Some (GDial t c p) /\ hand p = h.
Definition reads (w : World) (g u c : nat) (h : list A) : Prop :=
  exists p, w_go w !! g = Some (GListen u c p) /\ hand p = h.

(** [clean t oc ou w]: no message of [t] anywhere but in connection [oc], its
    reader's hand and the queue of [ou]. *)
Record clean (t : nat) (oc ou : option nat) (w : World) : Prop := {
  c_conn : forall c, oc <> Some c -> from t (ch_in (connq w c)) = [];
  c_recv : forall u, ou <> Some u -> from t (ch_in (recvq w u)) = [];
  c_hand : forall g u c h, oc <> Some c -> reads w g u c h -> from t h = []
}.

Record undialled (t : nat) (w : World) : Prop := {
  n_dial : forall g c h, ~ dials w g t c h;
  n_out : ch_out (sendq w t) = [];
  n_clean : clean t None None w
}.

(** Encoded messages of a list, in order. *)
Definition wired (w : World) (t : nat) (l : list A) : list A := omap (wire gob (kindof w t)) l.

(** What reached the connection from [t], beside the hand [h] of its dialling
    goroutine: all that was taken from the queue, as long as the connection is
    open. *)
Definition carried (w : World) (t c : nat) (h : list A) : Prop :=
  if ch_closed (connq w c)
  then from t (ch_in (connq w c)) `prefix_of` wired w t (ch_out (sendq w t))
  else from t (ch_in (connq w c)) ++ wired w t h = wired w t (ch_out (sendq w t)).

(** Transport [t] has one dialling goroutine [gd], for connection [c], which
    goroutine [gl] reads for [u]. *)
Record dialled (t c u gd gl : nat) (w : World) : Prop := {
  d_dial : exists h, dials w gd t c h /\ carried w t c h;
  d_only : forall g c' h, dials w g t c' h -> g = gd;
  d_read : exists h, reads w gl u c h /\
    from t (ch_out (connq w c)) = from t (ch_in (recvq w u)) ++ from t h;
  d_clean : clean t (Some c) (Some u) w
}.

(** Two dialling goroutines race for the messages of [t]. *)
Definition raced (t : nat) (w : World) : Prop :=
  exists g1 g2 c1 c2 h1 h2, g1 <> g2 /\ dials w g1 t c1 h1 /\ dials w g2 t c2 h2.

Definition linked (t : nat) (w : World) : Prop :=
  undialled t w \/ (exists c u gd gl, dialled t c u gd gl w) \/ raced t w.

(** *** How goroutines move *)
Lemma dials_move w g t0 c0 p p' g' t c h :
  w_go w !! g = Some (GDial t0 c0 p) ->
  dials (set_go g (GDial t0 c0 p') w) g' t c h <->
    if decide (g' = g) then t = t0 /\ c = c0 /\ h = hand p' else dials w g' t c h.
Proof.
  intros Hg. unfold dials. simpl. case_decide as E; [subst; rewrite lookup_insert_eq|by rewrite lookup_insert_ne].
  split; [by intros (? & [= -> -> ->] & <-) | intros (-> & -> & ->); eauto].
Qed.
Lemma reads_dial_move w g t0 c0 p p' g' u c h :
  w_go w !! g = Some (GDial t0 c0 p) ->
  reads (set_go g (GDial t0 c0 p') w) g' u c h <-> reads w g' u c h.
Proof.
  intros Hg. unfold reads. simpl. destruct (decide (g' = g)) as [->|]; [|by rewrite lookup_insert_ne].
  rewrite lookup_insert_eq, Hg. split; intros (? & ? & _); done.
Qed.
Lemma reads_move w g u0 c0 p p' g' u c h :
  w_go w !! g = Some (GListen u0 c0 p) ->
  reads (set_go g (GListen u0 c0 p') w) g' u c h <->
    if decide (g' = g) then u = u0 /\ c = c0 /\ h = hand p' else reads w g' u c h.
Proof.
  intros Hg. unfold reads. simpl. case_decide as E; [subst; rewrite lookup_insert_eq|by rewrite lookup_insert_ne].
  split; [by intros (? & [= -> -> ->] & <-) | intros (-> & -> & ->); eauto].
Qed.
Lemma dials_listen_move w g u0 c0 p p' g' t c h :
  w_go w !! g = Some (GListen u0 c0 p) ->
  dials (set_go g (GListen u0 c0 p') w) g' t c h <-> dials w g' t c h.
Proof.
  intros Hg. unfold dials. simpl. destruct (decide (g' = g)) as [->|]; [|by rewrite lookup_insert_ne].
  rewrite lookup_insert_eq, Hg. split; intros (? & ? & _); done.
Qed.

Lemma reads_unique w g1 g2 u1 u2 c h1 h2 :
  good w -> reads w g1 u1 c h1 -> reads w g2 u2 c h2 -> g1 = g2 /\ u1 = u2 /\ h1 = h2.
Proof.
  intros Hw (p1 & E1 & <-) (p2 & E2 & <-). assert (g1 = g2) as <- by (by eapply g_one_reader).
  rewrite E1 in E2. by simplify_eq.
Qed.

Lemma raced_mono t w w' :
  (forall g c h, dials w g t c h -> exists h', dials w' g t c h') -> raced t w -> raced t w'.
Proof.
  intros H (g1 & g2 & c1 & c2 & h1 & h2 & Hne & [h1' H1]%H & [h2' H2]%H).
  by exists g1, g2, c1, c2, h1', h2'.
Qed.

Lemma carried_ext t c h w w' :
  kindof w' t = kindof w t -> ch_out (sendq w' t) = ch_out (sendq w t) ->
  ch_closed (connq w' c) = ch_closed (connq w c) ->
  from t (ch_in (connq w' c)) = from t (ch_in (connq w c)) ->
  carried w t c h -> carried w' t c h.
Proof. unfold carried, wired. by intros -> -> -> ->. Qed.

(** A connection that closes keeps what it carried. *)
Lemma carried_close t c h w w' :
  kindof w' t = kindof w t -> ch_out (sendq w' t) = ch_out (sendq w t) ->
  ch_closed (connq w' c) = true -> ch_in (connq w' c) = ch_in (connq w c) ->
  carried w t c h -> carried w' t c h.
Proof.
  unfold carried, wired. intros -> -> -> ->. destruct (ch_closed (connq w c)); [done|].
  intros <-. by apply prefix_app_r.
Qed.

(** *** Goroutine steps

    A dialling goroutine moves from [p] to [p'], with changes of its transport's
    queue and its connection that fit. *)
Lemma linked_dial_move t w w1 g t0 c0 p p' :
  w_go w !! g = Some (GDial t0 c0 p) -> w_go w1 = w_go w ->
  (forall t, t <> t0 -> ch_out (sendq w1 t) = ch_out (sendq w t)) ->
  (forall u, recvq w1 u = recvq w u) ->
  (forall c, ch_out (connq w1 c) = ch_out (connq w c)) ->
  (forall t c, t <> t0 \/ c <> c0 -> from t (ch_in (connq w1 c)) = from t (ch_in (connq w c))) ->
  (forall t c h, t <> t0 -> carried w t c h -> carried w1 t c h) ->
  (carried w t0 c0 (hand p) -> carried w1 t0 c0 (hand p')) ->
  linked t w -> linked t (set_go g (GDial t0 c0 p') w1).
Proof.
  intros Hg Hgo Hs Hr Hco Hci Hcarry Hcarry0. rewrite <- Hgo in Hg.
  assert (forall g t c h, dials w1 g t c h <-> dials w g t c h) as Hd by (unfold dials; by rewrite Hgo).
  assert (forall g u c h, reads w1 g u c h <-> reads w g u c h) as Hl by (unfold reads; by rewrite Hgo).
  set (w' := set_go g (GDial t0 c0 p') w1).
  assert (forall g u c h, reads w' g u c h <-> reads w g u c h) as Hl'.
  { intros *. unfold w'. rewrite (reads_dial_move w1 _ _ _ p) by done. apply Hl. }
  assert (forall g' t c h, dials w' g' t c h <->
    if decide (g' = g) then t = t0 /\ c = c0 /\ h = hand p' else dials w g' t c h) as Hd'.
  { intros *. unfold w'. rewrite (dials_move w1 _ _ _ p) by done. case_decide; [done | apply Hd]. }
  assert (dials w g t0 c0 (hand p)) as Hme by (apply Hd; by exists p).
  assert (forall g' t c h, dials w g' t c h -> exists h', dials w' g' t c h') as Hkeep.
  { intros g' t' c h Hx. destruct (decide (g' = g)) as [->|];
      [exists (hand p') | exists h]; rewrite Hd'; [|by rewrite decide_False].
    rewrite decide_True by done. destruct Hx as (? & E & _), Hme as (? & E' & _). by simplify_eq. }
  intros [[]|[(c & u & gd & gl & [])|Hrace]].
  - left. assert (t <> t0) as Hne by (intros ->; by eapply n_dial0). split.
    + intros g' c h. rewrite Hd'. case_decide; [by intros (? & _) | auto].
    + change (sendq w' t) with (sendq w1 t). by rewrite Hs.
    + destruct n_clean0. split; intros *; [intros Hne'|intros Hne'|].
      * change (connq w' c) with (connq w1 c). rewrite Hci by auto. auto.
      * change (recvq w' u) with (recvq w1 u). rewrite Hr. auto.
      * rewrite Hl'. eauto.
  - right. left. exists c, u, gd, gl. split.
    + destruct d_dial0 as (h & Hx & Hc). destruct (decide (gd = g)) as [->|Hgd].
      * exists (hand p'). rewrite Hd', decide_True by done.
        destruct Hx as (? & E & <-), Hme as (? & E' & Eh). simplify_eq.
        split; [done|]. apply Hcarry0. by rewrite <- Eh.
      * exists h. rewrite Hd', decide_False by done. split; [done|].
        apply Hcarry; [|done]. intros ->. apply Hgd. symmetry. by eapply d_only0.
    + intros g' c' h. rewrite Hd'. case_decide; [|eauto]. intros (-> & -> & _). subst. by eapply d_only0.
    + destruct d_read0 as (h & Hx & E). exists h. rewrite Hl'. split; [done|].
      change (connq w' c) with (connq w1 c). change (recvq w' u) with (recvq w1 u). by rewrite Hco, Hr.
    + destruct d_clean0. split; intros *; [intros Hne'|intros Hne'|].
      * change (connq w' c1) with (connq w1 c1). rewrite Hci; [auto|].
        destruct (decide (t = t0)) as [->|]; [|by left]. right. intros ->. apply Hne'.
        destruct d_dial0 as (h & Hx & _). assert (g = gd) as <- by (by eapply d_only0).
        destruct Hx as (? & E & _), Hme as (? & E' & _). by simplify_eq.
      * change (recvq w' u0) with (recvq w1 u0). rewrite Hr. auto.
      * rewrite Hl'. eauto.
  - right. right. eapply raced_mono; [|done]. eauto.
Qed.

(** A reading goroutine moves from [p] to [p'], taking messages from its
    connection or passing them to its transport. *)
Lemma linked_read_move t w w1 g u0 c0 p p' :
  good w -> w_go w !! g = Some (GListen u0 c0 p) -> w_go w1 = w_go w ->
  ch_out (sendq w1 t) = ch_out (sendq w t) ->
  (forall c, ch_in (connq w1 c) = ch_in (connq w c)) ->
  (forall c, c <> c0 -> ch_out (connq w1 c) = ch_out (connq w c)) ->
  (forall u, u <> u0 \/ from t (hand p) = [] -> from t (ch_in (recvq w1 u)) = from t (ch_in (recvq w u))) ->
  (from t (ch_in (connq w c0)) = [] -> from t (hand p) = [] -> from t (hand p') = []) ->
  (forall c h, carried w t c h -> carried w1 t c h) ->
  (from t (ch_out (connq w c0)) = from t (ch_in (recvq w u0)) ++ from t (hand p) ->
   from t (ch_out (connq w1 c0)) = from t (ch_in (recvq w1 u0)) ++ from t (hand p')) ->
  linked t w -> linked t (set_go g (GListen u0 c0 p') w1).
Proof.
  intros Hw Hg Hgo Hs Hci Hco Hr Hh Hcarry Hq. pose proof Hg as Hg0. rewrite <- Hgo in Hg.
  set (w' := set_go g (GListen u0 c0 p') w1).
  assert (forall g t c h, dials w' g t c h <-> dials w g t c h) as Hd.
  { intros *. unfold w'. rewrite (dials_listen_move w1 _ _ _ p) by done. unfold dials. by rewrite Hgo. }
  assert (forall g' u c h, reads w' g' u c h <->
    if decide (g' = g) then u = u0 /\ c = c0 /\ h = hand p' else reads w g' u c h) as Hl.
  { intros *. unfold w'. rewrite (reads_move w1 _ _ _ p) by done. case_decide; [done|]. unfold reads. by rewrite Hgo. }
  assert (reads w g u0 c0 (hand p)) as Hme by (by exists p).
  assert (forall oc ou, clean t oc ou w -> (oc = Some c0 -> ou = Some u0) -> clean t oc ou w') as Hclean.
  { intros oc ou [] Hou. split.
    - intros c Hne. change (connq w' c) with (connq w1 c). rewrite Hci. auto.
    - intros u Hne. change (recvq w' u) with (recvq w1 u). rewrite Hr; [auto|].
      destruct (decide (oc = Some c0)) as [E|E]; [left; intros ->; auto | right; eauto].
    - intros g' u c h Hne. rewrite Hl. case_decide; [|eauto]. intros (-> & -> & ->). eauto. }
  intros [[]|[(c & u & gd & gl & [])|Hrace]].
  - left. split; [| by change (sendq w' t) with (sendq w1 t); rewrite Hs | by apply Hclean].
    intros g' c h. rewrite Hd. auto.
  - right. left. exists c, u, gd, gl.
    assert (c = c0 -> gl = g /\ u = u0) as Hsame.
    { intros ->. destruct d_read0 as (h & Hx & _). by destruct (reads_unique w _ _ _ _ _ _ _ Hw Hx Hme) as (-> & -> & _). }
    split.
    + destruct d_dial0 as (h & Hx & Hc). exists h. rewrite Hd. split; [done|]. by apply Hcarry.
    + intros g' c' h. rewrite Hd. eauto.
    + destruct d_read0 as (h & Hx & E).
      change (connq w' c) with (connq w1 c). change (recvq w' u) with (recvq w1 u).
      destruct (decide (c = c0)) as [->|Hne].
      * destruct Hsame as [-> ->]; [done|]. exists (hand p'). rewrite Hl, decide_True by done. split; [done|].
        apply Hq. destruct (reads_unique w _ _ _ _ _ _ _ Hw Hx Hme) as (_ & _ & <-). done.
      * exists h. rewrite Hl. assert (gl <> g).
        { intros ->. destruct Hx as (? & Ex & _), Hme as (? & Ey & _). by simplify_eq. }
        rewrite decide_False by done. split; [done|]. rewrite Hco by done. rewrite Hr; [done|].
        right. destruct d_clean0 as [_ _ Hx']. eapply (Hx' g u0 c0); [congruence|done].
    + apply Hclean; [done|]. intros [= E]. f_equal. by apply Hsame.
  - right. right. eapply raced_mono; [|done]. intros g' c h ?. exists h. by apply Hd.
Qed.

(** Changes that no message of [t] is part of. *)
Lemma clean_ext t oc ou w w' :
  (forall c, from t (ch_in (connq w' c)) = from t (ch_in (connq w c))) ->
  (forall u, from t (ch_in (recvq w' u)) = from t (ch_in (recvq w u))) ->
  (forall g u c h, reads w' g u c h -> exists h', reads w g u c h' /\ (from t h' = [] -> from t h = [])) ->
  clean t oc ou w -> clean t oc ou w'.
Proof.
  intros Hc Hr Hh []. split.
  - intros c Hne. rewrite Hc. auto.
  - intros u Hne. rewrite Hr. auto.
  - intros g u c h Hne (h' & ? & Himp)%Hh. eauto.
Qed.

Lemma linked_ext t w w' :
  good w ->
  (is_Some (w_transports w !! t) -> kindof w' t = kindof w t) ->
  ch_out (sendq w' t) = ch_out (sendq w t) ->
  (forall c, is_Some (w_conns w !! c) -> ch_closed (connq w' c) = ch_closed (connq w c)) ->
  (forall c, from t (ch_in (connq w' c)) = from t (ch_in (connq w c))) ->
  (forall c, from t (ch_out (connq w' c)) = from t (ch_out (connq w c))) ->
  (forall u, from t (ch_in (recvq w' u)) = from t (ch_in (recvq w u))) ->
  (forall g c h, dials w' g t c h <-> dials w g t c h) ->
  (forall g u c h, reads w' g u c h -> exists h', reads w g u c h' /\ from t h' = from t h) ->
  (forall g u c h, reads w g u c h -> exists h', reads w' g u c h' /\ from t h' = from t h) ->
  linked t w -> linked t w'.
Proof.
  intros Hw Hk Hs Hcl Hci Hco Hr Hd Hl Hl'.
  assert (forall oc ou, clean t oc ou w -> clean t oc ou w') as Hclean.
  { intros oc ou. apply clean_ext; [done..|]. intros g u c h (h' & ? & E)%Hl. exists h'. split; [done|]. congruence. }
  intros [[]|[(c & u & gd & gl & [])|Hrace]].
  - left. split; [|congruence|auto]. intros g c h. rewrite Hd. auto.
  - right. left. exists c, u, gd, gl. destruct d_dial0 as (h & Hdial & Hcarry).
    assert (is_Some (w_transports w !! t) /\ is_Some (w_conns w !! c)) as [Ht Hc].
    { destruct Hdial as (p & E & _). by eapply g_dials. }
    split; [| |destruct d_read0 as (h' & (h'' & Hread & E)%Hl' & Eo)|auto].
    + exists h. rewrite Hd. split; [done|]. unfold carried, wired in *.
      by rewrite Hcl, Hci, Hs, (Hk Ht).
    + intros g c' h' Hg. apply Hd in Hg. eauto.
    + exists h''. split; [done|]. by rewrite Hco, Hr, E.
  - right. right. eapply raced_mono; [|done]. intros g c h ?. exists h. by apply Hd.
Qed.

(** *** One lemma per way a message moves *)
Lemma sendq_some w t tr : w_transports w !! t = Some tr -> sendq w t = t_send tr.
Proof. unfold sendq. by intros ->. Qed.
Lemma recvq_some w t tr : w_transports w !! t = Some tr -> recvq w t = t_recv tr.
Proof. unfold recvq. by intros ->. Qed.
Lemma connq_some w c q : w_conns w !! c = Some q -> connq w c = q.
Proof. unfold connq. by intros ->. Qed.
Lemma kindof_upd w t f t' :
  (forall tr, t_kind (f tr) = t_kind tr) -> kindof (upd_transport t f w) t' = kindof w t'.
Proof.
  intros Hf. unfold kindof. simpl. destruct (decide (t = t')) as [->|]; [|by rewrite lookup_alter_ne].
  rewrite lookup_alter_eq. destruct (w_transports w !! t'); simpl; [apply Hf|done].
Qed.

Lemma wired_app w t l k : wired w t (l ++ k) = wired w t l ++ wired w t k.
Proof. apply omap_app. Qed.

(** ** Steps keep both *)
Context (net_cap_pos : 0 < net_cap).
Context (gob_origin : forall m m', gob m = Some m' -> origin m' = origin m).

(** New transports are as [NewTransport] makes them, and messages are sent on the
    transport they belong to. *)
Definition ok_label (l : Label) : Prop :=
  match l with
  | LNew tr => fresh tr
  | LSend t m => origin m = t
  | _ => True
  end.

Lemma wire_origin k m m' : wire gob k m = Some m' -> origin m' = origin m.
Proof. destruct k; simpl; [by intros [= <-] | apply gob_origin..]. Qed.

Lemma good_tr w t tr :
  good w -> w_transports w !! t = Some tr ->
  chan_wf (t_send tr) /\ chan_wf (t_recv tr) /\ ch_closed (t_recv tr) = false /\
  (forall x, x ∈ ch_in (t_send tr) -> origin x = t).
Proof.
  intros Hw E. pose proof (g_recv w Hw t) as Hr. pose proof (g_send w Hw t) as Hs.
  pose proof (g_recv_open w Hw t) as Hro. pose proof (g_origin w Hw t) as Ho.
  rewrite (recvq_some w t tr) in Hr, Hro by done. rewrite (sendq_some w t tr) in Hs, Ho by done. done.
Qed.

Lemma hang_up_good k c w : good w -> good (hang_up k c w).
Proof.
  intros Hw. unfold hang_up. destruct k; [done| |by destruct (w_conns w !! c)].
  destruct (w_conns w !! c) as [q|] eqn:E; [|done].
  apply good_set_conn; [by rewrite E | | done].
  pose proof (g_conn w Hw c) as Hq. rewrite (connq_some w c q E) in Hq. apply Hq.
Qed.

Lemma hang_up_go k c w : w_go (hang_up k c w) = w_go w.
Proof. unfold hang_up. by destruct k, (w_conns w !! c). Qed.

Lemma dial_step_good g t c p w w' :
  good w -> w_go w !! g = Some (GDial t c p) -> dial_step gob g t c p w = Some w' -> good w'.
Proof.
  intros Hw Hg. unfold dial_step.
  destruct (w_transports w !! t) as [tr|] eqn:Etr; [|done]. destruct (w_conns w !! c) as [q|] eqn:Ec; [|done].
  assert (forall p' w1, (forall m, p' = Hand m -> origin m = t) -> good w1 -> w_go w1 = w_go w ->
            good (set_go g (GDial t c p') w1)) as Hmv.
  { intros p' w1 Hp' Hw1 E. eapply good_set_go; [by rewrite E| |done]. by split_and!. }
  assert (match ch_recv (t_send tr) with
          | Some (Some m, s) => Some (set_go g (GDial t c (Hand m)) (upd_transport t (set_send s) w))
          | Some (None, _) => Some (set_go g (GDial t c Ended) (hang_up (t_kind tr) c w))
          | None => None
          end = Some w' -> good w') as Htop.
  { destruct (ch_recv (t_send tr)) as [[[m|] s]|] eqn:Er; [| |done]; intros [= <-].
    - destruct (good_tr w t tr Hw Etr) as (Hs & Hr & Hro & Ho).
      pose proof (ch_recv_wf _ _ _ Er Hs) as Hs'. pose proof (ch_recv_inv _ _ _ Er) as (Hb & _ & _ & Hi & _).
      apply Hmv; [|apply good_upd; [|done]|done].
      + intros m' [= <-]. apply Ho. destruct Hs as (-> & _). rewrite Hb. apply elem_of_app. right. left.
      + intros tr' E. rewrite Etr in E. injection E as <-. simpl. rewrite Hi. by split_and!.
    - apply Hmv; [done | by apply hang_up_good | apply hang_up_go]. }
  destruct p; [exact Htop | exact Htop | | done].
  destruct (wire gob (t_kind tr) m) as [m'|] eqn:Ew; [|intros [= <-]; by apply Hmv].
  destruct (ch_send m' q) as [[q'|]| | |] eqn:Es; try done; intros [= <-]; apply Hmv; try done.
  apply good_set_conn; [by eexists | | done]. eapply ch_send_wf; [done|].
  pose proof (g_conn w Hw c) as Hq. by rewrite (connq_some w c q Ec) in Hq.
Qed.

Lemma listen_step_good g t c p quit w w' :
  good w -> w_go w !! g = Some (GListen t c p) -> listen_step g t c p quit w = Some w' -> good w'.
Proof.
  intros Hw Hg. unfold listen_step.
  destruct (w_transports w !! t) as [tr|] eqn:Etr; [|done]. destruct (w_conns w !! c) as [q|] eqn:Ec; [|done].
  assert (forall p' w1, good w1 -> w_go w1 = w_go w -> good (set_go g (GListen t c p') w1)) as Hmv.
  { intros p' w1 Hw1 E. eapply good_set_go; [by rewrite E| |done]. done. }
  assert (take_conn g t c q w = Some w' -> good w') as Htake.
  { unfold take_conn. destruct (ch_recv q) as [[[m|] q']|] eqn:Er; [| |done]; intros [= <-]; apply Hmv; try done.
    apply good_set_conn; [by eexists | | done]. eapply ch_recv_wf; [done|].
    pose proof (g_conn w Hw c) as Hq. by rewrite (connq_some w c q Ec) in Hq. }
  destruct p; [| exact Htake | | done].
  - assert (forall k p', good (set_go g (GListen t c p') (hang_up k c w))) as Hend
      by (intros k p'; apply Hmv; [by apply hang_up_good | apply hang_up_go]).
    pose proof (fun p' => Hmv p' w Hw eq_refl) as Hstay.
    destruct (t_kind tr) eqn:Ek; destruct quit, (t_closed tr); try done; try exact Htake;
      intros E%(inj Some); subst w'; auto.
  - destruct (ch_send m (t_recv tr)) as [[r|]| | |] eqn:Es; try done. intros [= <-]. apply Hmv; [|done].
    destruct (good_tr w t tr Hw Etr) as (Hs & Hr & Hro & Ho).
    apply good_upd; [|done]. intros tr' E. rewrite Etr in E. injection E as <-. simpl.
    split_and!; [done | by eapply ch_send_wf | by apply ch_send_inv in Es as (_ & _ & _ & ? & _) | done].
Qed.

Lemma step_good l w w' :
  ok_label l -> good w -> step gob net_cap l w = Ret (Some w') -> good w'.
Proof.
  intros Hl Hw. destruct l as [tr|t m|t|t|machine t|t|g quit]; simpl in Hl |- *.
  - intros [= <-]. by apply good_new_transport.
  - unfold Send. destruct (w_transports w !! t) as [tr|] eqn:Etr; [|done].
    destruct (ch_send m (t_send tr)) as [[q|]| | |] eqn:Es; try done. intros [= <-].
    apply good_upd; [|done]. intros tr' E. rewrite Etr in E. injection E as <-. simpl.
    destruct (good_tr w t tr Hw Etr) as (Hs & Hr & Hro & Ho).
    split_and!; [by eapply ch_send_wf | done | done |].
    apply ch_send_inv in Es as (_ & _ & _ & _ & -> & _). intros x [?| ->%list_elem_of_singleton]%elem_of_app; auto.
  - unfold Recv. destruct (w_transports w !! t) as [tr|] eqn:Etr; [|done].
    destruct (ch_recv (t_recv tr)) as [[[m|] q]|] eqn:Er; try done. intros [= <-].
    apply good_upd; [|done]. intros tr' E. rewrite Etr in E. injection E as <-. simpl.
    destruct (good_tr w t tr Hw Etr) as (Hs & Hr & Hro & Ho).
    split_and!; [done | by eapply ch_recv_wf | | done].
    by apply ch_recv_inv in Er as (_ & _ & -> & _).
  - intros [= <-]. unfold Dial, tcp_Dial, channel_Dial. destruct (w_transports w !! t) as [tr|] eqn:Etr; [|done].
    destruct (t_kind tr); [| |done].
    + destruct (w_chans w !! u_Host (t_uri tr)) as [c|] eqn:Ec; [|done]. simpl.
      apply good_new_dial; [by eexists | by eapply g_chans | done].
    + destruct (w_ports w !! u_Host (t_uri tr)) as [u|] eqn:Eu; [|done]. simpl.
      apply good_new_dial; [by eexists | simpl; rewrite lookup_insert_eq; by eexists |].
      apply good_new_conn; [lia | by eapply g_ports | done].
  - unfold Listen, tcp_Listen, channel_Listen. destruct (w_transports w !! t) as [tr|] eqn:Etr; [|by intros [= <-]].
    destruct (t_kind tr); simpl; [| |by intros [= <-]].
    + intros [= <-]. apply good_register; [simpl; rewrite lookup_insert_eq; by eexists|].
      apply good_new_conn; [lia | by eexists | done].
    + destruct (w_ports w !! _) eqn:Ep; [done|]. intros [= <-]. apply good_bind_port; [by eexists | done].
  - unfold Close. destruct (w_transports w !! t) as [tr|] eqn:Etr; [|done].
    destruct (ch_close (t_send tr)) as [q| | |] eqn:Es; try done. simpl. destruct (t_closed tr); [done|]. intros [= <-].
    apply good_upd; [|done]. intros tr' E. rewrite Etr in E. injection E as <-. simpl.
    destruct (good_tr w t tr Hw Etr) as (Hs & Hr & Hro & Ho).
    split_and!; [by eapply ch_close_wf | done | done |].
    unfold ch_close in Es. destruct (ch_closed (t_send tr)); [done|]. by simplify_eq.
  - unfold go_step. destruct (w_go w !! g) as [[t c p|t c p]|] eqn:Eg; [| |done]; intros [= E].
    + by eapply dial_step_good.
    + by eapply listen_step_good.
Qed.

(** ** Links through steps *)
Lemma hang_up_conn k c w :
  (forall c', ch_in (connq (hang_up k c w) c') = ch_in (connq w c') /\
              ch_out (connq (hang_up k c w) c') = ch_out (connq w c') /\
              (ch_closed (connq (hang_up k c w) c') = true \/
               ch_closed (connq (hang_up k c w) c') = ch_closed (connq w c'))).
Proof.
  intros c'. unfold hang_up. destruct k; [auto| |by destruct (w_conns w !! c); auto].
  destruct (w_conns w !! c) as [q|] eqn:E; [|auto].
  rewrite connq_set. case_decide; [subst|auto]. rewrite (connq_some w c' q) by done. auto.
Qed.

Lemma hang_up_carried k c w t c' h : carried w t c' h -> carried (hang_up k c w) t c' h.
Proof.
  destruct (hang_up_conn k c w c') as (Hi & Ho & Hc).
  assert (kindof (hang_up k c w) t = kindof w t /\ sendq (hang_up k c w) t = sendq w t) as [Hk Hs].
  { unfold hang_up. by destruct k, (w_conns w !! c). }
  destruct Hc as [Hc|Hc]; [apply carried_close | apply carried_ext]; by rewrite ?Hs, ?Hi.
Qed.

Lemma hang_up_recv k c w u : recvq (hang_up k c w) u = recvq w u.
Proof. unfold hang_up. by destruct k, (w_conns w !! c). Qed.
Lemma hang_up_send k c w u : sendq (hang_up k c w) u = sendq w u.
Proof. unfold hang_up. by destruct k, (w_conns w !! c). Qed.

Lemma linked_pop_send t w g t0 c0 p m tr s :
  w_go w !! g = Some (GDial t0 c0 p) -> hand p = [] ->
  w_transports w !! t0 = Some tr -> ch_recv (t_send tr) = Some (Some m, s) ->
  linked t w -> linked t (set_go g (GDial t0 c0 (Hand m)) (upd_transport t0 (set_send s) w)).
Proof.
  intros Hg Hp Htr (_ & _ & _ & _ & Ho)%ch_recv_inv.
  assert (forall u, kindof (upd_transport t0 (set_send s) w) u = kindof w u) as Hk by (intros u; by apply kindof_upd).
  assert (forall t, t <> t0 -> sendq (upd_transport t0 (set_send s) w) t = sendq w t) as Hs.
  { intros t' Hne. rewrite sendq_upd. by rewrite decide_False by congruence. }
  eapply (linked_dial_move t w _ g t0 c0 p); try done.
  - intros t' Hne. by rewrite Hs.
  - intros u. rewrite recvq_upd. case_decide; [subst; unfold recvq; by rewrite Htr | done].
  - intros t' c h Hne. apply carried_ext; [done | by rewrite Hs | done | done].
  - unfold carried, wired. rewrite Hk, Hp, app_nil_r.
    change (connq (upd_transport _ _ _) c0) with (connq w c0).
    assert (ch_out (sendq (upd_transport t0 (set_send s) w) t0) = ch_out (sendq w t0) ++ [m]) as ->.
    { rewrite sendq_upd, decide_True, Htr by done. simpl. by rewrite Ho, (sendq_some w t0 tr). }
    rewrite omap_app. destruct (ch_closed (connq w c0)); [by apply prefix_app_r | by intros ->].
Qed.

Lemma linked_push_conn t w g t0 c0 m m' q q' :
  good w -> w_go w !! g = Some (GDial t0 c0 (Hand m)) -> w_conns w !! c0 = Some q ->
  wire gob (kindof w t0) m = Some m' -> ch_send m' q = Ret (Some q') ->
  linked t w -> linked t (set_go g (GDial t0 c0 Top) (set_conn c0 q' w)).
Proof.
  intros Hw Hg Hq Hm (Hcl & _ & _ & Hcl' & Hi & Ho & _)%ch_send_inv.
  assert (origin m' = t0) as Hor by (rewrite (wire_origin _ _ _ Hm); by eapply g_hand).
  rewrite <- (connq_some w c0 q Hq) in Hcl, Hi, Ho.
  eapply (linked_dial_move t w _ g t0 c0); try done.
  - intros c. rewrite connq_set. case_decide; [by subst | done].
  - intros t' c Hne. rewrite connq_set. case_decide; [subst c|done]. rewrite Hi, from_app, from_other, app_nil_r; [done|].
    rewrite Hor. destruct Hne; congruence.
  - intros t' c h Hne. apply carried_ext; [done | done | |]; rewrite connq_set; case_decide; subst; try done.
    + congruence.
    + rewrite Hi, from_app, from_other, app_nil_r; [done | congruence].
  - unfold carried, wired. change (kindof (set_conn _ _ _) t0) with (kindof w t0). rewrite connq_set, decide_True by done.
    rewrite Hcl, Hcl', Hi, from_app, from_one by done. simpl. by rewrite Hm, app_nil_r.
Qed.

Lemma linked_drop t w g t0 c0 m :
  w_go w !! g = Some (GDial t0 c0 (Hand m)) ->
  wire gob (kindof w t0) m = None \/ ch_closed (connq w c0) = true ->
  linked t w -> linked t (set_go g (GDial t0 c0 Top) w).
Proof.
  intros Hg Hdrop. eapply (linked_dial_move t w w g t0 c0); try done.
  unfold carried, wired. destruct (ch_closed (connq w c0)) eqn:E; [done|].
  destruct Hdrop as [Hn|?]; [|done]. simpl. by rewrite Hn.
Qed.

Lemma linked_pop_conn t w g u0 c0 p m q q' :
  good w -> w_go w !! g = Some (GListen u0 c0 p) -> hand p = [] -> w_conns w !! c0 = Some q ->
  ch_recv q = Some (Some m, q') ->
  linked t w -> linked t (set_go g (GListen u0 c0 (Hand m)) (set_conn c0 q' w)).
Proof.
  intros Hw Hg Hp Hq (Hb & _ & Hcl & Hi & Ho)%ch_recv_inv.
  pose proof (g_conn w Hw c0) as (Hin & _). rewrite (connq_some w c0 q Hq) in Hin.
  rewrite <- (connq_some w c0 q Hq) in Hcl, Hi, Ho, Hin, Hb.
  assert (forall c, ch_in (connq (set_conn c0 q' w) c) = ch_in (connq w c)) as Hi'.
  { intros c. rewrite connq_set. case_decide; [by subst | done]. }
  eapply (linked_read_move t w _ g u0 c0 p); try done.
  - intros c Hne. rewrite connq_set. by rewrite decide_False.
  - intros He _. apply from_other. eapply from_nil_inv; [done|]. rewrite Hin, Hb. apply elem_of_app. right. left.
  - intros c h. apply carried_ext; [done | done | | by rewrite Hi'].
    rewrite connq_set. case_decide; [by subst | done].
  - rewrite connq_set, decide_True by done. rewrite Ho, from_app, Hp. simpl. change (from t []) with (@nil A).
    rewrite app_nil_r. change (recvq (set_conn c0 q' w) u0) with (recvq w u0). by intros ->.
Qed.

Lemma linked_push_recv t w g u0 c0 m tr r :
  good w -> w_go w !! g = Some (GListen u0 c0 (Hand m)) -> w_transports w !! u0 = Some tr ->
  ch_send m (t_recv tr) = Ret (Some r) ->
  linked t w -> linked t (set_go g (GListen u0 c0 Top) (upd_transport u0 (set_recv r) w)).
Proof.
  intros Hw Hg Htr (_ & _ & _ & _ & Hi & _ & _)%ch_send_inv.
  assert (forall u, sendq (upd_transport u0 (set_recv r) w) u = sendq w u) as Hs.
  { intros u. rewrite sendq_upd. case_decide; [subst; unfold sendq; by rewrite Htr | done]. }
  assert (forall u, kindof (upd_transport u0 (set_recv r) w) u = kindof w u) as Hk by (intros u; by apply kindof_upd).
  assert (ch_in (recvq (upd_transport u0 (set_recv r) w) u0) = ch_in (recvq w u0) ++ [m]) as Hr.
  { rewrite recvq_upd, decide_True, Htr by done. simpl. by rewrite Hi, (recvq_some w u0 tr). }
  eapply (linked_read_move t w _ g u0 c0); try done.
  - by rewrite Hs.
  - intros u Hu. destruct (decide (u = u0)) as [->|]; [|rewrite recvq_upd; by rewrite decide_False by congruence].
    destruct Hu as [?|Hm]; [done|]. rewrite Hr, from_app. simpl in Hm. by rewrite Hm, app_nil_r.
  - intros c h. apply carried_ext; [done | by rewrite Hs | done | done].
  - change (connq (upd_transport _ _ _) c0) with (connq w c0). rewrite Hr, from_app. intros ->. simpl.
    change (from t []) with (@nil A). by rewrite app_nil_r.
Qed.

(** Goroutines that return hang up; those that only move on change nothing. *)
Lemma linked_dial_end t w g t0 c0 p k :
  w_go w !! g = Some (GDial t0 c0 p) -> hand p = [] ->
  linked t w -> linked t (set_go g (GDial t0 c0 Ended) (hang_up k c0 w)).
Proof.
  intros Hg Hp. eapply (linked_dial_move t w _ g t0 c0 p); try done.
  - apply hang_up_go.
  - intros u _. by rewrite hang_up_send.
  - intros u. by rewrite hang_up_recv.
  - intros c. apply hang_up_conn.
  - intros t' c _. by destruct (hang_up_conn k c0 w c) as (-> & _).
  - intros t' c h _. apply hang_up_carried.
  - rewrite Hp. apply hang_up_carried.
Qed.

Lemma linked_read_end t w g u0 c0 p k :
  good w -> w_go w !! g = Some (GListen u0 c0 p) -> hand p = [] ->
  linked t w -> linked t (set_go g (GListen u0 c0 Ended) (hang_up k c0 w)).
Proof.
  intros Hw Hg Hp. eapply (linked_read_move t w _ g u0 c0 p); try done.
  - apply hang_up_go.
  - by rewrite hang_up_send.
  - intros c. apply hang_up_conn.
  - intros c _. apply hang_up_conn.
  - intros u _. by rewrite hang_up_recv.
  - intros c h. apply hang_up_carried.
  - rewrite hang_up_recv, Hp. by destruct (hang_up_conn k c0 w c0) as (_ & -> & _).
Qed.

Lemma linked_read_idle t w g u0 c0 p p' :
  good w -> w_go w !! g = Some (GListen u0 c0 p) -> hand p = [] -> hand p' = [] ->
  linked t w -> linked t (set_go g (GListen u0 c0 p') w).
Proof.
  intros Hw Hg Hp Hp'. eapply (linked_read_move t w w g u0 c0 p); try done.
  - by rewrite Hp'.
  - by rewrite Hp, Hp'.
Qed.

(** A new connection carries nothing yet. *)
Lemma linked_new_conn t w u cap :
  good w -> linked t w -> linked t (new_conn u (make_chan cap) w).
Proof.
  intros Hw. destruct (g_fresh w Hw (w_next w) ltac:(lia)) as (_ & Hnc & Hng).
  set (w' := new_conn u (make_chan cap) w).
  assert (forall c, ch_in (connq w' c) = ch_in (connq w c)) as Hi.
  { intros c. unfold connq, w'. simpl. destruct (decide (w_next w = c)) as [<-|];
      [by rewrite lookup_insert_eq, Hnc | by rewrite lookup_insert_ne]. }
  assert (forall c, is_Some (w_conns w !! c) -> connq w' c = connq w c) as Hc.
  { intros c Hc. unfold connq, w'. simpl. rewrite lookup_insert_ne; [done|].
    intros <-. rewrite Hnc in Hc. by destruct Hc. }
  assert (forall g t c h, dials w' g t c h <-> dials w g t c h) as Hd.
  { intros *. unfold dials, w'. simpl. destruct (decide (g = w_next w)) as [->|]; [|by rewrite lookup_insert_ne].
    rewrite lookup_insert_eq, Hng. split; by intros (? & ? & _). }
  assert (forall g u' c h, reads w' g u' c h <-> reads w g u' c h \/ g = w_next w /\ u' = u /\ c = w_next w /\ h = []) as Hl.
  { intros *. unfold reads, w'. simpl. destruct (decide (g = w_next w)) as [->|]; [|rewrite lookup_insert_ne by done; naive_solver].
    rewrite lookup_insert_eq, Hng. split.
    - intros (? & [= <- <- <-] & <-). right. by split_and!.
    - intros [(? & ? & _)|(_ & -> & -> & ->)]; [done|]. by exists Top. }
  assert (forall oc ou, clean t oc ou w -> clean t oc ou w') as Hclean.
  { intros oc ou []. split; [intros c; rewrite Hi; auto | done |].
    intros g u' c h Hne. rewrite Hl. intros [?|(_ & _ & _ & ->)]; [eauto | done]. }
  intros [[]|[(c & u' & gd & gl & [])|Hrace]].
  - left. split; [|done|auto]. intros g c h. rewrite Hd. auto.
  - right. left. exists c, u', gd, gl. destruct d_dial0 as (h & Hx & Hcar).
    assert (is_Some (w_conns w !! c)) as Hex by (destruct Hx as (p & E & _); by eapply g_dials). split.
    + exists h. rewrite Hd. split; [done|]. apply (carried_ext _ _ _ w); [done | done | by rewrite Hc | by rewrite Hi | done].
    + intros g c' h'. rewrite Hd. eauto.
    + destruct d_read0 as (h' & Hx' & E). exists h'. rewrite Hl, Hc by done. auto.
    + auto.
  - right. right. eapply raced_mono; [|done]. intros g c h ?. exists h. by apply Hd.
Qed.

(** Dialling for the first time links the transport, dialling again makes two
    goroutines race. *)
Lemma linked_new_dial t w t0 c0 :
  good w -> is_Some (w_conns w !! c0) -> linked t w -> linked t (new_dial t0 c0 w).
Proof.
  intros Hw Hc0. destruct (g_fresh w Hw (w_next w) ltac:(lia)) as (_ & _ & Hng).
  set (w' := new_dial t0 c0 w).
  assert (forall g t c h, dials w' g t c h <-> dials w g t c h \/ g = w_next w /\ t = t0 /\ c = c0 /\ h = []) as Hd.
  { intros *. unfold dials, w'. simpl. destruct (decide (g = w_next w)) as [->|]; [|rewrite lookup_insert_ne by done; naive_solver].
    rewrite lookup_insert_eq, Hng. split.
    - intros (? & [= <- <- <-] & <-). right. by split_and!.
    - intros [(? & ? & _)|(_ & -> & -> & ->)]; [done|]. by exists Top. }
  assert (forall g u c h, reads w' g u c h <-> reads w g u c h) as Hl.
  { intros *. unfold reads, w'. simpl. destruct (decide (g = w_next w)) as [->|]; [|by rewrite lookup_insert_ne].
    rewrite lookup_insert_eq, Hng. split; by intros (? & ? & _). }
  assert (forall oc ou, clean t oc ou w -> clean t oc ou w') as Hclean.
  { intros oc ou []. split; [done..|]. intros *. rewrite Hl. eauto. }
  destruct (decide (t = t0)) as [->|Hne].
  - intros [[]|[(c & u & gd & gl & [])|Hrace]]; [right; left | right; right..].
    + destruct (g_reader w Hw c0 Hc0) as (gl & u & p & Hgl). exists c0, u, (w_next w), gl.
      destruct n_clean0 as [Hcc Hcr Hch]. split.
      * exists []. rewrite Hd. split; [by right|]. unfold carried, wired. change (connq w' c0) with (connq w c0).
        change (sendq w' t0) with (sendq w t0). rewrite n_out0, Hcc by done.
        destruct (ch_closed (connq w c0)); [apply prefix_nil | done].
      * intros g c h [Hx|(-> & _)]%Hd; [|done]. by apply n_dial0 in Hx.
      * exists (hand p). split; [apply Hl; by exists p|]. change (connq w' c0) with (connq w c0).
        change (recvq w' u) with (recvq w u). rewrite Hcr, (Hch gl u c0 (hand p)); [|done|by exists p|done].
        apply (from_nil_sub _ (ch_in (connq w c0))); [by apply Hcc|].
        intros x Hx. destruct (g_conn w Hw c0) as (-> & _). apply elem_of_app. by left.
      * split; intros *; [intros _|intros _|]; [apply Hcc; done | apply Hcr; done | rewrite Hl; intros _; by apply Hch].
    + destruct d_dial0 as (h & Hx & _). exists gd, (w_next w), c, c0, h, []. rewrite !Hd.
      split_and!; [|by left | by right]. intros ->. destruct Hx as (? & E & _). by rewrite Hng in E.
    + eapply raced_mono; [|done]. intros g c h ?. exists h. apply Hd. by left.
  - apply linked_ext; try done.
    + intros g c h. rewrite Hd. split; [|by left]. intros [?|(_ & ? & _)]; done.
    + intros g u c h. rewrite Hl. eauto.
    + intros g u c h. setoid_rewrite Hl. eauto.
Qed.

Lemma dial_step_linked t g t0 c0 p w w' :
  good w -> w_go w !! g = Some (GDial t0 c0 p) -> dial_step gob g t0 c0 p w = Some w' ->
  linked t w -> linked t w'.
Proof.
  intros Hw Hg. unfold dial_step.
  destruct (w_transports w !! t0) as [tr|] eqn:Etr; [|done]. destruct (w_conns w !! c0) as [q|] eqn:Ec; [|done].
  assert (kindof w t0 = t_kind tr) as Hk by (unfold kindof; by rewrite Etr).
  assert (hand p = [] -> match ch_recv (t_send tr) with
          | Some (Some m, s) => Some (set_go g (GDial t0 c0 (Hand m)) (upd_transport t0 (set_send s) w))
          | Some (None, _) => Some (set_go g (GDial t0 c0 Ended) (hang_up (t_kind tr) c0 w))
          | None => None
          end = Some w' -> linked t w -> linked t w') as Htop.
  { intros Hp. destruct (ch_recv (t_send tr)) as [[[m|] s]|] eqn:Er; [| |done]; intros E%(inj Some); subst w'.
    - by eapply linked_pop_send.
    - by eapply linked_dial_end. }
  destruct p; [by apply Htop | by apply Htop | | done].
  destruct (wire gob (t_kind tr) m) as [m'|] eqn:Ew.
  2:{ intros [= <-]. eapply linked_drop; [done|]. left. by rewrite Hk. }
  assert (ch_closed q = true -> linked t w -> linked t (set_go g (GDial t0 c0 Top) w)) as Hclosed.
  { intros Hcl. eapply linked_drop; [done|]. right. by rewrite (connq_some w c0 q). }
  assert (ch_closed q = true \/ exists o, ch_send m' q = Ret o) as Hcase.
  { unfold ch_send. destruct (ch_closed q); [by left|]. right. destruct (_ <? _); eauto. }
  destruct (ch_send m' q) as [[q'|]| | |] eqn:Es; [|done| | |]; intros E%(inj Some); subst w';
    [|by destruct Hcase as [?|[? ?]]; [apply Hclosed|done]..].
  eapply linked_push_conn; try done. by rewrite Hk.
Qed.

Lemma listen_step_linked t g u0 c0 p quit w w' :
  good w -> w_go w !! g = Some (GListen u0 c0 p) -> listen_step g u0 c0 p quit w = Some w' ->
  linked t w -> linked t w'.
Proof.
  intros Hw Hg. unfold listen_step.
  destruct (w_transports w !! u0) as [tr|] eqn:Etr; [|done]. destruct (w_conns w !! c0) as [q|] eqn:Ec; [|done].
  assert (hand p = [] -> take_conn g u0 c0 q w = Some w' -> linked t w -> linked t w') as Htake.
  { intros Hp. unfold take_conn. destruct (ch_recv q) as [[[m|] q']|] eqn:Er; [| |done]; intros E%(inj Some); subst w'.
    - by eapply linked_pop_conn.
    - by eapply linked_read_idle. }
  destruct p; [| by apply Htake | | done].
  - assert (forall p', hand p' = [] -> linked t w -> linked t (set_go g (GListen u0 c0 p') w)) as Hidle
      by (intros p' Hp'; by eapply linked_read_idle).
    assert (forall k, linked t w -> linked t (set_go g (GListen u0 c0 Ended) (hang_up k c0 w))) as Hend
      by (intros k; by eapply linked_read_end).
    destruct (t_kind tr); destruct quit, (t_closed tr); try done; try (by apply Htake);
      intros E%(inj Some); subst w'; auto.
  - destruct (ch_send m (t_recv tr)) as [[r|]| | |] eqn:Es; try done. intros [= <-].
    by eapply linked_push_recv.
Qed.

Lemma linked_upd_quiet t w t0 f :
  good w -> (forall tr, w_transports w !! t0 = Some tr ->
    t_kind (f tr) = t_kind tr /\ ch_out (t_send (f tr)) = ch_out (t_send tr) /\
    ch_in (t_recv (f tr)) = ch_in (t_recv tr)) ->
  linked t w -> linked t (upd_transport t0 f w).
Proof.
  intros Hw Hf. apply linked_ext; try done.
  - intros _. unfold kindof. simpl. destruct (decide (t0 = t)) as [->|]; [|by rewrite lookup_alter_ne].
    rewrite lookup_alter_eq. destruct (w_transports w !! t) as [tr|] eqn:E; simpl; [by apply Hf | done].
  - rewrite sendq_upd. case_decide; [subst|done]. unfold sendq.
    destruct (w_transports w !! t) as [tr|] eqn:E; simpl; [by apply Hf | done].
  - intros u. rewrite recvq_upd. case_decide; [subst|done]. unfold recvq.
    destruct (w_transports w !! u) as [tr|] eqn:E; simpl; [|done]. by destruct (Hf tr eq_refl) as (_ & _ & ->).
  - eauto.
  - eauto.
Qed.

Lemma step_linked t l w w' :
  ok_label l -> good w -> step gob net_cap l w = Ret (Some w') -> linked t w -> linked t w'.
Proof.
  intros Hl Hw. destruct l as [tr|t0 m|t0|t0|machine t0|t0|g quit]; simpl in Hl |- *.
  - intros [= <-]. destruct Hl as (Hs & Hr & _). destruct (g_fresh w Hw (w_next w) ltac:(lia)) as (Hn & _ & _).
    apply linked_ext; try done; [| | |eauto|eauto].
    + intros Ht. unfold kindof. simpl. rewrite lookup_insert_ne; [done|]. intros <-. rewrite Hn in Ht. by destruct Ht.
    + unfold sendq. simpl. destruct (decide (w_next w = t)) as [<-|]; [|by rewrite lookup_insert_ne].
      rewrite lookup_insert_eq, Hn. simpl. by rewrite Hs.
    + intros u. unfold recvq. simpl. destruct (decide (w_next w = u)) as [<-|]; [|by rewrite lookup_insert_ne].
      rewrite lookup_insert_eq, Hn. simpl. by rewrite Hr.
  - unfold Send. destruct (w_transports w !! t0) as [tr|] eqn:Etr; [|done].
    destruct (ch_send m (t_send tr)) as [[q|]| | |] eqn:Es; try done. intros [= <-].
    apply linked_upd_quiet; [done|]. intros tr' E. rewrite Etr in E. injection E as <-. simpl.
    by apply ch_send_inv in Es as (_ & _ & _ & _ & _ & -> & _).
  - unfold Recv. destruct (w_transports w !! t0) as [tr|] eqn:Etr; [|done].
    destruct (ch_recv (t_recv tr)) as [[[m|] q]|] eqn:Er; try done. intros [= <-].
    apply linked_upd_quiet; [done|]. intros tr' E. rewrite Etr in E. injection E as <-. simpl.
    by apply ch_recv_inv in Er as (_ & _ & _ & -> & _).
  - intros [= <-]. unfold Dial, tcp_Dial, channel_Dial. destruct (w_transports w !! t0) as [tr|] eqn:Etr; [|done].
    destruct (t_kind tr); [| |done].
    + destruct (w_chans w !! u_Host (t_uri tr)) as [c|] eqn:Ec; [|done].
      apply linked_new_dial; [done | by eapply g_chans].
    + destruct (w_ports w !! u_Host (t_uri tr)) as [u|] eqn:Eu; [|done]. intros Hlk.
      apply linked_new_dial; [apply good_new_conn; [lia | by eapply g_ports | done] | | by apply linked_new_conn].
      simpl. rewrite lookup_insert_eq. by eexists.
  - unfold Listen, tcp_Listen, channel_Listen. destruct (w_transports w !! t0) as [tr|] eqn:Etr; [|by intros [= <-]].
    destruct (t_kind tr); simpl; [| |by intros [= <-]].
    + intros [= <-] Hlk. eapply (linked_ext t (new_conn t0 (make_chan 1024) w)); try done; [|eauto|eauto|by apply linked_new_conn].
      apply good_new_conn; [lia | by eexists | done].
    + destruct (w_ports w !! _); [done|]. intros [= <-]. apply linked_ext; try done; eauto.
  - unfold Close. destruct (w_transports w !! t0) as [tr|] eqn:Etr; [|done].
    destruct (ch_close (t_send tr)) as [q| | |] eqn:Es; try done. simpl. destruct (t_closed tr); [done|]. intros [= <-].
    apply linked_upd_quiet; [done|]. intros tr' E. rewrite Etr in E. injection E as <-.
    unfold ch_close in Es. destruct (ch_closed (t_send tr)); [done|]. by simplify_eq.
  - unfold go_step. destruct (w_go w !! g) as [[t' c p|t' c p]|] eqn:Eg; [| |done]; intros [= E].
    + by eapply dial_step_linked.
    + by eapply listen_step_linked.
Qed.

Lemma empty_good : good empty_world.
Proof. split; try done; intros *; unfold sendq, recvq, connq; simpl; try (by apply make_chan_wf); try done.
  - by intros [].
  - by intros ?%elem_of_nil.
Qed.
Lemma empty_linked t : linked t empty_world.
Proof. left. split; [by intros g c h (? & ? & _) | done |]. split; [done | done |]. by intros g u c h _ (? & ? & _). Qed.

Lemma run_inv ls : Forall ok_label ls -> forall w w',
  run gob net_cap ls w = Some w' -> good w /\ (forall t, linked t w) -> good w' /\ forall t, linked t w'.
Proof.
  induction 1 as [|l ls Hl _ IH]; intros w w'; simpl; [by intros [= <-]|].
  destruct (step gob net_cap l w) as [[w1|]| | |] eqn:E; try done. intros Hrun [Hw Hlk].
  eapply IH; [done|]. split; [by eapply step_good | intros t; by eapply step_linked].
Qed.

(** ** Order *)

(** [t] was dialled exactly once. *)
Definition dialled_once (t : nat) (w : World) : Prop :=
  exists g c p, w_go w !! g = Some (GDial t c p) /\
    forall g' c' p', w_go w !! g' = Some (GDial t c' p') -> g' = g.

Lemma dialled_once_link t w : dialled_once t w -> linked t w -> exists c u gd gl, dialled t c u gd gl w.
Proof.
  intros (g & c & p & Hg & Honly) [[]|[?|(g1 & g2 & c1 & c2 & h1 & h2 & Hne & (p1 & E1 & _) & (p2 & E2 & _))]]; [|done|].
  - exfalso. eapply (n_dial0 g c). by exists p.
  - exfalso. apply Hne. rewrite (Honly _ _ _ E1). by rewrite (Honly _ _ _ E2).
Qed.

(** Everything [t] sent, stage by stage, oldest first. *)
Lemma dialled_stages t c u gd gl w :
  good w -> dialled t c u gd gl w -> ch_closed (connq w c) = false ->
  exists hd hl, dials w gd t c hd /\ reads w gl u c hl /\
    wired w t (ch_in (sendq w t)) =
      from t (ch_out (recvq w u)) ++ from t (ch_buf (recvq w u)) ++ from t hl ++
      from t (ch_buf (connq w c)) ++ wired w t hd ++ wired w t (ch_buf (sendq w t)).
Proof.
  intros Hw [] Hopen. destruct d_dial0 as (hd & Hd & Hc), d_read0 as (hl & Hl & Eq).
  exists hd, hl. split_and!; [done..|]. unfold carried in Hc. rewrite Hopen in Hc.
  destruct (g_send w Hw t) as (-> & _). rewrite wired_app, <- Hc.
  destruct (g_conn w Hw c) as (-> & _). rewrite from_app, Eq.
  destruct (g_recv w Hw u) as (-> & _). rewrite from_app. by rewrite <- !app_assoc.
Qed.

Lemma dialled_prefix t c u gd gl w :
  good w -> dialled t c u gd gl w ->
  from t (ch_in (recvq w u)) `prefix_of` wired w t (ch_in (sendq w t)).
Proof.
  intros Hw []. destruct d_dial0 as (hd & Hd & Hc), d_read0 as (hl & Hl & Eq).
  transitivity (from t (ch_out (connq w c))); [rewrite Eq; by apply prefix_app_r|].
  transitivity (from t (ch_in (connq w c))).
  { destruct (g_conn w Hw c) as (-> & _). rewrite from_app. by apply prefix_app_r. }
  transitivity (wired w t (ch_out (sendq w t))).
  { unfold carried in Hc. destruct (ch_closed (connq w c)); [done|]. rewrite <- Hc. by apply prefix_app_r. }
  destruct (g_send w Hw t) as (-> & _). rewrite wired_app. by apply prefix_app_r.
Qed.

(** What came in as a message of [t] and went out of the queue of [u]. *)
Definition received (w : World) (t u : nat) : list A := from t (ch_out (recvq w u)).
Definition sent (w : World) (t : nat) : list A := wired w t (ch_in (sendq w t)).

Lemma received_prefix t c u gd gl w :
  good w -> dialled t c u gd gl w -> received w t u `prefix_of` sent w t.
Proof.
  intros Hw Hd. transitivity (from t (ch_in (recvq w u))); [|by eapply dialled_prefix].
  destruct (g_recv w Hw u) as (-> & _). unfold received. rewrite from_app. by apply prefix_app_r.
Qed.

Lemma received_elsewhere t c u gd gl w u' :
  good w -> dialled t c u gd gl w -> u' <> u -> received w t u' = [].
Proof.
  intros Hw [_ _ _ [_ Hr _]] Hne. eapply from_nil_sub; [apply (Hr u'); congruence|].
  intros x Hx. destruct (g_recv w Hw u') as (-> & _). apply elem_of_app. by left.
Qed.

(** ** Coming to rest *)

(** The steps nobody but the goroutines and the receivers take. *)
Definition internal (l : Label) : Prop :=
  match l with LGo _ _ | LRecv _ => True | _ => False end.
Definition not_close (l : Label) : Prop := match l with LClose _ => False | _ => True end.

(** Nothing was closed, and no goroutine has returned. *)
Record opened (w : World) : Prop := {
  o_tr : forall t tr, w_transports w !! t = Some tr -> t_closed tr = false /\ ch_closed (t_send tr) = false;
  o_conn : forall c q, w_conns w !! c = Some q -> ch_closed q = false;
  o_dial : forall g t c, w_go w !! g <> Some (GDial t c Ended);
  o_listen : forall g t c, w_go w !! g <> Some (GListen t c Ended)
}.

Lemma opened_upd w t f :
  (forall tr, w_transports w !! t = Some tr -> t_closed (f tr) = false /\ ch_closed (t_send (f tr)) = false) ->
  opened w -> opened (upd_transport t f w).
Proof.
  intros Hf []. split; try done. intros t' tr. simpl. rewrite lookup_alter_Some.
  intros [(<- & tr0 & E & ->)|[_ E]]; eauto.
Qed.
Lemma opened_set_conn w c q : ch_closed q = false -> opened w -> opened (set_conn c q w).
Proof. intros Hq []. split; try done. intros c' q'. simpl. rewrite lookup_insert_Some. naive_solver. Qed.
Lemma opened_set_go w g x :
  (forall t c, x <> GDial t c Ended /\ x <> GListen t c Ended) -> opened w -> opened (set_go g x w).
Proof.
  intros Hx []. split; try done; intros g' t c; simpl; rewrite lookup_insert_Some;
    intros [[_ E]|[_ E]]; try (by eapply Hx); naive_solver.
Qed.

Lemma go_step_opened g quit w w' : opened w -> go_step gob g quit w = Some w' -> opened w'.
Proof.
  intros Hw. unfold go_step. destruct (w_go w !! g) as [[t c p|t c p]|] eqn:Eg; [| |done].
  - unfold dial_step. destruct (w_transports w !! t) as [tr|] eqn:Etr; [|done].
    destruct (w_conns w !! c) as [q|] eqn:Ec; [|done]. destruct (o_tr w Hw t tr Etr) as [Ht Hs].
    pose proof (o_conn w Hw c q Ec) as Hq.
    assert (match ch_recv (t_send tr) with
          | Some (Some m, s) => Some (set_go g (GDial t c (Hand m)) (upd_transport t (set_send s) w))
          | Some (None, _) => Some (set_go g (GDial t c Ended) (hang_up (t_kind tr) c w))
          | None => None
          end = Some w' -> opened w') as Htop.
    { destruct (ch_recv_open (t_send tr) Hs) as [->|(m & s & E)]; [done|]. rewrite E. intros [= <-].
      apply opened_set_go; [done|]. apply opened_upd; [|done]. intros tr' E'. rewrite Etr in E'. injection E' as <-.
      apply ch_recv_inv in E as (_ & _ & E & _). simpl. by rewrite E. }
    destruct p; [exact Htop | exact Htop | | done].
    destruct (wire gob (t_kind tr) m); [|intros [= <-]; by apply opened_set_go].
    destruct (ch_send a q) as [[q'|]| | |] eqn:Es; try done; intros [= <-]; apply opened_set_go; try done.
    apply opened_set_conn; [|done]. by apply ch_send_inv in Es as (_ & _ & _ & ? & _).
  - unfold listen_step. destruct (w_transports w !! t) as [tr|] eqn:Etr; [|done].
    destruct (w_conns w !! c) as [q|] eqn:Ec; [|done]. destruct (o_tr w Hw t tr Etr) as [Ht Hs].
    pose proof (o_conn w Hw c q Ec) as Hq. rewrite Ht.
    assert (take_conn g t c q w = Some w' -> opened w') as Htake.
    { unfold take_conn. destruct (ch_recv_open q Hq) as [->|(m & q' & E)]; [done|]. rewrite E. intros [= <-].
      apply opened_set_go; [done|]. apply opened_set_conn; [|done]. apply ch_recv_inv in E as (_ & _ & E & _). congruence. }
    destruct p; [| exact Htake | | done].
    + destruct (t_kind tr); [destruct quit; [done | exact Htake]|..]; intros [= <-]; apply opened_set_go; done.
    + destruct (ch_send m (t_recv tr)) as [[r|]| | |]; try done. intros [= <-].
      apply opened_set_go; [done|]. apply opened_upd; [|done]. intros tr' E'. rewrite Etr in E'. by injection E' as <-.
Qed.

Lemma step_opened l w w' :
  ok_label l -> not_close l -> opened w -> step gob net_cap l w = Ret (Some w') -> opened w'.
Proof.
  intros Hl Hnc Hw. destruct l as [tr|t m|t|t|machine t|t|g quit]; simpl in Hl |- *; [| | | | | done|].
  - intros [= <-]. destruct Hl as (Hs & _ & Hc). destruct Hw. split; try done.
    intros t' tr'. simpl. rewrite lookup_insert_Some. intros [[_ <-]|[_ ?]]; [by rewrite Hs | eauto].
  - unfold Send. destruct (w_transports w !! t) as [tr|] eqn:Etr; [|done].
    destruct (ch_send m (t_send tr)) as [[q|]| | |] eqn:Es; try done. intros [= <-].
    apply opened_upd; [|done]. intros tr' E. rewrite Etr in E. injection E as <-. simpl.
    destruct (o_tr w Hw t tr Etr). by apply ch_send_inv in Es as (_ & _ & _ & ? & _).
  - unfold Recv. destruct (w_transports w !! t) as [tr|] eqn:Etr; [|done].
    destruct (ch_recv (t_recv tr)) as [[[m|] q]|] eqn:Er; try done. intros [= <-].
    apply opened_upd; [|done]. intros tr' E. rewrite Etr in E. injection E as <-. exact (o_tr w Hw t tr Etr).
  - intros [= <-]. unfold Dial, tcp_Dial, channel_Dial. destruct (w_transports w !! t) as [tr|] eqn:Etr; [|done].
    destruct Hw, (t_kind tr); [| |done];
      [destruct (w_chans w !! u_Host (t_uri tr)); [|done] | destruct (w_ports w !! u_Host (t_uri tr)); [|done]];
      split; intros *; simpl; rewrite ?lookup_insert_Some; naive_solver.
  - unfold Listen, tcp_Listen, channel_Listen. destruct (w_transports w !! t) as [tr|] eqn:Etr; [|by intros [= <-]].
    destruct (t_kind tr); simpl; [| destruct (w_ports w !! _); [done|] |by intros [= <-]]; intros [= <-]; destruct Hw;
      split; intros *; simpl; rewrite ?lookup_insert_Some; naive_solver.
  - intros [= E]. by eapply go_step_opened.
Qed.

(** Each step brings some message nearer to its receiver: the distance left,
    summed over the world. *)
Definition tr_weight (tr : transport (A := A)) : nat := (6 * length (ch_buf (t_send tr)) + length (ch_buf (t_recv tr)))%nat.
Definition conn_weight (q : chan A) : nat := (4 * length (ch_buf q))%nat.
Definition go_weight (x : Goroutine) : nat :=
  match x with
  | GDial _ _ (Hand _) => 5
  | GListen _ _ (Hand _) => 3
  | GListen _ _ Top => 1
  | _ => 0
  end%nat.
Definition distance (w : World) : nat :=
  (msum tr_weight (w_transports w) + msum conn_weight (w_conns w) + msum go_weight (w_go w))%nat.

Lemma distance_upd w t f tr :
  w_transports w !! t = Some tr ->
  (distance (upd_transport t f w) + tr_weight tr = distance w + tr_weight (f tr))%nat.
Proof.
  intros E. unfold distance. simpl.
  assert (alter f t (w_transports w) = <[t := f tr]> (w_transports w)) as ->.
  { apply map_eq. intros t'. destruct (decide (t = t')) as [<-|];
      [by rewrite lookup_alter_eq, lookup_insert_eq, E | by rewrite lookup_alter_ne, lookup_insert_ne]. }
  pose proof (msum_update tr_weight _ _ _ (f tr) E). lia.
Qed.
Lemma distance_set_conn w c q q' :
  w_conns w !! c = Some q ->
  (distance (set_conn c q' w) + conn_weight q = distance w + conn_weight q')%nat.
Proof. intros E. unfold distance. simpl. pose proof (msum_update conn_weight _ _ _ q' E). lia. Qed.
Lemma distance_set_go w g x x' :
  w_go w !! g = Some x ->
  (distance (set_go g x' w) + go_weight x = distance w + go_weight x')%nat.
Proof. intros E. unfold distance. simpl. pose proof (msum_update go_weight _ _ _ x' E). lia. Qed.

Lemma go_step_distance g quit w w' :
  opened w -> go_step gob g quit w = Some w' -> (distance w' < distance w)%nat.
Proof.
  intros Hw. unfold go_step. destruct (w_go w !! g) as [[t c p|t c p]|] eqn:Eg; [| |done].
  - unfold dial_step. destruct (w_transports w !! t) as [tr|] eqn:Etr; [|done].
    destruct (w_conns w !! c) as [q|] eqn:Ec; [|done]. destruct (o_tr w Hw t tr Etr) as [_ Hs].
    pose proof (o_conn w Hw c q Ec) as Hq.
    assert (match ch_recv (t_send tr) with
          | Some (Some m, s) => Some (set_go g (GDial t c (Hand m)) (upd_transport t (set_send s) w))
          | Some (None, _) => Some (set_go g (GDial t c Ended) (hang_up (t_kind tr) c w))
          | None => None
          end = Some w' -> (distance w' < distance w)%nat) as Htop.
    { destruct (ch_recv_open (t_send tr) Hs) as [->|(m & s & E)]; [done|]. rewrite E. intros [= <-].
      pose proof (distance_set_go (upd_transport t (set_send s) w) g (GDial t c p) (GDial t c (Hand m)) Eg).
      pose proof (distance_upd w t (set_send s) tr Etr) as Hu. apply ch_recv_inv in E as (E & _).
      unfold tr_weight in Hu. simpl in *. rewrite E in Hu. simpl in Hu. lia. }
    destruct p; [exact Htop | exact Htop | | done].
    pose proof (distance_set_go w g _ (GDial t c Top) Eg) as Hd. simpl in Hd.
    destruct (wire gob (t_kind tr) m); [|intros [= <-]; lia].
    destruct (ch_send a q) as [[q'|]| | |] eqn:Es; try done; intros [= <-]; try lia.
    pose proof (distance_set_go (set_conn c q' w) g _ (GDial t c Top) Eg) as Hd'. simpl in Hd'.
    pose proof (distance_set_conn w c q q' Ec) as Hu. apply ch_send_inv in Es as (_ & E & _).
    unfold conn_weight in Hu. rewrite E, length_app in Hu. simpl in Hu. lia.
  - unfold listen_step. destruct (w_transports w !! t) as [tr|] eqn:Etr; [|done].
    destruct (w_conns w !! c) as [q|] eqn:Ec; [|done]. destruct (o_tr w Hw t tr Etr) as [Ht _].
    pose proof (o_conn w Hw c q Ec) as Hq. rewrite Ht.
    assert (hand p = [] -> take_conn g t c q w = Some w' -> (distance w' < distance w)%nat) as Htake.
    { intros Hp. unfold take_conn. destruct (ch_recv_open q Hq) as [->|(m & q' & E)]; [done|]. rewrite E. intros [= <-].
      pose proof (distance_set_go (set_conn c q' w) g (GListen t c p) (GListen t c (Hand m)) Eg).
      pose proof (distance_set_conn w c q q' Ec) as Hu. apply ch_recv_inv in E as (E & _).
      unfold conn_weight in Hu. rewrite E in Hu. simpl in *. lia. }
    destruct p; [| by apply Htake | | done].
    + pose proof (distance_set_go w g _ (GListen t c Decoding) Eg) as Hd. simpl in Hd.
      destruct (t_kind tr); [destruct quit; [done | by apply Htake]|..]; intros [= <-]; lia.
    + destruct (ch_send m (t_recv tr)) as [[r|]| | |] eqn:Es; try done. intros [= <-].
      pose proof (distance_set_go (upd_transport t (set_recv r) w) g _ (GListen t c Top) Eg) as Hd'. simpl in Hd'.
      pose proof (distance_upd w t (set_recv r) tr Etr) as Hu. apply ch_send_inv in Es as (_ & E & _).
      unfold tr_weight in Hu. simpl in Hu. rewrite E, length_app in Hu. simpl in Hu. lia.
Qed.

Lemma internal_distance l w w' :
  opened w -> internal l -> step gob net_cap l w = Ret (Some w') -> (distance w' < distance w)%nat.
Proof.
  intros Hw Hl. destruct l as [| |t| | | |g quit]; try done; simpl.
  - unfold Recv. destruct (w_transports w !! t) as [tr|] eqn:Etr; [|done].
    destruct (ch_recv (t_recv tr)) as [[[m|] q]|] eqn:Er; try done. intros [= <-].
    pose proof (distance_upd w t (set_recv q) tr Etr) as Hu. apply ch_recv_inv in Er as (E & _).
    unfold tr_weight in Hu. simpl in Hu. rewrite E in Hu. simpl in Hu. lia.
  - intros [= E]. by eapply go_step_distance.
Qed.

Lemma internal_ok l : internal l -> ok_label l /\ not_close l.
Proof. by destruct l. Qed.

Lemma internal_run ls : Forall internal ls -> forall w w',
  opened w -> run gob net_cap ls w = Some w' -> (length ls + distance w' <= distance w)%nat /\ opened w'.
Proof.
  induction 1 as [|l ls Hl _ IH]; intros w w' Hw; simpl; [by intros [= <-]|].
  destruct (step gob net_cap l w) as [[w1|]| | |] eqn:E; try done. intros Hrun.
  pose proof (internal_distance l w w1 Hw Hl E). destruct (internal_ok l Hl).
  destruct (IH w1 w') as [??]; [by eapply step_opened | done |]. split; [lia | done].
Qed.

(** Nothing left to do: every goroutine waits and every queue is read. *)
Definition quiet (w : World) : Prop :=
  (forall g quit, go_step gob g quit w = None) /\ forall t, Recv t w = None.

Lemma quiet_delivered t c u gd gl w :
  good w -> opened w -> quiet w -> dialled t c u gd gl w -> received w t u = sent w t.
Proof.
  intros Hw Ho [Hg Hr] Hd. assert (is_Some (w_conns w !! c)) as [q Eq].
  { destruct (d_dial _ _ _ _ _ _ Hd) as (h & (p & E & _) & _). by eapply g_dials. }
  assert (ch_closed (connq w c) = false) as Hopen by (rewrite (connq_some w c q Eq); by eapply o_conn).
  destruct (dialled_stages t c u gd gl w Hw Hd Hopen) as (hd & hl & (pd & Ed & <-) & (pl & El & <-) & E).
  destruct (g_dials w Hw _ _ _ _ Ed) as [[tr Et] _], (g_listens w Hw _ _ _ _ El) as [[ur Eu] _].
  rewrite (connq_some w c q Eq), (recvq_some w u ur Eu), (sendq_some w t tr Et) in E.
  unfold sent. rewrite (sendq_some w t tr Et), E.
  destruct (good_tr w u ur Hw Eu) as (_ & (_ & _ & Hcap) & Hro & _).
  destruct (g_conn w Hw c) as (_ & _ & Hccap). rewrite (connq_some w c q Eq) in Hccap.
  destruct (o_tr w Ho u ur Eu) as [Huc _]. pose proof (o_conn w Ho c q Eq) as Hqc.
  assert (ch_buf (t_recv ur) = []) as Eb.
  { specialize (Hr u). unfold Recv in Hr. rewrite Eu in Hr.
    destruct (ch_recv_open _ Hro) as [?%ch_recv_none|(x & r & E')]; [done|]. by rewrite E' in Hr. }
  assert (ch_buf q = [] /\ hand pl = []) as [Ecb Ehl].
  { pose proof (Hg gl false) as Hgl. unfold go_step, listen_step in Hgl. rewrite El, Eu, Eq, Huc in Hgl.
    assert (take_conn gl u c q w = None -> ch_buf q = []) as Htk.
    { unfold take_conn. destruct (ch_recv_open q Hqc) as [?%ch_recv_none|(x & r & E')]; [done|]. by rewrite E'. }
    destruct pl; [destruct (t_kind ur); [auto|done..] | auto | | by apply (o_listen w Ho) in El].
    destruct (ch_send_room m (t_recv ur)) as [r Er]; [done | rewrite Eb; simpl; lia |]. by rewrite Er in Hgl. }
  assert (ch_buf (t_send tr) = [] /\ hand pd = []) as [Esb Ehd].
  { pose proof (Hg gd false) as Hgd. unfold go_step, dial_step in Hgd. rewrite Ed, Et, Eq in Hgd.
    destruct (o_tr w Ho t tr Et) as [_ Hsc].
    destruct pd; [| | |by apply (o_dial w Ho) in Ed];
      [destruct (ch_recv_open _ Hsc) as [?%ch_recv_none|(x & r & E')]; [done | by rewrite E' in Hgd]..|].
    destruct (wire gob (t_kind tr) m) as [m'|]; [|done].
    destruct (ch_send_room m' q) as [r Er]; [done | rewrite Ecb; simpl; lia |]. by rewrite Er in Hgd. }
  unfold received. rewrite (recvq_some w u ur Eu), Eb, Ehl, Ecb, Esb, Ehd. simpl. by rewrite !app_nil_r.
Qed.

(** A world that is not quiet has an enabled internal step. *)
#[local] Instance go_idle_dec w g : Decision (go_step gob g true w = None /\ go_step gob g false w = None).
Proof. apply _. Defined.

Lemma quiet_or_step w : quiet w \/ exists l w', internal l /\ step gob net_cap l w = Ret (Some w').
Proof.
  destruct (decide (map_Forall (fun g _ => go_step gob g true w = None /\ go_step gob g false w = None) (w_go w))) as [Hg|Hg].
  - destruct (decide (map_Forall (fun t _ => Recv t w = None) (w_transports w))) as [Hr|Hr].
    + left. split.
      * intros g quit. destruct (w_go w !! g) as [x|] eqn:E; [destruct (Hg g x E); by destruct quit|].
        unfold go_step. by rewrite E.
      * intros t. destruct (w_transports w !! t) as [x|] eqn:E; [by apply (Hr t x)|]. unfold Recv. by rewrite E.
    + right. apply map_not_Forall in Hr as (t & tr & E & Hn); [|apply _].
      destruct (Recv t w) as [[m w']|] eqn:Er; [|done]. exists (LRecv t), w'. simpl. by rewrite Er.
  - right. apply map_not_Forall in Hg as (g & x & E & Hn); [|apply _].
    destruct (go_step gob g true w) as [w'|] eqn:E1; [exists (LGo g true), w'; simpl; by rewrite E1|].
    destruct (go_step gob g false w) as [w'|] eqn:E2; [exists (LGo g false), w'; simpl; by rewrite E2|].
    by exfalso; apply Hn.
Qed.

Lemma comes_to_rest n : forall w, (distance w <= n)%nat -> opened w ->
  exists ls w', Forall internal ls /\ run gob net_cap ls w = Some w' /\ quiet w'.
Proof.
  induction n as [|n IH]; intros w Hn Hw; (destruct (quiet_or_step w) as [Hq|(l & w1 & Hl & E)];
    [by exists [], w|]); pose proof (internal_distance l w w1 Hw Hl E); [lia|].
  destruct (internal_ok l Hl). destruct (IH w1) as (ls & w' & Hls & Hrun & Hq); [lia | by eapply step_opened |].
  exists (l :: ls), w'. simpl. rewrite E. auto.
Qed.

Lemma run_opened ls : Forall ok_label ls -> Forall not_close ls -> forall w w',
  opened w -> run gob net_cap ls w = Some w' -> opened w'.
Proof.
  induction 1 as [|l ls Hl _ IH]; intros Hnc w w' Hw; simpl; [by intros [= <-]|].
  apply Forall_cons in Hnc as [Hl' Hnc].
  destruct (step gob net_cap l w) as [[w1|]| | |] eqn:E; try done. apply IH; [done|]. by eapply step_opened.
Qed.

Lemma empty_opened : opened (empty_world (A := A)).
Proof. by split. Qed.

(** Internal steps send nothing and start no goroutine. *)
Definition same_calls (w w' : World) : Prop :=
  (forall t, ch_in (sendq w' t) = ch_in (sendq w t) /\ kindof w' t = kindof w t) /\
  (forall g t c, (exists p, w_go w' !! g = Some (GDial t c p)) <-> (exists p, w_go w !! g = Some (GDial t c p))).

#[local] Instance same_calls_preorder : PreOrder same_calls.
Proof.
  split; [done|]. intros w1 w2 w3 [H1 K1] [H2 K2]. split.
  - intros t. destruct (H1 t) as [<- <-], (H2 t) as [<- <-]. done.
  - intros g t c. rewrite K2. apply K1.
Qed.

Lemma same_calls_go w w1 g x y :
  w_go w !! g = Some x -> moves x y -> w_go w1 = w_go w -> same_calls w w1 -> same_calls w (set_go g y w1).
Proof.
  intros Hx Hm Hgo [H1 _]. split; [apply H1|]. intros g' t c. simpl. rewrite Hgo.
  destruct (decide (g' = g)) as [->|]; [|by rewrite lookup_insert_ne]. rewrite lookup_insert_eq, Hx.
  destruct x, y; try done; split; intros [? E]; simplify_eq; destruct Hm as (-> & -> & _); eauto.
Qed.

Lemma same_calls_upd w t tr f :
  w_transports w !! t = Some tr -> t_kind (f tr) = t_kind tr -> ch_in (t_send (f tr)) = ch_in (t_send tr) ->
  same_calls w (upd_transport t f w).
Proof.
  intros E Hk Hs. split; [|done]. intros t'. rewrite sendq_upd. unfold kindof. simpl. case_decide as Ht.
  - subst t'. rewrite lookup_alter_eq, E. simpl. by rewrite (sendq_some w t tr).
  - by rewrite lookup_alter_ne.
Qed.

Lemma same_calls_hang_up k c w : same_calls w (hang_up k c w).
Proof. unfold hang_up. by destruct k, (w_conns w !! c). Qed.

Lemma go_step_calls g quit w w' : good w -> go_step gob g quit w = Some w' -> same_calls w w'.
Proof.
  intros Hw. unfold go_step. destruct (w_go w !! g) as [[t c p|t c p]|] eqn:Eg; [| |done].
  - unfold dial_step. destruct (w_transports w !! t) as [tr|] eqn:Etr; [|done].
    destruct (w_conns w !! c) as [q|] eqn:Ec; [|done].
    assert (forall p' w1, (forall m, p' = Hand m -> origin m = t) -> w_go w1 = w_go w -> same_calls w w1 ->
              same_calls w (set_go g (GDial t c p') w1)) as Hmv.
    { intros p' w1 Hp' Hgo Hsc. by eapply same_calls_go. }
    destruct (good_tr w t tr Hw Etr) as ((Hin & _) & _ & _ & Ho).
    assert (match ch_recv (t_send tr) with
          | Some (Some m, s) => Some (set_go g (GDial t c (Hand m)) (upd_transport t (set_send s) w))
          | Some (None, _) => Some (set_go g (GDial t c Ended) (hang_up (t_kind tr) c w))
          | None => None
          end = Some w' -> same_calls w w') as Htop.
    { destruct (ch_recv (t_send tr)) as [[[m|] s]|] eqn:Er; [| |done]; intros E%(inj Some); subst w'.
      - apply ch_recv_inv in Er as (Eb & _ & _ & Ei & _). apply Hmv; [|done|by eapply same_calls_upd].
        intros m' [= <-]. apply Ho. rewrite Hin, Eb. apply elem_of_app. right. left.
      - apply Hmv; [done | apply hang_up_go | apply same_calls_hang_up]. }
    destruct p; [exact Htop | exact Htop | | done].
    destruct (wire gob (t_kind tr) m); [|intros [= <-]; by apply Hmv].
    destruct (ch_send a q) as [[q'|]| | |]; try done; intros [= <-]; by apply Hmv.
  - unfold listen_step. destruct (w_transports w !! t) as [tr|] eqn:Etr; [|done].
    destruct (w_conns w !! c) as [q|] eqn:Ec; [|done].
    assert (forall p' w1, w_go w1 = w_go w -> same_calls w w1 -> same_calls w (set_go g (GListen t c p') w1)) as Hmv.
    { intros p' w1 Hgo Hsc. by eapply same_calls_go. }
    assert (take_conn g t c q w = Some w' -> same_calls w w') as Htake.
    { unfold take_conn. destruct (ch_recv q) as [[[m|] q']|]; try done; intros [= <-]; by apply Hmv. }
    destruct p; [| exact Htake | | done].
    + pose proof (Hmv Ended _ (hang_up_go (t_kind tr) c w) (same_calls_hang_up (t_kind tr) c w)) as Hend.
      destruct (t_kind tr), quit, (t_closed tr); try done; try exact Htake; intros E%(inj Some); subst w'; auto;
        by apply Hmv.
    + destruct (ch_send m (t_recv tr)) as [[r|]| | |]; try done. intros [= <-].
      apply Hmv; [done|]. by eapply same_calls_upd.
Qed.

Lemma internal_run_calls ls : Forall internal ls -> forall w w',
  good w -> run gob net_cap ls w = Some w' -> good w' /\ same_calls w w'.
Proof.
  induction 1 as [|l ls Hl _ IH]; intros w w' Hw; simpl; [by intros [= <-]|].
  destruct (step gob net_cap l w) as [[w1|]| | |] eqn:E; try done. intros Hrun.
  destruct (internal_ok l Hl) as [Hok _]. pose proof (step_good l w w1 Hok Hw E) as Hw1.
  destruct (IH w1 w' Hw1 Hrun) as [Hw' Hs]. split; [done|]. transitivity w1; [|done].
  destruct l as [| |t| | | |g quit]; try done; simpl in E.
  - unfold Recv in E. destruct (w_transports w !! t) as [tr|] eqn:Etr; [|done].
    destruct (ch_recv (t_recv tr)) as [[[m|] q]|]; try done. injection E as <-. by eapply same_calls_upd.
  - injection E as E. by eapply go_step_calls.
Qed.

Lemma same_calls_sent w w' t : same_calls w w' -> sent w' t = sent w t.
Proof. intros [H _]. unfold sent, wired. by destruct (H t) as [-> ->]. Qed.
Lemma same_calls_once w w' t : same_calls w w' -> dialled_once t w -> dialled_once t w'.
Proof.
  intros [_ H] (g & c & p & Hg & Hu). destruct (proj2 (H g t c) (ex_intro _ p Hg)) as [p' Hg'].
  exists g, c, p'. split; [done|]. intros g' c' p'' Hx.
  destruct (proj1 (H g' t c') (ex_intro _ p'' Hx)) as [p0 ?]. eauto.
Qed.
End spec.

(** ** The transports' promise *)

(** [t] was not dialled twice. *)
Definition dialled_at_most_once {A} (t : nat) (w : World (A := A)) : Prop :=
  forall g1 g2 c1 c2 p1 p2, w_go w !! g1 = Some (GDial t c1 p1) -> w_go w !! g2 = Some (GDial t c2 p2) -> g1 = g2.

Lemma linked_fifo {A} (gob : A -> option A) (origin : A -> nat) t w :
  good origin w -> linked gob origin t w -> dialled_at_most_once t w ->
  exists u, received origin w t u `prefix_of` sent gob w t /\
    forall u', u' <> u -> received origin w t u' = [].
Proof.
  intros Hw [[_ _ [_ Hr _]]|[(c & u & gd & gl & Hd)|(g1 & g2 & c1 & c2 & h1 & h2 & Hne & (p1 & E1 & _) & (p2 & E2 & _))]] Hmost.
  - assert (forall u, received origin w t u = []) as Hnone.
    { intros u. eapply from_nil_sub; [by apply (Hr u)|]. intros x Hx.
      destruct (g_recv origin w Hw u) as (-> & _). apply elem_of_app. by left. }
    exists 0%nat. split; [rewrite Hnone; apply prefix_nil | auto].
  - exists u. split; [by eapply received_prefix | intros u' Hne; by eapply received_elsewhere].
  - by destruct (Hmost _ _ _ _ _ _ E1 E2).
Qed.

(** C12.  However calls and goroutines interleave, a chan or tcp transport that was
    not dialled twice has one receiver, and what that receiver took from its queue
    of the transport's messages is a prefix of what was sent, encoded, in the order
    it was sent: nothing is reordered, repeated, invented or skipped. *)
Theorem link_fifo {A} (gob : A -> option A) net_cap (origin : A -> nat) ls w t :
  0 < net_cap -> (forall m m', gob m = Some m' -> origin m' = origin m) ->
  Forall (ok_label origin) ls -> run gob net_cap ls empty_world = Some w ->
  dialled_at_most_once t w ->
  exists u, received origin w t u `prefix_of` sent gob w t /\
    forall u', u' <> u -> received origin w t u' = [].
Proof.
  intros Hcap Hgob Hls Hrun Hmost.
  destruct (run_inv gob net_cap origin Hcap Hgob ls Hls empty_world w Hrun) as [Hw Hlk].
  { split; [apply empty_good | apply empty_linked]. }
  by apply linked_fifo.
Qed.

(** C13.  As long as nothing is closed, the goroutines and receivers of any
    reachable world come to rest: every schedule of their steps is bounded by the
    distance the messages still have to go, there is a schedule that ends, and
    where one ends every message sent on a transport dialled once, that its
    encoder accepts, has been received, in order. *)
Theorem link_delivers {A} (gob : A -> option A) net_cap (origin : A -> nat) ls w :
  0 < net_cap -> (forall m m', gob m = Some m' -> origin m' = origin m) ->
  Forall (ok_label origin) ls -> Forall not_close ls -> run gob net_cap ls empty_world = Some w ->
  (forall ls' w', Forall internal ls' -> run gob net_cap ls' w = Some w' -> (length ls' <= distance w)%nat) /\
  (exists ls' w', Forall internal ls' /\ run gob net_cap ls' w = Some w' /\ quiet gob w') /\
  (forall ls' w' t, Forall internal ls' -> run gob net_cap ls' w = Some w' -> quiet gob w' ->
     dialled_once t w -> exists u, received origin w' t u = sent gob w t).
Proof.
  intros Hcap Hgob Hls Hnc Hrun.
  assert (forall t, linked gob origin t empty_world) as He by (intros t; apply empty_linked).
  destruct (run_inv gob net_cap origin Hcap Hgob ls Hls empty_world w Hrun) as [Hw Hlk];
    [split; [apply empty_good | done]|].
  assert (opened w) as Hop by (eapply run_opened; eauto using empty_opened).
  split_and!.
  - intros ls' w' Hint Hr. destruct (internal_run gob net_cap origin ls' Hint w w' Hop Hr). lia.
  - by eapply (comes_to_rest gob net_cap origin (distance w)).
  - intros ls' w' t Hint Hr Hq Honce.
    assert (Forall (ok_label origin) ls') as Hok by (eapply Forall_impl; [done|]; intros l ?; by apply internal_ok).
    destruct (run_inv gob net_cap origin Hcap Hgob ls' Hok w w' Hr) as [Hw' Hlk']; [done|].
    destruct (internal_run gob net_cap origin ls' Hint w w' Hop Hr) as [_ Hop'].
    destruct (internal_run_calls gob net_cap origin Hcap ls' Hint w w' Hw Hr) as [_ Hsame].
    destruct (dialled_once_link gob origin t w') as (c & u & gd & gl & Hd); [by eapply same_calls_once | done |].
    exists u. rewrite <- (same_calls_sent gob w w' t Hsame). by eapply quiet_delivered.
Qed.

(** ** Concrete worlds

    Messages are pairs of the sending transport and a number.  Transport 0
    listens, transports 1 and 2 dial it and send. *)
Definition demo_tr (k : Kind) (host : string) : transport (A := nat * nat) :=
  mkTransport k (mkURL "" host) (make_chan 10240) (make_chan 10240) false.
Definition demo_calls (k : Kind) : list (Label (A := nat * nat)) :=
  [LNew (demo_tr k "10.0.0.1:80"); LNew (demo_tr k "10.0.0.1:80"); LNew (demo_tr k "10.0.0.1:80");
   LListen "10.0.0.1" 0; LDial 1; LDial 2;
   LSend 1 (1, 7); LSend 2 (2, 4); LSend 1 (1, 8)]%nat.
Definition demo_world (k : Kind) : World (A := nat * nat) :=
  default empty_world (run Some 64 (demo_calls k) empty_world).

Lemma demo_run k : k <> KUdp -> run Some 64 (demo_calls k) empty_world = Some (demo_world k).
Proof. intros Hk. destruct k; [vm_compute; reflexivity | vm_compute; reflexivity | done]. Qed.

Lemma demo_ok k : Forall (ok_label fst) (demo_calls k) /\ Forall not_close (demo_calls k).
Proof. split; repeat constructor. Qed.

Lemma demo_once : dialled_at_most_once 1 (demo_world KTcp).
Proof.
  assert (forall g c p, w_go (demo_world KTcp) !! g = Some (GDial 1 c p) -> g = 4%nat) as Hone.
  { intros g c p H%elem_of_map_to_list.
    vm_compute in H. repeat (apply elem_of_cons in H as [H|H]; [by simplify_eq|]). by apply elem_of_nil in H. }
  intros g1 g2 c1 c2 p1 p2 H1%Hone H2%Hone. by rewrite H1, H2.
Qed.

Lemma link_fifo_witness :
  exists u, received fst (demo_world KTcp) 1 u `prefix_of` sent Some (demo_world KTcp) 1 /\
    forall u', u' <> u -> received fst (demo_world KTcp) 1 u' = [].
Proof.
  apply (link_fifo Some 64 fst (demo_calls KTcp) (demo_world KTcp) 1);
    [lia | by intros m m' [= <-] | apply demo_ok | by apply demo_run | apply demo_once].
Defined.

Lemma link_delivers_witness :
  (forall ls' w', Forall internal ls' -> run Some 64 ls' (demo_world KTcp) = Some w' ->
     (length ls' <= distance (demo_world KTcp))%nat) /\
  (exists ls' w', Forall internal ls' /\ run Some 64 ls' (demo_world KTcp) = Some w' /\ quiet Some w') /\
  (forall ls' w' t, Forall internal ls' -> run Some 64 ls' (demo_world KTcp) = Some w' -> quiet Some w' ->
     dialled_once t (demo_world KTcp) -> exists u, received fst w' t u = sent Some (demo_world KTcp) t).
Proof.
  apply (link_delivers Some 64 fst (demo_calls KTcp) (demo_world KTcp));
    [lia | by intros m m' [= <-] | apply demo_ok | apply demo_ok | by apply demo_run].
Defined.

(** The messages of transport 1 on their way through the goroutines 4 and 3, and
    the numbers the receiver took. *)
Definition numbers (w : World (A := nat * nat)) : list nat := snd <$> ch_out (recvq w 0).
Definition deliver_one (reader dialer : nat) : list (Label (A := nat * nat)) :=
  [LGo dialer false; LGo dialer false; LGo reader false; LGo reader false; LGo reader false; LRecv 0]%nat.

Example demo_delivery :
  numbers <$> run Some 64 (deliver_one 3 4 ++ deliver_one 5 6 ++ deliver_one 3 4)%nat (demo_world KTcp)
    = Some [7; 4; 8]%nat /\
  sent Some (demo_world KTcp) 1 = [(1, 7); (1, 8)]%nat.
Proof. by vm_compute. Qed.

(** A tcp reader whose peer has closed the connection finds the end of the
    stream at every attempt and goes round for ever, logging an error each time:
    the two steps of its loop lead back to the same world, any number of
    times. *)
Definition spin_world : World (A := nat * nat) :=
  default empty_world
    (run Some 64 [LNew (demo_tr KTcp "10.0.0.1:80"); LNew (demo_tr KTcp "10.0.0.1:80");
                  LListen "10.0.0.1" 0; LDial 1; LClose 1; LGo 3 false; LGo 2 false]%nat empty_world).
Definition spin (n : nat) : list (Label (A := nat * nat)) := mjoin (replicate n [LGo 2 false; LGo 2 false]%nat).

Lemma spin_round : run Some 64 [LGo 2 false; LGo 2 false]%nat spin_world = Some spin_world.
Proof. by vm_compute. Qed.

Lemma run_app {A} (gob : A -> option A) cap ls ls' w :
  run gob cap (ls ++ ls') w = run gob cap ls w ≫= run gob cap ls'.
Proof.
  revert w. induction ls as [|l ls IH]; intros w; simpl; [done|].
  destruct (step gob cap l w) as [[w1|]| | |]; try done.
Qed.

Theorem closed_reader_spins n : run Some 64 (spin n) spin_world = Some spin_world.
Proof.
  induction n as [|n IH]; [done|]. change (spin (S n)) with ([LGo 2 false; LGo 2 false]%nat ++ spin n).
  rewrite run_app, spin_round. exact IH.
Qed.

(** Closing a transport twice, or sending on a closed one, panics. *)
Example closed_panics :
  step Some 64 (LClose 1%nat) spin_world = Panic /\ step Some 64 (LSend 1%nat (1, 1)%nat) spin_world = Panic.
Proof. by vm_compute. Qed.
