(* ===== verification/Socket.v ===== *)
(** * Sockets (socket/socket.go)

    A socket holds one transport per peer, created and dialled on the first send,
    and the injected faults: crash, drop, slow, flaky, each with a timer that ends
    it.  The transports are reached through the class [Net], whose laws say what a
    socket relies on; Transport.v's world is an instance.  The state carries the
    clock, the pending timers, the number of random draws, and [s_sent], the
    history of what was handed to transports.

    Results: every peer's transport is created for the peer's configured address
    and dialled exactly once, through any sequence of calls and timers; what
    [Broadcast] and [MulticastQuorum] send; that a crashed or dropping socket
    sends nothing.

    Calls are taken one at a time.  The code releases its lock between looking a
    peer up and storing its new transport; [first_sends_race] shows what two
    goroutines that send to a new peer at the same time do. *)

From Stdlib Require Import String SpecFloat.
From stdpp Require Import base gmap strings numbers list.
From S2P Require Import Prelude.
From S2P Require Import Channel.
From S2P Require Import Identity.
From S2P Require Import Url.
From S2P Require Import Config.
From S2P Require Import Utils.
From S2P Require Import Transport.
From S2P Require Import TransportSpec.

Local Open Scope Z_scope.
Local Open Scope go_scope.

(** What a socket uses of the transports.  [net_dial] is one attempt; between two
    attempts the caller sleeps and the rest of the system moves on ([net_idle]).
    [net_send] waits for ever, [Diverge], on a queue nobody empties.  [net_go] is a
    step of one of the transports' goroutines. *)
Class Net (W A : Type) := {
  net_new : string -> W -> outcome (nat * W);
  net_listen : nat -> W -> outcome W;
  net_dial : nat -> W -> option error * W;
  net_idle : W -> W;
  net_go : nat -> bool -> W -> W;
  net_send : nat -> A -> W -> outcome W;
  net_recv : nat -> W -> option (A * W);
  net_close : nat -> W -> outcome W;
  (** what an address stands for; of a transport: what it was made for, how often
      it was dialled and what was sent on it; and the states that can arise *)
  net_uri : string -> option URL;
  net_addr : W -> nat -> option URL;
  net_dials : W -> nat -> nat;
  net_sent : W -> nat -> list A;
  net_ok : W -> Prop
}.

(** [net_keeps w w']: what most operations leave alone. *)
Definition net_keeps {W A} {NT : Net W A} (w w' : W) : Prop :=
  net_ok w -> net_ok w' /\
    forall t, is_Some (net_addr w t) ->
      net_addr w' t = net_addr w t /\ net_dials w' t = net_dials w t /\ net_sent w' t = net_sent w t.

Class NetLaws (W A : Type) {NT : Net W A} : Prop := {
  net_new_law : forall addr w t w', net_new addr w = Ret (t, w') -> net_ok w ->
    net_keeps w w' /\ net_addr w t = None /\ is_Some (net_uri addr) /\ net_addr w' t = net_uri addr /\
    net_dials w' t = 0%nat /\ net_sent w' t = [];
  net_listen_law : forall t w w', net_listen t w = Ret w' -> net_keeps w w';
  net_dial_fail : forall t w e w', net_dial t w = (Some e, w') -> net_keeps w w';
  net_dial_ok : forall t w w', net_dial t w = (None, w') -> net_ok w -> is_Some (net_addr w t) ->
    net_ok w' /\ (forall t', is_Some (net_addr w t') ->
      net_addr w' t' = net_addr w t' /\ net_sent w' t' = net_sent w t' /\
      (net_dials w' t' <= if decide (t' = t) then S (net_dials w t) else net_dials w t')%nat);
  net_idle_law : forall w, net_keeps w (net_idle w);
  net_go_law : forall g quit w, net_keeps w (net_go g quit w);
  net_send_law : forall t m w w', net_send t m w = Ret w' -> net_ok w -> is_Some (net_addr w t) ->
    net_ok w' /\ (forall t', is_Some (net_addr w t') ->
      net_addr w' t' = net_addr w t' /\ net_dials w' t' = net_dials w t' /\
      net_sent w' t' = if decide (t' = t) then net_sent w t ++ [m] else net_sent w t');
  net_recv_law : forall t m w w', net_recv t w = Some (m, w') -> net_keeps w w';
  net_close_law : forall t w w', net_close t w = Ret w' -> net_keeps w w'
}.

Section socket.
Context {W A : Type} {NT : Net W A}.
(** Draws of [rand.Intn] and [rand.Float64]. *)
Context (rnd : nat -> Z -> Z) (rndf : nat -> spec_float).

(** What a timer does when it fires. *)
Inductive Alarm :=
| EndDrop (id : NodeID)
| EndSlow (id : NodeID)
| EndFlaky (id : NodeID)
| EndCrash
| Delayed (to : NodeID) (t : nat) (m : A).

Record socket := mkSocket {
  s_id : NodeID;
  s_addresses : gmap NodeID string;
  s_nodes : gmap NodeID nat;
  s_crash : bool;
  s_drop : gmap NodeID bool;
  s_slow : gmap NodeID Z;
  s_flaky : gmap NodeID spec_float;
  s_world : W;
  s_now : Z;
  s_timers : list (Z * Alarm);
  s_draws : nat;
  s_sent : list (NodeID * nat * A) }.

Definition set_world (w : W) (s : socket) : socket :=
  mkSocket (s_id s) (s_addresses s) (s_nodes s) (s_crash s) (s_drop s) (s_slow s) (s_flaky s)
    w (s_now s) (s_timers s) (s_draws s) (s_sent s).
Definition set_node (to : NodeID) (t : nat) (s : socket) : socket :=
  mkSocket (s_id s) (s_addresses s) (<[to := t]> (s_nodes s)) (s_crash s) (s_drop s) (s_slow s) (s_flaky s)
    (s_world s) (s_now s) (s_timers s) (s_draws s) (s_sent s).
Definition set_crash (b : bool) (s : socket) : socket :=
  mkSocket (s_id s) (s_addresses s) (s_nodes s) b (s_drop s) (s_slow s) (s_flaky s)
    (s_world s) (s_now s) (s_timers s) (s_draws s) (s_sent s).
Definition set_drop (id : NodeID) (b : bool) (s : socket) : socket :=
  mkSocket (s_id s) (s_addresses s) (s_nodes s) (s_crash s) (<[id := b]> (s_drop s)) (s_slow s) (s_flaky s)
    (s_world s) (s_now s) (s_timers s) (s_draws s) (s_sent s).
Definition set_slow (id : NodeID) (d : Z) (s : socket) : socket :=
  mkSocket (s_id s) (s_addresses s) (s_nodes s) (s_crash s) (s_drop s) (<[id := d]> (s_slow s)) (s_flaky s)
    (s_world s) (s_now s) (s_timers s) (s_draws s) (s_sent s).
Definition set_flaky (id : NodeID) (p : spec_float) (s : socket) : socket :=
  mkSocket (s_id s) (s_addresses s) (s_nodes s) (s_crash s) (s_drop s) (s_slow s) (<[id := p]> (s_flaky s))
    (s_world s) (s_now s) (s_timers s) (s_draws s) (s_sent s).
Definition set_clock (now : Z) (timers : list (Z * Alarm)) (s : socket) : socket :=
  mkSocket (s_id s) (s_addresses s) (s_nodes s) (s_crash s) (s_drop s) (s_slow s) (s_flaky s)
    (s_world s) now timers (s_draws s) (s_sent s).
Definition set_draws (k : nat) (s : socket) : socket :=
  mkSocket (s_id s) (s_addresses s) (s_nodes s) (s_crash s) (s_drop s) (s_slow s) (s_flaky s)
    (s_world s) (s_now s) (s_timers s) k (s_sent s).
Definition log_sent (to : NodeID) (t : nat) (m : A) (s : socket) : socket :=
  mkSocket (s_id s) (s_addresses s) (s_nodes s) (s_crash s) (s_drop s) (s_slow s) (s_flaky s)
    (s_world s) (s_now s) (s_timers s) (s_draws s) (s_sent s ++ [(to, t, m)]).

(** [time.NewTimer(d)] and the goroutine that waits for it. *)
Definition NewTimer (d : Z) (a : Alarm) : M socket unit :=
  modify (fun s => set_clock (s_now s) (s_timers s ++ [(s_now s + d, a)]) s).
Definition seconds (t : Z) : Z := i64 (t * 1000000000).
Definition milliseconds (t : Z) : Z := i64 (t * 1000000).

(** Run an operation of the transports. *)
Definition on_world (f : W -> outcome W) : M socket unit := fun s =>
  w ←? f (s_world s); Ret (tt, set_world w s).

Definition draw_float : M socket spec_float := fun s =>
  Ret (rndf (s_draws s), set_draws (S (s_draws s)) s).
Definition draw_Intn (n : Z) : M socket Z := zoom s_draws set_draws (Intn rnd n).

(** [NewSocket]: the socket listens on its own address before it is used; a
    missing address is the empty string. *)
Definition NewSocket (id : NodeID) (addrs : gmap NodeID string) (w : W) : outcome socket :=
  '(t, w) ←? net_new (default ""%string (addrs !! id)) w;
  w ←? net_listen t w;
  Ret (mkSocket id addrs {[ id := t ]} false ∅ ∅ ∅ w 0 [] 0 []).

(** [t.Send(m)] to a peer. *)
Definition hand_over (to : NodeID) (t : nat) (m : A) : M socket unit :=
  on_world (net_send t m);; modify (log_sent to t m).

(** The transport of a peer: made and dialled when there is none yet.  [None]
    when the peer has no address.  An attempt that fails is followed by a sleep. *)
Definition dial_attempt (t : nat) (w : W) : option error * W :=
  match net_dial t w with
  | (Some e, w') => (Some e, net_idle w')
  | (None, w') => (None, w')
  end.
Definition transport_for (to : NodeID) : M socket (option nat) := fun s =>
  match s_nodes s !! to with
  | Some t => Ret (Some t, s)
  | None =>
      match s_addresses s !! to with
      | None => Ret (None, s)
      | Some address =>
          '(t, w) ←? net_new address (s_world s);
          '(err, slept, w) ←? Retry (dial_attempt t) 100 (milliseconds 50) w;
          match err with
          | Some _ => Panic
          | None => Ret (Some t, set_node to t (set_clock (s_now s + foldr Z.add 0 slept) (s_timers s) (set_world w s)))
          end
      end
  end.

(** [p > 0] and [rand.Float64() < p]. *)
Definition flaky_drops (to : NodeID) : M socket bool := fun s =>
  match s_flaky s !! to with
  | Some p =>
      if SFltb (S754_zero false) p then (r ← draw_float; ret (SFltb r p)) s else Ret (false, s)
  | None => Ret (false, s)
  end.

Definition Send (to : NodeID) (m : A) : M socket unit :=
  s ← gets (fun s => s);
  if s_crash s then skip
  else if default false (s_drop s !! to) then skip
  else
    lost ← flaky_drops to;
    if (lost : bool) then skip
    else
      o ← transport_for to;
      match (o : option nat) with
      | None => skip
      | Some t =>
          let delay := default 0 (s_slow s !! to) in
          if 0 <? delay then NewTimer (milliseconds delay) (Delayed to t m)
          else hand_over to t m
      end.

(** [Recv]: messages that arrive while the socket is crashed are thrown away;
    [None] when the queue is empty and the call waits.  The fuel bounds the
    messages it may throw away. *)
Fixpoint Recv (fuel : nat) : M socket (option A) :=
  match fuel with
  | O => outOfFuel
  | S fuel' =>
      s ← gets (fun s => s);
      match s_nodes s !! s_id s with
      | None => panic
      | Some t =>
          match net_recv t (s_world s) with
          | None => ret None
          | Some (m, w) =>
              modify (set_world w);;
              if s_crash s then Recv fuel' else ret (Some m)
          end
      end
  end.

(** [MulticastQuorum]: [sent] is the set of numbers drawn so far; a number drawn
    again is skipped and not drawn anew. *)
Fixpoint multicast_loop (todo : nat) (sent : list Z) (m : A) : M socket unit :=
  match todo with
  | O => skip
  | S todo' =>
      n ← gets (fun s => Z.of_nat (size (s_addresses s)));
      k ← draw_Intn n;
      let r := (k : Z) +! 1 in
      if bool_decide (r ∈ sent) then multicast_loop todo' sent m
      else Send (NewNodeID r) m;; multicast_loop todo' (r :: sent) m
  end.
Definition MulticastQuorum (quorum : Z) (m : A) : M socket unit :=
  multicast_loop (Z.to_nat quorum) [] m.

(** [Broadcast] over the address map (in the map's own order; Go's is
    unspecified). *)
Fixpoint broadcast_loop (ids : list NodeID) (m : A) : M socket unit :=
  match ids with
  | [] => skip
  | id :: rest =>
      me ← gets s_id;
      (if decide (id = me) then skip else Send id m);;
      broadcast_loop rest m
  end.
Definition Broadcast (m : A) : M socket unit :=
  ids ← gets (fun s => (map_to_list (s_addresses s)).*1);
  broadcast_loop ids m.

Fixpoint close_all (ts : list nat) : M socket unit :=
  match ts with
  | [] => skip
  | t :: rest => on_world (net_close t);; close_all rest
  end.
Definition Close : M socket unit :=
  ts ← gets (fun s => (map_to_list (s_nodes s)).*2);
  close_all ts.

(** ** Fault injection *)
Definition Drop (id : NodeID) (t : Z) : M socket unit :=
  modify (set_drop id true);; NewTimer (seconds t) (EndDrop id).
Definition Slow (id : NodeID) (delay t : Z) : M socket unit :=
  modify (set_slow id delay);; NewTimer (seconds t) (EndSlow id).
Definition Flaky (id : NodeID) (p : spec_float) (t : Z) : M socket unit :=
  modify (set_flaky id p);; NewTimer (seconds t) (EndFlaky id).
Definition Crash (t : Z) : M socket unit :=
  modify (set_crash true);; when (0 <? t) (NewTimer (seconds t) EndCrash).

(** The goroutine of a timer that has expired. *)
Definition alarm (a : Alarm) : M socket unit :=
  match a with
  | EndDrop id => modify (set_drop id false)
  | EndSlow id => modify (set_slow id 0)
  | EndFlaky id => modify (set_flaky id (S754_zero false))
  | EndCrash => modify (set_crash false)
  | Delayed to t m => hand_over to t m
  end.
Definition fire (i : nat) : M socket unit := fun s =>
  match s_timers s !! i with
  | Some (deadline, a) =>
      if deadline <=? s_now s then alarm a (set_clock (s_now s) (delete i (s_timers s)) s) else Ret (tt, s)
  | None => Ret (tt, s)
  end.

(** Time passes, and the rest of the system moves. *)
Definition elapse (d : Z) : M socket unit :=
  modify (fun s => set_world (net_idle (s_world s)) (set_clock (s_now s + Z.max 0 d) (s_timers s) s)).

(** ** The rest of the system

    What happens in the world besides this socket's calls: a goroutine takes a
    step, and the other users of transports make, listen on, dial, close, send on
    and receive from theirs.  A call that blocks or stops its own process leaves
    the world as it is. *)
Inductive Other :=
| XGo (g : nat) (quit : bool)
| XNew (addr : string)
| XListen (t : nat)
| XDial (t : nat)
| XSend (t : nat) (m : A)
| XRecv (t : nat)
| XClose (t : nat).

(** The transports that exist and are not this socket's. *)
Definition foreign (s : socket) (t : nat) : bool :=
  bool_decide (t ∉ (map_to_list (s_nodes s)).*2) && bool_decide (is_Some (net_addr (s_world s) t)).

Definition world_after (o : outcome W) (w : W) : W := match o with Ret w' => w' | _ => w end.
Definition other_world (o : Other) (w : W) : W :=
  match o with
  | XGo g quit => net_go g quit w
  | XNew addr => match net_new addr w with Ret (_, w') => w' | _ => w end
  | XListen t => world_after (net_listen t w) w
  | XDial t => (net_dial t w).2
  | XSend t m => world_after (net_send t m w) w
  | XRecv t => match net_recv t w with Some (_, w') => w' | None => w end
  | XClose t => world_after (net_close t w) w
  end.
Definition other (o : Other) : M socket unit := modify (fun s =>
  let allowed := match o with
                 | XGo _ _ | XNew _ => true
                 | XListen t | XDial t | XSend t _ | XRecv t | XClose t => foreign s t
                 end in
  if allowed then set_world (other_world o (s_world s)) s else s).

(** Everything a socket may be asked, one call at a time, and what happens in
    between, in any order. *)
Inductive Call :=
| CSend (to : NodeID) (m : A)
| CRecv (fuel : nat)
| CMulticast (quorum : Z) (m : A)
| CBroadcast (m : A)
| CClose
| CDrop (id : NodeID) (t : Z)
| CSlow (id : NodeID) (delay t : Z)
| CFlaky (id : NodeID) (p : spec_float) (t : Z)
| CCrash (t : Z)
| CFire (i : nat)
| CElapse (d : Z)
| COther (o : Other).

Definition call (c : Call) : M socket unit :=
  match c with
  | CSend to m => Send to m
  | CRecv fuel => Recv fuel;; skip
  | CMulticast quorum m => MulticastQuorum quorum m
  | CBroadcast m => Broadcast m
  | CClose => Close
  | CDrop id t => Drop id t
  | CSlow id d t => Slow id d t
  | CFlaky id p t => Flaky id p t
  | CCrash t => Crash t
  | CFire i => fire i
  | CElapse d => elapse d
  | COther o => other o
  end.

Fixpoint calls (cs : list Call) : M socket unit :=
  match cs with
  | [] => skip
  | c :: cs' => call c;; calls cs'
  end.

(** ** Every peer has one transport, dialled once *)
Context `{!NetLaws W A}.

#[export] Instance net_keeps_preorder : PreOrder (net_keeps (W := W) (A := A)).
Proof.
  split; [by intros w Hw|]. intros w1 w2 w3 H1 H2 Hw. destruct (H1 Hw) as [Hw2 K1].
  destruct (H2 Hw2) as [Hw3 K2]. split; [done|]. intros t Ht. destruct (K1 t Ht) as (E1 & E2 & E3).
  destruct (K2 t) as (E4 & E5 & E6); [by rewrite E1|]. split_and!; congruence.
Qed.

(** The transport [t] of peer [id], as the tables say. *)
Definition peer_ok (s : socket) (id : NodeID) (t : nat) : Prop :=
  is_Some (net_addr (s_world s) t) /\
  (id <> s_id s -> exists a, s_addresses s !! id = Some a /\ net_addr (s_world s) t = net_uri a /\
                   (net_dials (s_world s) t <= 1)%nat).

(** The messages handed over for a peer, in order. *)
Definition sent_to (id : NodeID) (s : socket) : list A :=
  omap (fun '(to, _, m) => if decide (to = id) then Some m else None) (s_sent s).

Record socket_ok (s : socket) : Prop := {
  so_net : net_ok (s_world s);
  so_self : is_Some (s_nodes s !! s_id s);
  so_peer : forall id t, s_nodes s !! id = Some t -> peer_ok s id t;
  so_inj : forall id1 id2 t, s_nodes s !! id1 = Some t -> s_nodes s !! id2 = Some t -> id1 = id2;
  so_sent : forall to t m, (to, t, m) ∈ s_sent s -> s_nodes s !! to = Some t;
  so_hist : forall id t, s_nodes s !! id = Some t -> net_sent (s_world s) t = sent_to id s;
  so_delayed : forall d to t m, (d, Delayed to t m) ∈ s_timers s -> s_nodes s !! to = Some t
}.

Definition socket_keeps (s s' : socket) : Prop :=
  socket_ok s -> socket_ok s' /\ s_id s' = s_id s /\ s_addresses s' = s_addresses s /\
    forall id t, s_nodes s !! id = Some t -> s_nodes s' !! id = Some t.
#[export] Instance socket_keeps_preorder : PreOrder socket_keeps.
Proof.
  split; [by intros s Hs|]. intros s1 s2 s3 H1 H2 Hs. destruct (H1 Hs) as (Hs2 & E1 & E2 & E3).
  destruct (H2 Hs2) as (Hs3 & E4 & E5 & E6). split_and!; [done | congruence | congruence | auto].
Qed.

(** A change that spares the socket's own transports. *)
Lemma spared_keeps w s :
  (net_ok (s_world s) -> net_ok w /\ forall id t, s_nodes s !! id = Some t -> is_Some (net_addr (s_world s) t) ->
     net_addr w t = net_addr (s_world s) t /\ (net_dials w t <= net_dials (s_world s) t)%nat /\
     net_sent w t = net_sent (s_world s) t) ->
  socket_keeps s (set_world w s).
Proof.
  intros Hw []. destruct (Hw so_net0) as [Hok Hk]. split_and!; [|done..].
  split; try done; intros id t Ht; destruct (Hk id t Ht) as (E1 & E2 & E3); try (by apply (so_peer0 id)).
  - destruct (so_peer0 id t Ht) as [Hs Hp]. split; simpl; [by rewrite E1|]. intros Hne.
    destruct (Hp Hne) as (a & ? & ? & ?). exists a. rewrite E1. split_and!; try done. lia.
  - simpl. rewrite E3. by apply so_hist0.
Qed.

Lemma set_world_keeps w s : net_keeps (s_world s) w -> socket_keeps s (set_world w s).
Proof.
  intros Hw. apply spared_keeps. intros Hok. destruct (Hw Hok) as [Hok' Hk]. split; [done|].
  intros id t _ Ht. destruct (Hk t Ht) as (E1 & E2 & E3). split_and!; try done. by rewrite E2.
Qed.

Lemma on_world_keeps f :
  (forall w w', f w = Ret w' -> net_keeps w w') -> preserves socket_keeps (on_world f).
Proof.
  intros Hf s a s' H. unfold on_world in H. destruct (f (s_world s)) as [w| | |] eqn:E; try done.
  injection H as _ <-. apply set_world_keeps. eauto.
Qed.

(** Changes of the fault tables, the clock and the random source. *)
Lemma tables_keep s s' :
  s_id s' = s_id s -> s_addresses s' = s_addresses s -> s_nodes s' = s_nodes s ->
  s_world s' = s_world s -> s_sent s' = s_sent s ->
  (forall d to t m, (d, Delayed to t m) ∈ s_timers s' -> (d, Delayed to t m) ∈ s_timers s) ->
  socket_keeps s s'.
Proof.
  intros E1 E2 E3 E4 E5 E6 []. split_and!; [|done|done|by rewrite E3].
  split; unfold peer_ok, sent_to in *; rewrite ?E1, ?E2, ?E3, ?E4, ?E5; eauto.
Qed.

Lemma NewTimer_keeps d a :
  (forall to t m, a <> Delayed to t m) -> preserves socket_keeps (NewTimer d a).
Proof.
  intros Ha. apply preserves_modify. intros s. apply tables_keep; try done.
  intros d' to t m. simpl. rewrite elem_of_app, list_elem_of_singleton. intros [?|[= _ E]]; [done|].
  by exfalso; eapply Ha.
Qed.

Lemma delay_keeps s d to t m :
  s_nodes s !! to = Some t -> socket_keeps s (set_clock (s_now s) (s_timers s ++ [(d, Delayed to t m)]) s).
Proof.
  intros Ht []. split_and!; [|done..]. split; try done. intros d' to' t' m'. simpl.
  rewrite elem_of_app, list_elem_of_singleton. intros [?|[= _ -> -> _]]; eauto.
Qed.

Lemma sent_to_log id to t m s :
  sent_to id (log_sent to t m s) = sent_to id s ++ if decide (to = id) then [m] else [].
Proof. unfold sent_to. simpl. rewrite omap_app. simpl. by case_decide. Qed.

Lemma hand_over_keeps to t m s u s' :
  s_nodes s !! to = Some t -> hand_over to t m s = Ret (u, s') -> socket_keeps s s'.
Proof.
  intros Ht Hrun []. unfold hand_over, on_world in Hrun. go_inv.
  destruct (net_send t m (s_world s)) as [w| | |] eqn:Es; try done. cbn [obind] in *. go_inv.
  destruct (net_send_law t m _ _ Es so_net0) as [Hw K]; [by apply (so_peer0 to)|].
  assert (forall id t', s_nodes s !! id = Some t' -> is_Some (net_addr (s_world s) t')) as Hold.
  { intros id t' Hid. by apply (so_peer0 id). }
  split_and!; [|done..]. split; simpl; try done.
  - intros id t' Hid. destruct (K t' (Hold id t' Hid)) as (E1 & E2 & _).
    specialize (so_peer0 id t' Hid). unfold peer_ok in *. simpl. by rewrite E1, E2.
  - intros to' t' m'. rewrite elem_of_app, list_elem_of_singleton. intros [?|[= -> -> _]]; eauto.
  - intros id t' Hid. destruct (K t' (Hold id t' Hid)) as (_ & _ & ->).
    rewrite sent_to_log. change (sent_to id (set_world w s)) with (sent_to id s).
    rewrite <- (so_hist0 id t' Hid). destruct (decide (t' = t)) as [->|Hne].
    + by rewrite decide_True by (by eapply so_inj0).
    + rewrite decide_False, app_nil_r; [done|]. intros ->. congruence.
Qed.

(** A peer gets its transport: the new one is made for its address and dialled
    once, successfully, after any number of failures. *)
Lemma dialled_world address w t w1 slept w2 :
  net_ok w -> net_new address w = Ret (t, w1) ->
  Retry (dial_attempt t) 100 (milliseconds 50) w1 = Ret (None, slept, w2) ->
  net_ok w2 /\ net_addr w t = None /\ is_Some (net_uri address) /\ net_addr w2 t = net_uri address /\
  (net_dials w2 t <= 1)%nat /\ net_sent w2 t = [] /\
  (forall t', is_Some (net_addr w t') -> net_addr w2 t' = net_addr w t' /\
     (net_dials w2 t' <= net_dials w t')%nat /\ net_sent w2 t' = net_sent w t').
Proof.
  intros Hw Hnew Hretry. destruct (net_new_law _ _ _ _ Hnew Hw) as (K & Hn & Hu & Ha & Hd & Hs).
  destruct (K Hw) as [Hw1 K1].
  set (P := fun w => net_ok w /\ forall t', is_Some (net_addr w1 t') -> net_addr w t' = net_addr w1 t' /\
                                  net_dials w t' = net_dials w1 t' /\ net_sent w t' = net_sent w1 t').
  set (Q := fun w => net_ok w /\ forall t', is_Some (net_addr w1 t') -> net_addr w t' = net_addr w1 t' /\
              net_sent w t' = net_sent w1 t' /\
              (net_dials w t' <= if decide (t' = t) then S (net_dials w1 t) else net_dials w1 t')%nat).
  assert (is_Some (net_addr w1 t)) as Ht by (by rewrite Ha).
  assert (Q w2) as [Hw2 K2].
  { apply (Retry_inv (dial_attempt t) P Q 100 (milliseconds 50) w1 slept w2); [| | |exact Hretry].
    - intros v e v' [Hv Kv] E. unfold dial_attempt in E. destruct (net_dial t v) as [[e'|] v0] eqn:Ed; [|done].
      injection E as _ <-. destruct (net_dial_fail _ _ _ _ Ed Hv) as [Hv0 Kv0].
      destruct (net_idle_law v0 Hv0) as [Hv1 Kv1]. split; [done|]. intros t' Ht'.
      destruct (Kv t' Ht') as (E1 & E2 & E3). destruct (Kv0 t') as (E4 & E5 & E6); [by rewrite E1|].
      destruct (Kv1 t') as (E7 & E8 & E9); [by rewrite E4, E1|]. split_and!; congruence.
    - intros v v' [Hv Kv] E. unfold dial_attempt in E. destruct (net_dial t v) as [[e'|] v0] eqn:Ed; [done|].
      injection E as <-. destruct (Kv t Ht) as (E1 & E2 & _).
      destruct (net_dial_ok _ _ _ Ed Hv) as [Hv0 Kv0]; [by rewrite E1|].
      split; [done|]. intros t' Ht'. destruct (Kv t' Ht') as (E4 & E5 & E6).
      destruct (Kv0 t') as (E7 & E8 & E9); [by rewrite E4|]. split_and!; [congruence | congruence |].
      destruct (decide (t' = t)); lia.
    - split; [done|]. auto. }
  split_and!; [done | done | done | | | |].
  - destruct (K2 t Ht) as (-> & _). done.
  - destruct (K2 t Ht) as (_ & _ & E). rewrite decide_True in E by done. lia.
  - destruct (K2 t Ht) as (_ & -> & _). done.
  - intros t' Ht'. destruct (K1 t' Ht') as (E1 & E2 & E3). destruct (K2 t') as (E4 & E5 & E6); [by rewrite E1|].
    rewrite decide_False in E6; [split_and!; [congruence | lia | congruence]|].
    intros ->. rewrite Hn in Ht'. by destruct Ht'.
Qed.

Lemma add_peer_keeps s to t address w now :
  s_nodes s !! to = None -> s_addresses s !! to = Some address ->
  net_ok w -> net_addr (s_world s) t = None -> is_Some (net_uri address) ->
  net_addr w t = net_uri address -> (net_dials w t <= 1)%nat -> net_sent w t = [] ->
  (forall t', is_Some (net_addr (s_world s) t') -> net_addr w t' = net_addr (s_world s) t' /\
     (net_dials w t' <= net_dials (s_world s) t')%nat /\ net_sent w t' = net_sent (s_world s) t') ->
  socket_keeps s (set_node to t (set_clock now (s_timers s) (set_world w s))).
Proof.
  intros Hto Ha Hw Hn Hu Hta Htd Hts K [].
  assert (forall id t', s_nodes s !! id = Some t' -> id <> to /\ t' <> t /\ is_Some (net_addr (s_world s) t')) as Hold.
  { intros id t' Hid. destruct (so_peer0 id t' Hid) as [Hs _]. split_and!; [intros ->; congruence | | done].
    intros ->. rewrite Hn in Hs. by destruct Hs. }
  assert (forall id t', s_nodes s !! id = Some t' -> <[to := t]> (s_nodes s) !! id = Some t') as Hkeep.
  { intros id t' Hid. rewrite lookup_insert_ne; [done|]. intros <-. congruence. }
  assert (sent_to to s = []) as Hnone.
  { clear so_hist0. unfold sent_to. assert (forall x, x ∈ s_sent s -> x.1.1 <> to) as Hne.
    { intros [[to' t'] m] Hx E. simpl in E. subst. apply so_sent0 in Hx. congruence. }
    clear so_sent0. induction (s_sent s) as [|[[to' t'] m] l IH]; [done|]. simpl.
    rewrite decide_False by (apply (Hne (to', t', m)); left). apply IH. intros x Hx. apply Hne. by right. }
  split_and!; [|done..]. split; simpl; [done | | | | eauto | | eauto].
  - destruct so_self0 as [t0 Ht0]. exists t0. auto.
  - intros id t'. rewrite lookup_insert_Some. intros [[<- <-]|[_ Hid]]; unfold peer_ok; simpl.
    + split; [by rewrite Hta | eauto].
    + destruct (Hold id t' Hid) as (_ & _ & Hs). specialize (so_peer0 id t' Hid). unfold peer_ok in so_peer0.
      destruct (K t' Hs) as (-> & E & _). split; [done|]. intros Hne. destruct so_peer0 as [_ Hp].
      destruct (Hp Hne) as (a & ? & ? & ?). exists a. split_and!; [done | done | lia].
  - intros id1 id2 t'. rewrite !lookup_insert_Some.
    intros [[<- <-]|[_ H1]] [[<- E2]|[_ H2]]; [done | | |eauto].
    + by apply Hold in H2 as (_ & ? & _).
    + subst t'. by apply Hold in H1 as (_ & ? & _).
  - intros id t'. rewrite lookup_insert_Some. intros [[<- <-]|[_ Hid]]; [by rewrite Hts|].
    destruct (Hold id t' Hid) as (_ & _ & Hs). destruct (K t' Hs) as (_ & _ & ->). by apply so_hist0.
Qed.

Lemma transport_for_keeps to s o s' :
  transport_for to s = Ret (o, s') -> socket_keeps s s' /\
  (socket_ok s -> forall t, o = Some t -> s_nodes s' !! to = Some t).
Proof.
  unfold transport_for. destruct (s_nodes s !! to) as [t|] eqn:Et; [intros [= <- <-]; split; [reflexivity | by intros _ ? [= <-]]|].
  destruct (s_addresses s !! to) as [address|] eqn:Ea; [|intros [= <- <-]; by split; [reflexivity|]].
  destruct (net_new address (s_world s)) as [[t w]| | |] eqn:En; try done. cbn [obind].
  destruct (Retry (dial_attempt t) 100 (milliseconds 50) w) as [[[[err|] slept] w']| | |] eqn:Er; try done.
  cbn [obind]. intros E. injection E as <- <-. split.
  - intros Hs. destruct (dialled_world _ _ _ _ _ _ (so_net s Hs) En Er) as (H1 & H2 & H3 & H4 & H5 & H6 & H7).
    by eapply add_peer_keeps.
  - intros _ t' [= <-]. simpl. by rewrite lookup_insert_eq.
Qed.

Lemma flaky_drops_keeps to : preserves socket_keeps (flaky_drops to).
Proof.
  intros s b s' Hrun. unfold flaky_drops in Hrun.
  destruct (s_flaky s !! to) as [p|]; [destruct (SFltb _ p)|]; [|injection Hrun as _ <-; reflexivity..].
  unfold draw_float, gbind, ret in Hrun. injection Hrun as _ <-. by apply tables_keep.
Qed.

Lemma Send_keeps to m : preserves socket_keeps (Send to m).
Proof.
  intros s u s' Hrun. unfold Send in Hrun. go_inv. destruct (s_crash s); [go_inv; reflexivity|].
  destruct (default false (s_drop s !! to)); [go_inv; reflexivity|]. go_inv.
  pose proof (flaky_drops_keeps to _ _ _ Hrun0) as K1. transitivity s0; [done|].
  destruct r; [go_inv; reflexivity|]. go_inv. apply transport_for_keeps in Hrun1 as [K2 Hpost].
  intros Hs0. enough (socket_keeps s1 s') as K3 by exact (transitivity K2 K3 Hs0). specialize (Hpost Hs0).
  destruct r as [t|]; [|go_inv; reflexivity]. specialize (Hpost t eq_refl).
  destruct (0 <? _).
  - unfold NewTimer in Hrun. go_inv. by apply delay_keeps.
  - by eapply hand_over_keeps.
Qed.

Lemma modify_keeps f :
  (forall s, s_id (f s) = s_id s /\ s_addresses (f s) = s_addresses s /\ s_nodes (f s) = s_nodes s /\
     s_world (f s) = s_world s /\ s_sent (f s) = s_sent s /\ s_timers (f s) = s_timers s) ->
  preserves socket_keeps (modify f).
Proof.
  intros Hf. apply preserves_modify. intros s. destruct (Hf s) as (E1 & E2 & E3 & E4 & E5 & E6).
  apply tables_keep; try done. by rewrite E6.
Qed.

#[local] Hint Resolve Send_keeps : bamboo.

Lemma Recv_keeps fuel : preserves socket_keeps (Recv fuel).
Proof.
  induction fuel as [|fuel IH]; cbn [Recv]; [apply preserves_outOfFuel|].
  intros s o s' Hrun. go_inv. destruct (s_nodes s !! s_id s) as [t|]; [|done].
  destruct (net_recv t (s_world s)) as [[m w]|] eqn:E; [|go_inv; reflexivity]. go_inv.
  transitivity (set_world w s); [apply set_world_keeps; by eapply net_recv_law|].
  destruct (s_crash s); [by eapply IH | go_inv; reflexivity].
Qed.

Lemma multicast_keeps todo : forall sent m, preserves socket_keeps (multicast_loop todo sent m).
Proof.
  induction todo as [|todo IH]; intros sent m; cbn [multicast_loop]; [apply preserves_skip; apply _|].
  apply preserves_bind; [apply _ | apply preserves_gets; apply _|]. intros n.
  apply preserves_bind; [apply _ | |].
  - apply (preserves_zoom socket_keeps (fun _ _ => True)); [done|]. intros s k _. by apply tables_keep.
  - intros k. destruct (bool_decide _); [apply IH|]. apply preserves_bind; [apply _ | auto with bamboo | intros _; apply IH].
Qed.

Lemma broadcast_keeps ids : forall m, preserves socket_keeps (broadcast_loop ids m).
Proof.
  induction ids as [|id ids IH]; intros m; cbn [broadcast_loop]; [apply preserves_skip; apply _|].
  apply preserves_bind; [apply _ | apply preserves_gets; apply _|]. intros me.
  apply preserves_bind; [apply _ | | intros _; apply IH].
  case_decide; [apply preserves_skip; apply _ | auto with bamboo].
Qed.

Lemma close_keeps ts : preserves socket_keeps (close_all ts).
Proof.
  induction ts as [|t ts IH]; cbn [close_all]; [apply preserves_skip; apply _|].
  apply preserves_bind; [apply _ | | intros _; apply IH].
  apply on_world_keeps. intros w w'. apply net_close_law.
Qed.

Lemma fire_keeps i : preserves socket_keeps (fire i).
Proof.
  intros s u s' Hrun. unfold fire in Hrun.
  destruct (s_timers s !! i) as [[deadline a]|] eqn:Ei; [|injection Hrun as _ <-; reflexivity].
  destruct (deadline <=? s_now s); [|injection Hrun as _ <-; reflexivity].
  set (s1 := set_clock (s_now s) (delete i (s_timers s)) s) in *.
  assert (socket_keeps s s1) as K1.
  { apply tables_keep; try done. intros d to t m. simpl. intros Hin.
    apply list_elem_of_lookup in Hin as [j Hj]. rewrite list_lookup_delete in Hj.
    apply list_elem_of_lookup. eauto. }
  intros Hs. assert (socket_ok s1) as Hs1 by (by destruct (K1 Hs)).
  enough (socket_keeps s1 s') as K2 by exact (transitivity K1 K2 Hs).
  destruct a as [id|id|id| |to t m]; simpl in Hrun;
    [eapply (modify_keeps (set_drop id false)) | eapply (modify_keeps (set_slow id 0))
    |eapply (modify_keeps (set_flaky id (S754_zero false))) | eapply (modify_keeps (set_crash false)) |]; try done.
  eapply hand_over_keeps; [|done]. simpl. eapply (so_delayed s Hs deadline to t m).
  apply list_elem_of_lookup. eauto.
Qed.

Lemma foreign_spec s t : foreign s t = true ->
  is_Some (net_addr (s_world s) t) /\ forall id t', s_nodes s !! id = Some t' -> t' <> t.
Proof.
  unfold foreign. rewrite andb_true_iff, !bool_decide_eq_true. intros [H1 H2]. split; [done|]. intros id t' Hid ->.
  apply H1, list_elem_of_fmap. exists (id, t). split; [done|]. by apply elem_of_map_to_list.
Qed.

Lemma other_keeps o : preserves socket_keeps (other o).
Proof.
  apply preserves_modify. intros s. destruct o as [g q|addr|t|t|t m|t|t]; simpl.
  - apply set_world_keeps, net_go_law.
  - apply spared_keeps. intros Hok. destruct (net_new addr (s_world s)) as [[t w]| | |] eqn:E; try done.
    destruct (net_new_law _ _ _ _ E Hok) as (Hk & _). destruct (Hk Hok) as [Hok' Hk'].
    split; [done|]. intros id t' _ Ht. destruct (Hk' t' Ht) as (E1 & E2 & E3). split_and!; try done. by rewrite E2.
  - destruct (foreign s t); [|done]. unfold world_after.
    apply set_world_keeps. destruct (net_listen t (s_world s)) eqn:E; try done. by eapply net_listen_law.
  - destruct (foreign s t) eqn:Ef; [|done]. apply foreign_spec in Ef as [Ha Hne]. apply spared_keeps. intros Hok.
    destruct (net_dial t (s_world s)) as [[e|] w] eqn:E; simpl.
    + destruct (net_dial_fail _ _ _ _ E Hok) as [Hok' Hk]. split; [done|].
      intros id t' _ Ht. destruct (Hk t' Ht) as (E1 & E2 & E3). split_and!; try done. by rewrite E2.
    + destruct (net_dial_ok _ _ _ E Hok Ha) as [Hok' Hk]. split; [done|]. intros id t' Hid Hs.
      destruct (Hk t' Hs) as (E1 & E2 & E3). rewrite decide_False in E3 by (by eapply Hne). split_and!; try done.
  - destruct (foreign s t) eqn:Ef; [|done]. apply foreign_spec in Ef as [Ha Hne]. apply spared_keeps. intros Hok.
    unfold world_after. destruct (net_send t m (s_world s)) as [w| | |] eqn:E; try done.
    destruct (net_send_law _ _ _ _ E Hok Ha) as [Hok' Hk]. split; [done|]. intros id t' Hid Hs.
    destruct (Hk t' Hs) as (E1 & E2 & E3). rewrite decide_False in E3 by (by eapply Hne). split_and!; try done. by rewrite E2.
  - destruct (foreign s t); [|done]. apply set_world_keeps.
    destruct (net_recv t (s_world s)) as [[m w]|] eqn:E; try done. by eapply net_recv_law.
  - destruct (foreign s t); [|done]. unfold world_after.
    apply set_world_keeps. destruct (net_close t (s_world s)) eqn:E; try done. by eapply net_close_law.
Qed.

Lemma call_keeps c : preserves socket_keeps (call c).
Proof.
  destruct c; cbn [call].
  - apply Send_keeps.
  - apply preserves_bind; [apply _ | apply Recv_keeps | intros _; apply preserves_skip; apply _].
  - apply multicast_keeps.
  - apply preserves_bind; [apply _ | apply preserves_gets; apply _ | intros ids; apply broadcast_keeps].
  - apply preserves_bind; [apply _ | apply preserves_gets; apply _ | intros ids; apply close_keeps].
  - apply preserves_bind; [apply _ | by apply modify_keeps | intros _; by apply NewTimer_keeps].
  - apply preserves_bind; [apply _ | by apply modify_keeps | intros _; by apply NewTimer_keeps].
  - apply preserves_bind; [apply _ | by apply modify_keeps | intros _; by apply NewTimer_keeps].
  - apply preserves_bind; [apply _ | by apply modify_keeps | intros _].
    apply preserves_when; [apply _ | by apply NewTimer_keeps].
  - apply fire_keeps.
  - apply preserves_modify. intros s. transitivity (set_clock (s_now s + Z.max 0 d) (s_timers s) s).
    + by apply tables_keep.
    + apply set_world_keeps. apply net_idle_law.
  - apply other_keeps.
Qed.

Lemma calls_keeps cs : preserves socket_keeps (calls cs).
Proof.
  induction cs as [|c cs IH]; cbn [calls]; [apply preserves_skip; apply _|].
  apply preserves_bind; [apply _ | apply call_keeps | intros _; apply IH].
Qed.

Lemma NewSocket_ok id addrs w s : net_ok w -> NewSocket id addrs w = Ret s -> socket_ok s.
Proof.
  intros Hw. unfold NewSocket. destruct (net_new _ w) as [[t w1]| | |] eqn:En; try done. cbn [obind].
  destruct (net_listen t w1) as [w2| | |] eqn:El; try done. cbn [obind]. intros [= <-].
  destruct (net_new_law _ _ _ _ En Hw) as (K & Hn & Hu & Ha & Hd & Hs). destruct (K Hw) as [Hw1 _].
  destruct (net_listen_law _ _ _ El Hw1) as [Hw2 K2].
  destruct (K2 t) as (E1 & E2 & E3); [by rewrite Ha|].
  split; simpl; [done | rewrite lookup_singleton_eq; by eexists | | | by intros *; rewrite elem_of_nil | | by intros *; rewrite elem_of_nil].
  - intros id' t'. rewrite lookup_singleton_Some. intros [<- <-]. split; simpl; [by rewrite E1, Ha | done].
  - intros id1 id2 t'. rewrite !lookup_singleton_Some. naive_solver.
  - intros id' t'. rewrite lookup_singleton_Some. intros [<- <-]. by rewrite E3, Hs.
Qed.

(** ** What is sent *)

(** No fault is active. *)
Record faultless (s : socket) : Prop := {
  f_crash : s_crash s = false;
  f_drop : forall id, default false (s_drop s !! id) = false;
  f_flaky : forall id p, s_flaky s !! id = Some p -> SFltb (S754_zero false) p = false;
  f_slow : forall id, default 0 (s_slow s !! id) <= 0
}.

Lemma NewSocket_faultless id addrs w s : NewSocket id addrs w = Ret s -> faultless s.
Proof.
  unfold NewSocket. destruct (net_new _ w) as [[t w1]| | |]; try done. cbn [obind].
  destruct (net_listen t w1) as [w2| | |]; try done. cbn [obind]. intros [= <-].
  split; simpl; [done | done | done |]. intros id'. rewrite lookup_empty. simpl. lia.
Qed.

(** Recipients and messages of the history. *)
Definition outgoing (s : socket) : list (NodeID * A) := (fun x => (x.1.1, x.2)) <$> s_sent s.

(** The tables a send leaves alone. *)
Definition same_tables (s s' : socket) : Prop :=
  s_id s' = s_id s /\ s_addresses s' = s_addresses s /\ s_crash s' = s_crash s /\ s_drop s' = s_drop s /\
  s_slow s' = s_slow s /\ s_flaky s' = s_flaky s.
#[export] Instance same_tables_preorder : PreOrder same_tables.
Proof. split; [by intros s | unfold same_tables; intros s1 s2 s3 ??; intuition congruence]. Qed.

Lemma faultless_same s s' : same_tables s s' -> faultless s -> faultless s'.
Proof. intros (_ & _ & E1 & E2 & E3 & E4) []. split; rewrite ?E1, ?E2, ?E3, ?E4; done. Qed.

Lemma transport_for_tables to s o s' :
  transport_for to s = Ret (o, s') ->
  same_tables s s' /\ s_sent s' = s_sent s /\ (is_Some (s_addresses s !! to) -> is_Some o).
Proof.
  unfold transport_for. destruct (s_nodes s !! to) as [t|]; [by intros [= <- <-]; split_and!|].
  destruct (s_addresses s !! to) as [address|]; [|by intros [= <- <-]; split_and!; [..|intros []]].
  destruct (net_new address (s_world s)) as [[t w]| | |]; try done. cbn [obind].
  destruct (Retry _ _ _ w) as [[[[err|] slept] w']| | |]; try done.
  cbn [obind]. intros E. injection E as <- <-. by split_and!.
Qed.

Lemma Send_sent to m s u s' :
  faultless s -> is_Some (s_addresses s !! to) -> Send to m s = Ret (u, s') ->
  same_tables s s' /\ outgoing s' = outgoing s ++ [(to, m)].
Proof.
  intros Hf Ha Hrun. unfold Send in Hrun. go_inv. destruct Hf. rewrite f_crash0, f_drop0 in Hrun. go_inv.
  assert (r = false /\ s0 = s) as [-> ->].
  { unfold flaky_drops in Hrun0. destruct (s_flaky s !! to) as [p|] eqn:Ep; [|by injection Hrun0 as <- <-].
    rewrite (f_flaky0 to p Ep) in Hrun0. by injection Hrun0 as <- <-. }
  go_inv. apply transport_for_tables in Hrun1 as (Ht & Hs & Ho). destruct (Ho Ha) as [t ->].
  rewrite (proj2 (Z.ltb_ge _ _)) in Hrun by apply f_slow0. unfold hand_over, on_world in Hrun. go_inv.
  destruct (net_send t m _) as [w| | |]; try done. cbn [obind] in *. go_inv.
  split; [done|]. unfold outgoing. simpl. by rewrite fmap_app, Hs.
Qed.

Lemma broadcast_sent ids : forall m s u s',
  faultless s -> (forall id, id ∈ ids -> is_Some (s_addresses s !! id)) ->
  broadcast_loop ids m s = Ret (u, s') ->
  same_tables s s' /\ outgoing s' = outgoing s ++ ((fun id => (id, m)) <$> filter (fun id => id <> s_id s) ids).
Proof.
  induction ids as [|id ids IH]; intros m s u s' Hf Ha Hrun; cbn [broadcast_loop] in Hrun; go_inv.
  - split; [done|]. by rewrite app_nil_r.
  - destruct (decide (id = s_id s)) as [->|Hne].
    + go_inv. rewrite filter_cons_False by (intros []; done). apply IH in Hrun; [done | done |].
      intros id' Hid. apply Ha. by right.
    + match goal with Hx : Send _ _ _ = Ret (_, ?s1) |- _ => rename s1 into sm; rename Hx into Hsend end.
      apply Send_sent in Hsend as [Ht Hs]; [|done | apply Ha; left].
      apply IH in Hrun as [Ht' Hs'].
      * split; [by transitivity sm|]. rewrite Hs', Hs, <- app_assoc, filter_cons_True by done. simpl.
        destruct Ht as (-> & _). done.
      * by eapply faultless_same.
      * intros id' Hid. destruct Ht as (_ & -> & _). apply Ha. by right.
Qed.

(** While the socket is crashed nothing is sent; neither is anything new to a
    dropped peer. *)
Lemma crashed_Send to m s : s_crash s = true -> Send to m s = Ret (tt, s).
Proof. intros Hc. unfold Send, gbind, gets. by rewrite Hc. Qed.
Lemma dropped_Send to m s : default false (s_drop s !! to) = true -> Send to m s = Ret (tt, s).
Proof. intros Hd. unfold Send, gbind, gets. rewrite Hd. by destruct (s_crash s). Qed.

Context (rnd_range : forall k n, 0 < n -> 0 <= rnd k n < n).

Lemma multicast_sent todo : forall sent m s u s',
  faultless s -> (forall r, 1 <= r <= Z.of_nat (size (s_addresses s)) -> is_Some (s_addresses s !! NewNodeID r)) ->
  Z.of_nat (size (s_addresses s)) < two63 - 1 ->
  multicast_loop todo sent m s = Ret (u, s') ->
  exists rs, (length rs <= todo)%nat /\ NoDup rs /\
    (forall r, r ∈ rs -> 1 <= r <= Z.of_nat (size (s_addresses s)) /\ r ∉ sent) /\
    same_tables s s' /\ outgoing s' = outgoing s ++ ((fun r => (NewNodeID r, m)) <$> rs).
Proof.
  induction todo as [|todo IH]; intros sent m s u s' Hf Ha Hn Hrun; cbn [multicast_loop] in Hrun; go_inv.
  - exists []. split_and!; [simpl; lia | constructor | by intros r ?%elem_of_nil | done | by rewrite app_nil_r].
  - match goal with Hx : draw_Intn _ _ = Ret _ |- _ => unfold draw_Intn in Hx end. go_inv.
    match goal with Hx : Intn _ _ _ = Ret _ |- _ => unfold Intn in Hx end.
    destruct (Z.leb_spec (Z.of_nat (size (s_addresses s))) 0) as [|Hpos]; [done|].
    go_inv. pose proof (rnd_range (s_draws s) (Z.of_nat (size (s_addresses s))) Hpos) as Hr.
    set (k := rnd (s_draws s) (Z.of_nat (size (s_addresses s)))) in *.
    assert (k +! 1 = k + 1) as Ek by (apply i64_id; unfold is_i64, two63 in *; lia). rewrite Ek in Hrun.
    set (s1 := set_draws (S (s_draws s)) s) in *. assert (same_tables s s1) as Hs1 by done.
    assert (faultless s1) as Hf1 by (by eapply faultless_same).
    case_bool_decide as Hin.
    + apply IH in Hrun as (rs & Hl & Hnd & Hrs & Ht & Ho); [|done..].
      exists rs. split_and!; [lia | done | done | done | done].
    + go_inv. match goal with Hx : Send _ _ _ = Ret (_, ?s1) |- _ => rename s1 into sm; rename Hx into Hsend end.
      apply Send_sent in Hsend as [Ht Hs]; [|done | apply Ha; lia].
      assert (s_addresses sm = s_addresses s) as Eaddr by (by destruct Ht as (_ & -> & _)).
      apply IH in Hrun as (rs & Hl & Hnd & Hrs & Ht' & Ho); [|by eapply faultless_same | by rewrite Eaddr | by rewrite Eaddr].
      rewrite Eaddr in Hrs. exists ((k + 1) :: rs). split_and!.
      * simpl. lia.
      * constructor; [|done]. intros Hx. apply Hrs in Hx as [_ Hx]. apply Hx. left.
      * intros r' [->|Hr']%elem_of_cons; [split; [lia|done]|]. apply Hrs in Hr' as [? Hx]. split; [done|].
        intros Hy. apply Hx. by right.
      * by transitivity sm.
      * rewrite Ho, Hs, <- app_assoc. done.
Qed.
End socket.

(** ** Transports as the network of a socket

    Messages carry the number of the transport they are sent on, so that the
    world's history can tell them apart; a socket neither sees nor sets it. *)
Section transport_net.
Context {A : Type} (gob : A -> option A) (net_cap : Z) (net_cap_pos : 0 < net_cap).
Context (exotic : string -> option URL) (Scheme machine : string).

Abbreviation TWorld := (World (A := nat * A)).
Implicit Types w : TWorld.
Definition tagged_gob (x : nat * A) : option (nat * A) := (fun m => (x.1, m)) <$> gob x.2.

Lemma tagged_gob_origin x y : tagged_gob x = Some y -> y.1 = x.1.
Proof. unfold tagged_gob. destruct (gob x.2); [by intros [= <-] | done]. Qed.

(** While a caller sleeps every goroutine takes a turn. *)
Definition turn (w : TWorld) : TWorld :=
  foldr (fun g w => default w (go_step tagged_gob g false w)) w (seq 0 (w_next w)).

Definition dial_of (t : nat) (x : Goroutine (A := nat * A)) : nat :=
  match x with GDial t' _ _ => if decide (t' = t) then 1 else 0 | _ => 0 end%nat.
Definition dials_of (w : TWorld) (t : nat) : nat := msum (dial_of t) (w_go w).
Definition uri_of (w : TWorld) (t : nat) : option URL := t_uri <$> w_transports w !! t.
Definition world_ok (w : TWorld) : Prop := good fst w /\ forall t, linked tagged_gob fst t w.

#[global] Instance transport_net : Net TWorld A := {
  net_new addr w :=
    match NewTransport exotic Scheme addr with
    | Ret tr => Ret (w_next w, new_transport tr w)
    | _ => Panic
    end;
  net_listen t w := Listen machine t w;
  net_dial t w := Dial net_cap t w;
  net_idle := turn;
  net_go g quit w := default w (go_step tagged_gob g quit w);
  net_send t m w :=
    o ←? Transport.Send t (t, m) w;
    match o with Some w' => Ret w' | None => Diverge end;
  net_recv t w :=
    match Transport.Recv t w with Some (x, w') => Some (x.2, w') | None => None end;
  net_close t w :=
    o ←? Transport.Close t w;
    match o with Some w' => Ret w' | None => Panic end;
  net_uri addr :=
    url_Parse exotic (if Contains (chars "://") (chars addr) then addr else (Scheme +:+ "://" +:+ addr)%string);
  net_addr := uri_of;
  net_dials := dials_of;
  net_sent w t := snd <$> ch_in (sendq w t);
  net_ok := world_ok
}.

Lemma NewTransport_fresh addr tr :
  NewTransport exotic Scheme addr = Ret tr -> fresh (A := nat * A) tr /\ net_uri addr = Some (t_uri tr).
Proof.
  unfold NewTransport. simpl. destruct (url_Parse exotic _) as [uri|]; [|done].
  repeat case_decide; try done; intros [= <-]; by split.
Qed.

Lemma step_world_ok l w w' :
  ok_label fst l -> world_ok w -> step tagged_gob net_cap l w = Ret (Some w') -> world_ok w'.
Proof.
  intros Hl [Hw Hlk] Hs. split; [by eapply (step_good tagged_gob net_cap) | intros t].
  by eapply (step_linked tagged_gob net_cap fst net_cap_pos tagged_gob_origin).
Qed.

(** A goroutine's step keeps addresses, dials and what was sent. *)
Lemma go_step_shape g quit (w w' : TWorld) :
  go_step tagged_gob g quit w = Some w' ->
  exists x y w1, w_go w !! g = Some x /\ (forall t, dial_of t x = dial_of t y) /\ w' = set_go g y w1 /\
    w_go w1 = w_go w /\ forall t, uri_of w1 t = uri_of w t.
Proof.
  assert (forall t f, (forall tr, t_uri (f tr) = t_uri tr) -> forall t', uri_of (upd_transport t f w) t' = uri_of w t') as Hupd.
  { intros t f Hf t'. unfold uri_of. simpl. destruct (decide (t = t')) as [->|]; [|by rewrite lookup_alter_ne].
    rewrite lookup_alter_eq. destruct (w_transports w !! t'); simpl; [by rewrite Hf | done]. }
  assert (forall k c t', uri_of (hang_up k c w) t' = uri_of w t') as Hhang.
  { intros k c t'. unfold hang_up. by destruct k, (w_conns w !! c). }
  unfold go_step. destruct (w_go w !! g) as [[t c p|t c p]|] eqn:Eg; [| |done].
  - unfold dial_step. destruct (w_transports w !! t) as [tr|]; [|done]. destruct (w_conns w !! c) as [q|]; [|done].
    intros H. assert (exists p' w1, w' = set_go g (GDial t c p') w1 /\ w_go w1 = w_go w /\
                        forall t, uri_of w1 t = uri_of w t) as (p' & w1 & -> & E1 & E2).
    { destruct p; [| | |done];
        [destruct (ch_recv (t_send tr)) as [[[m|] s]|]; try done; apply (inj Some) in H; subst w'..|].
      - eexists _, _. split; [reflexivity|]. split; [done | by apply Hupd].
      - eexists _, _. split; [reflexivity|]. split; [apply hang_up_go | apply Hhang].
      - eexists _, _. split; [reflexivity|]. split; [done | by apply Hupd].
      - eexists _, _. split; [reflexivity|]. split; [apply hang_up_go | apply Hhang].
      - destruct (wire tagged_gob (t_kind tr) m); [|apply (inj Some) in H; subst w'; by eexists _, _].
        destruct (ch_send p q) as [[q'|]| | |]; try done; apply (inj Some) in H; subst w'; by eexists _, _. }
    by exists (GDial t c p), (GDial t c p'), w1.
  - unfold listen_step. destruct (w_transports w !! t) as [tr|]; [|done]. destruct (w_conns w !! c) as [q|]; [|done].
    intros H. assert (exists p' w1, w' = set_go g (GListen t c p') w1 /\ w_go w1 = w_go w /\
                        forall t, uri_of w1 t = uri_of w t) as (p' & w1 & -> & E1 & E2).
    { assert (take_conn g t c q w = Some w' -> exists p' w1, w' = set_go g (GListen t c p') w1 /\
                w_go w1 = w_go w /\ forall t, uri_of w1 t = uri_of w t) as Htake.
      { unfold take_conn. destruct (ch_recv q) as [[[m|] q']|]; try done; intros E%(inj Some); subst w'; by eexists _, _. }
      destruct p; [| by apply Htake | | done].
      - destruct (t_kind tr) eqn:Ek; destruct quit, (t_closed tr); try done; try (by apply Htake);
          apply (inj Some) in H; subst w'; eexists _, _; (split; [reflexivity|]);
          (split; [first [apply hang_up_go | done] | first [apply Hhang | done]]).
      - destruct (ch_send m (t_recv tr)) as [[r|]| | |]; try done. apply (inj Some) in H. subst w'.
        eexists _, _. split; [reflexivity|]. split; [done | by apply Hupd]. }
    by exists (GListen t c p), (GListen t c p'), w1.
Qed.

Lemma go_step_net_keeps g quit w w' : go_step tagged_gob g quit w = Some w' -> net_keeps w w'.
Proof.
  intros Hs Hw. split; [by apply (step_world_ok (LGo g quit) w w'); [| |simpl; by rewrite Hs]|].
  intros t _. destruct (go_step_shape _ _ _ _ Hs) as (x & y & w1 & Ex & Ed & -> & Eg & Eu). split_and!.
  - apply Eu.
  - simpl. unfold dials_of. simpl. rewrite <- Eg in Ex. pose proof (msum_update (dial_of t) _ _ _ y Ex) as Hsum.
    rewrite Ed, Eg in Hsum. rewrite Eg. lia.
  - destruct (go_step_calls tagged_gob fst g quit w _ (proj1 Hw) Hs) as [Hc _]. simpl. by destruct (Hc t) as [-> _].
Qed.

Lemma turn_keeps w : net_keeps w (turn w).
Proof.
  unfold turn. generalize (seq 0 (w_next w)) as l. induction l as [|g l IH]; simpl; [reflexivity|].
  set (v := foldr _ w l) in *. transitivity v; [done|].
  destruct (go_step tagged_gob g false v) as [v'|] eqn:E; simpl; [by eapply go_step_net_keeps | reflexivity].
Qed.

Lemma uri_some w t : is_Some (uri_of w t) <-> is_Some (w_transports w !! t).
Proof. unfold uri_of. by rewrite fmap_is_Some. Qed.

Lemma dials_new w t x k :
  w_go w !! k = None -> msum (dial_of t) (<[k := x]> (w_go w)) = (dial_of t x + dials_of w t)%nat.
Proof. intros Hk. unfold dials_of. by rewrite msum_insert. Qed.

Lemma new_transport_keeps tr w : fresh tr -> net_keeps w (new_transport tr w).
Proof.
  intros Hf Hw. split; [by apply (step_world_ok (LNew tr) w)|]. intros t Ht%uri_some.
  assert (w_next w <> t) as Hne.
  { intros <-. destruct (g_fresh fst w (proj1 Hw) (w_next w) ltac:(lia)) as (E & _). rewrite E in Ht. by destruct Ht. }
  simpl. unfold uri_of, dials_of, sendq. simpl. by rewrite lookup_insert_ne.
Qed.

Lemma Listen_keeps t w w' : Listen machine t w = Ret w' -> net_keeps w w'.
Proof.
  intros HL Hw. split; [apply (step_world_ok (LListen machine t) w w'); [done | done | simpl; by rewrite HL]|].
  intros t' _. unfold Listen, tcp_Listen, channel_Listen in HL. destruct (w_transports w !! t) as [tr|]; [|by injection HL as <-].
  destruct (g_fresh fst w (proj1 Hw) (w_next w) ltac:(lia)) as (_ & _ & Hng).
  destruct (t_kind tr); [| destruct (w_ports w !! _); [done|] |by injection HL as <-]; injection HL as <-; [|done].
  split_and!; [done | | done]. change (dials_of (register (u_Host (t_uri tr)) (w_next w) (new_conn t (make_chan 1024) w)) t' = dials_of w t').
  unfold dials_of at 1. simpl. by rewrite dials_new.
Qed.

(** Dialling adds at most one dialling goroutine, and that to [t]. *)
Lemma Dial_cases t w :
  (Dial net_cap t w).2 = w \/
  (Dial net_cap t w).1 = None /\
    ((exists c, (Dial net_cap t w).2 = new_dial t c w) \/
     (exists u, (Dial net_cap t w).2 = new_dial t (w_next w) (new_conn u (make_chan net_cap) w))).
Proof.
  unfold Dial, tcp_Dial, channel_Dial. destruct (w_transports w !! t) as [tr|]; [|by left].
  destruct (t_kind tr); simpl; [| |by left].
  - destruct (w_chans w !! _) as [c|]; simpl; [right; split; [done|]; left; eauto | by left].
  - destruct (w_ports w !! _) as [u|]; simpl; [right; split; [done|]; right; eauto | by left].
Qed.

Lemma Dial_counts t w :
  world_ok w -> world_ok (Dial net_cap t w).2 /\
  (forall t', uri_of (Dial net_cap t w).2 t' = uri_of w t' /\ sendq (Dial net_cap t w).2 t' = sendq w t' /\
     (dials_of (Dial net_cap t w).2 t' = dials_of w t' \/
      (Dial net_cap t w).1 = None /\ t' = t /\ dials_of (Dial net_cap t w).2 t' = S (dials_of w t'))).
Proof.
  intros Hw. split; [by apply (step_world_ok (LDial t) w)|]. intros t'.
  destruct (g_fresh fst w (proj1 Hw) (w_next w) ltac:(lia)) as (_ & _ & Hng).
  destruct (g_fresh fst w (proj1 Hw) (S (w_next w)) ltac:(lia)) as (_ & _ & Hng').
  assert (forall c, dial_of t' (GDial t c Top) = if decide (t = t') then 1%nat else 0%nat) as Hdial by done.
  destruct (Dial_cases t w) as [->|[-> [[c ->]|[u ->]]]]; [by auto | |]; (split; [done|]; split; [done|]).
  - assert (dials_of (new_dial t c w) t' = (dial_of t' (GDial t c Top) + dials_of w t')%nat) as ->
      by (by apply dials_new).
    rewrite Hdial. case_decide; [subst; auto | auto].
  - assert (dials_of (new_dial t (w_next w) (new_conn u (make_chan net_cap) w)) t' =
            (dial_of t' (GDial t (w_next w) Top) + dials_of w t')%nat) as ->.
    { unfold dials_of at 1. simpl. rewrite msum_insert; [|by rewrite lookup_insert_ne by lia]. by rewrite dials_new. }
    rewrite Hdial. case_decide; [subst; auto | auto].
Qed.

(** The queues of the transports. *)
Lemma upd_net_keeps t f w tr :
  w_transports w !! t = Some tr -> t_uri (f tr) = t_uri tr -> ch_in (t_send (f tr)) = ch_in (t_send tr) ->
  world_ok (upd_transport t f w) -> net_keeps w (upd_transport t f w).
Proof.
  intros Et Hu Hs Hok _. split; [done|]. intros t' _. split_and!; [|done|].
  - simpl. unfold uri_of. simpl. destruct (decide (t = t')) as [<-|]; [|by rewrite lookup_alter_ne].
    rewrite lookup_alter_eq, Et. simpl. by rewrite Hu.
  - simpl. rewrite sendq_upd. case_decide; [subst|done]. rewrite Et. simpl. by rewrite Hs, (sendq_some w t' tr).
Qed.

Lemma Send_counts t m w w' :
  Transport.Send t (t, m) w = Ret (Some w') -> world_ok w ->
  world_ok w' /\ forall t', uri_of w' t' = uri_of w t' /\ dials_of w' t' = dials_of w t' /\
    snd <$> ch_in (sendq w' t') =
      if decide (t' = t) then (snd <$> ch_in (sendq w t)) ++ [m] else snd <$> ch_in (sendq w t').
Proof.
  intros HS Hw. split; [by apply (step_world_ok (LSend t (t, m)) w w')|].
  unfold Transport.Send in HS. destruct (w_transports w !! t) as [tr|] eqn:Et; [|done].
  destruct (ch_send (t, m) (t_send tr)) as [[q|]| | |] eqn:Es; try done. injection HS as <-.
  apply ch_send_inv in Es as (_ & _ & _ & _ & Hi & _ & _). intros t'. split_and!; [|done|].
  - unfold uri_of. simpl. destruct (decide (t = t')) as [<-|]; [|by rewrite lookup_alter_ne].
    by rewrite lookup_alter_eq, Et.
  - rewrite sendq_upd. destruct (decide (t' = t)) as [->|]; [|by rewrite decide_False by congruence].
    rewrite decide_True, Et by done. simpl. rewrite Hi, fmap_app. simpl. by rewrite (sendq_some w t tr).
Qed.

#[global] Instance transport_net_laws : NetLaws TWorld A.
Proof.
  split.
  - intros addr w t w' HN Hw. cbn [net_new transport_net] in HN.
    destruct (NewTransport exotic Scheme addr) as [tr| | |] eqn:En; try done. injection HN as <- <-.
    apply NewTransport_fresh in En as [Hf Hu].
    destruct (g_fresh fst w (proj1 Hw) (w_next w) ltac:(lia)) as (Hnt & _ & _). split_and!.
    + by apply new_transport_keeps.
    + simpl. unfold uri_of. by rewrite Hnt.
    + rewrite Hu. by eexists.
    + rewrite Hu. simpl. unfold uri_of. simpl. by rewrite lookup_insert_eq.
    + simpl. unfold dials_of. simpl. apply msum_zero. intros g x Hx. destruct x as [t c p|]; [|done]. simpl.
      case_decide; [subst t|done]. destruct (g_dials fst w (proj1 Hw) _ _ _ _ Hx) as [[? E] _]. congruence.
    + simpl. unfold sendq. simpl. rewrite lookup_insert_eq. simpl. destruct Hf as (-> & _). done.
  - intros t w w'. apply Listen_keeps.
  - intros t w e w' HD Hw. cbn [net_dial transport_net] in HD. destruct (Dial_counts t w Hw) as [Hok K].
    rewrite HD in Hok, K. split; [done|]. intros t' _. destruct (K t') as (E1 & E2 & [E3|[E3 _]]); [|done].
    simpl in *. rewrite E2. done.
  - intros t w w' HD Hw _. cbn [net_dial transport_net] in HD. destruct (Dial_counts t w Hw) as [Hok K].
    rewrite HD in Hok, K. split; [done|]. intros t' _. destruct (K t') as (E1 & E2 & E3). simpl in *.
    rewrite E1, E2. split_and!; [done|done|]. destruct E3 as [->|(_ & -> & ->)]; [case_decide; subst; lia|].
    by rewrite decide_True.
  - apply turn_keeps.
  - intros g quit w. cbn [net_go transport_net].
    destruct (go_step tagged_gob g quit w) eqn:E; simpl; [by eapply go_step_net_keeps | reflexivity].
  - intros t m w w' HS Hw _. cbn [net_send transport_net] in HS.
    destruct (Transport.Send t (t, m) w) as [[w1|]| | |] eqn:Es; try done. injection HS as <-.
    destruct (Send_counts t m w w1 Es Hw) as [Hok K]. split; [done|]. intros t' _. apply K.
  - intros t m w w' HR Hw. cbn [net_recv transport_net] in HR.
    destruct (Transport.Recv t w) as [[x w1]|] eqn:Er; [|done]. injection HR as _ <-.
    assert (world_ok w1) as Hok by (apply (step_world_ok (LRecv t) w w1); [done | done | simpl; by rewrite Er]).
    unfold Transport.Recv in Er. destruct (w_transports w !! t) as [tr|] eqn:Et; [|done].
    destruct (ch_recv (t_recv tr)) as [[[y|] q]|]; try done. injection Er as _ <-.
    by apply (upd_net_keeps t (set_recv q) w tr).
  - intros t w w' HC Hw. cbn [net_close transport_net] in HC.
    destruct (Transport.Close t w) as [[w1|]| | |] eqn:Er; try done. injection HC as <-.
    assert (world_ok w1) as Hok by (apply (step_world_ok (LClose t) w w1); [done | done | simpl; by rewrite Er]).
    unfold Transport.Close in Er. destruct (w_transports w !! t) as [tr|] eqn:Et; [|done].
    destruct (ch_close (t_send tr)) as [q| | |] eqn:Ec; try done. cbn [obind] in Er.
    destruct (t_closed tr); [done|]. injection Er as <-.
    apply (upd_net_keeps t (set_closed ∘ set_send q) w tr); [done | done | | done | done].
    simpl. unfold ch_close in Ec. destruct (ch_closed (t_send tr)); [done|]. by injection Ec as <-.
Qed.
End transport_net.

(** ** The socket's promises *)

(** C15.  After any sequence of calls and timer events, every message a socket
    handed over for a peer went to one transport, made for the peer's configured
    address, dialled at most once and used for no other peer; and the messages
    accepted by that transport are exactly those handed over for the peer, in
    order. *)
Theorem socket_links {W A} {NT : Net W A} `{!NetLaws W A} rnd rndf id addrs (w : W) s0 cs s :
  net_ok w -> NewSocket id addrs w = Ret s0 -> calls rnd rndf cs s0 = Ret (tt, s) ->
  forall to t m, to <> id -> (to, t, m) ∈ s_sent s ->
    (exists a, addrs !! to = Some a /\ net_addr (s_world s) t = net_uri a) /\
    (net_dials (s_world s) t <= 1)%nat /\
    net_sent (s_world s) t = sent_to to s /\
    (forall to' t' m', (to', t', m') ∈ s_sent s -> (to' = to <-> t' = t)).
Proof.
  intros Hw Hnew Hrun to t m Hne Hin. assert (socket_ok s0) as Hs0 by (by eapply NewSocket_ok).
  destruct (calls_keeps rnd rndf cs s0 tt s Hrun Hs0) as (Hs & Eid & Eaddr & _).
  assert (s_id s0 = id /\ s_addresses s0 = addrs) as [E1 E2].
  { unfold NewSocket in Hnew. destruct (net_new _ w) as [[t0 w0]| | |]; try done. cbn [obind] in Hnew.
    destruct (net_listen t0 w0); try done. cbn [obind] in Hnew. by injection Hnew as <-. }
  pose proof (so_sent s Hs to t m Hin) as Ht.
  destruct (so_peer s Hs to t Ht) as [_ Hp]. destruct Hp as (a & Ha & Hu & Hd); [by rewrite Eid, E1|].
  rewrite Eaddr, E2 in Ha. split_and!; [by exists a | done | by apply (so_hist s Hs) |].
  intros to' t' m' Hin'. pose proof (so_sent s Hs to' t' m' Hin') as Ht'. split; [intros ->; congruence|].
  intros ->. by eapply (so_inj s Hs).
Qed.

(** C14.  Over the chan and tcp transports, after any sequence of a socket's calls
    (one at a time), timer events, steps of the transports' goroutines and calls of
    the other users of transports -- peers taking messages from their queues among
    them: what one receiver has taken from its queue of a socket's messages for a
    peer is a prefix of what was handed over for that peer, encoded, in order, and
    no other queue delivers any of them. *)
Theorem socket_fifo {A} (gob : A -> option A) net_cap exotic scheme machine rnd rndf id addrs w s0 cs s :
  0 < net_cap ->
  let net := transport_net gob net_cap exotic scheme machine in
  world_ok gob w -> NewSocket (NT := net) id addrs w = Ret s0 ->
  calls (NT := net) rnd rndf cs s0 = Ret (tt, s) ->
  forall to t m, to <> id -> (to, t, m) ∈ s_sent s ->
    exists u, (snd <$> received fst (s_world s) t u) `prefix_of`
                omap (wire gob (kindof (s_world s) t)) (sent_to to s) /\
      forall u', u' <> u -> received fst (s_world s) t u' = [].
Proof.
  intros Hcap net Hw Hnew Hrun to t m Hne Hin.
  pose proof (transport_net_laws gob net_cap Hcap exotic scheme machine) as Hlaws. fold net in Hlaws.
  assert (socket_ok s0) as Hs0 by (by eapply (NewSocket_ok (NT := net))).
  destruct (calls_keeps rnd rndf cs s0 tt s Hrun Hs0) as (Hs & Eid & Eaddr & _).
  assert (s_id s0 = id) as E1.
  { unfold NewSocket in Hnew. destruct (net_new _ w) as [[t0 w0]| | |]; try done. cbn [obind] in Hnew.
    destruct (net_listen t0 w0); try done. cbn [obind] in Hnew. by injection Hnew as <-. }
  pose proof (so_sent s Hs to t m Hin) as Ht.
  destruct (so_peer s Hs to t Ht) as [_ Hp]. destruct Hp as (a & _ & _ & Hd); [by rewrite Eid, E1|].
  pose proof (so_hist s Hs to t Ht) as Hhist. destruct (so_net s Hs) as [Hgood Hlinked].
  destruct (linked_fifo (tagged_gob gob) fst t (s_world s) Hgood (Hlinked t)) as (u & Hpre & Hother).
  { intros g1 g2 c1 c2 p1 p2 H1 H2. destruct (decide (g1 = g2)) as [|Hg]; [done|]. exfalso.
    pose proof (msum_two (dial_of t) _ _ _ _ _ H1 H2 Hg) as Hsum. simpl in Hsum. rewrite decide_True in Hsum by done.
    cbn [net_dials net transport_net] in Hd. unfold dials_of in Hd. lia. }
  exists u. split; [|done]. cbn [net_sent net transport_net] in Hhist. rewrite <- Hhist.
  destruct Hpre as [rest Hpre]. exists (snd <$> rest). rewrite <- fmap_app, <- Hpre.
  unfold sent, wired. generalize (ch_in (sendq (s_world s) t)) as l. intros l.
  induction l as [|[k x] l IH]; [done|]. cbn -[wire]. rewrite IH.
  destruct (kindof (s_world s) t); cbn; [done | |]; unfold tagged_gob; simpl; by destruct (gob x).
Qed.

(** [Broadcast] without active faults hands the message over to every
    configured node but the sender, once each. *)
Theorem Broadcast_reaches {W A} {NT : Net W A} rndf (m : A) (s s' : socket (W := W)) u :
  faultless s -> Broadcast rndf m s = Ret (u, s') ->
  exists ids, outgoing s' = outgoing s ++ ((fun id => (id, m)) <$> ids) /\ NoDup ids /\
    forall id, id ∈ ids <-> is_Some (s_addresses s !! id) /\ id <> s_id s.
Proof.
  intros Hf Hrun. unfold Broadcast in Hrun. go_inv.
  assert (forall id, id ∈ (map_to_list (s_addresses s)).*1 <-> is_Some (s_addresses s !! id)) as Hkeys.
  { intros id. rewrite list_elem_of_fmap. split.
    - intros ([k v] & -> & Hin%elem_of_map_to_list). by eexists.
    - intros [v Hv]. exists (id, v). split; [done|]. by apply elem_of_map_to_list. }
  apply broadcast_sent in Hrun as [_ Ho]; [|done | intros id Hid; by apply Hkeys].
  eexists. split; [exact Ho|]. split.
  - apply NoDup_filter, NoDup_fst_map_to_list.
  - intros id. rewrite list_elem_of_filter, Hkeys. tauto.
Qed.

(** [MulticastQuorum] without active faults, in a system whose nodes are
    [1 .. n]: the message goes to at most [quorum] nodes, no node twice -- a number
    drawn again is not replaced, so it may be fewer -- and the sender itself may be
    among them. *)
Theorem MulticastQuorum_bound {W A} {NT : Net W A} rnd rndf quorum (m : A) (s s' : socket (W := W)) u :
  (forall k n, 0 < n -> 0 <= rnd k n < n) -> faultless s ->
  (forall r, 1 <= r <= Z.of_nat (size (s_addresses s)) -> is_Some (s_addresses s !! NewNodeID r)) ->
  Z.of_nat (size (s_addresses s)) < two63 - 1 ->
  MulticastQuorum rnd rndf quorum m s = Ret (u, s') ->
  exists rs, outgoing s' = outgoing s ++ ((fun r => (NewNodeID r, m)) <$> rs) /\ NoDup rs /\
    Z.of_nat (length rs) <= Z.max 0 quorum /\ Forall (fun r => 1 <= r <= Z.of_nat (size (s_addresses s))) rs.
Proof.
  intros Hr Hf Ha Hn Hrun. unfold MulticastQuorum in Hrun.
  apply (multicast_sent rnd rndf Hr) in Hrun as (rs & Hl & Hnd & Hrs & _ & Ho); [|done..].
  exists rs. split_and!; [done | done | lia |]. apply Forall_forall. intros r Hx. by apply Hrs.
Qed.

(** A peer that cannot be reached stops the whole process: when every attempt
    to dial fails, a send to it panics. *)
Theorem unreachable_peer_panics {W A} {NT : Net W A} rndf to (m : A) (s : socket (W := W)) a t w :
  faultless s -> s_nodes s !! to = None -> s_addresses s !! to = Some a ->
  net_new a (s_world s) = Ret (t, w) ->
  (forall k, (k < 100)%nat -> fails_at (dial_attempt t) k w) ->
  Send rndf to m s = Panic.
Proof.
  intros [Hc Hd Hfk _] Hn Ha Hnew Hfail.
  assert (flaky_drops rndf to s = Ret (false, s)) as Hfl.
  { unfold flaky_drops. destruct (s_flaky s !! to) as [p|] eqn:Ep; [|done]. by rewrite (Hfk to p Ep). }
  unfold Send. rewrite (bind_unfold _ _ s s s) by done. rewrite Hc, Hd, (bind_unfold _ _ s false s) by done.
  unfold gbind, transport_for. rewrite Hn, Ha, Hnew. cbn [obind].
  destruct (Retry_fails (dial_attempt t) 100 (milliseconds 50) w) as (e & slept & w' & ->);
    [unfold is_i64, two63; lia | unfold two63; lia | intros k Hk; apply Hfail; lia | done].
Qed.

(** ** Concrete sockets

    Node 2 listens on its machine; node 1 opens its socket, sends to node 2 twice,
    the goroutines carry both messages over and node 2 takes them, then node 1
    broadcasts. *)
Module Demo.
Definition no_exotic : string -> option URL := fun _ => None.
Definition net1 : Net (World (A := nat * nat)) nat := transport_net Some 64 no_exotic "tcp" "10.0.0.1".
#[local] Existing Instance net1.
Definition addr2 : string := "tcp://10.0.0.2:3736".
Definition addresses : gmap NodeID string :=
  <["1"%string := "tcp://10.0.0.1:3735"%string]> (<["2"%string := addr2]> ∅).
Definition peer : transport (A := nat * nat) :=
  mkTransport KTcp (mkURL "tcp" "10.0.0.2:3736") (make_chan 10240) (make_chan 10240) false.
Definition setup : list (Label (A := nat * nat)) := [LNew peer; LListen "10.0.0.2" 0].
Definition w0 : World (A := nat * nat) := default empty_world (run (tagged_gob Some) 64 setup empty_world).
Definition rnd : nat -> Z -> Z := fun k n => Z.of_nat k mod n.
Definition rndf : nat -> spec_float := fun _ => S754_zero false.
Definition fresh_socket : socket (W := World (A := nat * nat)) (A := nat) :=
  mkSocket ""%string ∅ ∅ false ∅ ∅ ∅ empty_world 0 [] 0 [].
Definition result {X} (d : X) (o : outcome X) : X := match o with Ret x => x | _ => d end.
Definition s1 := result fresh_socket (NewSocket "1"%string addresses w0).
Definition carry : list (Call (A := nat)) :=
  COther <$> [XGo 4 false; XGo 4 false; XGo 3 false; XGo 3 false; XGo 3 false; XRecv 0]%nat.
Definition script : list (Call (A := nat)) :=
  [CSend "2"%string 7%nat; CSend "2"%string 8%nat] ++ carry ++ carry ++ [CBroadcast 9%nat; CElapse 1].
Definition s2 := (result (tt, fresh_socket) (calls rnd rndf script s1)).2.

Lemma w0_ok : world_ok Some w0.
Proof.
  apply (run_inv (tagged_gob Some) 64 fst ltac:(lia) (tagged_gob_origin Some) setup
           ltac:(repeat constructor) empty_world); [vm_compute; reflexivity|].
  split; [apply empty_good | apply empty_linked].
Qed.
Lemma s1_new : NewSocket "1"%string addresses w0 = Ret s1.
Proof. vm_compute. reflexivity. Qed.
Lemma s2_run : calls rnd rndf script s1 = Ret (tt, s2).
Proof. vm_compute. reflexivity. Qed.

(** The three messages leave in order over one transport, and node 2 has taken the
    first two. *)
Example s2_sent : outgoing s2 = [("2"%string, 7%nat); ("2"%string, 8%nat); ("2"%string, 9%nat)] /\
  dials_of (s_world s2) 2 = 1%nat /\ received fst (s_world s2) 2 0 = [(2, 7); (2, 8)]%nat.
Proof. split_and!; vm_compute; reflexivity. Qed.

Lemma rnd_ok k n : 0 < n -> 0 <= rnd k n < n.
Proof. intros Hn. apply Z.mod_pos_bound. lia. Qed.
Lemma s1_faultless : faultless s1.
Proof. apply (NewSocket_faultless "1"%string addresses w0). apply s1_new. Qed.

(** Nobody listens at node 2's address. *)
Definition s_lonely := result fresh_socket (NewSocket "1"%string addresses (empty_world (A := nat * nat))).
Lemma lonely_faultless : faultless s_lonely.
Proof. apply (NewSocket_faultless "1"%string addresses empty_world). vm_compute. reflexivity. Qed.
Definition lonely_world : World (A := nat * nat) := (result (0%nat, empty_world) (net_new addr2 (s_world s_lonely))).2.
Lemma lonely_dial : dial_attempt 1 lonely_world = (Some "connection refused"%string, lonely_world).
Proof. vm_compute. reflexivity. Qed.
Lemma lonely_fails k : fails_at (dial_attempt 1) k lonely_world.
Proof.
  unfold fails_at. assert (after_calls (dial_attempt 1) k lonely_world = lonely_world) as ->; [|by rewrite lonely_dial].
  induction k as [|k IH]; [done|]. cbn [after_calls]. rewrite lonely_dial. exact IH.
Qed.
End Demo.

Lemma socket_links_witness :
  (exists a, Demo.addresses !! "2"%string = Some a /\ net_addr (Net := Demo.net1) (s_world Demo.s2) 2 = net_uri (Net := Demo.net1) a) /\
  (net_dials (Net := Demo.net1) (s_world Demo.s2) 2 <= 1)%nat /\
  net_sent (Net := Demo.net1) (s_world Demo.s2) 2 = sent_to "2"%string Demo.s2 /\
  (forall to' t' m', (to', t', m') ∈ s_sent Demo.s2 -> (to' = "2"%string <-> t' = 2%nat)).
Proof.
  refine (socket_links (NT := Demo.net1) (NetLaws0 := transport_net_laws Some 64 ltac:(lia) _ _ _)
           Demo.rnd Demo.rndf "1"%string Demo.addresses Demo.w0 Demo.s1
           Demo.script Demo.s2 Demo.w0_ok Demo.s1_new Demo.s2_run "2"%string 2%nat 7%nat _ _); [done|].
  vm_compute. left.
Defined.

Lemma socket_fifo_witness :
  received fst (s_world Demo.s2) 2 0 = [(2, 7); (2, 8)]%nat /\ sent_to "2"%string Demo.s2 = [7; 8; 9]%nat /\
  exists u, (snd <$> received fst (s_world Demo.s2) 2 u) `prefix_of`
              omap (wire Some (kindof (s_world Demo.s2) 2)) (sent_to "2"%string Demo.s2) /\
    forall u', u' <> u -> received fst (s_world Demo.s2) 2 u' = [].
Proof.
  split_and!; [vm_compute; reflexivity | vm_compute; reflexivity |].
  refine (socket_fifo Some 64 Demo.no_exotic "tcp" "10.0.0.1" Demo.rnd Demo.rndf "1"%string Demo.addresses Demo.w0 Demo.s1
           Demo.script Demo.s2 _ Demo.w0_ok Demo.s1_new Demo.s2_run "2"%string 2%nat 7%nat _ _); [lia | done |].
  vm_compute. left.
Defined.

Lemma Broadcast_reaches_witness :
  exists (s' : socket (W := World (A := nat * nat))) ids, outgoing s' = outgoing Demo.s1 ++ ((fun id => (id, 5%nat)) <$> ids) /\ NoDup ids /\
    forall id, id ∈ ids <-> is_Some (s_addresses Demo.s1 !! id) /\ id <> s_id Demo.s1.
Proof.
  exists (Demo.result (tt, Demo.fresh_socket) (Broadcast (NT := Demo.net1) Demo.rndf 5%nat Demo.s1)).2.
  apply (Broadcast_reaches (NT := Demo.net1) Demo.rndf 5%nat Demo.s1 _ tt Demo.s1_faultless). vm_compute. reflexivity.
Defined.

Lemma MulticastQuorum_bound_witness :
  exists (s' : socket (W := World (A := nat * nat))) rs, outgoing s' = outgoing Demo.s1 ++ ((fun r => (NewNodeID r, 5%nat)) <$> rs) /\ NoDup rs /\
    Z.of_nat (length rs) <= Z.max 0 2 /\ Forall (fun r => 1 <= r <= Z.of_nat (size (s_addresses Demo.s1))) rs.
Proof.
  exists (Demo.result (tt, Demo.fresh_socket) (MulticastQuorum (NT := Demo.net1) Demo.rnd Demo.rndf 2 5%nat Demo.s1)).2.
  apply (MulticastQuorum_bound (NT := Demo.net1) Demo.rnd Demo.rndf 2 5%nat Demo.s1 _ tt Demo.rnd_ok Demo.s1_faultless).
  - intros r Hr. assert (size (s_addresses Demo.s1) = 2%nat) as E by (vm_compute; reflexivity). rewrite E in Hr.
    assert (r = 1 \/ r = 2) as [-> | ->] by lia; vm_compute; by eexists.
  - vm_compute. reflexivity.
  - vm_compute. reflexivity.
Defined.

Lemma unreachable_peer_panics_witness : Send (NT := Demo.net1) Demo.rndf "2"%string 5%nat Demo.s_lonely = Panic.
Proof.
  apply (unreachable_peer_panics (NT := Demo.net1) Demo.rndf "2"%string 5%nat Demo.s_lonely Demo.addr2 1%nat
           Demo.lonely_world Demo.lonely_faultless);
    [vm_compute; reflexivity | vm_compute; reflexivity | vm_compute; reflexivity | intros k _; apply Demo.lonely_fails].
Defined.

(** ** Faults and their timers *)

(** A fault set twice ends with the first timer: node 2 is dropped for ten
    seconds at time 0 and again at time 5, and from time 10 on messages pass. *)
Example overlapping_drops :
  let run cs := calls (NT := Demo.net1) Demo.rnd Demo.rndf cs Demo.s1 in
  let sec := 1000000000 in
  let dropped := [CDrop "2"%string 10; CElapse (5 * sec); CDrop "2"%string 10; CElapse (5 * sec); CFire 0] in
  outgoing (Demo.result (tt, Demo.fresh_socket) (run (dropped ++ [CSend "2"%string 3%nat]))).2 =
    [("2"%string, 3%nat)] /\
  s_now (Demo.result (tt, Demo.fresh_socket) (run dropped)).2 = 10 * sec.
Proof. split; vm_compute; reflexivity. Qed.

(** ** Two first sends at once

    [Send] looks the peer up, dials and stores the transport under three separate
    locks. *)
Definition dial_peer {W A} {NT : Net W A} (address : string) : M (socket (W := W) (A := A)) nat := fun s =>
  '(t, w) ←? net_new address (s_world s);
  '(err, slept, w) ←? Retry (dial_attempt t) 100 (milliseconds 50) w;
  match err with
  | Some _ => Panic
  | None => Ret (t, set_clock (s_now s + foldr Z.add 0 slept) (s_timers s) (set_world w s))
  end.
Lemma transport_for_dials {W A} {NT : Net W A} to address (s : socket (W := W)) :
  s_nodes s !! to = None -> s_addresses s !! to = Some address ->
  transport_for to s = (t ← dial_peer address; modify (set_node to t);; ret (Some t)) s.
Proof.
  intros Hn Ha. unfold transport_for, dial_peer, gbind, modify, ret. rewrite Hn, Ha.
  destruct (net_new address (s_world s)) as [[t w]| | |]; try done. cbn [obind].
  destruct (Retry (dial_attempt t) 100 (milliseconds 50) w) as [[[[e|] slept] w']| | |]; done.
Qed.

(** Both goroutines found no transport: each makes and dials its own, and the table
    keeps the one stored last, so the messages of the other take a second
    connection and the order between them is lost. *)
Example first_sends_race :
  let race := t1 ← dial_peer (NT := Demo.net1) Demo.addr2; t2 ← dial_peer (NT := Demo.net1) Demo.addr2;
              modify (set_node "2"%string t1);; modify (set_node "2"%string t2);;
              hand_over (NT := Demo.net1) "2"%string t1 7%nat;; hand_over (NT := Demo.net1) "2"%string t2 8%nat;;
              ret (t1, t2) in
  match race Demo.s1 with
  | Ret ((t1, t2), s) =>
      t1 <> t2 /\ (dials_of (s_world s) t1, dials_of (s_world s) t2) = (1, 1)%nat /\
      s_nodes s !! "2"%string = Some t2 /\
      (snd <$> ch_in (sendq (s_world s) t1), snd <$> ch_in (sendq (s_world s) t2)) = ([7], [8])%nat
  | _ => False
  end.
Proof. vm_compute. split_and!; done. Qed.
