(* ===== verification/Mempool.v ===== *)
(** * The memory pool (mempool/)

    The transaction queue ([Backend]), its Bloom filter and the [MemPool] and
    [Producer] wrappers.  The bit set comes from github.com/willf/bitset, which
    is not part of the repository: it is the class [BitSet] with the laws of
    its documentation.  The queue is a container/list, modelled as a list.
    The clock reading of [addNew] is an argument. *)

From Stdlib Require Import String Ascii.
From stdpp Require Import base gmap strings numbers list.
From S2P Require Import Prelude.
From S2P Require Import Identity.
From S2P Require Import Config.
From S2P Require Import Db.
From S2P Require Import Message.

Local Open Scope Z_scope.
Local Open Scope go_scope.

(** ** The interface of the bit set *)

Class BitSet := {
  bits : Type;
  bits_New : Z -> bits;
  bits_Set : Z -> bits -> bits;
  bits_Test : Z -> bits -> bool }.

Class BitSetLaws (B : BitSet) : Prop := {
  test_new len i : bits_Test i (bits_New len) = false;
  test_set i j b : bits_Test i (bits_Set j b) = bool_decide (i = j) || bits_Test i b }.

(** ** bloom.go *)

Definition DEFAULT_SIZE : Z := Z.shiftl 2 24.
Definition seeds : list Z := [7; 11; 13; 31; 37; 61].

Record SimpleHash := mkHash { Cap : Z; Seed : Z }.

Fixpoint hash_loop (seed result : Z) (value : string) : Z :=
  match value with
  | EmptyString => result
  | String c rest => hash_loop seed (u64 (result * seed + Z.of_N (N_of_ascii c))) rest
  end.
Definition hash (s : SimpleHash) (value : string) : Z :=
  Z.land (u64 (Cap s - 1)) (hash_loop (Seed s) 0 value).

Section bloom.
Context {B : BitSet}.

Record BloomFilter := mkBloom { bf_Set : bits; bf_Funcs : list SimpleHash }.

Definition NewBloomFilter : BloomFilter :=
  mkBloom (bits_New DEFAULT_SIZE) (mkHash DEFAULT_SIZE <$> seeds).

(** [Add] sets one bit per hash function; [bf.Set] is a pointer, so the value
    receiver does not matter. *)
Definition Add (value : string) (bf : BloomFilter) : BloomFilter :=
  mkBloom (foldl (fun b f => bits_Set (hash f value) b) (bf_Set bf) (bf_Funcs bf)) (bf_Funcs bf).

Definition Contains (bf : BloomFilter) (value : string) : bool :=
  if decide (value = ""%string) then false
  else foldl (fun r f => r && bits_Test (hash f value) (bf_Set bf)) true (bf_Funcs bf).

(** ** backend.go *)

Record Backend := mkBackend {
  txns : list Transaction;
  limit : Z;
  totalReceived : Z;
  bloom : BloomFilter }.

Definition NewBackend (lim : Z) : Backend := mkBackend [] lim 0 NewBloomFilter.

Definition with_txns (q : list Transaction) (b : Backend) : Backend :=
  mkBackend q (limit b) (totalReceived b) (bloom b).

Definition backend_size (b : Backend) : Z := Z.of_nat (length (txns b)).

Definition insertBack (txn : option Transaction) : M Backend unit :=
  match txn with
  | None => skip
  | Some txn =>
      b ← gets id;
      if limit b <? backend_size b then skip
      else modify (fun b => mkBackend (txns b ++ [txn]) (limit b) (i64 (totalReceived b + 1)) (bloom b))
  end.

Definition insertFront (txn : option Transaction) : M Backend unit :=
  match txn with
  | None => skip
  | Some txn => modify (fun b => with_txns (txn :: txns b) b)
  end.

Definition front : M Backend (option Transaction) :=
  b ← gets id;
  match txns b with
  | [] => ret None
  | val :: rest => modify (with_txns rest);; ret (Some val)
  end.

Fixpoint some_loop (k : nat) : M Backend (list (option Transaction)) :=
  match k with
  | O => ret []
  | S k' => tx ← front; rest ← some_loop k'; ret (tx :: rest)
  end.

(** [some]: the batch is pre-allocated with capacity [batchSize], which panics
    when [n] is negative. *)
Definition some (n : Z) : M Backend (list (option Transaction)) :=
  batchSize ← gets backend_size;
  let batchSize := if n <=? batchSize then n else batchSize in
  if batchSize <? 0 then panic else some_loop (Z.to_nat batchSize).

Definition addToBloom (id : string) : M Backend unit :=
  modify (fun b => mkBackend (txns b) (limit b) (totalReceived b) (Add id (bloom b))).

(** ** mempool.go and producer.go *)

Definition NewMemPool (c : Config) : Backend := NewBackend (MemSize c).

Definition addNew (now : Z) (tx : Transaction) : M Backend unit :=
  let tx := set_Timestamp now tx in
  insertBack (Some tx);; addToBloom (t_ID tx).
Definition addOld (tx : option Transaction) : M Backend unit := insertFront tx.

Definition NewProducer (c : Config) : Backend := NewMemPool c.
Definition GeneratePayload (c : Config) : M Backend (list (option Transaction)) := some (BSize c).
Definition AddTxn (now : Z) (txn : Transaction) : M Backend unit := addNew now txn.
Definition CollectTxn (txn : Transaction) : M Backend unit := addOld (Some txn).
Definition TotalReceivedTxNo : M Backend Z := gets totalReceived.

(** ** Properties of the queue *)

Lemma some_loop_run k b :
  (k <= length (txns b))%nat ->
  some_loop k b = Ret (Some <$> take k (txns b), with_txns (drop k (txns b)) b).
Proof.
  revert b. induction k as [|k IH]; intros [q l t bl] Hk; simpl in *; [done|].
  destruct q as [|x q]; simpl in Hk; [lia|]. cbv [gbind gets front modify ret]. simpl.
  rewrite IH by (simpl; lia). done.
Qed.

(** Generating a payload takes the oldest [min BSize size] transactions
    in arrival order, all of them present, and leaves the rest in order; a
    negative batch size panics. *)
Theorem GeneratePayload_spec (c : Config) (b : Backend) :
  GeneratePayload c b =
    if BSize c <? 0 then Panic
    else Ret (Some <$> take (Z.to_nat (BSize c)) (txns b),
              with_txns (drop (Z.to_nat (BSize c)) (txns b)) b).
Proof.
  unfold GeneratePayload, some, backend_size. cbv [gbind gets].
  destruct (Z.ltb_spec (BSize c) 0) as [Hneg|Hpos].
  - destruct (Z.leb_spec (BSize c) (Z.of_nat (length (txns b)))); [|lia].
    by destruct (Z.ltb_spec (BSize c) 0); [|lia].
  - destruct (Z.leb_spec (BSize c) (Z.of_nat (length (txns b)))).
    + destruct (Z.ltb_spec (BSize c) 0); [lia|]. rewrite some_loop_run by lia. done.
    + destruct (Z.ltb_spec (Z.of_nat (length (txns b))) 0); [lia|].
      rewrite some_loop_run by lia. rewrite Nat2Z.id.
      by rewrite !take_ge, !drop_ge by lia.
Qed.

Fixpoint add_all (now : Z) (l : list Transaction) : M Backend unit :=
  match l with [] => skip | tx :: rest => addNew now tx;; add_all now rest end.

Lemma addNew_run now tx b :
  addNew now tx b =
  Ret (tt, mkBackend
    (if limit b <? backend_size b then txns b else txns b ++ [set_Timestamp now tx]) (limit b)
    (if limit b <? backend_size b then totalReceived b else i64 (totalReceived b + 1))
    (Add (t_ID tx) (bloom b))).
Proof.
  unfold addNew, insertBack, addToBloom. cbv [gbind gets modify skip id].
  by destruct (limit b <? backend_size b).
Qed.

(** The pool's capacity: adding any transactions to a pool that respects
    it keeps the first [limit + 1] in order and drops the rest; the length
    check runs before the insertion, so the bound is one above [MemSize]. *)
Theorem add_all_capacity now l b :
  0 <= limit b -> backend_size b <= limit b + 1 ->
  exists b', add_all now l b = Ret (tt, b') /\
    txns b' = take (Z.to_nat (limit b + 1)) (txns b ++ (set_Timestamp now <$> l)) /\
    limit b' = limit b /\
    backend_size b' = Z.min (limit b + 1) (backend_size b + Z.of_nat (length l)).
Proof.
  unfold backend_size. revert b. induction l as [|tx l IH]; intros b Hl Hb; simpl.
  - exists b. rewrite app_nil_r, take_ge by lia. repeat split; lia.
  - cbv [gbind]. rewrite addNew_run. unfold backend_size.
    destruct (Z.ltb_spec (limit b) (Z.of_nat (length (txns b)))) as [Hfull|Hroom].
    + destruct (IH (mkBackend (txns b) (limit b) (totalReceived b) (Add (t_ID tx) (bloom b))))
        as (b' & -> & Ht & Hlim & Hsz); [done|done|]. simpl in *.
      exists b'. split; [done|]. split; [|split; [done|lia]].
      by rewrite Ht, !take_app_le by lia.
    + destruct (IH (mkBackend (txns b ++ [set_Timestamp now tx]) (limit b)
        (i64 (totalReceived b + 1)) (Add (t_ID tx) (bloom b)))) as (b' & -> & Ht & Hlim & Hsz);
        [done | simpl; rewrite length_app; simpl; lia |]. simpl in *.
      exists b'. split; [done|]. rewrite length_app in Hsz. simpl in Hsz.
      split; [by rewrite Ht, <- app_assoc | split; [done | lia]].
Qed.

(** Returning the transactions of a forked block one by one puts them back in
    front of the queue, in reverse order. *)
Fixpoint collect_all (l : list Transaction) : M Backend unit :=
  match l with [] => skip | tx :: rest => CollectTxn tx;; collect_all rest end.

Lemma collect_all_run l b : collect_all l b = Ret (tt, with_txns (reverse l ++ txns b) b).
Proof.
  revert b. induction l as [|tx l IH]; intros [q lm t bl]; [done|]. simpl.
  cbv [gbind CollectTxn addOld insertFront modify with_txns]. simpl. rewrite IH.
  unfold with_txns. simpl. by rewrite reverse_cons, <- app_assoc.
Qed.

(** ** Properties of the Bloom filter *)

Context {BL : BitSetLaws B}.

Lemma foldl_set_mono i fs value (b : bits) :
  bits_Test i b = true -> bits_Test i (foldl (fun b f => bits_Set (hash f value) b) b fs) = true.
Proof.
  revert b. induction fs as [|f fs IH]; intros b Hb; simpl; [done|].
  apply IH. by rewrite test_set, Hb, orb_true_r.
Qed.

Lemma foldl_set_hit f fs value (b : bits) :
  f ∈ fs -> bits_Test (hash f value) (foldl (fun b f => bits_Set (hash f value) b) b fs) = true.
Proof.
  revert b. induction fs as [|g fs IH]; intros b Hf; [by apply not_elem_of_nil in Hf|]. simpl.
  apply elem_of_cons in Hf as [->|Hf]; [|by apply IH].
  apply foldl_set_mono. by rewrite test_set, bool_decide_eq_true_2.
Qed.

Lemma Contains_true bf value :
  Contains bf value = true <->
  value <> ""%string /\ forall f, f ∈ bf_Funcs bf -> bits_Test (hash f value) (bf_Set bf) = true.
Proof.
  unfold Contains. case_decide as E; [split; [done | by intros [? _]]|].
  assert (forall fs r, foldl (fun r f => r && bits_Test (hash f value) (bf_Set bf)) r fs = true <->
    r = true /\ forall f, f ∈ fs -> bits_Test (hash f value) (bf_Set bf) = true) as Hgen.
  { induction fs as [|f fs IH]; intros r; simpl.
    - split; [intros ->; split; [done | intros f Hf; by apply not_elem_of_nil in Hf] | by intros [? _]].
    - rewrite IH, andb_true_iff. setoid_rewrite elem_of_cons. naive_solver. }
  rewrite Hgen. naive_solver.
Qed.

Lemma Add_mono bf value value' : Contains bf value = true -> Contains (Add value' bf) value = true.
Proof.
  rewrite !Contains_true. intros [? H]. split; [done|]. intros f Hf. by apply foldl_set_mono, H.
Qed.

Lemma Add_hit bf value : value <> ""%string -> Contains (Add value bf) value = true.
Proof. intros Hv. apply Contains_true. split; [done|]. intros f Hf. by apply foldl_set_hit. Qed.

Lemma add_all_bloom now l b b' id :
  add_all now l b = Ret (tt, b') ->
  id <> ""%string -> Contains (bloom b) id = true \/ id ∈ (t_ID <$> l) -> Contains (bloom b') id = true.
Proof.
  revert b. induction l as [|tx l IH]; intros b H Hid Hor; simpl in H.
  - go_inv. destruct Hor as [?|?%not_elem_of_nil]; done.
  - apply bind_ret in H as (u & b1 & H1 & H). rewrite addNew_run in H1. ret_inv H1.
    eapply IH; [done|done|]. simpl. rewrite fmap_cons, elem_of_cons in Hor.
    destruct Hor as [?|[->|?]]; [left; by apply Add_mono | left; by apply Add_hit | by right].
Qed.

(** The Bloom filter has no false negatives: the id of every transaction
    ever offered to the pool (accepted or dropped by the capacity check) tests
    positive, except the empty id, which never does. *)
Theorem bloom_no_false_negative now l c b' :
  add_all now l (NewMemPool c) = Ret (tt, b') ->
  (forall tx, tx ∈ l -> Contains (bloom b') (t_ID tx) = bool_decide (t_ID tx <> ""%string)).
Proof.
  intros H tx Htx. case_bool_decide as E.
  - eapply add_all_bloom; [done|done|]. right. by apply list_elem_of_fmap_2.
  - unfold Contains. case_decide; [done|]. by destruct E.
Qed.
End bloom.

(** The hash of any value indexes inside the bit set. *)
Lemma hash_range seed value : 0 <= hash (mkHash DEFAULT_SIZE seed) value < DEFAULT_SIZE.
Proof.
  unfold hash. change (u64 (Cap (mkHash DEFAULT_SIZE seed) - 1)) with (Z.ones 25).
  rewrite Z.land_comm, Z.land_ones by lia. apply Z.mod_pos_bound. by vm_compute.
Qed.

(** A bit set as a finite set of indices. *)
Definition gset_bits : BitSet := {|
  bits := gset Z; bits_New _ := ∅; bits_Set i b := {[i]} ∪ b; bits_Test i b := bool_decide (i ∈ b) |}.

Lemma gset_bits_laws : BitSetLaws gset_bits.
Proof.
  split; [done|]. intros i j b. simpl. apply Bool.eq_true_iff_eq.
  rewrite orb_true_iff, !bool_decide_eq_true. set_solver.
Qed.

Definition toy_txn (id : string) : Transaction := mkTxn (mkCommand 0 None ""%string 0) ∅ 0 "1"%string id.

Lemma add_all_capacity_witness :
  let b := NewBackend (B := gset_bits) 1 in
  exists b', add_all 5 (toy_txn <$> ["a"; "b"; "c"]%string) b = Ret (tt, b') /\
    backend_size b' = 2.
Proof.
  intros b.
  destruct (add_all_capacity 5 (toy_txn <$> ["a"; "b"; "c"]%string) b) as (b' & H & _ & _ & Hs);
    [simpl; lia | unfold backend_size; simpl; lia |].
  exists b'. split; [exact H | exact Hs].
Defined.

Lemma bloom_no_false_negative_witness :
  exists b', add_all (B := gset_bits) 5 [toy_txn "a"] (NewMemPool MakeDefaultConfig) = Ret (tt, b') /\
    Contains (bloom b') "a" = true.
Proof.
  eexists. split; [reflexivity|].
  refine (bloom_no_false_negative (BL := gset_bits_laws) 5 [toy_txn "a"] MakeDefaultConfig _ _ (toy_txn "a") _).
  - reflexivity.
  - apply elem_of_cons. left. reflexivity.
Defined.
