(* ===== verification/Block.v ===== *)
(** * Blocks, votes and quorum certificates (blockchain/block.go, quorum.go)

    The structs and their constructors.  Pointers to blocks and certificates
    are modelled by value ([*QC] that may be nil as [option QC]); the two places
    where the program writes through such a pointer after the object is shared
    ([CommitFromThis], and the view of a certificate in tchs) are modelled at
    the writing site.  Times are in nanoseconds. *)

From Stdlib Require Import String.
From stdpp Require Import base gmap strings numbers list.
From S2P Require Import Prelude.
From S2P Require Import Identity.
From S2P Require Import Config.
From S2P Require Import Crypto.
From S2P Require Import Db.
From S2P Require Import Message.

Local Open Scope Z_scope.
Local Open Scope go_scope.

Record Vote := mkVote {
  v_View : Z;
  v_Voter : NodeID;
  v_BlockID : Identifier;
  v_Signature : Signature }.

Record QC := mkQC {
  qc_Leader : NodeID;
  qc_View : Z;
  qc_BlockID : Identifier;
  qc_Signers : list NodeID;
  qc_AggSig : AggSig;
  qc_Signature : Signature }.

Record Block := mkBlock {
  b_View : Z;
  b_QC : option QC;
  b_Proposer : NodeID;
  b_Timestamp : Z;
  b_Payload : list Transaction;
  b_PrevID : Identifier;
  b_Sig : Signature;
  b_ID : Identifier;
  b_Ts : Z;
  b_Mali : bool;
  b_forkNum : Z;
  b_height : Z;
  b_CommitFromThis : bool }.

Record rawBlock := mkRaw {
  raw_View : Z;
  raw_QC : option QC;
  raw_Proposer : NodeID;
  raw_Payload : list string;
  raw_PrevID : Identifier;
  raw_Sig : Signature;
  raw_ID : Identifier }.

#[global] Instance Vote_eq_dec : EqDecision Vote.
Proof. solve_decision. Defined.
#[global] Instance QC_eq_dec : EqDecision QC.
Proof. solve_decision. Defined.
#[global] Instance Block_eq_dec : EqDecision Block.
Proof. solve_decision. Defined.

(** [&blockchain.QC{View: 0}]. *)
Definition genesisQC : QC := mkQC ""%string 0 zeroID [] [] [].

Definition SetMali (mali : bool) (b : Block) : Block :=
  mkBlock (b_View b) (b_QC b) (b_Proposer b) (b_Timestamp b) (b_Payload b) (b_PrevID b) (b_Sig b)
          (b_ID b) (b_Ts b) mali (b_forkNum b) (b_height b) (b_CommitFromThis b).
Definition GetMali (b : Block) : bool := b_Mali b.
Definition SetForkNum (k : Z) (b : Block) : Block :=
  mkBlock (b_View b) (b_QC b) (b_Proposer b) (b_Timestamp b) (b_Payload b) (b_PrevID b) (b_Sig b)
          (b_ID b) (b_Ts b) (b_Mali b) k (b_height b) (b_CommitFromThis b).
Definition GetForkNum (b : Block) : Z := b_forkNum b.
Definition SetHeight (h : Z) (b : Block) : Block :=
  mkBlock (b_View b) (b_QC b) (b_Proposer b) (b_Timestamp b) (b_Payload b) (b_PrevID b) (b_Sig b)
          (b_ID b) (b_Ts b) (b_Mali b) (b_forkNum b) h (b_CommitFromThis b).
Definition GetHeight (b : Block) : Z := b_height b.

(** The write [block.CommitFromThis = true]. *)
Definition mark_commit (b : Block) : Block :=
  mkBlock (b_View b) (b_QC b) (b_Proposer b) (b_Timestamp b) (b_Payload b) (b_PrevID b) (b_Sig b)
          (b_ID b) (b_Ts b) (b_Mali b) (b_forkNum b) (b_height b) true.

(** What the constructors need of the crypto package: the digests, the curve,
    the key tables [SetKeys] filled and the JSON encoding of a raw block. *)
Class CryptoEnv := {
  ce_sha3 :: Sha3;
  ce_ecdsa :: Ecdsa;
  ce_keys : KeyTable;
  ce_encode : rawBlock -> bytes }.

Section constructors.
Context {CE : CryptoEnv}.

(** [Block.makeID]: the id is the hash of view, certificate, proposer, parent
    and the payload's transaction ids; a signing error leaves the signature
    nil. *)
Definition makeID (nodeID : NodeID) (b : Block) : outcome Block :=
  let raw := mkRaw (b_View b) (b_QC b) (b_Proposer b) (t_ID <$> b_Payload b) (b_PrevID b) [] zeroID in
  let id := MakeID ce_encode raw in
  s ←? PrivSign ce_keys (IDToByte id) nodeID None;
  let sig := match s with inl _ => [] | inr sig => sig end in
  Ret (mkBlock (b_View b) (b_QC b) (b_Proposer b) (b_Timestamp b) (b_Payload b) (b_PrevID b) sig
               id (b_Ts b) (b_Mali b) (b_forkNum b) (b_height b) (b_CommitFromThis b)).

Definition MakeBlock (view : Z) (qc : option QC) (prevID : Identifier) (payload : list Transaction)
    (proposer : NodeID) (mali : bool) (forkNum height : Z) : outcome Block :=
  makeID proposer
    (mkBlock view qc proposer 0 payload prevID [] zeroID 0 mali forkNum height false).

(** [MakeVote]: a signing error is fatal. *)
Definition MakeVote (view : Z) (voter : NodeID) (id : Identifier) : outcome Vote :=
  s ←? PrivSign ce_keys (IDToByte id) voter None;
  match s with
  | inl _ => Panic
  | inr sig => Ret (mkVote view voter id sig)
  end.

(** A freshly made vote carries a signature its voter's key verifies,
    provided the key tables came from [SetKeys]. *)
Lemma MakeVote_verifies (EL : EcdsaLaws ce_ecdsa) c err view voter id v :
  SetKeys c = Ret (err, ce_keys) ->
  MakeVote view voter id = Ret v ->
  v = mkVote view voter id (v_Signature v) /\
  PubVerify ce_keys (v_Signature v) (IDToByte (v_BlockID v)) (v_Voter v) = Ret (true, None).
Proof.
  intros Hk. unfold MakeVote.
  destruct (PrivSign ce_keys (IDToByte id) voter None) as [[e|sig]| | |] eqn:Hs; try done.
  intros [= <-]. split; [done|]. simpl.
  pose proof (SetKeys_match _ _ _ Hk) as Hm. by eapply sign_verify.
Qed.

(** The id of a block does not depend on the fields set after it is made. *)
Lemma MakeBlock_fields view qc prevID payload proposer mali forkNum height b :
  MakeBlock view qc prevID payload proposer mali forkNum height = Ret b ->
  b_View b = view /\ b_QC b = qc /\ b_PrevID b = prevID /\ b_Payload b = payload /\
  b_Proposer b = proposer /\ b_Mali b = mali /\ b_forkNum b = forkNum /\ b_height b = height /\
  b_CommitFromThis b = false /\
  b_ID b = MakeID ce_encode (mkRaw view qc proposer (t_ID <$> payload) prevID [] zeroID).
Proof.
  unfold MakeBlock, makeID. simpl.
  destruct (PrivSign _ _ _ _) as [s| | |]; try done. by intros [= <-].
Qed.
End constructors.

(** The toy crypto of the witnesses: a raw block is encoded by its view. *)
Definition toy_crypto : CryptoEnv := {|
  ce_sha3 := toy_sha3; ce_ecdsa := toy_ecdsa; ce_keys := toy_keys; ce_encode r := [raw_View r] |}.

Lemma MakeVote_verifies_example :
  PubVerify (E := toy_ecdsa) toy_keys ["1"; "6"]%string (IDToByte [1; 2; 3]) "2"%string = Ret (true, None).
Proof.
  refine (proj2 (MakeVote_verifies (CE := toy_crypto) toy_ecdsa_laws toy_config None 7 "2"%string
    [1; 2; 3] (mkVote 7 "2"%string [1; 2; 3] ["1"; "6"]%string) _ _)); reflexivity.
Defined.
