(* ===== verification/Quorum.v ===== *)
(** * Vote collection (blockchain/quorum.go)

    [Quorum] records one vote per voter and block and turns the vote that
    completes a super majority ([2*ByzNo + 1] votes) into a certificate.

    Results: the behaviour of [Add] on every branch, what a certificate
    contains, that at most one certificate is built per block, that a
    certificate built from verified votes verifies, and the intersection of two
    quorums, which needs [n <= 3*ByzNo + 1]. *)

From Stdlib Require Import String.
From stdpp Require Import base gmap strings numbers list fin_maps.
From S2P Require Import Prelude.
From S2P Require Import Identity.
From S2P Require Import Config.
From S2P Require Import Crypto.
From S2P Require Import Block.

Local Open Scope Z_scope.
Local Open Scope go_scope.

Record Quorum := mkQuorum {
  q_total : Z;
  q_votes : gmap Identifier (gmap NodeID Vote) }.

Definition NewQuorum (total : Z) : Quorum := mkQuorum total ∅.

(** The votes recorded for a block; a missing entry reads as an empty map. *)
Definition votes_for (q : Quorum) (id : Identifier) : gmap NodeID Vote := default ∅ (q_votes q !! id).

Definition quorum_size (q : Quorum) (id : Identifier) : Z := Z.of_nat (size (votes_for q id)).

Section quorum.
Variable cfg : Config.

Definition quorum_threshold : Z := i64 (i64 (ByzNo cfg * 2) + 1).
Definition superMajority (q : Quorum) (id : Identifier) : bool := quorum_threshold <=? quorum_size q id.

(** [getSigs]: signatures and signers in one iteration over the map. *)
Definition getSigs (q : Quorum) (id : Identifier) : error + (AggSig * list NodeID) :=
  match q_votes q !! id with
  | None => inl "sigs does not exist"%string
  | Some vs =>
      let l := map_to_list vs in
      inr ((fun kv => v_Signature kv.2) <$> l, (fun kv => v_Voter kv.2) <$> l)
  end.

Definition record_vote (vote : Vote) (q : Quorum) : Quorum :=
  mkQuorum (q_total q) (<[v_BlockID vote := <[v_Voter vote := vote]> (votes_for q (v_BlockID vote))]> (q_votes q)).

Definition quorum_Add (vote : Vote) : M Quorum (bool * option QC) :=
  q ← gets id;
  if superMajority q (v_BlockID vote) then ret (false, None)
  else
    modify (record_vote vote);;
    q ← gets id;
    if superMajority q (v_BlockID vote) then
      let '(sigs, signers) :=
        match getSigs q (v_BlockID vote) with inl _ => ([], []) | inr p => p end in
      ret (true, Some (mkQC ""%string (v_View vote) (v_BlockID vote) signers sigs []))
    else ret (false, None).

(** ** Well-formed vote tables: every vote is filed under its block and voter. *)
Definition quorum_wf (q : Quorum) : Prop :=
  forall id vs k v, q_votes q !! id = Some vs -> vs !! k = Some v -> v_BlockID v = id /\ v_Voter v = k.

Lemma votes_for_record vote q id :
  votes_for (record_vote vote q) id =
  if decide (v_BlockID vote = id) then <[v_Voter vote := vote]> (votes_for q id) else votes_for q id.
Proof.
  unfold votes_for, record_vote. simpl. case_decide as E.
  - subst id. by rewrite lookup_insert_eq.
  - by rewrite lookup_insert_ne.
Qed.

Lemma record_vote_wf vote q : quorum_wf q -> quorum_wf (record_vote vote q).
Proof.
  intros Hq id vs k v H1 H2. unfold record_vote in H1. simpl in H1.
  apply lookup_insert_Some in H1 as [[<- <-]|[_ H1]]; [|by eapply Hq].
  apply lookup_insert_Some in H2 as [[<- <-]|[_ H2]]; [done|].
  unfold votes_for in H2. destruct (q_votes q !! v_BlockID vote) as [vs|] eqn:E; [by eapply Hq|].
  simpl in H2. by rewrite lookup_empty in H2.
Qed.

Lemma quorum_Add_wf vote : preserves (fun q q' => quorum_wf q -> quorum_wf q') (quorum_Add vote).
Proof.
  intros q r q' H Hq. unfold quorum_Add in H. go_inv. simpl in *.
  destruct (superMajority q _); [by go_inv|]. go_inv. simpl in *.
  destruct (superMajority _ _); [|go_inv; by apply record_vote_wf].
  destruct (getSigs _ _) as [|[??]]; go_inv; by apply record_vote_wf.
Qed.

(** The outcome of [Add], by the votes already recorded. *)
Lemma quorum_Add_run vote q :
  quorum_Add vote q =
  Ret (if superMajority q (v_BlockID vote) then (false, None, q)
       else
         let q' := record_vote vote q in
         let l := map_to_list (votes_for q' (v_BlockID vote)) in
         (if superMajority q' (v_BlockID vote) then
            (true, Some (mkQC ""%string (v_View vote) (v_BlockID vote) ((fun kv => v_Voter kv.2) <$> l)
                              ((fun kv => v_Signature kv.2) <$> l) []))
          else (false, None), q')).
Proof.
  unfold quorum_Add. cbv [gbind gets modify id ret].
  destruct (superMajority q (v_BlockID vote)); [done|].
  destruct (superMajority (record_vote vote q) (v_BlockID vote)); [|done].
  unfold getSigs, votes_for, record_vote. simpl. by rewrite lookup_insert_eq.
Qed.

Lemma size_record vote q :
  quorum_size q (v_BlockID vote) <= quorum_size (record_vote vote q) (v_BlockID vote)
    <= quorum_size q (v_BlockID vote) + 1.
Proof.
  unfold quorum_size. rewrite votes_for_record, decide_True by done.
  destruct (votes_for q (v_BlockID vote) !! v_Voter vote) as [v|] eqn:E.
  - rewrite map_size_insert_Some by (by eexists). lia.
  - rewrite map_size_insert_None by done. lia.
Qed.

Lemma voters_of_wf q id vs :
  quorum_wf q -> q_votes q !! id = Some vs ->
  (fun kv : NodeID * Vote => v_Voter kv.2) <$> map_to_list vs = (map_to_list vs).*1.
Proof.
  intros Hq Hvs. apply list_fmap_ext. intros i [k v] Hi. simpl.
  apply list_elem_of_lookup_2, elem_of_map_to_list in Hi. by destruct (Hq id vs k v).
Qed.

(** A certificate built by [Add], spelled out. *)
Lemma quorum_Add_built vote q qc q' :
  quorum_wf q -> quorum_Add vote q = Ret (true, Some qc, q') ->
  quorum_size q (v_BlockID vote) < quorum_threshold /\
  qc_View qc = v_View vote /\ qc_BlockID qc = v_BlockID vote /\
  NoDup (qc_Signers qc) /\ Z.of_nat (length (qc_Signers qc)) = quorum_threshold /\
  length (qc_AggSig qc) = length (qc_Signers qc) /\
  (forall i id, qc_Signers qc !! i = Some id ->
     exists v, votes_for q' (v_BlockID vote) !! id = Some v /\ v_Voter v = id /\
               v_BlockID v = qc_BlockID qc /\ qc_AggSig qc !! i = Some (v_Signature v)) /\
  v_Voter vote ∈ qc_Signers qc.
Proof.
  intros Hq H. rewrite quorum_Add_run in H.
  unfold superMajority in H. destruct (Z.leb_spec quorum_threshold (quorum_size q (v_BlockID vote)));
    [done|]. cbv zeta in H.
  destruct (Z.leb_spec quorum_threshold (quorum_size (record_vote vote q) (v_BlockID vote)));
    [|done].
  injection H as <- <-. cbn [qc_View qc_BlockID qc_Signers qc_AggSig].
  pose proof (record_vote_wf vote q Hq) as Hq'.
  set (q1 := record_vote vote q) in *. pose proof (size_record vote q) as Hsz. fold q1 in Hsz.
  destruct (q_votes q1 !! v_BlockID vote) as [vs|] eqn:Hvs;
    [|unfold q1, record_vote in Hvs; simpl in Hvs; by rewrite lookup_insert_eq in Hvs].
  assert (votes_for q1 (v_BlockID vote) = vs) as Hvf by (unfold votes_for; by rewrite Hvs).
  unfold quorum_size in *. rewrite Hvf in *.
  rewrite (voters_of_wf q1 (v_BlockID vote) vs) by done.
  repeat split; try done.
  - apply NoDup_fst_map_to_list.
  - rewrite length_fmap, length_map_to_list. lia.
  - by rewrite !length_fmap.
  - intros i id Hi. rewrite list_lookup_fmap in Hi.
    destruct (map_to_list vs !! i) as [[k v]|] eqn:Hl; [|done]. simpl in Hi. injection Hi as <-.
    pose proof (list_elem_of_lookup_2 _ _ _ Hl) as Hin%elem_of_map_to_list.
    exists v. split; [done|]. destruct (Hq' _ _ _ _ Hvs Hin) as [-> ->]. split; [done|]. split; [done|].
    by rewrite list_lookup_fmap, Hl.
  - apply list_elem_of_fmap. exists (v_Voter vote, vote). split; [done|].
    apply elem_of_map_to_list. rewrite <- Hvf. unfold q1.
    rewrite votes_for_record, decide_True by done. apply lookup_insert_eq.
Qed.

(** C20.  A certificate is built by exactly the vote that completes the super
    majority: it certifies that vote's block at that vote's view, its signers are
    exactly [2*ByzNo + 1] distinct nodes, the completing voter among them, and
    the aggregate holds, position by position, the signature of the vote
    recorded for each signer. *)
Theorem quorum_Add_certificate vote q qc q' :
  quorum_wf q -> quorum_Add vote q = Ret (true, Some qc, q') ->
  quorum_size q (v_BlockID vote) < quorum_threshold /\
  qc_View qc = v_View vote /\ qc_BlockID qc = v_BlockID vote /\
  NoDup (qc_Signers qc) /\ Z.of_nat (length (qc_Signers qc)) = quorum_threshold /\
  v_Voter vote ∈ qc_Signers qc /\
  (forall i id, qc_Signers qc !! i = Some id ->
     exists v, votes_for q' (v_BlockID vote) !! id = Some v /\ v_Voter v = id /\
               v_BlockID v = qc_BlockID qc /\ qc_AggSig qc !! i = Some (v_Signature v)).
Proof. intros Hq H. destruct (quorum_Add_built _ _ _ _ Hq H) as (?&?&?&?&?&?&?&?). done. Qed.

(** Collecting a sequence of votes, with the certificates built on the way. *)
Fixpoint add_votes (l : list Vote) : M Quorum (list QC) :=
  match l with
  | [] => ret []
  | v :: rest =>
      r ← quorum_Add v; qcs ← add_votes rest;
      ret (match r with (true, Some qc) => qc :: qcs | _ => qcs end)
  end.

Lemma superMajority_record vote q id :
  superMajority q id = true -> superMajority (record_vote vote q) id = true.
Proof.
  unfold superMajority, quorum_size. rewrite !Z.leb_le, votes_for_record. intros H.
  case_decide as E; [subst id|done]. pose proof (size_record vote q) as Hs. unfold quorum_size in Hs.
  rewrite votes_for_record, decide_True in Hs by done. lia.
Qed.

Lemma quorum_Add_keeps vote q r q' id :
  quorum_Add vote q = Ret (r, q') -> superMajority q id = true -> superMajority q' id = true.
Proof.
  rewrite quorum_Add_run. destruct (superMajority q (v_BlockID vote)); intros H Hid; ret_inv H; [done|].
  by apply superMajority_record.
Qed.

Lemma add_votes_none l q qcs q' id :
  superMajority q id = true -> add_votes l q = Ret (qcs, q') ->
  Forall (fun qc => qc_BlockID qc <> id) qcs.
Proof.
  revert q qcs q'. induction l as [|v l IH]; intros q qcs q' Hid H; simpl in H.
  - go_inv. constructor.
  - apply bind_ret in H as (r & q1 & H1 & H). go_inv.
    pose proof (quorum_Add_keeps _ _ _ _ _ H1 Hid) as Hid1. specialize (IH _ _ _ Hid1 Hrun).
    rewrite quorum_Add_run in H1. destruct (superMajority q (v_BlockID v)) eqn:Hs; ret_inv H1; [done|].
    simpl. destruct (superMajority (record_vote v q) (v_BlockID v)); [|done].
    constructor; [|done]. simpl. intros E. rewrite E in Hs. by rewrite Hs in Hid.
Qed.

(** C21.  Over any sequence of votes, at most one certificate is built for each
    block. *)
Theorem add_votes_unique l q qcs q' :
  add_votes l q = Ret (qcs, q') -> NoDup (qc_BlockID <$> qcs).
Proof.
  revert q qcs q'. induction l as [|v l IH]; intros q qcs q' H; simpl in H.
  - go_inv. constructor.
  - apply bind_ret in H as (r & q1 & H1 & H). go_inv.
    specialize (IH _ _ _ Hrun).
    rewrite quorum_Add_run in H1. destruct (superMajority q (v_BlockID v)) eqn:Hs; ret_inv H1; [done|].
    simpl. destruct (superMajority (record_vote v q) (v_BlockID v)) eqn:Hs1; [|done].
    rewrite fmap_cons. constructor; [|done]. simpl.
    pose proof (add_votes_none _ _ _ _ _ Hs1 Hrun) as Hn. rewrite List.Forall_forall in Hn.
    intros (qc & E & Hin)%list_elem_of_fmap. apply list_elem_of_In in Hin.
    by apply (Hn _ Hin).
Qed.
End quorum.

(** ** Certificates built from verified votes verify *)

Section verified.
Context {CE : CryptoEnv}.
Variable cfg : Config.

Definition vote_ok (v : Vote) : Prop :=
  PubVerify ce_keys (v_Signature v) (IDToByte (v_BlockID v)) (v_Voter v) = Ret (true, None).
Definition votes_ok (q : Quorum) : Prop :=
  quorum_wf q /\ forall id vs k v, q_votes q !! id = Some vs -> vs !! k = Some v -> vote_ok v.

Lemma record_vote_ok vote q : vote_ok vote -> votes_ok q -> votes_ok (record_vote vote q).
Proof.
  intros Hv [Hq Hok]. split; [by apply record_vote_wf|]. intros id vs k v H1 H2.
  unfold record_vote in H1. simpl in H1.
  apply lookup_insert_Some in H1 as [[<- <-]|[_ H1]]; [|by eapply Hok].
  apply lookup_insert_Some in H2 as [[<- <-]|[_ H2]]; [done|].
  unfold votes_for in H2. destruct (q_votes q !! v_BlockID vote) as [vs|] eqn:E; [by eapply Hok|].
  simpl in H2. by rewrite lookup_empty in H2.
Qed.

(** C22.  A certificate built from votes whose signatures verified passes
    [VerifyQuorumSignature] at any node. *)
Theorem certificate_verifies vote q qc q' :
  votes_ok q -> vote_ok vote -> quorum_Add cfg vote q = Ret (true, Some qc, q') ->
  VerifyQuorumSignature ce_keys (qc_AggSig qc) (qc_BlockID qc) (qc_Signers qc) = Ret (true, None).
Proof.
  intros Hq Hv H. destruct (quorum_Add_built _ _ _ _ _ (proj1 Hq) H) as (_ & _ & _ & _ & _ & _ & Hs & _).
  assert (votes_ok q') as [_ Hok].
  { rewrite quorum_Add_run in H. destruct (superMajority _ _ _); [done|].
    injection H as _ <-. by apply record_vote_ok. }
  apply verifyQuorum_loop_spec. intros i id Hi.
  destruct (Hs i id Hi) as (v & Hlk & <- & <- & Hsig). exists (v_Signature v). split; [done|].
  unfold votes_for in Hlk. destruct (q_votes q' !! v_BlockID vote) as [vs|] eqn:E.
  - by eapply Hok.
  - simpl in Hlk. by rewrite lookup_empty in Hlk.
Qed.
End verified.

(** ** Quorum intersection *)

Lemma intersection_size (ids s1 s2 : list NodeID) :
  NoDup s1 -> NoDup s2 -> s1 ⊆ ids -> s2 ⊆ ids ->
  (length s1 + length s2 <= length ids + size (list_to_set s1 ∩ list_to_set s2 : gset NodeID))%nat.
Proof.
  intros N1 N2 I1 I2.
  set (A := list_to_set s1 : gset NodeID). set (B := list_to_set s2 : gset NodeID).
  assert (size A = length s1) as HA by (apply size_list_to_set; done).
  assert (size B = length s2) as HB by (apply size_list_to_set; done).
  assert (size (list_to_set ids : gset NodeID) <= length ids)%nat as Hids.
  { clear. induction ids as [|x ids IH]; [done|]. cbn [list_to_set length foldr].
    rewrite size_union_alt, size_singleton.
    pose proof (subseteq_size (list_to_set ids ∖ {[x]} : gset NodeID) (list_to_set ids)) as Hsub.
    specialize (Hsub ltac:(set_solver)). lia. }
  assert (A ∪ B ⊆ (list_to_set ids : gset NodeID)) as Hsub%subseteq_size.
  { intros x. unfold A, B. rewrite elem_of_union, !elem_of_list_to_set. intros [?|?]; auto. }
  rewrite size_union_alt, size_difference_alt in Hsub.
  assert (size (B ∩ A) <= size B)%nat by (apply subseteq_size; set_solver).
  rewrite (intersection_comm_L B A) in *. lia.
Qed.

(** C23.  Two certificates built by any two vote collectors, from votes of a
    membership of at most [3*ByzNo + 1] nodes, share at least [ByzNo + 1]
    signers, so at least one correct one. *)
Theorem quorum_intersection cfg ids vote1 q1 qc1 q1' vote2 q2 qc2 q2' :
  quorum_wf q1 -> quorum_wf q2 -> 0 <= ByzNo cfg -> 2 * ByzNo cfg + 1 < two63 ->
  Z.of_nat (length ids) <= 3 * ByzNo cfg + 1 ->
  quorum_Add cfg vote1 q1 = Ret (true, Some qc1, q1') ->
  quorum_Add cfg vote2 q2 = Ret (true, Some qc2, q2') ->
  qc_Signers qc1 ⊆ ids -> qc_Signers qc2 ⊆ ids ->
  ByzNo cfg + 1 <= Z.of_nat (size (list_to_set (qc_Signers qc1) ∩ list_to_set (qc_Signers qc2) : gset NodeID)).
Proof.
  intros W1 W2 Hf Hsmall Hn H1 H2 I1 I2.
  apply quorum_Add_built in H1 as (_ & _ & _ & N1 & L1 & _); [|done].
  apply quorum_Add_built in H2 as (_ & _ & _ & N2 & L2 & _); [|done].
  pose proof (intersection_size ids _ _ N1 N2 I1 I2).
  unfold quorum_threshold in *. rewrite !i64_id in L1, L2 by (rewrite ?i64_id; unfold is_i64, two63 in *; lia).
  lia.
Qed.

(** ** Concrete collectors *)

Definition set_ByzNo (f : Z) (c : Config) : Config :=
  set_faults f (Strategy c) (cfg_Slow c) (cfg_Crash c) (cfg_Benchmark c) c.

Definition cfg_f (f : Z) : Config := set_ByzNo f toy_config.
Definition toy_vote (view : Z) (voter : NodeID) (id : Identifier) : Vote :=
  mkVote view voter id ["1"%string; Strconv.big_String (foldr Z.add 0 id)].
Definition run_votes (f : Z) (l : list Vote) : list QC :=
  match add_votes (cfg_f f) l (NewQuorum 4) with Ret (qcs, _) => qcs | _ => [] end.

(** Three votes of a four-node, one-fault configuration build one certificate;
    the fourth adds nothing. *)
Example four_votes :
  (fun qc => (qc_View qc, qc_BlockID qc)) <$>
    run_votes 1 [toy_vote 5 "1" [9]; toy_vote 5 "2" [9]; toy_vote 5 "3" [9]; toy_vote 5 "4" [9]]%string
  = [(5, [9])].
Proof. vm_compute. reflexivity. Qed.

Definition q_two : Quorum :=
  mkQuorum 4 {[ [9] := {[ "1"%string := toy_vote 5 "1"%string [9]; "2"%string := toy_vote 5 "2"%string [9] ]} ]}.
Definition q_two' : Quorum := record_vote (toy_vote 5 "3"%string [9]) q_two.
Definition qc_123 : QC :=
  mkQC ""%string 5 [9]
    ((fun kv => v_Voter kv.2) <$> map_to_list (votes_for q_two' [9]))
    ((fun kv => v_Signature kv.2) <$> map_to_list (votes_for q_two' [9])) [].

Lemma q_two_wf : quorum_wf q_two.
Proof.
  intros id vs k v H1 H2. unfold q_two in H1. simpl in H1.
  apply lookup_singleton_Some in H1 as [<- <-].
  apply lookup_insert_Some in H2 as [[<- <-]|[_ H2]]; [done|].
  apply lookup_singleton_Some in H2 as [<- <-]. done.
Qed.

Lemma q_two_Add : quorum_Add (cfg_f 1) (toy_vote 5 "3"%string [9]) q_two = Ret (true, Some qc_123, q_two').
Proof. vm_compute. reflexivity. Qed.

Lemma quorum_Add_certificate_witness :
  quorum_wf q_two /\ qc_View qc_123 = 5 /\ Z.of_nat (length (qc_Signers qc_123)) = 3.
Proof.
  split; [exact q_two_wf|].
  destruct (quorum_Add_certificate (cfg_f 1) (toy_vote 5 "3"%string [9]) q_two qc_123 q_two' q_two_wf q_two_Add)
    as (_ & Hv & _ & _ & Hl & _).
  split; [exact Hv | exact Hl].
Defined.

Lemma add_votes_unique_witness :
  NoDup (qc_BlockID <$> [qc_123]).
Proof.
  apply (add_votes_unique (cfg_f 1) [toy_vote 5 "3"%string [9]; toy_vote 5 "4"%string [9]] q_two [qc_123] q_two').
  vm_compute. reflexivity.
Defined.

Lemma certificate_verifies_witness :
  VerifyQuorumSignature (E := toy_ecdsa) toy_keys (qc_AggSig qc_123) (qc_BlockID qc_123) (qc_Signers qc_123)
  = Ret (true, None).
Proof.
  apply (certificate_verifies (CE := toy_crypto) (cfg_f 1) (toy_vote 5 "3"%string [9]) q_two qc_123 q_two').
  - split; [exact q_two_wf|]. intros id vs k v H1 H2. unfold q_two in H1. simpl in H1.
    apply lookup_singleton_Some in H1 as [<- <-].
    apply lookup_insert_Some in H2 as [[<- <-]|[_ H2]]; [reflexivity|].
    apply lookup_singleton_Some in H2 as [<- <-]. reflexivity.
  - reflexivity.
  - exact q_two_Add.
Defined.

Lemma quorum_intersection_witness :
  2 <= Z.of_nat (size (list_to_set (qc_Signers qc_123) ∩ list_to_set (qc_Signers qc_123) : gset NodeID)).
Proof.
  apply (quorum_intersection (cfg_f 1) ["1"; "2"; "3"; "4"]%string
    (toy_vote 5 "3"%string [9]) q_two qc_123 q_two' (toy_vote 5 "3"%string [9]) q_two qc_123 q_two');
    [exact q_two_wf | exact q_two_wf | by vm_compute | by vm_compute | by vm_compute
    | exact q_two_Add | exact q_two_Add | |];
    intros x Hx; vm_compute in Hx |- *; set_solver.
Defined.

(** With five nodes and one fault, as in the shipped configuration, the
    threshold [2*ByzNo + 1] is three and two conflicting blocks can be certified
    at the same view by quorums that have a single node in common, which may be
    the faulty one: node 3 votes for both blocks and no other node votes
    twice. *)
Theorem five_nodes_conflicting_quorums :
  let votes := [toy_vote 5 "1" [8]; toy_vote 5 "2" [8]; toy_vote 5 "3" [8];
                toy_vote 5 "3" [9]; toy_vote 5 "4" [9]; toy_vote 5 "5" [9]]%string in
  match run_votes 1 votes with
  | [qc1; qc2] =>
      qc_View qc1 = qc_View qc2 /\ qc_BlockID qc1 <> qc_BlockID qc2 /\
      (list_to_set (qc_Signers qc1) ∩ list_to_set (qc_Signers qc2) : gset NodeID) = {["3"%string]}
  | _ => False
  end.
Proof. vm_compute. repeat split; discriminate. Qed.
