(* ===== verification/Forest.v ===== *)
(** * The levelled forest (blockchain/leveled_forrest.go, vertex.go, container.go)

    Vertices are blocks (the only implementation of the [Vertex] interface is
    [BlockContainer]); the level of a block is its view as a uint64.  The forest
    keeps *containers*, created empty when a block is first mentioned as a
    parent and filled when the block arrives, and shared by pointer between the
    id map, the per-level lists and the children lists.  The model keeps the
    sharing: containers live in [store] and everything else holds their
    addresses.

    This file holds the data and the operations; the invariant and the
    refinement are in ForestSpec.v. *)

From Stdlib Require Import String.
From stdpp Require Import base gmap strings numbers list.
From S2P Require Import Prelude.
From S2P Require Import Identity.
From S2P Require Import Crypto.
From S2P Require Import Block.

Local Open Scope Z_scope.
Local Open Scope go_scope.

(** ** container.go: a block as a vertex *)

Definition VertexID (b : Block) : Identifier := b_ID b.
Definition Level (b : Block) : Z := u64 (b_View b).
(** [Parent] dereferences the certificate, which panics when it is nil. *)
Definition Parent (b : Block) : outcome (Identifier * Z) :=
  match b_QC b with None => Panic | Some qc => Ret (b_PrevID b, u64 (qc_View qc)) end.

(** ** The data *)

Record vertexContainer := mkVC {
  vc_id : Identifier;
  vc_level : Z;
  vc_children : list nat;
  vc_vertex : option Block }.

Record LevelledForest := mkForest {
  store : list vertexContainer;
  vertices : gmap Identifier nat;
  verticesAtLevel : gmap Z (list nat);
  LowestLevel : Z }.

Definition NewLevelledForest : LevelledForest := mkForest [] ∅ ∅ 0.

Definition level_list (f : LevelledForest) (l : Z) : list nat := default [] (verticesAtLevel f !! l).

Definition deref (l : nat) : M LevelledForest vertexContainer :=
  f ← gets (fun f => f); lift (of_option (store f !! l)).

Definition isEmptyContainer (c : vertexContainer) : bool := bool_decide (vc_vertex c = None).

(** [f.vertices[id]], the pointer followed. *)
Definition container_of (f : LevelledForest) (id : Identifier) : option vertexContainer :=
  match vertices f !! id with Some l => store f !! l | None => None end.

Definition HasVertex (f : LevelledForest) (id : Identifier) : bool :=
  match container_of f id with
  | Some container => negb (isEmptyContainer container)
  | None => false
  end.

Definition GetVertex (f : LevelledForest) (id : Identifier) : option Block :=
  match container_of f id with Some c => vc_vertex c | None => None end.

(** ** vertex.go: the iterator

    [preLoad] advances past empty containers; the iterator holds the slice it
    was given and reads the shared containers. *)

Record VertexIterator := mkIt { it_data : list nat; it_idx : nat; it_next : option Block }.

Definition vertex_at (f : LevelledForest) (l : nat) : option Block :=
  match store f !! l with Some c => vc_vertex c | None => None end.

Fixpoint preLoad_from (f : LevelledForest) (idx : nat) (rest : list nat) : nat * option Block :=
  match rest with
  | [] => (idx, None)
  | l :: rest' =>
      match vertex_at f l with
      | Some v => (S idx, Some v)
      | None => preLoad_from f (S idx) rest'
      end
  end.
Definition preLoad (f : LevelledForest) (it : VertexIterator) : VertexIterator :=
  let '(i, v) := preLoad_from f (it_idx it) (drop (it_idx it) (it_data it)) in mkIt (it_data it) i v.
Definition NextVertex (f : LevelledForest) (it : VertexIterator) : option Block * VertexIterator :=
  (it_next it, preLoad f it).
Definition HasNext (it : VertexIterator) : bool := bool_decide (it_next it <> None).
Definition newVertexIterator (f : LevelledForest) (l : list nat) : VertexIterator := preLoad f (mkIt l 0 None).

(** The loop [for I := iterator; I.HasNext(); { ... I.NextVertex() ... }]. *)
Fixpoint drain (fuel : nat) (f : LevelledForest) (it : VertexIterator) : outcome (list Block) :=
  if HasNext it then
    match fuel with
    | O => OutOfFuel
    | S fuel' =>
        let '(v, it') := NextVertex f it in
        b ←? of_option v; rest ←? drain fuel' f it'; Ret (b :: rest)
    end
  else Ret [].

(** [GetChildren]: reading [.children] of a missing container dereferences nil. *)
Definition GetChildren (f : LevelledForest) (id : Identifier) : outcome VertexIterator :=
  container ←? of_option (container_of f id);
  Ret (newVertexIterator f (vc_children container)).
Definition GetVerticesAtLevel (f : LevelledForest) (level : Z) : VertexIterator :=
  newVertexIterator f (level_list f level).

Definition count_full (f : LevelledForest) (l : list nat) : Z :=
  foldl (fun num c => if bool_decide (vertex_at f c <> None) then num + 1 else num) 0 l.
Definition GetNumberOfChildren (f : LevelledForest) (id : Identifier) : outcome Z :=
  container ←? of_option (container_of f id);
  Ret (count_full f (vc_children container)).
Definition GetNumberOfVerticesAtLevel (f : LevelledForest) (level : Z) : Z := count_full f (level_list f level).

(** ** Adding vertices *)

Definition alloc (id : Identifier) (level : Z) (f : LevelledForest) : LevelledForest :=
  let l := length (store f) in
  mkForest (store f ++ [mkVC id level [] None]) (<[id := l]> (vertices f))
           (<[level := level_list f level ++ [l]]> (verticesAtLevel f)) (LowestLevel f).

Definition getOrCreateVertexContainer (id : Identifier) (level : Z) : M LevelledForest nat :=
  f ← gets (fun f => f);
  match vertices f !! id with
  | Some l => ret l
  | None => modify (alloc id level);; ret (length (store f))
  end.

Definition with_store (s : list vertexContainer) (f : LevelledForest) : LevelledForest :=
  mkForest s (vertices f) (verticesAtLevel f) (LowestLevel f).

(** [container.vertex = vertex]. *)
Definition set_vertex (l : nat) (b : Block) (f : LevelledForest) : LevelledForest :=
  with_store (alter (fun c => mkVC (vc_id c) (vc_level c) (vc_children c) (Some b)) l (store f)) f.
(** [parentContainer.children = append(parentContainer.children, c)]. *)
Definition add_child (p c : nat) (f : LevelledForest) : LevelledForest :=
  with_store (alter (fun v => mkVC (vc_id v) (vc_level v) (vc_children v ++ [c]) (vc_vertex v)) p (store f)) f.

Definition registerWithParent (l : nat) : M LevelledForest unit :=
  c ← deref l;
  low ← gets LowestLevel;
  if vc_level c <=? low then skip
  else
    vertex ← lift (of_option (vc_vertex c));
    '(_, parentView) ← lift (Parent vertex);
    if parentView <? low then skip
    else
      '(parentID, parentLevel) ← lift (Parent vertex);
      p ← getOrCreateVertexContainer parentID parentLevel;
      modify (add_child p l).

Definition AddVertex (vertex : Block) : M LevelledForest unit :=
  low ← gets LowestLevel;
  if Level vertex <? low then skip
  else
    l ← getOrCreateVertexContainer (VertexID vertex) (Level vertex);
    container ← deref l;
    if negb (isEmptyContainer container) then skip
    else
      modify (set_vertex l vertex);;
      registerWithParent l.

(** ** Pruning *)

(** The first loop of [PruneUpToLevel]: from [l] to the level of the stored
    parent of the first vertex at [l], collecting the levels reached.  The fuel
    exceeds the number of non-empty levels, so running out means that a level
    was visited twice and the loop does not end. *)
Fixpoint committed_levels (fuel : nat) (f : LevelledForest) (l : Z) (acc : gset Z) : outcome (gset Z) :=
  if (LowestLevel f <=? l) && (1 <? l) then
    match fuel with
    | O => Diverge
    | S fuel' =>
        a ←? of_option (level_list f l !! 0%nat);
        c ←? of_option (store f !! a);
        vertex ←? of_option (vc_vertex c);
        '(parentID, _) ←? Parent vertex;
        match GetVertex f parentID with
        | None => Ret acc
        | Some parentVertex =>
            if Level parentVertex <? LowestLevel f then Ret acc
            else committed_levels fuel' f (Level parentVertex) ({[Level parentVertex]} ∪ acc)
        end
    end
  else Ret acc.

Definition delete_vertex (id : Identifier) (f : LevelledForest) : LevelledForest :=
  mkForest (store f) (delete id (vertices f)) (verticesAtLevel f) (LowestLevel f).
Definition delete_level (l : Z) (f : LevelledForest) : LevelledForest :=
  mkForest (store f) (vertices f) (delete l (verticesAtLevel f)) (LowestLevel f).
Definition set_lowest (l : Z) (f : LevelledForest) : LevelledForest :=
  mkForest (store f) (vertices f) (verticesAtLevel f) l.

(** The loop over the containers of one level. *)
Fixpoint prune_level (committedLevels : gset Z) (l : Z) (vs : list nat) (forked : list Block) (no : Z) :
    M LevelledForest (list Block * Z) :=
  match vs with
  | [] => ret (forked, no)
  | v :: vs' =>
      c ← deref v;
      let forked :=
        if bool_decide (l ∉ committedLevels) && (1 <? l) then
          match vc_vertex c with Some b => forked ++ [b] | None => forked end
        else forked in
      modify (delete_vertex (vc_id c));;
      prune_level committedLevels l vs' forked (no + 1)
  end.

(** The loop over the levels, [k] of them from [l] on. *)
Fixpoint prune_levels (k : nat) (committedLevels : gset Z) (l : Z) (forked : list Block) (no : Z) :
    M LevelledForest (list Block * Z) :=
  match k with
  | O => ret (forked, no)
  | S k' =>
      vs ← gets (fun f => level_list f l);
      '(forked, no) ← prune_level committedLevels l vs forked no;
      modify (delete_level l);;
      prune_levels k' committedLevels (l + 1) forked no
  end.

Definition PruneUpToLevel (level : Z) : M LevelledForest (error + (list Block * Z)) :=
  f ← gets (fun f => f);
  if level <? LowestLevel f then
    ret (inl "new lowest level cannot be smaller than previous last retained level"%string)
  else
    levels ← lift (committed_levels (S (size (verticesAtLevel f))) f level ∅);
    r ← prune_levels (Z.to_nat (level - LowestLevel f)) levels (LowestLevel f) [] 0;
    modify (set_lowest level);;
    ret (inr r).

(** ** Verification of a vertex before adding it *)

Definition isEquivalentToStoredVertex (f : LevelledForest) (vertex : Block) : outcome (bool * option error) :=
  match GetVertex f (VertexID vertex) with
  | None => Ret (false, None)
  | Some storedVertex =>
      if negb (Level vertex =? Level storedVertex) then
        Ret (false, Some "conflicting vertices with ID"%string)
      else if Level vertex <=? LowestLevel f then Ret (true, None)
      else
        '(newParentId, newParentView) ←? Parent vertex;
        '(storedParentId, storedParentView) ←? Parent storedVertex;
        if negb (bool_decide (newParentId = storedParentId)) then
          Ret (false, Some "conflicting vertices with ID"%string)
        else if negb (newParentView =? storedParentView) then
          Ret (false, Some "conflicting vertices with ID"%string)
        else Ret (true, None)
  end.

Definition verifyParent (f : LevelledForest) (vertex : Block) : outcome (option error) :=
  '(parentID, parentLevel) ←? Parent vertex;
  if negb (parentLevel <? Level vertex) then
    Ret (Some "parent vertex's level must be smaller than the vertex's level"%string)
  else
    match GetVertex f parentID with
    | None => Ret None
    | Some parentVertex =>
        if negb (Level parentVertex =? parentLevel) then
          Ret (Some "parent vertex has different level than the stored vertex"%string)
        else Ret None
    end.

Definition VerifyVertex (f : LevelledForest) (vertex : Block) : outcome (option error) :=
  if Level vertex <? LowestLevel f then Ret None
  else
    '(isKnownVertex, err) ←? isEquivalentToStoredVertex f vertex;
    match err with
    | Some e => Ret (Some ("invalid Vertex: " +:+ e)%string)
    | None =>
        if (isKnownVertex : bool) then Ret None
        else if Level vertex =? LowestLevel f then Ret None
        else verifyParent f vertex
    end.
