(* ===== verification/ForestSpec.v ===== *)
(** * The levelled forest: invariant, specification, refinement

    [forest_wf] ties the id map, the level lists, the containers and the
    children lists together.  The abstract forest [abs f] maps every known id to
    the level of its container and the block in it, if it has arrived; adding
    and pruning are specified on it ([spec_add], a filter by level), and the
    theorems show that the pointer structure of leveled_forrest.go implements
    the specification on every branch, panics included. *)

From Stdlib Require Import String.
From stdpp Require Import base gmap strings numbers list.
From S2P Require Import Prelude.
From S2P Require Import Identity.
From S2P Require Import Crypto.
From S2P Require Import Block.
From S2P Require Import Forest.

Local Open Scope Z_scope.
Local Open Scope go_scope.

(** ** Invariant *)

Record forest_wf (f : LevelledForest) : Prop := mkWf {
  wf_vertices : forall id l, vertices f !! id = Some l ->
    exists c, store f !! l = Some c /\ vc_id c = id /\ l ∈ level_list f (vc_level c);
  wf_levels : forall lv l, l ∈ level_list f lv ->
    exists c, store f !! l = Some c /\ vc_level c = lv /\ vertices f !! vc_id c = Some l;
  wf_nodup : forall lv, NoDup (level_list f lv);
  wf_full : forall l c b, store f !! l = Some c -> vc_vertex c = Some b -> VertexID b = vc_id c;
  wf_children : forall l c k, store f !! l = Some c -> k ∈ vc_children c ->
    exists c' b, store f !! k = Some c' /\ vc_vertex c' = Some b /\ b_PrevID b = vc_id c;
  wf_low : forall id l c, vertices f !! id = Some l -> store f !! l = Some c -> LowestLevel f <= vc_level c }.

Lemma NewLevelledForest_wf : forest_wf NewLevelledForest.
Proof.
  split; unfold level_list; simpl; intros *; rewrite ?lookup_empty, ?lookup_nil; simpl;
    try done; try constructor; by intros ?%elem_of_nil.
Qed.

(** ** The abstract forest *)

Abbreviation entry := (Z * option Block)%type (only parsing).
Definition entry_of (c : vertexContainer) : entry := (vc_level c, vc_vertex c).
Definition abs (f : LevelledForest) : gmap Identifier entry :=
  omap (fun l => entry_of <$> store f !! l) (vertices f).

Lemma abs_lookup f id : abs f !! id = entry_of <$> container_of f id.
Proof.
  unfold abs, container_of. rewrite lookup_omap. by destruct (vertices f !! id).
Qed.

Lemma abs_GetVertex f id : GetVertex f id = abs f !! id ≫= snd.
Proof. unfold GetVertex. rewrite abs_lookup. by destruct (container_of f id). Qed.

Lemma abs_None f id : forest_wf f -> (abs f !! id = None <-> vertices f !! id = None).
Proof.
  intros H. rewrite abs_lookup. unfold container_of.
  destruct (vertices f !! id) as [l|] eqn:E; [|done].
  destruct (wf_vertices _ H _ _ E) as (c & -> & _). done.
Qed.

Lemma abs_size f : forest_wf f -> size (abs f) = size (vertices f).
Proof.
  intros H. rewrite <- !size_dom. f_equal. apply set_eq. intros id.
  rewrite !elem_of_dom, <- !not_eq_None_Some. by rewrite (abs_None _ _ H).
Qed.

(** [GetVertex] and [HasVertex] agree. *)
Lemma HasVertex_GetVertex f id : HasVertex f id = bool_decide (GetVertex f id <> None).
Proof.
  unfold HasVertex, GetVertex, isEmptyContainer. destruct (container_of f id) as [c|]; [|done].
  by destruct (vc_vertex c).
Qed.

(** A block is stored under its own id. *)
Lemma GetVertex_ID f id b : forest_wf f -> GetVertex f id = Some b -> b_ID b = id.
Proof.
  intros H. unfold GetVertex, container_of. destruct (vertices f !! id) as [l|] eqn:El; [|done].
  destruct (wf_vertices _ H _ _ El) as (c & Hc & <- & _). rewrite Hc. intros Hb. by eapply (wf_full _ H).
Qed.

(** ** Lookup lemmas of the primitive updates *)

Lemma level_list_insert f s v lv ls low k :
  level_list (mkForest s v (<[lv := ls]> (verticesAtLevel f)) low) k =
  if decide (lv = k) then ls else level_list f k.
Proof. unfold level_list. simpl. rewrite lookup_insert. by case_decide. Qed.

Lemma level_list_delete f l k : level_list (delete_level l f) k = if decide (l = k) then [] else level_list f k.
Proof. unfold level_list. simpl. rewrite lookup_delete. by case_decide. Qed.

Lemma alloc_store f id lv l c :
  store (alloc id lv f) !! l = Some c <->
  store f !! l = Some c \/ l = length (store f) /\ c = mkVC id lv [] None.
Proof.
  simpl. rewrite lookup_snoc_Some. split.
  - intros [[_ ?]|[??]]; eauto.
  - intros [H|[-> ->]]; [left|by right]. split; [by eapply lookup_lt_Some|done].
Qed.

Lemma alloc_wf f id lv :
  forest_wf f -> vertices f !! id = None -> LowestLevel f <= lv -> forest_wf (alloc id lv f).
Proof.
  intros H Hid Hlow.
  assert (Hfresh : forall k l, l ∈ level_list f k -> l <> length (store f)).
  { intros k l (c & Hc & _)%(wf_levels _ H) ->. apply lookup_lt_Some in Hc. lia. }
  split.
  - intros id' l. simpl. rewrite lookup_insert. case_decide as E.
    + intros [= <-]. exists (mkVC id lv [] None). split; [by rewrite lookup_snoc_Some; right|].
      split; [done|]. unfold alloc. rewrite level_list_insert. simpl. rewrite decide_True by done.
      rewrite elem_of_app, list_elem_of_singleton. by right.
    + intros (c & Hc & <- & Hl)%(wf_vertices _ H). exists c.
      split; [by apply alloc_store; left|]. split; [done|].
      unfold alloc. rewrite level_list_insert. case_decide as E'; [|done].
      rewrite E', elem_of_app. by left.
  - intros k l Hl. unfold alloc in Hl. rewrite level_list_insert in Hl.
    assert (l ∈ level_list f k \/ l = length (store f) /\ k = lv) as [Hl'|[-> ->]].
    { case_decide; [|by left]. subst. apply elem_of_app in Hl as [?|?%list_elem_of_singleton]; auto. }
    + destruct (wf_levels _ H _ _ Hl') as (c & Hc & <- & Hv). exists c.
      split; [by apply alloc_store; left|]. split; [done|].
      simpl. rewrite lookup_insert_ne; [done|]. congruence.
    + exists (mkVC id lv [] None). split; [by apply alloc_store; right|]. split; [done|].
      simpl. by rewrite lookup_insert_eq.
  - intros k. unfold alloc. rewrite level_list_insert. case_decide; [|apply (wf_nodup _ H)].
    apply NoDup_app. split; [apply (wf_nodup _ H)|]. split; [|apply NoDup_singleton].
    intros l Hl ->%list_elem_of_singleton. by eapply Hfresh.
  - intros l c b [Hc|[-> ->]]%alloc_store; [by apply (wf_full _ H _ _ _ Hc)|done].
  - intros l c k [Hc|[-> ->]]%alloc_store Hk; [|by apply elem_of_nil in Hk].
    destruct (wf_children _ H _ _ _ Hc Hk) as (c' & b & ? & ?). exists c', b.
    by rewrite alloc_store; auto.
  - intros id' l c Hv Hc. apply alloc_store in Hc as [Hc|[-> ->]]; [|done].
    simpl in *. rewrite lookup_insert in Hv. case_decide.
    + injection Hv as <-. apply lookup_lt_Some in Hc. lia.
    + by eapply (wf_low _ H).
Qed.

Lemma alloc_abs f id lv :
  forest_wf f -> vertices f !! id = None -> abs (alloc id lv f) = <[id := (lv, None)]> (abs f).
Proof.
  intros H Hid. apply map_eq. intros id'. rewrite lookup_insert, !abs_lookup. unfold container_of. simpl.
  rewrite lookup_insert. case_decide as E.
  - by rewrite lookup_app_r, Nat.sub_diag.
  - destruct (vertices f !! id') as [l|] eqn:Hl; [|done].
    destruct (wf_vertices _ H _ _ Hl) as (c & Hc & _).
    rewrite lookup_app_l; [done|]. by eapply lookup_lt_Some.
Qed.

(** A write to one container that keeps its id and level. *)
Lemma alter_lookup f g p l c' :
  store (with_store (alter g p (store f)) f) !! l = Some c' <->
  exists c, store f !! l = Some c /\ c' = if decide (p = l) then g c else c.
Proof.
  simpl. rewrite list_lookup_alter. case_decide as E; subst.
  - by rewrite fmap_Some.
  - split; [by eauto | by intros (c & ? & ->)].
Qed.

Lemma alter_wf f g p c0 :
  forest_wf f -> store f !! p = Some c0 ->
  vc_id (g c0) = vc_id c0 -> vc_level (g c0) = vc_level c0 ->
  (forall b, vc_vertex c0 = Some b ->
     exists b', vc_vertex (g c0) = Some b' /\ b_PrevID b' = b_PrevID b) ->
  (forall b, vc_vertex (g c0) = Some b -> VertexID b = vc_id c0) ->
  (forall k, k ∈ vc_children (g c0) -> k ∈ vc_children c0 \/
     exists c' b, store f !! k = Some c' /\ vc_vertex c' = Some b /\ b_PrevID b = vc_id c0) ->
  forest_wf (with_store (alter g p (store f)) f).
Proof.
  intros H H0 Hid Hlv Hkeep Hfull Hch.
  assert (Hup : forall l c, store f !! l = Some c -> exists c',
    store (with_store (alter g p (store f)) f) !! l = Some c' /\ vc_id c' = vc_id c /\ vc_level c' = vc_level c /\
    (forall b, vc_vertex c = Some b -> exists b', vc_vertex c' = Some b' /\ b_PrevID b' = b_PrevID b)).
  { intros l c Hc. eexists. split; [apply alter_lookup; eauto|]. case_decide; [|by eauto].
    subst. simplify_eq. auto. }
  assert (Hdown : forall l c', store (with_store (alter g p (store f)) f) !! l = Some c' ->
    p = l /\ c' = g c0 \/ store f !! l = Some c').
  { intros l c' (c & Hc & ->)%alter_lookup. case_decide; [|by right]. subst. simplify_eq. by left. }
  split.
  - intros id l (c & Hc & <- & Hl)%(wf_vertices _ H).
    destruct (Hup _ _ Hc) as (c' & ? & ? & E & _). exists c'. rewrite E. auto.
  - intros lv l (c & Hc & <- & Hl)%(wf_levels _ H).
    destruct (Hup _ _ Hc) as (c' & ? & E & ? & _). exists c'. simpl. rewrite E. auto.
  - apply (wf_nodup _ H).
  - intros l c b [[<- ->]|Hc]%Hdown Hb; [rewrite Hid; auto | by eapply (wf_full _ H)].
  - intros l c k Hc Hk.
    assert (exists c' b, store f !! k = Some c' /\ vc_vertex c' = Some b /\ b_PrevID b = vc_id c)
      as (ck & b & Hck & Hb & Hp).
    { apply Hdown in Hc as [[<- ->]|Hc]; [|by eapply (wf_children _ H)].
      rewrite Hid. destruct (Hch _ Hk); [by eapply (wf_children _ H) | done]. }
    destruct (Hup _ _ Hck) as (c' & ? & ? & ? & Hv). destruct (Hv _ Hb) as (b' & ? & Hp').
    exists c', b'. rewrite Hp'. auto.
  - intros id l c Hv [[<- ->]|Hc]%Hdown; [rewrite Hlv|]; by eapply (wf_low _ H).
Qed.

Lemma alter_abs f g p c0 :
  forest_wf f -> store f !! p = Some c0 -> vertices f !! vc_id c0 = Some p ->
  abs (with_store (alter g p (store f)) f) = <[vc_id c0 := entry_of (g c0)]> (abs f).
Proof.
  intros H H0 Hv. apply map_eq. intros id. rewrite lookup_insert, !abs_lookup. unfold container_of. simpl.
  case_decide as E.
  - by rewrite <- E, Hv, list_lookup_alter_eq, H0.
  - destruct (vertices f !! id) as [l|] eqn:Hl; [|done].
    rewrite list_lookup_alter_ne; [done|]. intros <-.
    destruct (wf_vertices _ H _ _ Hl) as (c & Hc & Hid & _). simplify_eq.
Qed.

(** ** Adding *)

(** The abstract operations. *)
Definition spec_touch (id : Identifier) (lv : Z) (m : gmap Identifier entry) : gmap Identifier entry :=
  match m !! id with Some _ => m | None => <[id := (lv, None)]> m end.

Definition spec_add (low : Z) (b : Block) (m : gmap Identifier entry) : outcome (gmap Identifier entry) :=
  if Level b <? low then Ret m
  else
    match spec_touch (VertexID b) (Level b) m !! VertexID b with
    | Some (lv, None) =>
        let m2 := <[VertexID b := (lv, Some b)]> m in
        if lv <=? low then Ret m2
        else
          '(pid, plv) ←? Parent b;
          if plv <? low then Ret m2 else Ret (spec_touch pid plv m2)
    | _ => Ret m
    end.

Lemma getOrCreate_spec f id lv :
  forest_wf f -> LowestLevel f <= lv ->
  exists l f', getOrCreateVertexContainer id lv f = Ret (l, f') /\
    forest_wf f' /\ abs f' = spec_touch id lv (abs f) /\ LowestLevel f' = LowestLevel f /\
    vertices f' !! id = Some l /\
    (forall k c, store f !! k = Some c -> store f' !! k = Some c).
Proof.
  intros H Hlow. unfold getOrCreateVertexContainer, gbind, gets, modify, ret, spec_touch.
  destruct (vertices f !! id) as [l|] eqn:Hv.
  - exists l, f. destruct (abs f !! id) eqn:E; [done|]. apply (abs_None _ _ H) in E. congruence.
  - exists (length (store f)), (alloc id lv f). split; [done|].
    rewrite (alloc_abs _ _ _ H Hv), (proj2 (abs_None _ _ H) Hv).
    split; [by apply alloc_wf|]. do 2 (split; [done|]). split; [simpl; by rewrite lookup_insert_eq|].
    intros k c Hk. apply alloc_store. by left.
Qed.

Lemma add_child_spec f p c cp cc b :
  forest_wf f -> store f !! p = Some cp -> store f !! c = Some cc -> vc_vertex cc = Some b ->
  b_PrevID b = vc_id cp -> vertices f !! vc_id cp = Some p ->
  forest_wf (add_child p c f) /\ abs (add_child p c f) = abs f.
Proof.
  intros H Hp Hc Hb Hprev Hv. split.
  - eapply alter_wf; eauto.
    + intros b' Hb'. by eapply (wf_full _ H).
    + intros k Hk%elem_of_app. destruct Hk as [?|Hk]; [by left|].
      apply list_elem_of_singleton in Hk as ->. eauto 10.
  - unfold add_child. erewrite alter_abs by eauto. apply insert_id.
    rewrite abs_lookup. unfold container_of. by rewrite Hv, Hp.
Qed.

(** [registerWithParent] of a freshly filled container. *)
Lemma registerWithParent_spec f l c b :
  forest_wf f -> vertices f !! vc_id c = Some l -> store f !! l = Some c -> vc_vertex c = Some b ->
  match (if vc_level c <=? LowestLevel f then Ret (abs f)
         else '(pid, plv) ←? Parent b;
              if plv <? LowestLevel f then Ret (abs f) else Ret (spec_touch pid plv (abs f))) with
  | Ret m => exists f', registerWithParent l f = Ret (tt, f') /\ forest_wf f' /\ abs f' = m /\
                        LowestLevel f' = LowestLevel f
  | _ => registerWithParent l f = Panic
  end.
Proof.
  intros H Hv Hc Hb. unfold registerWithParent, deref, gbind, gets, lift, of_option, skip.
  rewrite Hc. destruct (vc_level c <=? LowestLevel f); [by eauto|].
  rewrite Hb. unfold Parent. destruct (b_QC b) as [qc|]; simpl; [|done].
  destruct (u64 (qc_View qc) <? LowestLevel f) eqn:El; [by eauto|].
  apply Z.ltb_ge in El.
  destruct (getOrCreate_spec f (b_PrevID b) (u64 (qc_View qc)) H El)
    as (p & f' & -> & Hwf & Habs & Hlow & Hvp & Hst).
  destruct (wf_vertices _ Hwf _ _ Hvp) as (cp & Hcp & Hid & _).
  destruct (add_child_spec f' p l cp c b) as [Hwf' Habs']; try done; try (rewrite Hid; done); [by apply Hst|].
  unfold modify. eexists. split; [done|]. split; [done|]. by rewrite Habs'.
Qed.

Lemma spec_touch_lookup id lv m :
  spec_touch id lv m !! id = Some (default (lv, None) (m !! id)).
Proof. unfold spec_touch. destruct (m !! id) eqn:E; simpl; [done | by rewrite lookup_insert_eq]. Qed.

(** A run of [AddVertex] at a retained level, up to the registration. *)
Lemma AddVertex_run f b :
  forest_wf f -> LowestLevel f <= Level b ->
  exists l c f',
    AddVertex b f = match vc_vertex c with
                    | Some _ => Ret (tt, f')
                    | None => registerWithParent l (set_vertex l b f')
                    end /\
    forest_wf f' /\ abs f' = spec_touch (VertexID b) (Level b) (abs f) /\ LowestLevel f' = LowestLevel f /\
    vertices f' !! VertexID b = Some l /\ store f' !! l = Some c /\ vc_id c = VertexID b.
Proof.
  intros H El. destruct (getOrCreate_spec f (VertexID b) (Level b) H El)
    as (l & f' & Hrun & Hwf & Habs & Hlow & Hv & _).
  destruct (wf_vertices _ Hwf _ _ Hv) as (c & Hc & Hid & _).
  exists l, c, f'. split; [|done].
  unfold AddVertex, deref, isEmptyContainer, gbind, gets, modify, lift, of_option.
  rewrite (proj2 (Z.ltb_ge _ _) El), Hrun, Hc. by destruct (vc_vertex c).
Qed.

(** [AddVertex] implements the abstract addition on every branch: a block
    below the lowest level is ignored, a known id keeps its first block, a new
    block fills its (possibly already created, empty) container and creates an
    empty container for a retained parent; the invariant is preserved, the call
    always ends, and it panics exactly when the parent is needed and the
    certificate is nil. *)
Lemma AddVertex_spec f b :
  forest_wf f ->
  match spec_add (LowestLevel f) b (abs f) with
  | Ret m => exists f', AddVertex b f = Ret (tt, f') /\ forest_wf f' /\ abs f' = m /\
                        LowestLevel f' = LowestLevel f
  | _ => AddVertex b f = Panic
  end.
Proof.
  intros H. unfold spec_add. rewrite spec_touch_lookup.
  destruct (Level b <? LowestLevel f) eqn:El.
  { exists f. split; [|done]. unfold AddVertex, gbind, gets. by rewrite El. }
  destruct (AddVertex_run f b H) as (l & c & f' & Hadd & Hwf & Habs & Hlow & Hv & Hc & Hid); [lia|].
  assert (Hlk : Some (entry_of c) = Some (default (Level b, None) (abs f !! VertexID b))).
  { rewrite <- spec_touch_lookup, <- Habs, abs_lookup. unfold container_of. by rewrite Hv, Hc. }
  apply Some_inj in Hlk. rewrite <- Hlk, Hadd. unfold entry_of.
  destruct (vc_vertex c) as [b0|] eqn:Hb0.
  { exists f'. do 2 (split; [done|]). split; [|done].
    rewrite Habs. unfold spec_touch. destruct (abs f !! VertexID b) eqn:E; [done|].
    simpl in Hlk. unfold entry_of in Hlk. rewrite Hb0 in Hlk. congruence. }
  set (f2 := set_vertex l b f').
  assert (Hwf2 : forest_wf f2).
  { eapply alter_wf; eauto; simpl; [|by intros ? [= <-]]. intros b' Hb'. congruence. }
  assert (Habs2 : abs f2 = <[VertexID b := (vc_level c, Some b)]> (abs f)).
  { unfold f2, set_vertex. erewrite alter_abs by (eauto; by rewrite Hid). rewrite Hid, Habs.
    unfold spec_touch, entry_of. destruct (abs f !! VertexID b); [done|]. by rewrite insert_insert_eq. }
  pose proof (registerWithParent_spec f2 l
    (mkVC (VertexID b) (vc_level c) (vc_children c) (Some b)) b Hwf2) as Hreg.
  specialize (Hreg Hv). simpl in Hreg.
  rewrite list_lookup_alter_eq, Hc in Hreg. simpl in Hreg. rewrite Hid in Hreg.
  specialize (Hreg eq_refl eq_refl).
  rewrite Hlow, Habs2 in Hreg. exact Hreg.
Qed.

(** ** Pruning *)

(** What the inner loop reports and what it leaves. *)
Definition forked_at (f : LevelledForest) (cl : gset Z) (l : Z) : list Block :=
  if bool_decide (l ∉ cl) && (1 <? l) then omap (vertex_at f) (level_list f l) else [].

Definition drop_container (f : LevelledForest) (v : nat) : LevelledForest :=
  match store f !! v with Some c => delete_vertex (vc_id c) f | None => f end.

Lemma prune_level_run cl l vs : forall f forked no,
  Forall (fun v => is_Some (store f !! v)) vs ->
  prune_level cl l vs forked no f =
  Ret ((forked ++ (if bool_decide (l ∉ cl) && (1 <? l) then omap (vertex_at f) vs else []),
        no + Z.of_nat (length vs)), foldl drop_container f vs).
Proof.
  induction vs as [|v vs IH]; intros f forked no Hall.
  - simpl. unfold ret. destruct (_ && _); by rewrite app_nil_r, Z.add_0_r.
  - apply Forall_cons in Hall as [[c Hc] Hall]. simpl.
    unfold deref, gbind, gets, lift, of_option, modify. rewrite Hc.
    unfold drop_container at 2, vertex_at at 1. rewrite Hc, IH by done. simpl.
    f_equal. f_equal. f_equal; [|lia].
    destruct (_ && _); [|done]. destruct (vc_vertex c); [by rewrite <- app_assoc | done].
Qed.

(** The containers of a level are deleted from the id map, each exactly once. *)
Definition ids_ok (f : LevelledForest) : Prop :=
  forall id l, vertices f !! id = Some l -> exists c, store f !! l = Some c /\ vc_id c = id.
Definition registered (f : LevelledForest) (v : nat) : Prop :=
  exists c, store f !! v = Some c /\ vertices f !! vc_id c = Some v.

Lemma registered_delete f v c w :
  vertices f !! vc_id c = Some v -> v <> w -> registered f w -> registered (delete_vertex (vc_id c) f) w.
Proof.
  intros Hcv Hne (cw & Hcw & Hwv). exists cw. split; [done|]. simpl. rewrite lookup_delete_ne; [done|].
  congruence.
Qed.

Lemma drop_containers vs : forall f,
  NoDup vs -> ids_ok f -> Forall (registered f) vs ->
  let f' := foldl drop_container f vs in
  store f' = store f /\ verticesAtLevel f' = verticesAtLevel f /\ LowestLevel f' = LowestLevel f /\
  vertices f' = filter (fun '(_, v) => v ∉ vs) (vertices f) /\
  (size (vertices f') + length vs = size (vertices f))%nat.
Proof.
  induction vs as [|v vs IH]; intros f Hnd Hok Hreg; simpl.
  - do 3 (split; [done|]). split; [|lia]. symmetry. apply map_filter_id. by intros ?? _ ?%elem_of_nil.
  - apply NoDup_cons in Hnd as [Hv Hnd]. apply Forall_cons in Hreg as [(c & Hc & Hcv) Hreg].
    assert (Hd : drop_container f v = delete_vertex (vc_id c) f) by (unfold drop_container; by rewrite Hc).
    rewrite Hd.
    destruct (IH (delete_vertex (vc_id c) f)) as (E1 & E2 & E3 & E4 & E5); [done| | |].
    { intros id l Hl. simpl in Hl. apply lookup_delete_Some in Hl as [_ Hl]. by apply Hok. }
    { rewrite Forall_forall in Hreg |- *. intros w Hw. apply registered_delete with v; [done| |by apply Hreg].
      by intros ->. }
    rewrite E1, E2, E3. do 3 (split; [done|]). split.
    + rewrite E4. apply map_eq. intros id. simpl. apply option_eq. intros w.
      rewrite !map_lookup_filter_Some, lookup_delete_Some, not_elem_of_cons. split.
      * intros [[Hne Hw] ?]. split; [done|]. split; [|done]. intros ->.
        apply Hok in Hw as (? & ? & ?). congruence.
      * intros [Hw [Hne ?]]. split; [|done]. split; [congruence|done].
    + simpl in E5. rewrite map_size_delete_Some in E5 by eauto.
      assert (size (vertices f) <> 0)%nat; [|lia].
      eapply map_size_ne_0_lookup_2. eauto.
Qed.

(** One iteration of the level loop. *)
Definition prune_one (l : Z) (f : LevelledForest) : LevelledForest :=
  delete_level l (foldl drop_container f (level_list f l)).

Lemma level_registered f l : forest_wf f -> Forall (registered f) (level_list f l).
Proof. intros H. apply Forall_forall. intros v (c & ? & _ & ?)%(wf_levels _ H). by exists c. Qed.

Lemma prune_one_fields f l :
  forest_wf f ->
  let f' := prune_one l f in
  store f' = store f /\ LowestLevel f' = LowestLevel f /\
  (forall k, level_list f' k = if decide (l = k) then [] else level_list f k) /\
  vertices f' = filter (fun '(_, v) => v ∉ level_list f l) (vertices f) /\
  (size (vertices f') + length (level_list f l) = size (vertices f))%nat.
Proof.
  intros H. destruct (drop_containers (level_list f l) f) as (E1 & E2 & E3 & E4 & E5).
  - apply (wf_nodup _ H).
  - intros id v (c & ? & ? & _)%(wf_vertices _ H). eauto.
  - by apply level_registered.
  - simpl. do 2 (split; [done|]). split; [|done]. intros k. unfold prune_one. rewrite level_list_delete.
    unfold level_list at 1. by rewrite E2.
Qed.

Lemma prune_one_wf f l : forest_wf f -> forest_wf (prune_one l f).
Proof.
  intros H. destruct (prune_one_fields f l H) as (E1 & E2 & E3 & E4 & _).
  split.
  - intros id v. rewrite E4, map_lookup_filter_Some. intros [(c & Hc & ? & Hv)%(wf_vertices _ H) Hout].
    exists c. rewrite E1, E3. do 2 (split; [done|]). case_decide; [|done]. by subst.
  - intros lv v. rewrite E3. case_decide as Hne; [by intros ?%elem_of_nil|].
    intros (c & Hc & Hlv & Hv)%(wf_levels _ H). exists c. rewrite E1, E4. do 2 (split; [done|]).
    apply map_lookup_filter_Some. split; [done|].
    intros (c' & ? & ? & _)%(wf_levels _ H). congruence.
  - intros lv. rewrite E3. case_decide; [constructor | apply (wf_nodup _ H)].
  - rewrite E1. apply (wf_full _ H).
  - rewrite E1. apply (wf_children _ H).
  - intros id v c. rewrite E1, E2, E4, map_lookup_filter_Some. intros [? _]. by eapply (wf_low _ H).
Qed.

Lemma prune_one_abs f l :
  forest_wf f -> abs (prune_one l f) = filter (fun '(_, e) => e.1 <> l) (abs f).
Proof.
  intros H. destruct (prune_one_fields f l H) as (E1 & _ & _ & E4 & _).
  apply map_eq. intros id. apply option_eq. intros e.
  rewrite map_lookup_filter_Some, !abs_lookup. unfold container_of. rewrite E1, E4.
  destruct (filter _ (vertices f) !! id) as [v|] eqn:Hv.
  - apply map_lookup_filter_Some in Hv as [Hv Hout]. rewrite Hv.
    destruct (wf_vertices _ H _ _ Hv) as (c & Hc & _ & Hl). rewrite Hc. simpl.
    split; [|by intros [? _]]. intros [= <-]. split; [done|]. simpl. by intros <-.
  - split; [done|]. intros [He Hne]. destruct (vertices f !! id) as [v|] eqn:Hv'; [|done].
    apply map_lookup_filter_None in Hv as [Hv|Hv]; [congruence|].
    destruct (wf_vertices _ H _ _ Hv') as (c & Hc & _ & Hl). rewrite Hc in He. simpl in He. simplify_eq.
    exfalso. apply (Hv _ Hv'). intros (c' & ? & ? & _)%(wf_levels _ H). simpl in Hne. congruence.
Qed.

(** What the whole loop reports: the blocks of the levels [l .. l+k-1], except
    the committed ones and the first two. *)
Fixpoint forked_blocks (f : LevelledForest) (cl : gset Z) (l : Z) (k : nat) : list Block :=
  match k with
  | O => []
  | S k' => forked_at f cl l ++ forked_blocks f cl (l + 1) k'
  end.

Lemma forked_blocks_prune f cl l k l' :
  forest_wf f -> l' < l -> forked_blocks (prune_one l' f) cl l k = forked_blocks f cl l k.
Proof.
  intros H. revert l. induction k as [|k IH]; intros l Hl; [done|]. simpl. f_equal; [|apply IH; lia].
  unfold forked_at. destruct (prune_one_fields f l' H) as (E1 & _ & E3 & _).
  rewrite E3, decide_False by lia. destruct (_ && _); [|done].
  apply list_omap_ext. apply Forall2_same_length_lookup_2; [done|]. intros i x y Hx Hy. simplify_eq.
  unfold vertex_at. by rewrite E1.
Qed.

Lemma prune_levels_run cl k : forall l f forked no,
  forest_wf f ->
  exists f', prune_levels k cl l forked no f =
    Ret ((forked ++ forked_blocks f cl l k, no + Z.of_nat (size (abs f)) - Z.of_nat (size (abs f'))), f') /\
    forest_wf f' /\ LowestLevel f' = LowestLevel f /\
    abs f' = filter (fun '(_, e) => ~ (l <= e.1 < l + Z.of_nat k)) (abs f).
Proof.
  induction k as [|k IH]; intros l f forked no H.
  - exists f. simpl. unfold ret. rewrite app_nil_r. split; [by do 2 f_equal; f_equal; lia|].
    do 2 (split; [done|]). symmetry. apply map_filter_id. intros ? e _. lia.
  - cbn [prune_levels]. unfold gbind at 1, gets.
    erewrite bind_unfold; cycle 1.
    { apply prune_level_run. eapply Forall_impl; [apply (level_registered _ _ H)|]. intros v (? & ? & _). eauto. }
    cbn beta iota. unfold gbind, modify. change (delete_level l _) with (prune_one l f).
    destruct (IH (l + 1) (prune_one l f) (forked ++ forked_at f cl l) (no + Z.of_nat (length (level_list f l))))
      as (f' & Hrun & Hwf & Hlow & Habs); [by apply prune_one_wf|].
    exists f'. fold (forked_at f cl l). rewrite Hrun.
    destruct (prune_one_fields f l H) as (_ & E2 & _ & _ & Hsz).
    split; [|split; [done|split; [congruence|]]].
    + rewrite forked_blocks_prune by (done || lia). simpl. rewrite <- app_assoc. do 3 f_equal.
      rewrite (abs_size (prune_one l f)), (abs_size f) by (done || by apply prune_one_wf). lia.
    + rewrite Habs, prune_one_abs by done. rewrite map_filter_filter. apply map_filter_ext.
      intros ? e _. simpl. lia.
Qed.

Lemma elem_of_forked_at f cl l b :
  (b ∈ forked_at f cl l) <->
  (l ∉ cl) /\ 1 < l /\ exists v, v ∈ level_list f l /\ vertex_at f v = Some b.
Proof.
  unfold forked_at. destruct (bool_decide (l ∉ cl) && (1 <? l)) eqn:E.
  - apply andb_true_iff in E as [?%bool_decide_eq_true ?%Z.ltb_lt]. rewrite list_elem_of_omap.
    split; [by eauto | by intros (_ & _ & ?)].
  - rewrite elem_of_nil. split; [done|]. intros (? & ? & _).
    rewrite bool_decide_true, (proj2 (Z.ltb_lt _ _)) in E by done. done.
Qed.

Lemma level_entry f lv b : forest_wf f ->
  (exists v, v ∈ level_list f lv /\ vertex_at f v = Some b) <-> exists id, abs f !! id = Some (lv, Some b).
Proof.
  intros H. split.
  - intros (v & (c & Hc & <- & Hv)%(wf_levels _ H) & Hb). exists (vc_id c).
    rewrite abs_lookup. unfold container_of. rewrite Hv, Hc. simpl. unfold vertex_at in Hb. rewrite Hc in Hb.
    unfold entry_of. by rewrite Hb.
  - intros (id & Hid). rewrite abs_lookup in Hid. unfold container_of in Hid.
    destruct (vertices f !! id) as [v|] eqn:Hv; [|done].
    destruct (wf_vertices _ H _ _ Hv) as (c & Hc & _ & Hl). rewrite Hc in Hid. simpl in Hid.
    unfold entry_of in Hid. simplify_eq. exists v. split; [done|]. unfold vertex_at. by rewrite Hc.
Qed.

Lemma elem_of_forked_blocks f cl k b : forest_wf f -> forall l,
  (b ∈ forked_blocks f cl l k) <->
  exists id lv, abs f !! id = Some (lv, Some b) /\ l <= lv < l + Z.of_nat k /\ 1 < lv /\ lv ∉ cl.
Proof.
  intros H. induction k as [|k IH]; intros l; simpl.
  - rewrite elem_of_nil. split; [done|]. intros (? & ? & ? & ? & _). lia.
  - rewrite elem_of_app, IH, elem_of_forked_at, level_entry by done. split.
    + intros [(? & ? & id & ?)|(id & lv & ? & ? & ? & ?)]; [exists id, l | exists id, lv]; repeat split; try done; lia.
    + intros (id & lv & ? & ? & ? & ?). destruct (decide (lv = l)) as [->|]; [left; eauto|right].
      exists id, lv. repeat split; try done; lia.
Qed.

(** [PruneUpToLevel] with its sequencing unfolded. *)
Lemma PruneUpToLevel_run f level :
  LowestLevel f <= level ->
  PruneUpToLevel level f =
  (cl ←? committed_levels (S (size (verticesAtLevel f))) f level ∅;
   '(r, f') ←? prune_levels (Z.to_nat (level - LowestLevel f)) cl (LowestLevel f) [] 0 f;
   Ret (inr r, set_lowest level f')).
Proof.
  intros El. unfold PruneUpToLevel, gbind, gets, lift, modify, ret.
  rewrite (proj2 (Z.ltb_ge _ _) El). destruct (committed_levels _ f level ∅) as [cl| | |]; simpl; [|done..].
  by destruct (prune_levels _ _ _ _ _ _) as [[? ?]| | |].
Qed.

(** [PruneUpToLevel]: lowering the level is an error that changes
    nothing; otherwise, for the committed levels [cl] its walk finds, exactly
    the entries below the new level are removed and counted, the lowest level is
    set, the invariant is preserved, and the blocks reported as forked are
    exactly the removed blocks above level 1 at a level not in [cl]; it panics
    (or does not end) exactly when the walk does. *)
Lemma PruneUpToLevel_spec f level :
  forest_wf f ->
  if level <? LowestLevel f then
    PruneUpToLevel level f =
      Ret (inl "new lowest level cannot be smaller than previous last retained level"%string, f)
  else match committed_levels (S (size (verticesAtLevel f))) f level ∅ with
  | Ret cl => exists forked f',
      PruneUpToLevel level f =
        Ret (inr (forked, Z.of_nat (size (abs f)) - Z.of_nat (size (abs f'))), f') /\
      forest_wf f' /\ LowestLevel f' = level /\
      abs f' = filter (fun '(_, e) => level <= e.1) (abs f) /\
      (forall b, (b ∈ forked) <->
        exists id lv, abs f !! id = Some (lv, Some b) /\ 1 < lv < level /\ lv ∉ cl)
  | Panic => PruneUpToLevel level f = Panic
  | Diverge => PruneUpToLevel level f = Diverge
  | OutOfFuel => PruneUpToLevel level f = OutOfFuel
  end.
Proof.
  intros H. destruct (level <? LowestLevel f) eqn:El.
  { unfold PruneUpToLevel, gbind, gets. by rewrite El. }
  apply Z.ltb_ge in El. rewrite PruneUpToLevel_run by done.
  destruct (committed_levels _ f level ∅) as [cl| | |]; [|done..].
  destruct (prune_levels_run cl (Z.to_nat (level - LowestLevel f)) (LowestLevel f) f [] 0 H)
    as (f' & Hrun & Hwf & Hlow & Habs).
  rewrite Z2Nat.id in Habs by lia.
  assert (Hlows : forall id e, abs f !! id = Some e -> LowestLevel f <= e.1).
  { intros id e. rewrite abs_lookup. unfold container_of.
    destruct (vertices f !! id) as [l|] eqn:Hl; [|done].
    destruct (wf_vertices _ H _ _ Hl) as (c & Hc & _). rewrite Hc. intros [= <-]. by eapply (wf_low _ H). }
  assert (Habs' : abs f' = filter (fun '(_, e) => level <= e.1) (abs f)).
  { rewrite Habs. apply map_filter_ext. intros id e He%Hlows. simpl. lia. }
  cbn [obind]. rewrite Hrun.
  exists (forked_blocks f cl (LowestLevel f) (Z.to_nat (level - LowestLevel f))), (set_lowest level f').
  split; [done|]. split; [|split; [done|split; [done|]]].
  - destruct Hwf as [W1 W2 W3 W4 W5 W6]. split; try done. simpl. intros id l c Hl Hc.
    assert (He : abs f' !! id = Some (entry_of c)).
    { rewrite abs_lookup. unfold container_of. by rewrite Hl, Hc. }
    rewrite Habs', map_lookup_filter_Some in He. apply He.
  - intros b. rewrite elem_of_forked_blocks, Z2Nat.id by (done || lia). split.
    + intros (id & lv & ? & ? & ? & ?). exists id, lv. repeat split; try done; lia.
    + intros (id & lv & He & ? & ?). exists id, lv. pose proof (Hlows _ _ He). simpl in *.
      repeat split; try done; lia.
Qed.

(** ** The walk over the committed levels *)

(** Every stored block sits at its own level, carries a certificate and has a
    lower parent; [sequential]: one container per level, as the comment in
    [PruneUpToLevel] assumes. *)
Record consistent (f : LevelledForest) : Prop := mkConsistent {
  cons_level : forall id lv b, abs f !! id = Some (lv, Some b) -> lv = Level b;
  cons_qc : forall id b, GetVertex f id = Some b -> b_QC b <> None;
  cons_parent : forall id b p, GetVertex f id = Some b -> GetVertex f (b_PrevID b) = Some p ->
    Level p < Level b }.
Definition sequential (f : LevelledForest) : Prop := forall l, (length (level_list f l) <= 1)%nat.

(** The stored blocks the walk from [b] passes: its ancestors at retained
    levels, not beyond the first block at level at most one. *)
Inductive prev_chain (f : LevelledForest) : Block -> Block -> Prop :=
| prev_one b p : 1 < Level b -> GetVertex f (b_PrevID b) = Some p -> LowestLevel f <= Level p -> prev_chain f b p
| prev_step b p q : 1 < Level b -> GetVertex f (b_PrevID b) = Some p -> LowestLevel f <= Level p ->
    prev_chain f p q -> prev_chain f b q.

Lemma GetVertex_at_level f id b :
  forest_wf f -> consistent f -> GetVertex f id = Some b ->
  LowestLevel f <= Level b /\ exists v c, v ∈ level_list f (Level b) /\ store f !! v = Some c /\ vc_vertex c = Some b.
Proof.
  intros H Hc Hb. rewrite abs_GetVertex in Hb. destruct (abs f !! id) as [[lv ob]|] eqn:E; [|done].
  simpl in Hb. subst ob. pose proof (cons_level _ Hc _ _ _ E) as ->.
  destruct (proj2 (level_entry f (Level b) b H)) as (v & Hv & Hb); [by exists id|].
  unfold vertex_at in Hb. destruct (store f !! v) as [c|] eqn:Es; [|done].
  destruct (wf_levels _ H _ _ Hv) as (c' & ? & Hlv & Hid). simplify_eq.
  split; [rewrite <- Hlv; by eapply (wf_low _ H)|]. exists v, c. done.
Qed.

Lemma sequential_first f l v : sequential f -> v ∈ level_list f l -> level_list f l !! 0%nat = Some v.
Proof.
  intros Hs Hv. specialize (Hs l). destruct (level_list f l) as [|w [|? ?]]; simpl in *; [|..|lia].
  - by apply elem_of_nil in Hv.
  - by apply list_elem_of_singleton in Hv as ->.
Qed.

Lemma committed_levels_walk f : forest_wf f -> consistent f -> sequential f ->
  forall fuel id b acc,
    (size (below (dom (verticesAtLevel f)) (Level b)) < fuel)%nat -> GetVertex f id = Some b ->
    exists cl, committed_levels fuel f (Level b) acc = Ret cl /\
      forall x, (x ∈ cl) <-> x ∈ acc \/ exists a, prev_chain f b a /\ Level a = x.
Proof.
  intros H Hc Hs fuel. induction fuel as [|fuel IH]; intros id b acc Hfuel Hb; [lia|].
  destruct (GetVertex_at_level f id b H Hc Hb) as (Hlow & v & c & Hv & Hcs & Hcb).
  assert (Hstop : (forall a, ~ prev_chain f b a) -> exists cl, Ret acc = Ret cl /\
    forall x, (x ∈ cl) <-> x ∈ acc \/ exists a, prev_chain f b a /\ Level a = x).
  { intros Hno. exists acc. split; [done|]. intros x. split; [by left|]. by intros [?|(a & []%Hno & _)]. }
  cbn [committed_levels]. rewrite (proj2 (Z.leb_le _ _) Hlow). simpl.
  destruct (1 <? Level b) eqn:E1; [apply Z.ltb_lt in E1|apply Z.ltb_ge in E1]; cycle 1.
  { apply Hstop. intros a Ha. destruct Ha; lia. }
  rewrite (sequential_first _ _ _ Hs Hv). simpl. rewrite Hcs. simpl. rewrite Hcb. simpl.
  pose proof (cons_qc _ Hc _ _ Hb) as Hqc. unfold Parent. destruct (b_QC b) as [qc|]; [|done]. simpl.
  destruct (GetVertex f (b_PrevID b)) as [p|] eqn:Hp; cycle 1.
  { apply Hstop. intros a Ha. destruct Ha; congruence. }
  destruct (GetVertex_at_level f _ p H Hc Hp) as (Hlowp & vp & _ & Hvp & _).
  rewrite (proj2 (Z.ltb_ge _ _) Hlowp).
  destruct (IH (b_PrevID b) p ({[Level p]} ∪ acc)) as (cl & Hrun & Hcl); [|done|].
  { enough (size (below (dom (verticesAtLevel f)) (Level p)) <
            size (below (dom (verticesAtLevel f)) (Level b)))%nat by lia.
    apply below_shrink; [|by eapply (cons_parent _ Hc)]. apply elem_of_dom.
    unfold level_list in Hvp. destruct (verticesAtLevel f !! Level p); [done|]. by apply elem_of_nil in Hvp. }
  exists cl. split; [done|]. intros x. rewrite Hcl, elem_of_union, elem_of_singleton. split.
  - intros [[->|?]|(a & Ha & <-)]; [right; exists p; split; [by apply prev_one|done] | by left |].
    right. exists a. split; [by eapply prev_step|done].
  - intros [?|(a & Ha & <-)]; [by left; right|]. destruct Ha as [b p'|b p' q ? Hp' ? Hq]; simplify_eq.
    + by left; left.
    + right. eauto.
Qed.

(** In a consistent forest with one container per level the walk from a
    stored block ends within the fuel given, does not panic, and returns exactly
    the levels of that block's retained ancestors. *)
Lemma committed_levels_spec f id b :
  forest_wf f -> consistent f -> sequential f -> GetVertex f id = Some b ->
  exists cl, committed_levels (S (size (verticesAtLevel f))) f (Level b) ∅ = Ret cl /\
    forall x, (x ∈ cl) <-> exists a, prev_chain f b a /\ Level a = x.
Proof.
  intros H Hc Hs Hb.
  destruct (committed_levels_walk f H Hc Hs (S (size (verticesAtLevel f))) id b ∅)
    as (cl & Hrun & Hcl); [|done|].
  - pose proof (below_size (dom (verticesAtLevel f)) (Level b)). rewrite size_dom in *. lia.
  - exists cl. split; [done|]. intros x. rewrite Hcl.
    split; [intros [[]%not_elem_of_empty|?]; done | by right].
Qed.

(** The same loop never runs forever when the first block of every level has a
    lower stored parent, however many containers a level has. *)
Definition first_descends (f : LevelledForest) : Prop :=
  forall l v b p, level_list f l !! 0%nat = Some v -> vertex_at f v = Some b ->
    GetVertex f (b_PrevID b) = Some p -> Level p < l.

Lemma consistent_descends f : forest_wf f -> consistent f -> first_descends f.
Proof.
  intros H Hc l v b p Hv Hb Hp.
  destruct (proj1 (level_entry f l b H)) as (id & Hid).
  { exists v. split; [by eapply list_elem_of_lookup_2 | done]. }
  pose proof (cons_level _ Hc _ _ _ Hid) as ->. eapply (cons_parent _ Hc id); [|done].
  by rewrite abs_GetVertex, Hid.
Qed.

Lemma committed_levels_ends f :
  first_descends f ->
  forall fuel l acc, (size (below (dom (verticesAtLevel f)) (l + 1)) < fuel)%nat ->
  returns (committed_levels fuel f l acc) \/ committed_levels fuel f l acc = Panic.
Proof.
  intros Hdesc fuel. induction fuel as [|fuel IH]; intros l acc Hfuel; [lia|].
  cbn [committed_levels]. unfold returns. destruct (_ && _); [|by eauto].
  destruct (level_list f l !! 0%nat) as [v|] eqn:Hl; simpl; [|by eauto].
  destruct (store f !! v) as [c|] eqn:Hc; simpl; [|by eauto].
  destruct (vc_vertex c) as [b|] eqn:Hb; simpl; [|by eauto].
  unfold Parent. destruct (b_QC b); simpl; [|by eauto].
  destruct (GetVertex f (b_PrevID b)) as [p|] eqn:Hp; [|by eauto].
  destruct (Level p <? LowestLevel f); [by eauto|]. apply IH.
  assert (Hlt : Level p < l).
  { eapply (Hdesc l v b); [done | unfold vertex_at; by rewrite Hc | done]. }
  assert (l ∈ dom (verticesAtLevel f)).
  { apply elem_of_dom. unfold level_list in Hl. by destruct (verticesAtLevel f !! l). }
  pose proof (below_shrink (dom (verticesAtLevel f)) l (l + 1)) as Hsh.
  enough (size (below (dom (verticesAtLevel f)) (Level p + 1)) <=
          size (below (dom (verticesAtLevel f)) l))%nat by (specialize (Hsh ltac:(done) ltac:(lia)); lia).
  apply subseteq_size. unfold below. intros x. rewrite !elem_of_filter. intros [??]. split; [lia|done].
Qed.

(** C25.  In a consistent forest [PruneUpToLevel] never loops: it returns or
    panics, for any target level. *)
Theorem PruneUpToLevel_ends f level :
  forest_wf f -> consistent f -> returns (PruneUpToLevel level f) \/ PruneUpToLevel level f = Panic.
Proof.
  intros H Hc. destruct (Z.lt_ge_cases level (LowestLevel f)) as [El|El].
  - unfold PruneUpToLevel, gbind, gets, returns. rewrite (proj2 (Z.ltb_lt _ _) El). left. by eexists.
  - rewrite PruneUpToLevel_run by done.
    destruct (committed_levels_ends f (consistent_descends f H Hc)
      (S (size (verticesAtLevel f))) level ∅) as [[cl ->]| ->]; [|..|by right].
    + pose proof (below_size (dom (verticesAtLevel f)) (level + 1)). rewrite size_dom in *. lia.
    + destruct (prune_levels_run cl (Z.to_nat (level - LowestLevel f)) (LowestLevel f) f [] 0 H) as (f' & Hrun & _).
      cbn [obind]. rewrite Hrun. left. by eexists.
Qed.

(** The level the loop goes to from level [l]. *)
Definition next_level (f : LevelledForest) (l : Z) : option Z :=
  if (LowestLevel f <=? l) && (1 <? l) then
    match level_list f l with
    | v :: _ =>
        match vertex_at f v with
        | Some b =>
            match b_QC b, GetVertex f (b_PrevID b) with
            | Some _, Some p => if Level p <? LowestLevel f then None else Some (Level p)
            | _, _ => None
            end
        | None => None
        end
    | [] => None
    end
  else None.

Lemma committed_levels_step fuel f l acc :
  match next_level f l with
  | Some l' => committed_levels (S fuel) f l acc = committed_levels fuel f l' ({[l']} ∪ acc)
  | None => committed_levels (S fuel) f l acc = Ret acc \/ committed_levels (S fuel) f l acc = Panic
  end.
Proof.
  cbn [committed_levels]. unfold next_level, vertex_at. destruct (_ && _); [|by left].
  destruct (level_list f l) as [|v vs]; simpl; [by right|].
  destruct (store f !! v) as [c|]; simpl; [|by right]. destruct (vc_vertex c) as [b|]; simpl; [|by right].
  unfold Parent. destruct (b_QC b); simpl; [|by right].
  destruct (GetVertex f (b_PrevID b)) as [p|]; [|by left]. by destruct (Level p <? LowestLevel f); [left|].
Qed.

(** The same as a relation: from level [l] to the level of the stored parent of
    the first vertex at [l]. *)
Definition level_link (f : LevelledForest) (l l' : Z) : Prop :=
  LowestLevel f <= l /\ 1 < l /\ exists v b p, level_list f l !! 0%nat = Some v /\ vertex_at f v = Some b /\
    b_QC b <> None /\ GetVertex f (b_PrevID b) = Some p /\ LowestLevel f <= Level p /\ l' = Level p.

Lemma level_link_next f l l' : level_link f l l' <-> next_level f l = Some l'.
Proof.
  unfold level_link, next_level. destruct (Z.leb_spec (LowestLevel f) l), (Z.ltb_spec 1 l); simpl;
    try (split; [lia | done]).
  destruct (level_list f l) as [|v vs]; simpl; [split; [by intros (_ & _ & ? & ? & ? & ? & _) | done]|].
  destruct (vertex_at f v) as [b|] eqn:Hb; cycle 1.
  { split; [|done]. intros (_ & _ & w & b & p & [= ->] & Hw & _). congruence. }
  destruct (b_QC b) as [q|] eqn:Hq; cycle 1.
  { split; [|done]. intros (_ & _ & w & c & p & [= <-] & Hw & Hn & _). congruence. }
  destruct (GetVertex f (b_PrevID b)) as [p|] eqn:Hp; cycle 1.
  { split; [|done]. intros (_ & _ & w & c & p & [= <-] & Hw & _ & Hg & _). simplify_eq. }
  destruct (Z.ltb_spec (Level p) (LowestLevel f)); split; try done.
  - intros (_ & _ & w & c & p' & [= <-] & Hw & _ & Hg & Hl & _). simplify_eq. lia.
  - intros (_ & _ & w & c & p' & [= <-] & Hw & _ & Hg & _ & ->). by simplify_eq.
  - intros [= <-]. do 2 (split; [done|]). exists v, b, p. split_and!; try done. by rewrite Hq.
Qed.

Lemma committed_levels_walks f : forall fuel l acc,
  (committed_levels fuel f l acc = Diverge -> walks (next_level f) fuel l) /\
  (walks (next_level f) (S fuel) l -> committed_levels fuel f l acc = Diverge).
Proof.
  induction fuel as [|fuel IH]; intros l acc.
  - split; [done|]. intros (l' & Hl & _). unfold next_level in Hl. simpl. by destruct (_ && _).
  - pose proof (committed_levels_step fuel f l acc) as Hst. split.
    + intros Hd. destruct (next_level f l) as [l'|] eqn:E; [|destruct Hst; congruence].
      exists l'. split; [done|]. eapply (IH l'). by rewrite <- Hst.
    + intros (l' & E & Hw). rewrite E in Hst. rewrite Hst. by apply IH.
Qed.

(** It does not end exactly when the levels it visits go round. *)
Lemma committed_levels_loops f l acc :
  committed_levels (S (size (verticesAtLevel f))) f l acc = Diverge <-> goes_round (level_link f) l.
Proof.
  assert (Hin : forall x y, next_level f x = Some y -> x ∈ dom (verticesAtLevel f)).
  { intros x y. unfold next_level, level_list. rewrite elem_of_dom.
    destruct (_ && _); [|done]. by destruct (verticesAtLevel f !! x). }
  split.
  - intros Hd. eapply (goes_round_mono (walk_link (next_level f))); [by intros x y ?%level_link_next|].
    apply (walks_loops _ (dom (verticesAtLevel f))); [done|]. rewrite size_dom. by eapply committed_levels_walks.
  - intros Hr. apply committed_levels_walks, loops_walks.
    eapply (goes_round_mono (level_link f)); [by intros x y ?%level_link_next | done].
Qed.

(** ** Consistency is kept by additions that fit *)

(** What a block must satisfy: a certificate, an id not referenced at another
    level, a lower stored parent and higher stored children. *)
Record fits (f : LevelledForest) (b : Block) : Prop := mkFits {
  fits_qc : b_QC b <> None;
  fits_level : forall lv ob, abs f !! VertexID b = Some (lv, ob) -> lv = Level b;
  fits_parent : forall p, GetVertex f (b_PrevID b) = Some p -> Level p < Level b;
  fits_children : forall id c, GetVertex f id = Some c -> b_PrevID c = VertexID b -> Level b < Level c;
  fits_self : b_PrevID b <> VertexID b }.

Lemma spec_add_lookup low b m m' id lv x :
  spec_add low b m = Ret m' -> m' !! id = Some (lv, Some x) ->
  m !! id = Some (lv, Some x) \/
  id = VertexID b /\ x = b /\ lv = default (Level b) (fst <$> m !! VertexID b).
Proof.
  unfold spec_add. destruct (Level b <? low); [intros [= <-]; by left|].
  rewrite spec_touch_lookup.
  assert (Hins : forall k (m2 := <[VertexID b := (k, Some b)]> m), 
     k = default (Level b) (fst <$> m !! VertexID b) -> m2 !! id = Some (lv, Some x) ->
     m !! id = Some (lv, Some x) \/ id = VertexID b /\ x = b /\ lv = default (Level b) (fst <$> m !! VertexID b)).
  { intros k m2 Hk. unfold m2. rewrite lookup_insert. case_decide as E; [|by left].
    intros Hx. simplify_eq. by right. }
  destruct (default (Level b, None) (m !! VertexID b)) as [k [b'|]] eqn:Ed; [intros [= <-]; by left|].
  assert (Hk : k = default (Level b) (fst <$> m !! VertexID b)).
  { destruct (m !! VertexID b) as [[]|]; simpl in *; congruence. }
  destruct (k <=? low); [intros [= <-]; by apply Hins|].
  destruct (Parent b) as [[pid plv]| | |]; simpl; try done.
  destruct (plv <? low); intros [= <-]; [by apply Hins|].
  unfold spec_touch. destruct (<[VertexID b:=(k, Some b)]> m !! pid) eqn:Ep; [by apply Hins|].
  rewrite lookup_insert. case_decide; [by intros [= <- ?]|]. by apply Hins.
Qed.

Lemma spec_touch_effect id lv m k : spec_touch id lv m !! k ≫= snd = m !! k ≫= snd.
Proof.
  destruct (decide (id = k)) as [->|Hne].
  - rewrite spec_touch_lookup. by destruct (m !! k).
  - unfold spec_touch. destruct (m !! id); [done|]. by rewrite lookup_insert_ne.
Qed.

Lemma spec_touch_dom id lv m : dom m ⊆ dom (spec_touch id lv m).
Proof. unfold spec_touch. destruct (m !! id); [done|]. rewrite dom_insert_L. apply union_subseteq_r. Qed.

Lemma spec_add_effect low b m m' :
  spec_add low b m = Ret m' ->
  (low <= Level b -> m' !! VertexID b ≫= snd = Some (default b (m !! VertexID b ≫= snd))) /\
  (forall id, id <> VertexID b -> m' !! id ≫= snd = m !! id ≫= snd) /\
  dom m ⊆ dom m'.
Proof.
  unfold spec_add. destruct (Level b <? low) eqn:El.
  { intros [= <-]. split; [lia|done]. }
  rewrite spec_touch_lookup.
  destruct (default (Level b, None) (m !! VertexID b)) as [k [b'|]] eqn:Ed.
  { intros [= <-]. split; [|done]. intros _. destruct (m !! VertexID b) as [e|]; simpl in Ed; [by subst|done]. }
  assert (Hnone : m !! VertexID b ≫= snd = None).
  { destruct (m !! VertexID b); simpl in *; [by subst | done]. }
  rewrite Hnone. set (m2 := <[VertexID b := (k, Some b)]> m).
  assert (H1 : m2 !! VertexID b ≫= snd = Some b) by (unfold m2; by rewrite lookup_insert_eq).
  assert (H2 : forall id, id <> VertexID b -> m2 !! id ≫= snd = m !! id ≫= snd).
  { intros id Hid. unfold m2. by rewrite lookup_insert_ne. }
  assert (H3 : dom m ⊆ dom m2) by (unfold m2; rewrite dom_insert_L; apply union_subseteq_r).
  destruct (k <=? low); [by intros [= <-]|].
  destruct (Parent b) as [[pid plv]| | |]; simpl; try done.
  destruct (plv <? low); intros [= <-]; [done|]. split; [|split].
  - intros _. by rewrite spec_touch_effect.
  - intros id Hid. rewrite spec_touch_effect. by apply H2.
  - etrans; [exact H3 | apply spec_touch_dom].
Qed.

(** Adding a block that fits keeps the forest consistent: every stored block at
    its own level, with a certificate, above its stored parent. *)
Lemma add_consistent f b f' :
  forest_wf f -> consistent f -> fits f b -> AddVertex b f = Ret (tt, f') -> consistent f'.
Proof.
  intros H Hc [Fq Fl Fp Fch Fs] Hrun. pose proof (AddVertex_spec f b H) as Hr. revert Hr.
  destruct (spec_add (LowestLevel f) b (abs f)) as [m| | |] eqn:Hm; [|intros; congruence..].
  intros (f2 & Hrun2 & Hwf & Habs & _). rewrite Hrun in Hrun2. injection Hrun2 as <-.
  assert (Hlk : forall id lv x, abs f' !! id = Some (lv, Some x) ->
    lv = Level x /\ (abs f !! id = Some (lv, Some x) \/ id = VertexID b /\ x = b)).
  { intros id lv x Hx. rewrite Habs in Hx. destruct (spec_add_lookup _ _ _ _ _ _ _ Hm Hx) as [?|(-> & -> & ->)].
    - split; [by eapply (cons_level _ Hc) | by left].
    - split; [|by right]. destruct (abs f !! VertexID b) as [[k ob]|] eqn:E; simpl; [by eapply Fl | done]. }
  assert (Hgv : forall id x, GetVertex f' id = Some x -> GetVertex f id = Some x \/ id = VertexID b /\ x = b).
  { intros id x. rewrite !abs_GetVertex. destruct (abs f' !! id) as [[lv [y|]]|] eqn:E; simpl; try done.
    intros [= ->]. destruct (Hlk _ _ _ E) as [_ [->|?]]; [by left|by right]. }
  split.
  - intros id lv x Hx. by apply Hlk in Hx as [? _].
  - intros id x [Hx|[_ ->]]%Hgv; [by eapply (cons_qc _ Hc) | done].
  - intros id x p [Hx|[-> ->]]%Hgv [Hp|[Hp1 ->]]%Hgv.
    + by eapply (cons_parent _ Hc).
    + by eapply Fch.
    + by apply Fp.
    + done.
Qed.

(** First writer wins: after a returning [AddVertex b] at a retained level
    the id of [b] maps to the block stored first, every other id maps to what it
    did before, nothing becomes unknown, and below the lowest level the forest
    is untouched. *)
Theorem AddVertex_first_wins f b f' :
  forest_wf f -> AddVertex b f = Ret (tt, f') ->
  (Level b < LowestLevel f -> f' = f) /\
  (LowestLevel f <= Level b ->
     GetVertex f' (VertexID b) = Some (default b (GetVertex f (VertexID b)))) /\
  (forall id, id <> VertexID b -> GetVertex f' id = GetVertex f id) /\
  dom (abs f) ⊆ dom (abs f').
Proof.
  intros H Hrun.
  assert (Hlt : Level b < LowestLevel f -> f' = f).
  { intros El%Z.ltb_lt. unfold AddVertex, gbind, gets in Hrun. rewrite El in Hrun. by injection Hrun. }
  pose proof (AddVertex_spec f b H) as Hr. revert Hr.
  destruct (spec_add (LowestLevel f) b (abs f)) as [m| | |] eqn:Hm; [|intros; congruence..].
  intros (f2 & Hrun2 & Hwf & Habs & _). rewrite Hrun in Hrun2. injection Hrun2 as <-.
  split; [done|]. rewrite <- Habs in Hm.
  destruct (spec_add_effect _ _ _ _ Hm) as (H1 & H2 & H3).
  split; [|split; [|done]].
  - intros El. rewrite !abs_GetVertex. by apply H1.
  - intros id Hid. rewrite !abs_GetVertex. by apply H2.
Qed.

(** Pruning to the level of a stored block [b], in a consistent forest
    with one container per level, returns; exactly the entries below that level
    disappear; the lowest level is that level; and a removed block above level 1
    is reported as forked exactly when its level is not that of an ancestor of
    [b]. *)
Lemma PruneUpToLevel_exact f id b :
  forest_wf f -> consistent f -> sequential f -> GetVertex f id = Some b ->
  exists forked no f', PruneUpToLevel (Level b) f = Ret (inr (forked, no), f') /\
    forest_wf f' /\ LowestLevel f' = Level b /\
    abs f' = filter (fun '(_, e) => Level b <= e.1) (abs f) /\
    no = Z.of_nat (size (abs f)) - Z.of_nat (size (abs f')) /\
    (forall x, x ∈ forked <-> exists i, GetVertex f i = Some x /\ 1 < Level x < Level b /\
       forall a, prev_chain f b a -> Level a <> Level x).
Proof.
  intros H Hc Hs Hb.
  destruct (committed_levels_spec f id b H Hc Hs Hb) as (cl & Hcl & Hin).
  destruct (GetVertex_at_level f id b H Hc Hb) as (Hlow & _).
  pose proof (PruneUpToLevel_spec f (Level b) H) as Hp.
  rewrite (proj2 (Z.ltb_ge _ _) Hlow), Hcl in Hp.
  destruct Hp as (forked & f' & Hrun & Hwf & Hl & Habs & Hf).
  exists forked, (Z.of_nat (size (abs f)) - Z.of_nat (size (abs f'))), f'. do 5 (split; [done|]).
  intros x. rewrite Hf. split.
  - intros (i & lv & He & ? & Hn). pose proof (cons_level _ Hc _ _ _ He) as ->.
    exists i. rewrite abs_GetVertex, He. split; [done|]. split; [done|].
    intros a Ha E. apply Hn, Hin. by exists a.
  - intros (i & Hi & ? & Hn). rewrite abs_GetVertex in Hi.
    destruct (abs f !! i) as [[lv ob]|] eqn:E; simpl in Hi; [|done]. subst ob.
    pose proof (cons_level _ Hc _ _ _ E) as ->. exists i, (Level x). do 2 (split; [done|]).
    intros (a & Ha & ?)%Hin. by apply (Hn a).
Qed.

Lemma prev_chain_below f id b a :
  consistent f -> GetVertex f id = Some b -> prev_chain f b a ->
  Level a < Level b /\ exists i, GetVertex f i = Some a.
Proof.
  intros Hc Hb Ha. revert id Hb. induction Ha as [b p|b p q ? Hp ? _ IH]; intros id Hb.
  - split; [by eapply (cons_parent _ Hc) | by eauto].
  - destruct (IH _ Hp) as [? ?]. pose proof (cons_parent _ Hc _ _ _ Hb Hp). split; [lia|done].
Qed.

Lemma sequential_unique f i j x y :
  forest_wf f -> consistent f -> sequential f ->
  GetVertex f i = Some x -> GetVertex f j = Some y -> Level x = Level y -> x = y.
Proof.
  intros H Hc Hs Hx Hy E.
  destruct (GetVertex_at_level f i x H Hc Hx) as (_ & v & c & Hv & Hcv & Hxv).
  destruct (GetVertex_at_level f j y H Hc Hy) as (_ & w & d & Hw & Hdw & Hyw).
  rewrite E in Hv. apply (sequential_first _ _ _ Hs) in Hv, Hw. simplify_eq. done.
Qed.

Lemma pruned_lookup f f' b i x :
  consistent f -> abs f' = filter (fun '(_, e) => Level b <= e.1) (abs f) -> GetVertex f i = Some x ->
  GetVertex f' i = if Level b <=? Level x then Some x else None.
Proof.
  intros Hc Habs Hx. rewrite abs_GetVertex in Hx |- *. destruct (abs f !! i) as [[lv ob]|] eqn:E; simpl in Hx; [|done].
  subst ob. pose proof (cons_level _ Hc _ _ _ E) as ->. rewrite Habs.
  destruct (Z.leb_spec (Level b) (Level x)).
  - by rewrite (map_lookup_filter_Some_2 _ _ _ _ E).
  - rewrite map_lookup_filter_None_2; [done|]. right. intros e He Hle.
    rewrite E in He. injection He as <-. simpl in Hle. lia.
Qed.

(** C24.  No block disappears silently: in a consistent forest with one container
    per level -- what the comment in [PruneUpToLevel] assumes -- pruning to the
    level of a stored block [b] returns, and for every stored block exactly one
    of these holds: it is retained; it is removed and reported as forked; it is
    removed, not reported and an ancestor of [b]; it is removed and not reported
    although no ancestor, and then its level is at most 1. *)
Theorem PruneUpToLevel_partition f id b :
  forest_wf f -> consistent f -> sequential f -> GetVertex f id = Some b ->
  exists forked no f', PruneUpToLevel (Level b) f = Ret (inr (forked, no), f') /\
    forall i x, GetVertex f i = Some x ->
      (GetVertex f' i = Some x /\ (x ∉ forked) /\ ~ prev_chain f b x) \/
      (GetVertex f' i = None /\ x ∈ forked /\ ~ prev_chain f b x) \/
      (GetVertex f' i = None /\ (x ∉ forked) /\ prev_chain f b x) \/
      (GetVertex f' i = None /\ (x ∉ forked) /\ ~ prev_chain f b x /\ Level x <= 1).
Proof.
  intros H Hc Hs Hb.
  destruct (PruneUpToLevel_exact f id b H Hc Hs Hb) as (forked & no & f' & Hrun & _ & _ & Habs & _ & Hf).
  exists forked, no, f'. split; [done|]. intros i x Hx.
  rewrite (pruned_lookup f f' b i x Hc Habs Hx). destruct (Z.leb_spec (Level b) (Level x)) as [Hle|Hlt].
  - left. split; [done|]. split.
    + intros (? & ? & ? & _)%Hf. lia.
    + intros [? _]%(prev_chain_below f id b x Hc Hb). lia.
  - right. destruct (decide (x ∈ forked)) as [Hin|Hout].
    + left. do 2 (split; [done|]). intros Hp. apply Hf in Hin as (_ & _ & _ & Hno). by apply (Hno x).
    + right. destruct (committed_levels_spec f id b H Hc Hs Hb) as (cl & _ & Hin).
      destruct (decide (Level x ∈ cl)) as [(a & Ha & E)%Hin|Hn].
      * left. do 2 (split; [done|]). destruct (prev_chain_below f id b a Hc Hb Ha) as (_ & j & Hj).
        by rewrite <- (sequential_unique f j i a x H Hc Hs Hj Hx E).
      * right. do 2 (split; [done|]). split; [intros Ha; apply Hn, Hin; by exists x|].
        destruct (Z.le_gt_cases (Level x) 1) as [|Hgt]; [done|]. exfalso. apply Hout, Hf.
        exists i. do 2 (split; [done|]). intros a Ha E. apply Hn, Hin. by exists a.
Qed.

(** ** Simulation *)

(** The steps a client can take, and the abstract steps. *)
Inductive forest_step (f : LevelledForest) : LevelledForest -> Prop :=
| step_add b f' : AddVertex b f = Ret (tt, f') -> forest_step f f'
| step_prune level r f' : PruneUpToLevel level f = Ret (r, f') -> forest_step f f'.

Inductive spec_step (m : gmap Identifier entry) (low : Z) : gmap Identifier entry -> Z -> Prop :=
| spec_step_add b m' : spec_add low b m = Ret m' -> spec_step m low m' low
| spec_step_prune level : low <= level ->
    spec_step m low (filter (fun '(_, e) => level <= e.1) m) level
| spec_step_refused : spec_step m low m low.

Definition spec_state : Type := gmap Identifier entry * Z.
Definition spec_rel (s s' : spec_state) : Prop := spec_step s.1 s.2 s'.1 s'.2.
Definition abs_state (f : LevelledForest) : spec_state := (abs f, LowestLevel f).

Lemma forest_step_sim f f' :
  forest_wf f -> forest_step f f' -> forest_wf f' /\ spec_rel (abs_state f) (abs_state f').
Proof.
  intros H [b f2 Hrun|level r f2 Hrun].
  - pose proof (AddVertex_spec f b H) as Hr. revert Hr.
    destruct (spec_add (LowestLevel f) b (abs f)) as [m| | |] eqn:Hm; [|intros; congruence..].
    intros (f3 & Hrun2 & Hwf & Habs & Hlow). rewrite Hrun in Hrun2. injection Hrun2 as <-.
    split; [done|]. unfold spec_rel. simpl. rewrite Hlow. apply spec_step_add with b. by rewrite Habs.
  - pose proof (PruneUpToLevel_spec f level H) as Hr. revert Hr.
    destruct (level <? LowestLevel f) eqn:El.
    { intros Hr. rewrite Hrun in Hr. injection Hr as -> ->. split; [done|]. constructor. }
    destruct (committed_levels _ f level ∅) as [cl| | |]; [|intros; congruence..].
    intros (fk & f3 & Hrun2 & Hwf & Hlow & Habs & _). rewrite Hrun in Hrun2. injection Hrun2 as _ ->.
    split; [done|]. unfold spec_rel. simpl. rewrite Hlow, Habs. constructor. lia.
Qed.

Lemma forest_steps_sim f f' :
  rtc forest_step f f' -> forest_wf f -> forest_wf f' /\ rtc spec_rel (abs_state f) (abs_state f').
Proof.
  induction 1 as [f|f1 f2 f3 Hstep _ IH]; intros H; [done|].
  destruct (forest_step_sim _ _ H Hstep) as [H2 Hs]. destruct (IH H2) as [H3 Hrest].
  split; [done|]. by eapply rtc_l.
Qed.

(** C5.  Every forest reachable from the empty one by [AddVertex] and
    [PruneUpToLevel], in any order and with any arguments, satisfies the
    invariant, and its abstraction is reachable by the abstract steps. *)
Theorem forest_simulation f :
  rtc forest_step NewLevelledForest f ->
  forest_wf f /\ rtc spec_rel (∅, 0) (abs_state f).
Proof.
  intros Hr. apply (forest_steps_sim _ _ Hr), NewLevelledForest_wf.
Qed.

(** ** The iterator *)

Lemma preLoad_from_spec f rest : forall idx data,
  drop idx data = rest ->
  let '(i, v) := preLoad_from f idx rest in
  v = head (omap (vertex_at f) rest) /\ omap (vertex_at f) (drop i data) = tail (omap (vertex_at f) rest) /\
  (length (drop i data) <= length rest)%nat.
Proof.
  induction rest as [|l rest IH]; intros idx data Hd; simpl.
  - rewrite Hd. done.
  - assert (Hd' : drop (S idx) data = rest).
    { replace (S idx) with (idx + 1)%nat by lia. by rewrite <- drop_drop, Hd. }
    destruct (vertex_at f l) as [b|]; simpl.
    + rewrite Hd'. split; [done|]. split; [done|lia].
    + specialize (IH (S idx) data Hd'). destruct (preLoad_from f (S idx) rest) as [i v].
      destruct IH as (? & ? & ?). do 2 (split; [done|]). lia.
Qed.

(** The blocks an iterator still has to yield. *)
Definition remaining (f : LevelledForest) (it : VertexIterator) : list Block :=
  match it_next it with
  | None => []
  | Some b => b :: omap (vertex_at f) (drop (it_idx it) (it_data it))
  end.

Lemma preLoad_remaining f it :
  remaining f (preLoad f it) = omap (vertex_at f) (drop (it_idx it) (it_data it)).
Proof.
  unfold preLoad, remaining.
  pose proof (preLoad_from_spec f _ (it_idx it) (it_data it) eq_refl) as Hp.
  destruct (preLoad_from f (it_idx it) _) as [i v]. simpl. destruct Hp as (-> & Ht & _).
  destruct (omap (vertex_at f) (drop (it_idx it) (it_data it))); [done|]. simpl in *. by rewrite Ht.
Qed.

Lemma drain_remaining f fuel : forall it,
  (length (remaining f it) <= fuel)%nat -> drain fuel f it = Ret (remaining f it).
Proof.
  induction fuel as [|fuel IH]; intros it Hlen; cbn [drain]; unfold HasNext.
  - unfold remaining in *. destruct (it_next it); [simpl in Hlen; lia|done].
  - destruct (it_next it) as [b|] eqn:Hn; simpl; cycle 1.
    { unfold remaining. by rewrite Hn. }
    rewrite Hn. simpl. unfold remaining in Hlen |- *. rewrite Hn in Hlen |- *. simpl in Hlen.
    rewrite IH, preLoad_remaining; [done|]. rewrite preLoad_remaining. lia.
Qed.

Lemma omap_vertex_cons f c l :
  omap (vertex_at f) (c :: l) =
  match vertex_at f c with Some y => y :: omap (vertex_at f) l | None => omap (vertex_at f) l end.
Proof. done. Qed.

Lemma count_full_from f l : forall n,
  foldl (fun num c => if bool_decide (vertex_at f c <> None) then num + 1 else num) n l
  = n + Z.of_nat (length (omap (vertex_at f) l)).
Proof.
  induction l as [|c l IH]; intros n; [simpl; lia|]. cbn [foldl]. rewrite IH.
  rewrite omap_vertex_cons.
  clear IH. destruct (vertex_at f c); cbn [length];
    [rewrite bool_decide_true by done | rewrite bool_decide_false by tauto]; lia.
Qed.

Lemma count_full_omap f l : count_full f l = Z.of_nat (length (omap (vertex_at f) l)).
Proof. unfold count_full. by rewrite count_full_from. Qed.

(** The blocks of the full containers of a list, in order. *)
Definition full_vertices (f : LevelledForest) (l : list nat) : list Block := omap (vertex_at f) l.

(** Draining the iterator of a level (or of a children list) yields
    exactly the full vertices in insertion order, skipping empty containers,
    within as many steps as there are containers, and their number is what
    [GetNumberOfVerticesAtLevel] ([GetNumberOfChildren]) reports. *)
Theorem iterator_drains f l :
  drain (length l) f (newVertexIterator f l) = Ret (full_vertices f l) /\
  count_full f l = Z.of_nat (length (full_vertices f l)).
Proof.
  unfold full_vertices.
  split; [|apply count_full_omap].
  assert (Hr : remaining f (newVertexIterator f l) = omap (vertex_at f) l).
  { unfold newVertexIterator. by rewrite preLoad_remaining. }
  rewrite drain_remaining; rewrite Hr; [done|].
  clear Hr. induction l as [|c l IH]; [done|]. rewrite omap_vertex_cons.
  destruct (vertex_at f c); cbn [length] in *; lia.
Qed.

(** ** VerifyVertex *)

(** When a block [b] with certificate [qc] may enter the forest: below the lowest
    level anything may; a stored id must come back at its level and (above the
    lowest level) with its parent; a new id above the lowest level needs a parent
    level smaller than its own, the level of the stored parent if there is one. *)
Definition acceptable (f : LevelledForest) (b : Block) (qc : QC) : Prop :=
  Level b < LowestLevel f \/
  match GetVertex f (VertexID b) with
  | Some s => Level s = Level b /\
      (Level b <= LowestLevel f \/ Parent s = Ret (b_PrevID b, u64 (qc_View qc)))
  | None => Level b = LowestLevel f \/
      u64 (qc_View qc) < Level b /\
      (forall p, GetVertex f (b_PrevID b) = Some p -> Level p = u64 (qc_View qc))
  end.

(** On a forest whose blocks carry certificates, [VerifyVertex] of a block
    with a certificate never panics, and it accepts exactly the [acceptable]
    ones. *)
Theorem VerifyVertex_spec f b qc :
  b_QC b = Some qc ->
  (forall id s, GetVertex f id = Some s -> b_QC s <> None) ->
  returns (VerifyVertex f b) /\
  (VerifyVertex f b = Ret None <-> acceptable f b qc).
Proof.
  intros Hqc Hall. unfold acceptable, VerifyVertex, isEquivalentToStoredVertex, verifyParent, returns.
  destruct (Z.ltb_spec (Level b) (LowestLevel f)); [naive_solver|].
  destruct (GetVertex f (VertexID b)) as [s|] eqn:Hs.
  - destruct (Z.eqb_spec (Level b) (Level s)) as [E|E]; simpl; [|naive_solver lia].
    destruct (Z.leb_spec (Level b) (LowestLevel f)); simpl; [naive_solver lia|].
    specialize (Hall _ _ Hs). unfold Parent. rewrite Hqc. destruct (b_QC s) as [sq|]; [|done]. simpl.
    case_bool_decide; simpl; [|naive_solver lia].
    destruct (Z.eqb_spec (u64 (qc_View qc)) (u64 (qc_View sq))); simpl; naive_solver (lia || congruence).
  - simpl. destruct (Z.eqb_spec (Level b) (LowestLevel f)); [naive_solver|].
    unfold Parent. rewrite Hqc. simpl.
    destruct (Z.ltb_spec (u64 (qc_View qc)) (Level b)); simpl; cycle 1.
    { split; [by eauto|]. split; [done|]. intros [?|[?|[? _]]]; lia. }
    destruct (GetVertex f (b_PrevID b)) as [p|]; [|naive_solver].
    destruct (Z.eqb_spec (Level p) (u64 (qc_View qc))) as [E|E]; simpl; (split; [by eauto|]); (split; [|try done]).
    + intros _. right. right. split; [done|]. by intros ? [= <-].
    + done.
    + intros [?|[?|[_ Hp]]]; [lia|done|]. by destruct (E (Hp p eq_refl)).
Qed.

(** ** Decision procedures for concrete forests *)

Definition entry_ok (f : LevelledForest) (e : entry) : bool :=
  match e.2 with
  | None => true
  | Some b =>
      (e.1 =? Level b) && bool_decide (b_QC b <> None) &&
      match GetVertex f (b_PrevID b) with Some p => Level p <? Level b | None => true end
  end.
Definition consistentb (f : LevelledForest) : bool :=
  bool_decide (map_Forall (fun _ e => entry_ok f e = true) (abs f)).
Definition sequentialb (f : LevelledForest) : bool :=
  bool_decide (map_Forall (fun _ (l : list nat) => (length l <=? 1)%nat = true) (verticesAtLevel f)).

Lemma consistentb_sound f : consistentb f = true -> consistent f.
Proof.
  intros Hb%bool_decide_eq_true.
  assert (Hok : forall id lv b, abs f !! id = Some (lv, Some b) -> lv = Level b /\ b_QC b <> None /\
    forall p, GetVertex f (b_PrevID b) = Some p -> Level p < Level b).
  { intros id lv b He. specialize (Hb _ _ He). unfold entry_ok in Hb. simpl in Hb.
    apply andb_true_iff in Hb as [[?%Z.eqb_eq ?%bool_decide_eq_true]%andb_true_iff Hp].
    do 2 (split; [done|]). intros p Hq. rewrite Hq in Hp. lia. }
  assert (Hgv : forall id b, GetVertex f id = Some b -> exists lv, abs f !! id = Some (lv, Some b)).
  { intros id b. rewrite abs_GetVertex. destruct (abs f !! id) as [[lv ob]|]; simpl; [|done]. intros ->. eauto. }
  split.
  - intros id lv b He. apply (Hok _ _ _ He).
  - intros id b (lv & He)%Hgv. apply (Hok _ _ _ He).
  - intros id b p (lv & He)%Hgv. apply (Hok _ _ _ He).
Qed.

Lemma sequentialb_sound f : sequentialb f = true -> sequential f.
Proof.
  intros Hb%bool_decide_eq_true l. unfold level_list.
  destruct (verticesAtLevel f !! l) as [vs|] eqn:E; simpl; [|lia].
  specialize (Hb _ _ E). simpl in Hb. by apply Nat.leb_le.
Qed.

Definition below_child (b : Block) (e : entry) : bool :=
  match e.2 with
  | Some c => negb (bool_decide (b_PrevID c = VertexID b)) || (Level b <? Level c)
  | None => true
  end.
Definition fitsb (f : LevelledForest) (b : Block) : bool :=
  bool_decide (b_QC b <> None) &&
  match abs f !! VertexID b with Some e => e.1 =? Level b | None => true end &&
  match GetVertex f (b_PrevID b) with Some p => Level p <? Level b | None => true end &&
  bool_decide (map_Forall (fun _ e => below_child b e = true) (abs f)) &&
  bool_decide (b_PrevID b <> VertexID b).

Lemma fitsb_sound f b : fitsb f b = true -> fits f b.
Proof.
  unfold fitsb. rewrite !andb_true_iff, !bool_decide_eq_true. intros ((((Hq & Hl) & Hp) & Hc) & Hs).
  split; [done| | | |done].
  - intros lv ob He. rewrite He in Hl. by apply Z.eqb_eq.
  - intros p Hq'. rewrite Hq' in Hp. by apply Z.ltb_lt.
  - intros id c Hgv Hprev. rewrite abs_GetVertex in Hgv.
    destruct (abs f !! id) as [[lv ob]|] eqn:E; simpl in Hgv; [|done]. subst ob.
    specialize (Hc _ _ E). unfold below_child in Hc. simpl in Hc.
    rewrite bool_decide_true in Hc by done. by apply Z.ltb_lt.
Qed.

(** ** Concrete forests *)

Definition toy_block (id : Identifier) (view : Z) (prev : Identifier) (qcView : Z) : Block :=
  mkBlock view (Some (mkQC "1"%string qcView prev [] [] [])) "1"%string 0 [] prev [] id 0 false 0 0 false.

Fixpoint add_blocks (bs : list Block) : M LevelledForest unit :=
  match bs with [] => skip | b :: bs' => AddVertex b;; add_blocks bs' end.
Definition forest_of (bs : list Block) : LevelledForest :=
  match add_blocks bs NewLevelledForest with Ret (_, f) => f | _ => NewLevelledForest end.

Lemma add_blocks_steps bs : forall f f', add_blocks bs f = Ret (tt, f') -> rtc forest_step f f'.
Proof.
  induction bs as [|b bs IH]; intros f f' Hrun; simpl in Hrun; go_inv; [done|].
  destruct r. eapply rtc_l; [by eapply step_add | by apply IH].
Qed.

Lemma forest_of_steps bs : rtc forest_step NewLevelledForest (forest_of bs).
Proof.
  unfold forest_of. destruct (add_blocks bs NewLevelledForest) as [[[] f]| | |] eqn:E; [|done..].
  by apply (add_blocks_steps bs).
Qed.

Lemma forest_of_wf bs : forest_wf (forest_of bs).
Proof. apply (forest_steps_sim _ _ (forest_of_steps bs)), NewLevelledForest_wf. Qed.

(** A chain of three, the last of which skips a view, and a fork at view 3. *)
Definition chain3 : list Block :=
  [toy_block [1] 1 zeroID 0; toy_block [2] 2 [1] 1; toy_block [4] 4 [2] 2].
Definition fork3 : Block := toy_block [3] 3 [1] 1.

Lemma AddVertex_first_wins_witness :
  GetVertex (forest_of (chain3 ++ [toy_block [2] 3 [1] 1])) [2] = Some (toy_block [2] 2 [1] 1).
Proof.
  refine (proj1 (proj2 (AddVertex_first_wins (forest_of chain3) (toy_block [2] 3 [1] 1) _
    (forest_of_wf _) _)) _); [vm_compute; reflexivity | vm_compute; discriminate].
Defined.

Lemma add_consistent_example : consistent (forest_of (chain3 ++ [fork3])).
Proof.
  refine (add_consistent (forest_of chain3) fork3 _ (forest_of_wf _) _ _ _).
  - apply consistentb_sound. vm_compute. reflexivity.
  - apply fitsb_sound. vm_compute. reflexivity.
  - vm_compute. reflexivity.
Defined.

Definition pruned4 : LevelledForest :=
  match PruneUpToLevel 4 (forest_of (chain3 ++ [fork3])) with Ret (_, f) => f | _ => NewLevelledForest end.

(** The fork is removed and reported, the parent is removed as an ancestor. *)
Lemma PruneUpToLevel_partition_witness :
  let f := forest_of (chain3 ++ [fork3]) in
  exists forked no f', PruneUpToLevel 4 f = Ret (inr (forked, no), f') /\ forked = [fork3] /\ no = 4 /\
    (GetVertex f' [2] = None /\ (toy_block [2] 2 [1] 1 ∉ forked) /\ prev_chain f (toy_block [4] 4 [2] 2) (toy_block [2] 2 [1] 1)).
Proof.
  destruct (PruneUpToLevel_partition (forest_of (chain3 ++ [fork3])) [4] (toy_block [4] 4 [2] 2))
    as (forked & no & f' & Hrun & Hall).
  - apply forest_of_wf.
  - apply consistentb_sound. vm_compute. reflexivity.
  - apply sequentialb_sound. vm_compute. reflexivity.
  - vm_compute. reflexivity.
  - exists forked, no, f'. split; [exact Hrun|].
    assert (E : PruneUpToLevel 4 (forest_of (chain3 ++ [fork3])) = Ret (inr ([fork3], 4), pruned4))
      by (vm_compute; reflexivity).
    change (Level (toy_block [4] 4 [2] 2)) with 4 in Hrun. rewrite Hrun in E. injection E as -> -> Ef.
    do 2 (split; [reflexivity|]).
    assert (Hf : GetVertex f' [2] = None) by (rewrite Ef; vm_compute; reflexivity).
    destruct (Hall [2] (toy_block [2] 2 [1] 1)) as [(H1 & _)|[(_ & H2 & _)|[H3|(_ & _ & _ & H4)]]].
    + vm_compute. reflexivity.
    + congruence.
    + by apply list_elem_of_singleton in H2.
    + exact H3.
    + by vm_compute in H4.
Defined.

Lemma PruneUpToLevel_ends_witness :
  let f := forest_of (chain3 ++ [fork3]) in returns (PruneUpToLevel 3 f) \/ PruneUpToLevel 3 f = Panic.
Proof.
  apply (PruneUpToLevel_ends (forest_of (chain3 ++ [fork3])) 3 (forest_of_wf _)).
  apply consistentb_sound. vm_compute. reflexivity.
Defined.

Lemma forest_simulation_witness :
  rtc spec_rel (∅, 0) (abs_state (forest_of (chain3 ++ [fork3]))).
Proof. exact (proj2 (forest_simulation _ (forest_of_steps (chain3 ++ [fork3])))). Defined.

Lemma VerifyVertex_spec_witness : returns (VerifyVertex (forest_of chain3) fork3).
Proof.
  refine (proj1 (VerifyVertex_spec (forest_of chain3) fork3 (mkQC "1"%string 1 [1] [] [] []) eq_refl _)).
  apply cons_qc, consistentb_sound. vm_compute. reflexivity.
Defined.
