(* ===== verification/BlockChain.v ===== *)
(** * The block store (blockchain/blockchain.go)

    [BlockChain] combines the forest and the vote table and owns the commit:
    [CommitBlock] walks the parent links from the block down to the previously
    committed one, drops the votes of what it commits, and prunes the forest.

    Results: the commit on every branch, what is committed and in which order,
    that nothing is committed twice along any run, and that the retained level
    only grows. *)

From Stdlib Require Import String SpecFloat.
From stdpp Require Import base gmap strings numbers sorting list.
From S2P Require Import Prelude.
From S2P Require Import Identity.
From S2P Require Import Float.
From S2P Require Import Config.
From S2P Require Import Crypto.
From S2P Require Import Block.
From S2P Require Import Quorum.
From S2P Require Import Forest.
From S2P Require Import ForestSpec.

Local Open Scope Z_scope.
Local Open Scope go_scope.

Record BlockChain := mkBC {
  forrest : LevelledForest;
  quorum : Quorum;
  longestTailBlock : option Block;
  highestComitted : Z;
  committedBlockNo : Z;
  totalBlockIntervals : Z;
  prunedBlockNo : Z }.

Definition NewBlockchain (n : Z) : BlockChain := mkBC NewLevelledForest (NewQuorum n) None 0 0 0 0.

Definition set_forrest (f : LevelledForest) (bc : BlockChain) : BlockChain :=
  mkBC f (quorum bc) (longestTailBlock bc) (highestComitted bc) (committedBlockNo bc)
       (totalBlockIntervals bc) (prunedBlockNo bc).
Definition set_quorum (q : Quorum) (bc : BlockChain) : BlockChain :=
  mkBC (forrest bc) q (longestTailBlock bc) (highestComitted bc) (committedBlockNo bc)
       (totalBlockIntervals bc) (prunedBlockNo bc).
Definition set_highest (h : Z) (bc : BlockChain) : BlockChain :=
  mkBC (forrest bc) (quorum bc) (longestTailBlock bc) h (committedBlockNo bc)
       (totalBlockIntervals bc) (prunedBlockNo bc).
Definition add_pruned (n : Z) (bc : BlockChain) : BlockChain :=
  mkBC (forrest bc) (quorum bc) (longestTailBlock bc) (highestComitted bc) (committedBlockNo bc)
       (totalBlockIntervals bc) (prunedBlockNo bc +! n).

Definition Exists (id : Identifier) (bc : BlockChain) : bool := HasVertex (forrest bc) id.

Definition AddBlock (block : Block) : M BlockChain unit := zoom forrest set_forrest (AddVertex block).

Definition AddVote (cfg : Config) (vote : Vote) : M BlockChain (bool * option QC) :=
  zoom quorum set_quorum (quorum_Add cfg vote).

Definition GetBlockByID (id : Identifier) (bc : BlockChain) : error + Block :=
  match GetVertex (forrest bc) id with
  | None => inl "the block does not exist"%string
  | Some b => inr b
  end.

Definition GetParentBlock (id : Identifier) (bc : BlockChain) : outcome (error + Block) :=
  match GetVertex (forrest bc) id with
  | None => Ret (inl "the block does not exist"%string)
  | Some vertex =>
      '(parentID, _) ←? Parent vertex;
      match GetVertex (forrest bc) parentID with
      | None => Ret (inl "parent block does not exist"%string)
      | Some p => Ret (inr p)
      end
  end.

Definition GetGrandParentBlock (id : Identifier) (bc : BlockChain) : outcome (error + Block) :=
  r ←? GetParentBlock id bc;
  match r with
  | inl e => Ret (inl ("cannot get parent block: " +:+ e)%string)
  | inr parentBlock => GetParentBlock (b_ID parentBlock) bc
  end.

Lemma GetParentBlock_inr id bc p :
  GetParentBlock id bc = Ret (inr p) <->
  exists x, GetVertex (forrest bc) id = Some x /\ b_QC x <> None /\ GetVertex (forrest bc) (b_PrevID x) = Some p.
Proof.
  unfold GetParentBlock. destruct (GetVertex (forrest bc) id) as [x|].
  - unfold Parent. destruct (b_QC x) as [qc|] eqn:Eq; simpl; cycle 1.
    { split; [done|]. intros (y & Hy & Hq & _). simplify_eq. }
    destruct (GetVertex (forrest bc) (b_PrevID x)) as [q|] eqn:Ep.
    + split; [intros [= <-]|intros (y & Hy & _ & Hp); simplify_eq; done]. exists x. by rewrite Eq.
    + split; [done|]. intros (y & Hy & _ & Hp). simplify_eq.
  - split; [done|]. by intros (? & ? & _).
Qed.

(** One iteration of the commit loop: the votes are dropped and the counters
    bumped ([int(view - block.View)] is a conversion between 64-bit types). *)
Definition count_commit (view : Z) (block : Block) (bc : BlockChain) : BlockChain :=
  mkBC (forrest bc)
       (mkQuorum (q_total (quorum bc)) (delete (b_ID block) (q_votes (quorum bc))))
       (longestTailBlock bc) (highestComitted bc) (committedBlockNo bc +! 1)
       (totalBlockIntervals bc +! (view -! b_View block)) (prunedBlockNo bc).

(** The loop.  It follows parent links from stored block to stored block, so
    with more iterations than stored ids it revisits one and does not end. *)
Fixpoint commit_loop (fuel : nat) (view : Z) (block : Block) (committedBlocks : list Block) :
    M BlockChain (list Block) :=
  low ← gets (fun bc => LowestLevel (forrest bc));
  if low <? u64 (b_View block) then
    match fuel with
    | O => diverge
    | S fuel' =>
        modify (count_commit view block);;
        f ← gets forrest;
        match GetVertex f (b_PrevID block) with
        | None => ret (committedBlocks ++ [block])
        | Some prev => commit_loop fuel' view prev (committedBlocks ++ [block])
        end
    end
  else ret committedBlocks.

Definition CommitBlock (id : Identifier) (view : Z) : M BlockChain (error + (list Block * list Block)) :=
  f ← gets forrest;
  match GetVertex f id with
  | None => ret (inl "cannot find the block"%string)
  | Some vertex =>
      modify (set_highest (b_View vertex));;
      committedBlocks ← commit_loop (S (size (vertices f))) view vertex [];
      r ← zoom forrest set_forrest (PruneUpToLevel (u64 (b_View vertex)));
      match r with
      | inl e => ret (inl ("cannot prune the blockchain to the committed block, id: " +:+ e)%string)
      | inr (forkedBlocks, prunedNo) =>
          modify (add_pruned prunedNo);;
          ret (inr (committedBlocks, forkedBlocks))
      end
  end.

Definition GetChildrenBlocks (id : Identifier) (bc : BlockChain) : outcome (list Block) :=
  iterator ←? GetChildren (forrest bc) id;
  drain (length (it_data iterator)) (forrest bc) iterator.

(** The measurements: quotients of machine integers as float64. *)
Definition GetChainGrowth (bc : BlockChain) : spec_float :=
  f64_div (f64_of_Z (committedBlockNo bc)) (f64_of_Z (prunedBlockNo bc +! 1)).
Definition GetBlockIntervals (bc : BlockChain) : spec_float :=
  f64_div (f64_of_Z (totalBlockIntervals bc)) (f64_of_Z (committedBlockNo bc)).

(** The text of the protocols' [GetChainStatus]. *)
Definition chain_status (id : NodeID) (view : Z) (bc : BlockChain) : string :=
  ("[" +:+ id +:+ "] The current view is: " +:+ Strconv.Itoa view +:+ ", chain growth rate is: " +:+
   fmt_v (GetChainGrowth bc) +:+ ", ave block interval is: " +:+ fmt_v (GetBlockIntervals bc))%string.

(** Before the first commit the average interval is 0/0. *)
Example status_new : chain_status "1"%string 0 (NewBlockchain 4) =
  "[1] The current view is: 0, chain growth rate is: 0, ave block interval is: NaN"%string.
Proof. vm_compute. reflexivity. Qed.

Definition GetHighestCommitted (bc : BlockChain) : Z := highestComitted bc.
Definition GetCommittedBlocks (bc : BlockChain) : Z := committedBlockNo bc.

(** [iterator.next.GetBlock()] panics when no full vertex is at the level. *)
Definition GetBlockByView (view : Z) (bc : BlockChain) : outcome Block :=
  of_option (it_next (GetVerticesAtLevel (forrest bc) (u64 view))).

(** ** What a commit returns *)

(** The blocks from [b] down the parent links, above the lowest level. *)
Inductive commit_chain (f : LevelledForest) : Block -> list Block -> Prop :=
| chain_stop b : Level b <= LowestLevel f -> commit_chain f b []
| chain_last b : LowestLevel f < Level b -> GetVertex f (b_PrevID b) = None -> commit_chain f b [b]
| chain_step b p l : LowestLevel f < Level b -> GetVertex f (b_PrevID b) = Some p ->
    commit_chain f p l -> commit_chain f b (b :: l).

Definition count_all (view : Z) (l : list Block) (bc : BlockChain) : BlockChain :=
  foldl (fun bc b => count_commit view b bc) bc l.

Lemma count_all_forrest view l : forall bc, forrest (count_all view l bc) = forrest bc.
Proof. induction l as [|b l IH]; intros bc; simpl; [done|]. by rewrite IH. Qed.

Lemma commit_loop_chain fuel view : forall b acc bc r bc',
  commit_loop fuel view b acc bc = Ret (r, bc') ->
  exists l, r = acc ++ l /\ commit_chain (forrest bc) b l /\ bc' = count_all view l bc.
Proof.
  induction fuel as [|fuel IH]; intros b acc bc r bc' H; simpl in H; go_inv; unfold Level in *.
  - destruct (LowestLevel (forrest bc) <? u64 (b_View b)) eqn:El; go_inv. exists []. rewrite app_nil_r.
    split; [done|]. split; [|done]. constructor. unfold Level. lia.
  - destruct (LowestLevel (forrest bc) <? u64 (b_View b)) eqn:El; go_inv; cycle 1.
    { exists []. rewrite app_nil_r. split; [done|]. split; [|done]. constructor. unfold Level. lia. }
    simpl in *. destruct (GetVertex (forrest bc) (b_PrevID b)) as [p|] eqn:Hp.
    + apply IH in H as (l & -> & Hl & ->). exists (b :: l). rewrite <- app_assoc. split; [done|].
      split; [|done]. apply chain_step with p; [unfold Level; lia | done | done].
    + go_inv. exists [b]. split; [done|]. split; [|done]. apply chain_last; [unfold Level; lia | done].
Qed.

(** ** Termination of the walk *)

(** The ids of the stored blocks below a level. *)
Definition is_below (f : LevelledForest) (l : Z) (id : Identifier) : bool :=
  match GetVertex f id with Some x => Level x <? l | None => false end.
Definition stored_below (f : LevelledForest) (l : Z) : gset Identifier :=
  filter (fun id => is_below f l id = true) (dom (vertices f)).

Lemma elem_of_stored_below f l id :
  (id ∈ stored_below f l) <-> exists x, GetVertex f id = Some x /\ Level x < l.
Proof.
  unfold stored_below, is_below. rewrite elem_of_filter, elem_of_dom. split.
  - intros [H _]. destruct (GetVertex f id) as [x|]; [|done]. exists x. split; [done|]. lia.
  - intros (x & Hx & Hl). rewrite Hx. split; [lia|]. unfold GetVertex, container_of in Hx.
    by destruct (vertices f !! id).
Qed.

Lemma stored_below_size f l : (size (stored_below f l) <= size (vertices f))%nat.
Proof. rewrite <- (size_dom (D := gset Identifier)). apply subseteq_size. unfold stored_below. intros x [_ ?]%elem_of_filter. done. Qed.

Lemma stored_below_shrink f id p l :
  GetVertex f id = Some p -> Level p < l ->
  (size (stored_below f (Level p)) < size (stored_below f l))%nat.
Proof.
  intros Hp Hl. apply subset_size. split.
  - intros x. rewrite !elem_of_stored_below. intros (y & ? & ?). exists y. split; [done|lia].
  - intros Hsub. specialize (Hsub id). rewrite !elem_of_stored_below in Hsub.
    destruct Hsub as (y & ? & ?); [by exists p|]. simplify_eq. lia.
Qed.

Lemma commit_loop_returns fuel view : forall id b acc bc,
  consistent (forrest bc) -> GetVertex (forrest bc) id = Some b ->
  (size (stored_below (forrest bc) (Level b)) < fuel)%nat ->
  returns (commit_loop fuel view b acc bc).
Proof.
  induction fuel as [|fuel IH]; intros id b acc bc Hc Hb Hfuel; [lia|].
  simpl. unfold gbind, gets, modify, returns, ret.
  destruct (LowestLevel (forrest bc) <? u64 (b_View b)); [|by eauto].
  simpl. destruct (GetVertex (forrest bc) (b_PrevID b)) as [p|] eqn:Hp; [|by eauto].
  apply (IH (b_PrevID b)); [done|done|].
  pose proof (stored_below_shrink _ _ _ (Level b) Hp (cons_parent _ Hc _ _ _ Hb Hp)). simpl in *. lia.
Qed.

(** The loop follows this relation between ids: from a stored block above the
    lowest level to the id it names as its parent. *)
Definition parent_link (f : LevelledForest) (id id' : Identifier) : Prop :=
  exists b, GetVertex f id = Some b /\ LowestLevel f < Level b /\ b_PrevID b = id'.

(** The same as a function. *)
Definition next_commit (f : LevelledForest) (id : Identifier) : option Identifier :=
  match GetVertex f id with
  | Some b => if LowestLevel f <? Level b then Some (b_PrevID b) else None
  | None => None
  end.

Lemma parent_link_next f id id' : parent_link f id id' <-> next_commit f id = Some id'.
Proof.
  unfold parent_link, next_commit. destruct (GetVertex f id) as [b|]; [|split; [by intros (? & ? & _) | done]].
  destruct (Z.ltb_spec (LowestLevel f) (Level b)).
  - split; [intros (c & [= <-] & _ & <-); done | intros [= <-]; by exists b].
  - split; [intros (c & [= <-] & ? & _); lia | done].
Qed.

Lemma commit_loop_walks view : forall fuel id b acc bc,
  GetVertex (forrest bc) id = Some b ->
  (commit_loop fuel view b acc bc = Diverge <-> walks (next_commit (forrest bc)) (S fuel) id).
Proof.
  induction fuel as [|fuel IH]; intros id b acc bc Hb; cbn [commit_loop walks]; unfold gbind, gets;
    unfold next_commit at 1; rewrite Hb; unfold Level; destruct (LowestLevel (forrest bc) <? u64 (b_View b));
    try (split; [done | by intros (? & ? & _)]).
  - split; [by eauto | done].
  - simpl. destruct (GetVertex (forrest bc) (b_PrevID b)) as [p|] eqn:Hp.
    + rewrite (IH (b_PrevID b) p) by done. simpl. split; [by eauto | by intros (? & [= <-] & ?)].
    + split; [done|]. intros (? & [= <-] & y & Hy & _). unfold next_commit in Hy. by rewrite Hp in Hy.
Qed.

(** The walk does not end exactly when the parent links go round. *)
Lemma commit_loop_loops view id b acc bc :
  GetVertex (forrest bc) id = Some b ->
  commit_loop (S (size (vertices (forrest bc)))) view b acc bc = Diverge <-> goes_round (parent_link (forrest bc)) id.
Proof.
  intros Hb. rewrite (commit_loop_walks view _ id) by done. split.
  - intros Hw. eapply (goes_round_mono (walk_link (next_commit (forrest bc)))); [by intros x y ?%parent_link_next|].
    apply (walks_loops _ (dom (vertices (forrest bc)))); [|rewrite size_dom; by eapply walks_weaken; [|exact Hw]; lia].
    intros x y. unfold next_commit, GetVertex, container_of. rewrite elem_of_dom.
    by destruct (vertices (forrest bc) !! x).
  - intros Hr. apply loops_walks.
    eapply (goes_round_mono (parent_link (forrest bc))); [by intros x y ?%parent_link_next | done].
Qed.

Lemma commit_loop_total view : forall fuel b acc bc,
  returns (commit_loop fuel view b acc bc) \/ commit_loop fuel view b acc bc = Diverge.
Proof.
  induction fuel as [|fuel IH]; intros b acc bc; simpl; unfold gbind, gets, modify, returns, ret, diverge;
    (destruct (_ <? _); [|by eauto]); [by right|].
  simpl. destruct (GetVertex _ _); [apply IH | by eauto].
Qed.

Lemma commit_loop_fuelless view : forall fuel b acc, fuelless (commit_loop fuel view b acc).
Proof. induction fuel as [|fuel IH]; intros b acc; simpl; fuelless_auto. Qed.

Lemma committed_levels_fuelless f : forall fuel l acc, committed_levels fuel f l acc <> OutOfFuel.
Proof. induction fuel as [|fuel IH]; intros l acc; simpl; unfold Parent; fuelless_auto. Qed.

(** The pruning loops return or panic. *)
Lemma prune_level_ends cl l vs : forall forked no f,
  prune_level cl l vs forked no f <> OutOfFuel /\ prune_level cl l vs forked no f <> Diverge.
Proof.
  induction vs as [|v vs IH]; intros forked no f; simpl; [done|].
  unfold gbind, deref, modify. cbn. destruct (store f !! v); simpl; [apply IH|done].
Qed.
Lemma prune_levels_ends k cl : forall l forked no f,
  prune_levels k cl l forked no f <> OutOfFuel /\ prune_levels k cl l forked no f <> Diverge.
Proof.
  induction k as [|k IH]; intros l forked no f; simpl; [done|]. unfold gbind, gets.
  destruct (prune_level_ends cl l (level_list f l) forked no f) as [H1 H2].
  destruct (prune_level _ _ _ _ _ f) as [[[? ?] ?]| | |]; try done. apply IH.
Qed.

(** Pruning hangs only in its walk over the levels. *)
Lemma PruneUpToLevel_hangs f level :
  PruneUpToLevel level f = Diverge <-> goes_round (level_link f) level.
Proof.
  rewrite <- (committed_levels_loops f level ∅). unfold PruneUpToLevel, gbind, gets, lift, modify, ret.
  destruct (Z.ltb_spec level (LowestLevel f)) as [Hlt|Hge].
  - split; [done|]. cbn [committed_levels]. by rewrite (proj2 (Z.leb_gt _ _) Hlt).
  - destruct (committed_levels _ f level ∅) as [cl| | |]; try done. split; [|done].
    destruct (prune_levels _ _ _ _ _ f) as [[? ?]| | |] eqn:E; try done. by apply prune_levels_ends in E.
Qed.

Lemma CommitBlock_fuelless id view : fuelless (CommitBlock id view).
Proof.
  pose proof (commit_loop_fuelless view). unfold CommitBlock, PruneUpToLevel. fuelless_auto.
  - apply committed_levels_fuelless.
  - intros f. apply prune_levels_ends.
Qed.

(** C26.  When a commit hangs: [CommitBlock] does not end exactly when the block is
    stored and either the parent links from it, followed through stored blocks
    above the lowest level, run into a cycle, or the levels [PruneUpToLevel] walks
    from the block's level do (each time to the level of the stored parent of the
    level's first vertex); in every other case it returns or panics. *)
Theorem CommitBlock_hangs id view bc :
  (CommitBlock id view bc = Diverge <->
   exists b, GetVertex (forrest bc) id = Some b /\
     (goes_round (parent_link (forrest bc)) id \/ goes_round (level_link (forrest bc)) (Level b))) /\
  CommitBlock id view bc <> OutOfFuel.
Proof.
  split; [|apply CommitBlock_fuelless]. unfold CommitBlock, gbind, gets, modify.
  destruct (GetVertex (forrest bc) id) as [b|] eqn:Hb; [|split; [done | by intros (? & ? & _)]].
  destruct (commit_loop_loops view id b [] (set_highest (b_View b) bc) Hb) as [Hl1 Hl2]. cbn [forrest set_highest] in Hl1, Hl2.
  destruct (commit_loop_total view (S (size (vertices (forrest bc)))) b [] (set_highest (b_View b) bc))
    as [[[r bc'] Hl]|Hl]; rewrite Hl in *; cycle 1.
  { split; [|done]. intros _. exists b. split; [done|]. left. by apply Hl1. }
  apply commit_loop_chain in Hl as (l & _ & _ & ->). unfold zoom. rewrite count_all_forrest. cbn [forrest set_highest].
  destruct (PruneUpToLevel_hangs (forrest bc) (u64 (b_View b))) as [Hp1 Hp2]. split.
  - intros Hd. exists b. split; [done|]. right. apply Hp1.
    destruct (PruneUpToLevel _ _) as [[[e|[fk no]] f']| | |]; done.
  - intros (b' & [= <-] & [Hr|Hr]); [by apply Hl2 in Hr|]. by rewrite (Hp2 Hr).
Qed.

(** ** Pruning keeps a forest consistent *)

Lemma filter_consistent f f' level :
  consistent f -> abs f' = filter (fun '(_, e) => level <= e.1) (abs f) -> consistent f'.
Proof.
  intros Hc Habs.
  assert (Hgv : forall id b, GetVertex f' id = Some b -> GetVertex f id = Some b).
  { intros id b. rewrite !abs_GetVertex, Habs, !bind_Some. intros (e & He & Hb).
    apply map_lookup_filter_Some in He as [He _]. by exists e. }
  split.
  - intros id lv b He. rewrite Habs in He. apply map_lookup_filter_Some in He as [He _].
    by eapply (cons_level _ Hc).
  - intros id b Hb. eapply (cons_qc _ Hc), Hgv, Hb.
  - intros id b p Hb Hp. eapply (cons_parent _ Hc); [by apply Hgv | by apply Hgv].
Qed.

Lemma PruneUpToLevel_consistent f level r f' :
  forest_wf f -> consistent f -> PruneUpToLevel level f = Ret (r, f') ->
  forest_wf f' /\ consistent f' /\ (LowestLevel f' = if level <? LowestLevel f then LowestLevel f else level).
Proof.
  intros H Hc Hrun. pose proof (PruneUpToLevel_spec f level H) as Hp. revert Hp.
  destruct (level <? LowestLevel f).
  { intros E. rewrite Hrun in E. by injection E as -> ->. }
  destruct (committed_levels _ f level ∅) as [cl| | |]; [|intros; congruence..].
  intros (fk & f2 & Hrun2 & Hwf & Hlow & Habs & _). rewrite Hrun in Hrun2. injection Hrun2 as _ <-.
  split; [done|]. split; [by eapply filter_consistent | done].
Qed.

(** ** The chain of a commit *)

Lemma commit_chain_in f b l x : commit_chain f b l -> x ∈ l -> LowestLevel f < Level x.
Proof.
  induction 1 as [b|b|b p l ?? _ IH]; [by intros ?%elem_of_nil| |].
  - by intros ->%list_elem_of_singleton.
  - intros [->|?]%elem_of_cons; [done | by apply IH].
Qed.

(** Every stored parent is below its child. *)
Definition descending (f : LevelledForest) : Prop :=
  forall id b p, GetVertex f id = Some b -> GetVertex f (b_PrevID b) = Some p -> Level p < Level b.

Lemma commit_chain_le f id b l x :
  descending f -> GetVertex f id = Some b -> commit_chain f b l -> x ∈ l -> Level x <= Level b.
Proof.
  intros Hd Hb Hl. revert id Hb. induction Hl as [b|b|b p l ? Hp _ IH]; intros id Hb.
  - by intros ?%elem_of_nil.
  - intros ->%list_elem_of_singleton. lia.
  - intros [->|Hx]%elem_of_cons; [lia|]. pose proof (Hd _ _ _ Hb Hp).
    specialize (IH _ Hp Hx). lia.
Qed.

(** Newest first, each block the parent of the one before it. *)
Lemma commit_chain_sorted f id b l :
  descending f -> GetVertex f id = Some b -> commit_chain f b l ->
  StronglySorted (fun x y => Level y < Level x) l.
Proof.
  intros Hd Hb Hl. revert id Hb. induction Hl as [b|b|b p l ? Hp Hl IH]; intros id Hb;
    [constructor | by repeat constructor |].
  constructor; [by eapply IH|]. apply Forall_forall. intros x Hx.
  pose proof (Hd _ _ _ Hb Hp). pose proof (commit_chain_le _ _ _ _ _ Hd Hp Hl Hx). lia.
Qed.

(** Decomposition of a returning commit. *)
Lemma CommitBlock_inv id view bc r bc' :
  CommitBlock id view bc = Ret (r, bc') ->
  match GetVertex (forrest bc) id with
  | None => r = inl "cannot find the block"%string /\ bc' = bc
  | Some b => exists l f' pr,
      commit_chain (forrest bc) b l /\
      PruneUpToLevel (Level b) (forrest bc) = Ret (pr, f') /\
      let bc1 := set_forrest f' (count_all view l (set_highest (b_View b) bc)) in
      match pr with
      | inl e => r = inl ("cannot prune the blockchain to the committed block, id: " +:+ e)%string /\ bc' = bc1
      | inr (forked, no) => r = inr (l, forked) /\ bc' = add_pruned no bc1
      end
  end.
Proof.
  intros H. unfold CommitBlock in H. go_inv.
  destruct (GetVertex (forrest bc) id) as [b|] eqn:Hb; [|by go_inv]. go_inv.
  match goal with Hl : commit_loop _ _ _ _ _ = _ |- _ => apply commit_loop_chain in Hl as (l & -> & Hch & ->) end.
  rewrite count_all_forrest in *. simpl in *. exists l. do 2 eexists. split; [exact Hch|]. split; [eassumption|].
  match goal with Hp : PruneUpToLevel _ _ = Ret (?pr, _) |- _ => destruct pr as [e|[forked no]] end; by go_inv.
Qed.

(** The forest part of any returning commit. *)
Lemma CommitBlock_forest id view bc r bc' :
  forest_wf (forrest bc) -> CommitBlock id view bc = Ret (r, bc') ->
  forest_wf (forrest bc') /\
  (forall i x, GetVertex (forrest bc') i = Some x -> GetVertex (forrest bc) i = Some x) /\
  match r with
  | inl _ => forrest bc' = forrest bc
  | inr (l, forked) => exists b, GetVertex (forrest bc) id = Some b /\ commit_chain (forrest bc) b l /\
      LowestLevel (forrest bc) <= Level b /\ LowestLevel (forrest bc') = Level b
  end.
Proof.
  intros H Hrun. apply CommitBlock_inv in Hrun.
  destruct (GetVertex (forrest bc) id) as [b|] eqn:Hb; [|by destruct Hrun as [-> ->]].
  destruct Hrun as (l & f' & pr & Hch & Hp & Hrest).
  pose proof (PruneUpToLevel_spec (forrest bc) (Level b) H) as Hs. revert Hs.
  destruct (Z.ltb_spec (Level b) (LowestLevel (forrest bc))) as [Hlt|Hge].
  { intros E. rewrite Hp in E. injection E as -> ->. by destruct Hrest as [-> ->]. }
  destruct (committed_levels _ _ _ ∅) as [cl| | |]; [|intros; congruence..].
  intros (fk & f2 & E & Hwf & Hlow & Habs & _). rewrite Hp in E. injection E as -> <-.
  destruct Hrest as [-> ->]. simpl. split; [done|]. split; [|by exists b].
  intros i x. rewrite !abs_GetVertex, Habs, !bind_Some. intros (e & He & Hx).
  apply map_lookup_filter_Some in He as [He _]. by exists e.
Qed.

Lemma count_all_votes view l : forall bc id,
  q_votes (quorum (count_all view l bc)) !! id =
  if bool_decide (id ∈ (b_ID <$> l)) then None else q_votes (quorum bc) !! id.
Proof.
  induction l as [|b l IH]; intros bc id; [done|].
  change (count_all view (b :: l) bc) with (count_all view l (count_commit view b bc)).
  rewrite IH. cbn [quorum count_commit q_votes]. rewrite lookup_delete, fmap_cons.
  repeat case_bool_decide; repeat case_decide; try done; set_solver.
Qed.

Lemma count_all_counters view l : forall bc,
  is_i64 (committedBlockNo bc) -> is_i64 (totalBlockIntervals bc) ->
  committedBlockNo (count_all view l bc) = i64 (committedBlockNo bc + Z.of_nat (length l)) /\
  totalBlockIntervals (count_all view l bc) =
    i64 (totalBlockIntervals bc + foldr (fun b acc => (view - b_View b) + acc) 0 l) /\
  highestComitted (count_all view l bc) = highestComitted bc /\
  prunedBlockNo (count_all view l bc) = prunedBlockNo bc.
Proof.
  induction l as [|b l IH]; intros bc H1 H2; simpl.
  - rewrite !Z.add_0_r, !i64_id by done. done.
  - destruct (IH (count_commit view b bc)) as (-> & -> & -> & ->); [apply i64_range..|]. simpl.
    rewrite i64_add_r, !i64_add_l. split; [f_equal; lia|]. split; [f_equal; lia | done].
Qed.

(** C2.  [CommitBlock] of a stored block, in a consistent store (every stored block
    at its own level, with a certificate, above its stored parent) with one
    container per level: the call returns; the committed list is the chain of
    parent links from the block down to the previous commit, newest first with
    strictly decreasing levels; the forest keeps exactly the entries at or above
    the block's level; the forked list never names an ancestor's level; the votes
    of the committed blocks are dropped and all others kept; the highest committed
    view is the block's; and the counters advance, in 64 bits, by the number of
    committed blocks, by the sum of their distances from the current view, and by
    the number of removed entries. *)
Theorem CommitBlock_commits id view bc b :
  forest_wf (forrest bc) -> consistent (forrest bc) -> sequential (forrest bc) ->
  is_i64 (committedBlockNo bc) -> is_i64 (totalBlockIntervals bc) ->
  GetVertex (forrest bc) id = Some b ->
  exists l forked bc',
    CommitBlock id view bc = Ret (inr (l, forked), bc') /\
    commit_chain (forrest bc) b l /\ StronglySorted (fun x y => Level y < Level x) l /\
    LowestLevel (forrest bc') = Level b /\
    abs (forrest bc') = filter (fun '(_, e) => Level b <= e.1) (abs (forrest bc)) /\
    (forall x, x ∈ forked -> 1 < Level x < Level b /\
       forall a, prev_chain (forrest bc) b a -> Level a <> Level x) /\
    (forall i, q_votes (quorum bc') !! i =
       if bool_decide (i ∈ (b_ID <$> l)) then None else q_votes (quorum bc) !! i) /\
    highestComitted bc' = b_View b /\
    committedBlockNo bc' = i64 (committedBlockNo bc + Z.of_nat (length l)) /\
    totalBlockIntervals bc' = i64 (totalBlockIntervals bc + foldr (fun x acc => (view - b_View x) + acc) 0 l) /\
    prunedBlockNo bc' =
      i64 (prunedBlockNo bc + (Z.of_nat (size (abs (forrest bc))) - Z.of_nat (size (abs (forrest bc'))))).
Proof.
  intros H Hc Hs Hn1 Hn2 Hb.
  destruct (commit_loop_returns (S (size (vertices (forrest bc)))) view id b [] (set_highest (b_View b) bc))
    as ([r bc1] & Hloop); [done|done| |].
  { pose proof (stored_below_size (forrest bc) (Level b)). simpl in *. lia. }
  destruct (PruneUpToLevel_exact (forrest bc) id b H Hc Hs Hb)
    as (forked & no & f' & Hprune & _ & Hlow & Habs & Hno & Hf).
  pose proof (commit_loop_chain _ _ _ _ _ _ _ Hloop) as (l & -> & Hch & ->). simpl in Hch.
  exists l, forked, (add_pruned no (set_forrest f' (count_all view l (set_highest (b_View b) bc)))).
  split.
  { unfold CommitBlock, gbind at 1, gets. rewrite Hb. unfold gbind at 1, modify.
    rewrite (bind_unfold _ _ _ _ _ Hloop). unfold gbind, zoom. rewrite count_all_forrest. simpl.
    unfold Level in Hprune. by rewrite Hprune. }
  split; [done|]. split; [eapply commit_chain_sorted; [exact (cons_parent _ Hc) | done | done]|]. do 2 (split; [done|]).
  split; [intros x (? & ? & ? & ?)%Hf; done|].
  destruct (count_all_counters view l (set_highest (b_View b) bc)) as (E1 & E2 & E3 & E4); [done..|].
  split; [intros i; simpl; by rewrite count_all_votes|]. split_and!; [exact E3 | exact E1 | exact E2 |].
  simpl. rewrite E4, <- Hno. done.
Qed.

(** ** Runs

    A run of the store: any blocks and votes are added and blocks committed, with
    any id and view.  [bs] collects the blocks given to [AddBlock], [cs] the
    committed blocks and the lists their commits returned, latest last. *)
Inductive bc_run (cfg : Config) (bc0 : BlockChain) : list Block -> list (Block * list Block) -> BlockChain -> Prop :=
| run_nil : bc_run cfg bc0 [] [] bc0
| run_block bs cs bc b bc' : bc_run cfg bc0 bs cs bc ->
    AddBlock b bc = Ret (tt, bc') -> bc_run cfg bc0 (bs ++ [b]) cs bc'
| run_vote bs cs bc v r bc' : bc_run cfg bc0 bs cs bc ->
    AddVote cfg v bc = Ret (r, bc') -> bc_run cfg bc0 bs cs bc'
| run_refused bs cs bc id view e bc' : bc_run cfg bc0 bs cs bc ->
    CommitBlock id view bc = Ret (inl e, bc') -> bc_run cfg bc0 bs cs bc'
| run_commit bs cs bc id view b l forked bc' : bc_run cfg bc0 bs cs bc ->
    GetVertex (forrest bc) id = Some b ->
    CommitBlock id view bc = Ret (inr (l, forked), bc') -> bc_run cfg bc0 bs (cs ++ [(b, l)]) bc'.

(** What [AddBlock] requires of its callers and does not check: a block is above
    the block it names as its parent. *)
Definition parents_below (bs : list Block) : Prop :=
  forall x y, x ∈ bs -> y ∈ bs -> b_PrevID x = b_ID y -> Level y < Level x.

Lemma AddBlock_forest b bc r bc' :
  forest_wf (forrest bc) -> AddBlock b bc = Ret (r, bc') ->
  forest_wf (forrest bc') /\ LowestLevel (forrest bc') = LowestLevel (forrest bc) /\
  (forall i x, GetVertex (forrest bc') i = Some x -> GetVertex (forrest bc) i = Some x \/ x = b) /\
  quorum bc' = quorum bc.
Proof.
  intros H Hrun. unfold AddBlock in Hrun. go_inv. destruct r. simpl.
  match goal with Hf : AddVertex _ _ = _ |- _ => rename Hf into Hadd end.
  pose proof (AddVertex_spec _ b H) as Hr. revert Hr.
  destruct (spec_add _ b _) as [m| | |] eqn:Hm; [|intros; congruence..].
  intros (f2 & Hrun2 & Hwf & Habs & Hlow). rewrite Hadd in Hrun2. injection Hrun2 as <-.
  do 2 (split; [done|]). split; [|done]. intros i x. rewrite !abs_GetVertex, Habs.
  destruct (m !! i) as [[lv ob]|] eqn:E; simpl; [|done]. intros ->.
  destruct (spec_add_lookup _ _ _ _ _ _ _ Hm E) as [->|(_ & -> & _)]; [by left | by right].
Qed.

(** What a run maintains: what is stored was added; a commit goes up from the
    lowest level to its block, whose level is the lowest one from then on. *)
Record run_inv (bs : list Block) (cs : list (Block * list Block)) (bc : BlockChain) : Prop := mkRunInv {
  ri_wf : forest_wf (forrest bc);
  ri_stored : forall id x, GetVertex (forrest bc) id = Some x -> x ∈ bs;
  ri_low : forall b l, (b, l) ∈ cs -> Level b <= LowestLevel (forrest bc);
  ri_above : StronglySorted (fun c c' => forall y, y ∈ c'.2 -> Level c.1 < Level y) cs;
  ri_lists : parents_below bs -> Forall (fun c => StronglySorted (fun x y => Level y < Level x) c.2 /\
    forall x, x ∈ c.2 -> Level x <= Level c.1) cs }.

Lemma StronglySorted_snoc {A} (R : A -> A -> Prop) l x :
  StronglySorted R l -> Forall (fun y => R y x) l -> StronglySorted R (l ++ [x]).
Proof.
  induction 1 as [|y l Hs IH Hy]; simpl; [intros _; by repeat constructor|].
  intros Hall. apply Forall_cons in Hall as [Hyx Hl]. constructor; [by apply IH|].
  apply Forall_app. split; [done | by constructor].
Qed.

Lemma StronglySorted_lookup {A} (R : A -> A -> Prop) l i j x y :
  StronglySorted R l -> l !! i = Some x -> l !! j = Some y -> (i < j)%nat -> R x y.
Proof.
  intros Hs. revert i j. induction Hs as [|z l _ IH Hz]; intros i j Hi Hj Hij; [done|].
  destruct j as [|j]; [lia|]. destruct i as [|i]; simpl in *.
  - injection Hi as <-. by eapply Forall_lookup_1.
  - apply (IH i j); [done|done|lia].
Qed.

Lemma stored_descending bs f :
  forest_wf f -> (forall id x, GetVertex f id = Some x -> x ∈ bs) -> parents_below bs -> descending f.
Proof.
  intros H Hin Hb id x p Hx Hp. apply Hb; [by eapply Hin | by eapply Hin |].
  symmetry. by eapply GetVertex_ID.
Qed.

Lemma bc_run_inv cfg n bs cs bc : bc_run cfg (NewBlockchain n) bs cs bc -> run_inv bs cs bc.
Proof.
  induction 1 as [|bs cs bc b bc' _ IH Hrun|bs cs bc v r bc' _ IH Hrun|bs cs bc id view e bc' _ IH Hrun
                  |bs cs bc id view b l forked bc' _ IH Hb Hrun]; [|destruct IH as [Iw Is Il Ia Ili]..].
  - split; [apply NewLevelledForest_wf | | by intros b l ?%elem_of_nil | constructor | constructor].
    intros id x. rewrite abs_GetVertex. done.
  - destruct (AddBlock_forest _ _ _ _ Iw Hrun) as (Hw & Hl & Hst & _). split; try done.
    + intros id x [Hx| ->]%Hst; apply elem_of_app; [left; by eapply Is | right; by apply list_elem_of_singleton].
    + by rewrite Hl.
    + intros Hp. apply Ili. intros x y Hx Hy. apply Hp; apply elem_of_app; by left.
  - unfold AddVote in Hrun. go_inv. by split.
  - destruct (CommitBlock_forest _ _ _ _ _ Iw Hrun) as (Hw & Hst & Hl). split; try done.
    + intros i x Hx. by eapply Is, Hst.
    + by rewrite Hl.
  - destruct (CommitBlock_forest _ _ _ _ _ Iw Hrun) as (Hw & Hst & b' & Hb' & Hch & Hle & Hl).
    rewrite Hb in Hb'. injection Hb' as <-. split; try done.
    + intros i x Hx. by eapply Is, Hst.
    + rewrite Hl. intros b' l' [Hin|Hin%list_elem_of_singleton]%elem_of_app; [specialize (Il _ _ Hin); lia|].
      injection Hin as -> ->. done.
    + apply StronglySorted_snoc; [done|]. apply Forall_forall. intros [b' l'] Hin y Hy. simpl in *.
      specialize (Il _ _ Hin). pose proof (commit_chain_in _ _ _ _ Hch Hy). lia.
    + intros Hp. pose proof (stored_descending _ _ Iw Is Hp) as Hd. apply Forall_app. split; [by apply Ili|].
      constructor; [|done]. simpl. split; [by eapply commit_chain_sorted|].
      intros x Hx. by eapply commit_chain_le.
Qed.

Lemma StronglySorted_app {A} (R : A -> A -> Prop) l k :
  StronglySorted R l -> StronglySorted R k -> (forall x y, x ∈ l -> y ∈ k -> R x y) -> StronglySorted R (l ++ k).
Proof.
  induction 1 as [|x l Hs IH Hx]; intros Hk Hxy; simpl; [done|].
  constructor; [apply IH; [done|]; intros ? ? ? ?; apply Hxy; [by right | done]|].
  apply Forall_app. split; [done|]. apply Forall_forall. intros y Hy. apply Hxy; [left | done].
Qed.
Lemma StronglySorted_reverse {A} (R : A -> A -> Prop) l :
  StronglySorted R l -> StronglySorted (fun x y => R y x) (reverse l).
Proof.
  induction 1 as [|x l _ IH Hx]; [constructor|]. rewrite reverse_cons. apply StronglySorted_app; [done | by repeat constructor |].
  intros y z Hy ->%list_elem_of_singleton. rewrite Forall_forall in Hx. by apply Hx, elem_of_reverse.
Qed.

(** All committed blocks, oldest first. *)
Definition committed_history (cs : list (Block * list Block)) : list Block := mjoin ((fun c => reverse c.2) <$> cs).

Lemma history_sorted cs :
  StronglySorted (fun c c' => forall y, y ∈ c'.2 -> Level c.1 < Level y) cs ->
  Forall (fun c => StronglySorted (fun x y => Level y < Level x) c.2 /\ forall x, x ∈ c.2 -> Level x <= Level c.1) cs ->
  StronglySorted (fun x y => Level x < Level y) (committed_history cs).
Proof.
  induction 1 as [|c cs _ IH Hc]; intros Hall; [constructor|]. apply Forall_cons in Hall as [[Hs Hle] Hall].
  unfold committed_history. cbn. apply StronglySorted_app; [by apply StronglySorted_reverse | by apply IH |].
  intros x y Hx (l & Hy & Hin)%list_elem_of_join. rewrite elem_of_reverse in Hx.
  apply list_elem_of_fmap in Hin as (c' & -> & Hin). rewrite elem_of_reverse in Hy.
  specialize (Hle x Hx). eapply Forall_forall in Hc; [|exact Hin]. specialize (Hc y Hy). lia.
Qed.

(** C1.  What commits do along any run of the store from its creation, whatever
    blocks are added: a commit lists only blocks above the block of every earlier
    commit.  And when every block added is above the one it names as its parent --
    which [AddBlock] does not check -- nothing is ever committed twice: the blocks
    of all commits, oldest first, have strictly increasing views. *)
Theorem committed_once cfg n bs cs bc :
  bc_run cfg (NewBlockchain n) bs cs bc ->
  (forall i j b l b' l' y, (i < j)%nat -> cs !! i = Some (b, l) -> cs !! j = Some (b', l') ->
     y ∈ l' -> Level b < Level y) /\
  (parents_below bs -> StronglySorted (fun x y => Level x < Level y) (committed_history cs)).
Proof.
  intros Hrun. destruct (bc_run_inv _ _ _ _ _ Hrun) as [_ _ _ Ha Hl]. split.
  - intros i j b l b' l' y Hij Hi Hj. by apply (StronglySorted_lookup _ cs i j (b, l) (b', l') Ha Hi Hj Hij).
  - intros Hp. by apply history_sorted, Hl.
Qed.

(** ** Frame lemmas for the layers above *)

Definition same_low (f f' : LevelledForest) : Prop := LowestLevel f' = LowestLevel f.
#[export] Instance same_low_preorder : PreOrder same_low.
Proof. split; [done|]. intros f g h H1 H2. unfold same_low in *. congruence. Qed.

Lemma AddVertex_low b : preserves same_low (AddVertex b).
Proof.
  assert (Hg : forall id lv, preserves same_low (getOrCreateVertexContainer id lv)).
  { intros id lv. unfold getOrCreateVertexContainer. preserves_auto. }
  unfold AddVertex, registerWithParent, deref. preserves_auto.
Qed.

Lemma prune_levels_low cl : forall k l forked no, preserves same_low (prune_levels k cl l forked no).
Proof.
  assert (Hl : forall l vs forked no, preserves same_low (prune_level cl l vs forked no)).
  { intros l vs. induction vs as [|v vs IH]; intros forked no; simpl; unfold deref; preserves_auto. }
  intros k. induction k as [|k IH]; intros l forked no; simpl; preserves_auto.
Qed.

Lemma PruneUpToLevel_low level f r f' :
  PruneUpToLevel level f = Ret (r, f') -> LowestLevel f <= LowestLevel f'.
Proof.
  intros H. unfold PruneUpToLevel in H. go_inv. destruct (level <? LowestLevel f) eqn:El; go_inv; simpl; lia.
Qed.

(** The lowest retained level. *)
Definition bc_low (bc : BlockChain) : Z := LowestLevel (forrest bc).
Definition low_grows (bc bc' : BlockChain) : Prop := bc_low bc <= bc_low bc'.
#[export] Instance low_grows_preorder : PreOrder low_grows.
Proof. split; [intros bc; unfold low_grows; lia|]. intros a b c. unfold low_grows. lia. Qed.

Lemma AddBlock_low b : preserves low_grows (AddBlock b).
Proof.
  eapply preserves_zoom; [apply AddVertex_low|]. intros bc f'. unfold same_low, low_grows, bc_low. simpl. lia.
Qed.
Lemma AddVote_low cfg v : preserves low_grows (AddVote cfg v).
Proof. intros bc r bc' H. unfold AddVote in H. go_inv. by unfold low_grows. Qed.
Lemma CommitBlock_low id view : preserves low_grows (CommitBlock id view).
Proof.
  intros bc r bc' H. apply CommitBlock_inv in H.
  destruct (GetVertex (forrest bc) id) as [b|]; [|by destruct H as [_ ->]].
  destruct H as (l & f' & pr & _ & Hp & Hrest). apply PruneUpToLevel_low in Hp.
  destruct pr as [e|[fk no]]; destruct Hrest as [_ ->]; exact Hp.
Qed.
#[export] Hint Resolve AddBlock_low AddVote_low CommitBlock_low : bamboo.

(** The structural invariants of the store survive every operation, for any
    blocks and votes. *)
Definition bc_wf (bc : BlockChain) : Prop := forest_wf (forrest bc) /\ quorum_wf (quorum bc).

Lemma NewBlockchain_wf n : bc_wf (NewBlockchain n).
Proof.
  split; [apply NewLevelledForest_wf|]. intros id vs k v H. simpl in H. by rewrite lookup_empty in H.
Qed.

Lemma AddBlock_wf b : preserves (fun bc bc' => bc_wf bc -> bc_wf bc') (AddBlock b).
Proof.
  intros bc r bc' H [Hf Hq]. destruct (AddBlock_forest _ _ _ _ Hf H) as (? & _ & _ & E).
  split; [done | by rewrite E].
Qed.

Lemma AddVote_wf cfg v : preserves (fun bc bc' => bc_wf bc -> bc_wf bc') (AddVote cfg v).
Proof.
  intros bc r bc' H [Hf Hq]. unfold AddVote in H. go_inv. split; [done|]. simpl. by eapply quorum_Add_wf.
Qed.

Lemma PruneUpToLevel_wf level f r f' : PruneUpToLevel level f = Ret (r, f') -> forest_wf f -> forest_wf f'.
Proof. intros Hrun H. apply (forest_step_sim f f' H). by eapply step_prune. Qed.

Lemma count_all_quorum_wf view l : forall bc, quorum_wf (quorum bc) -> quorum_wf (quorum (count_all view l bc)).
Proof.
  intros bc Hq id vs k v Hl. rewrite count_all_votes in Hl. case_bool_decide; [done|]. by apply Hq.
Qed.

Lemma CommitBlock_wf id view : preserves (fun bc bc' => bc_wf bc -> bc_wf bc') (CommitBlock id view).
Proof.
  intros bc r bc' H [Hf Hq]. apply CommitBlock_inv in H.
  destruct (GetVertex (forrest bc) id) as [b|]; [|by destruct H as [_ ->]].
  destruct H as (l & f' & pr & _ & Hp & Hrest).
  pose proof (PruneUpToLevel_wf _ _ _ _ Hp Hf) as Hf'.
  pose proof (count_all_quorum_wf view l (set_highest (b_View b) bc) Hq) as Hq'.
  destruct pr as [e|[fk no]]; destruct Hrest as [_ ->]; split; done.
Qed.

(** ** Concrete stores *)

Definition store_of (bs : list Block) : BlockChain := set_forrest (forest_of bs) (NewBlockchain 4).

Lemma CommitBlock_commits_witness :
  exists l forked bc', CommitBlock [4] 6 (store_of (chain3 ++ [fork3])) = Ret (inr (l, forked), bc') /\
    committedBlockNo bc' = i64 (0 + Z.of_nat (length l)) /\
    totalBlockIntervals bc' = i64 (0 + foldr (fun x acc => (6 - b_View x) + acc) 0 l).
Proof.
  destruct (CommitBlock_commits [4] 6 (store_of (chain3 ++ [fork3])) (toy_block [4] 4 [2] 2))
    as (l & forked & bc' & Hrun & _ & _ & _ & _ & _ & _ & _ & Hn & Ht & _).
  - apply forest_of_wf.
  - apply consistentb_sound. vm_compute. reflexivity.
  - apply sequentialb_sound. vm_compute. reflexivity.
  - split; vm_compute; [discriminate | reflexivity].
  - split; vm_compute; [discriminate | reflexivity].
  - vm_compute. reflexivity.
  - exists l, forked, bc'. split_and!; [exact Hrun | exact Hn | exact Ht].
Defined.

(** The value: blocks 4, 2 and 1 are committed, the fork at view 3 is reported. *)
Example CommitBlock_example :
  match CommitBlock [4] 6 (store_of (chain3 ++ [fork3])) with
  | Ret (inr (l, forked), bc') => (b_View <$> l, b_View <$> forked, bc_low bc', prunedBlockNo bc') =
      ([4; 2; 1], [3], 4, 4)
  | _ => False
  end.
Proof. vm_compute. reflexivity. Qed.

(** With two containers at one level, which the comment in
    [PruneUpToLevel] excludes, the walk follows the first of them: here views 5,
    3, 2, 1 are committed, the committed block of view 2 is also reported as
    forked, and the abandoned block of view 3 is reported nowhere. *)
Theorem fork_misreports_committed :
  let bs := [toy_block [1] 1 zeroID 0; toy_block [2] 2 [1] 1; toy_block [30] 3 [1] 1;
             toy_block [31] 3 [2] 2; toy_block [5] 5 [31] 3] in
  consistent (forest_of bs) /\
  match CommitBlock [5] 7 (store_of bs) with
  | Ret (inr (l, forked), _) => (b_ID <$> l, b_ID <$> forked) = ([[5]; [31]; [2]; [1]], [[2]])
  | _ => False
  end.
Proof. split; [apply consistentb_sound|]; vm_compute; reflexivity. Qed.

(** A block whose certificate names an unknown parent creates an empty
    container at the certificate's view; if that container is first at the level
    of a block committed later, the commit dereferences nil. *)
Theorem empty_container_panics_commit :
  let evil := toy_block [8] 4 [9] 3 in
  let bs := [toy_block [1] 1 zeroID 0; toy_block [2] 2 [1] 1; evil; toy_block [3] 3 [2] 2] in
  consistent (forest_of bs) /\ GetVertex (forest_of bs) [3] = Some (toy_block [3] 3 [2] 2) /\
  CommitBlock [3] 5 (store_of bs) = Panic.
Proof. split; [apply consistentb_sound|]; [|split]; vm_compute; reflexivity. Qed.

(** A run with two commits. *)
Definition bc_after (m : M BlockChain unit) (bc : BlockChain) : BlockChain :=
  match m bc with Ret (_, bc') => bc' | _ => bc end.
Definition two_blocks : BlockChain :=
  bc_after (AddBlock (toy_block [2] 2 [1] 1)) (bc_after (AddBlock (toy_block [1] 1 zeroID 0)) (NewBlockchain 4)).
Definition bc_committed (id : Identifier) (bc : BlockChain) : BlockChain :=
  match CommitBlock id 9 bc with Ret (_, bc') => bc' | _ => bc end.

Definition toy1 : Block := toy_block [1] 1 zeroID 0.
Definition toy2 : Block := toy_block [2] 2 [1] 1.

Lemma two_commits : bc_run toy_config (NewBlockchain 4) [toy1; toy2] [(toy1, [toy1]); (toy2, [toy2])]
  (bc_committed [2] (bc_committed [1] two_blocks)).
Proof.
  apply (run_commit toy_config _ _ [(toy1, [toy1])] (bc_committed [1] two_blocks) [2] 9 toy2 [toy2] []);
    [|vm_compute; reflexivity..].
  apply (run_commit toy_config _ _ [] two_blocks [1] 9 toy1 [toy1] []); [|vm_compute; reflexivity..].
  apply (run_block toy_config _ [toy1] [] (bc_after (AddBlock toy1) (NewBlockchain 4)) toy2); [|vm_compute; reflexivity].
  apply (run_block toy_config _ [] [] (NewBlockchain 4) toy1); [constructor | vm_compute; reflexivity].
Qed.

Lemma committed_once_witness :
  Level toy1 < Level toy2 /\ parents_below [toy1; toy2] /\
  StronglySorted (fun x y => Level x < Level y) (committed_history [(toy1, [toy1]); (toy2, [toy2])]).
Proof.
  destruct (committed_once toy_config 4 _ _ _ two_commits) as [H1 H2].
  assert (Hp : parents_below [toy1; toy2]).
  { intros x y Hx Hy. repeat (apply elem_of_cons in Hx as [->|Hx]); try (by apply elem_of_nil in Hx);
      repeat (apply elem_of_cons in Hy as [->|Hy]); try (by apply elem_of_nil in Hy); vm_compute; done. }
  split; [|split; [exact Hp | exact (H2 Hp)]].
  apply (H1 0%nat 1%nat toy1 [toy1] toy2 [toy2] toy2); [lia | reflexivity | reflexivity | left].
Defined.

(** Without that condition a block can be committed twice: block 3 of view 3 names
    block 5 of view 5 as its parent, so the commit of 3 lists 5, and 5 can be
    committed again. *)
Definition upward : list Block := [toy_block [1] 1 zeroID 0; toy_block [5] 5 [1] 1; toy_block [3] 3 [5] 5].
Example committed_twice :
  match CommitBlock [3] 9 (store_of upward) with
  | Ret (inr (l, _), bc') =>
      match CommitBlock [5] 9 bc' with
      | Ret (inr (l', _), _) => (b_ID <$> l, b_ID <$> l') = ([[3]; [5]; [1]], [[5]])
      | _ => False
      end
  | _ => False
  end.
Proof. vm_compute. reflexivity. Qed.

(** A block that is its own parent, above the lowest level, hangs the commit. *)
Lemma self_parent_loops id view bc b :
  GetVertex (forrest bc) id = Some b -> b_PrevID b = id -> LowestLevel (forrest bc) < Level b ->
  goes_round (parent_link (forrest bc)) id /\ CommitBlock id view bc = Diverge.
Proof.
  intros Hb Hp Hl. assert (Hround : goes_round (parent_link (forrest bc)) id)
    by (exists id; split; [done|]; apply tc_once; by exists b).
  split; [done|]. unfold CommitBlock, gbind, gets, modify. rewrite Hb.
  pose proof (proj2 (commit_loop_loops view id b [] (set_highest (b_View b) bc) Hb)) as E.
  cbn [forrest set_highest] in E. by rewrite E.
Qed.

Definition own_parent : BlockChain := store_of [toy_block [7] 7 [7] 0].
Lemma CommitBlock_hangs_witness :
  CommitBlock [7] 9 own_parent = Diverge /\ CommitBlock [8] 9 own_parent <> Diverge.
Proof.
  split.
  - apply (CommitBlock_hangs [7] 9 own_parent). exists (toy_block [7] 7 [7] 0). split; [vm_compute; reflexivity|].
    left. exists [7]. split; [done|]. apply tc_once. exists (toy_block [7] 7 [7] 0).
    split_and!; vm_compute; reflexivity.
  - intros (b & Hb & _)%(CommitBlock_hangs [8] 9 own_parent). by vm_compute in Hb.
Defined.
