(* ===== verification/Pacemaker.v ===== *)
(** * The pacemaker (pacemaker/*.go)

    Timeout and view-change messages are collected per view until more than two
    thirds of the nodes have sent one, which produces a TC (VC) once;
    [AdvanceView] moves the current view forward and announces the new view on a
    channel (a queue here: a full channel delays the sender and changes
    nothing else).

    [TimeoutController] and [ViewChangeController] are the same code at two
    message types; the model has the code once, over the class [TimeoutMsg], and
    both controllers as its instances. *)

From Stdlib Require Import String.
From stdpp Require Import base gmap strings numbers list.
From S2P Require Import Prelude.
From S2P Require Import Identity.
From S2P Require Import Config.
From S2P Require Import Crypto.
From S2P Require Import Block.

Local Open Scope Z_scope.
Local Open Scope go_scope.

(** ** model.go *)

Record TMO := mkTMO { tmo_View : Z; tmo_NodeID : NodeID; tmo_HighQC : option QC }.
Record VMO := mkVMO { vmo_View : Z; vmo_NodeID : NodeID; vmo_HighQC : option QC }.
Record TC := mkTC { tc_View : Z; tc_AggSig : AggSig; tc_Signature : Signature }.
Record VC := mkVC' { vc_View : Z; vc_AggSig : AggSig; vc_Signature : Signature }.

#[global] Instance VMO_eq_dec : EqDecision VMO.
Proof. solve_decision. Defined.

Definition NewTC (view : Z) (requesters : gmap NodeID TMO) : TC := mkTC view [] [].
Definition NewVC (view : Z) (requesters : gmap NodeID VMO) : VC := mkVC' view [] [].

(** ** The controllers *)

Class TimeoutMsg (A : Type) := { msg_View : A -> Z; msg_NodeID : A -> NodeID }.
#[export] Instance tmo_msg : TimeoutMsg TMO := {| msg_View := tmo_View; msg_NodeID := tmo_NodeID |}.
#[export] Instance vmo_msg : TimeoutMsg VMO := {| msg_View := vmo_View; msg_NodeID := vmo_NodeID |}.

Record Controller (A : Type) := mkController {
  ctl_n : Z;
  ctl_timeouts : gmap Z (gmap NodeID A) }.
Arguments mkController {A} _ _.
Arguments ctl_n {A} _.
Arguments ctl_timeouts {A} _.

Definition NewController {A} (n : Z) : Controller A := mkController n ∅.

Section controller.
Context {A : Type} `{TimeoutMsg A}.

Definition requests (c : Controller A) (view : Z) : gmap NodeID A := default ∅ (ctl_timeouts c !! view).
Definition ctl_total (c : Controller A) (view : Z) : Z := Z.of_nat (size (requests c view)).
(** [tcl.n*2/3]: the product wraps, the division truncates. *)
Definition two_thirds (n : Z) : Z := Z.quot (i64 (n * 2)) 3.
Definition ctl_superMajority (c : Controller A) (view : Z) : bool := two_thirds (ctl_n c) <? ctl_total c view.

Definition record_msg (m : A) (c : Controller A) : Controller A :=
  mkController (ctl_n c)
    (<[msg_View m := <[msg_NodeID m := m]> (requests c (msg_View m))]> (ctl_timeouts c)).

(** The common body of [AddTmo] and [AddVmo]; [mk] builds the certificate. *)
Definition ctl_add {C} (mk : Z -> gmap NodeID A -> C) (m : A) : M (Controller A) (bool * option C) :=
  c ← gets (fun c => c);
  if ctl_superMajority c (msg_View m) then ret (false, None)
  else
    modify (record_msg m);;
    c ← gets (fun c => c);
    if ctl_superMajority c (msg_View m) then
      ret (true, Some (mk (msg_View m) (requests c (msg_View m))))
    else ret (false, None).

Lemma requests_record m c v :
  requests (record_msg m c) v =
  if decide (msg_View m = v) then <[msg_NodeID m := m]> (requests c v) else requests c v.
Proof.
  unfold requests, record_msg. simpl. rewrite lookup_insert. case_decide as E; [by subst|done].
Qed.

Lemma ctl_add_run {C} (mk : Z -> gmap NodeID A -> C) m c :
  ctl_add mk m c =
  Ret (if ctl_superMajority c (msg_View m) then (false, None, c)
       else let c' := record_msg m c in
            (if ctl_superMajority c' (msg_View m)
             then (true, Some (mk (msg_View m) (requests c' (msg_View m)))) else (false, None), c')).
Proof.
  unfold ctl_add. cbv [gbind gets modify ret]. destruct (ctl_superMajority c _); [done|].
  by destruct (ctl_superMajority (record_msg m c) _).
Qed.

(** ** A sequence of messages *)

(** The views for which a certificate was built, in order. *)
Fixpoint ctl_adds {C} (mk : Z -> gmap NodeID A -> C) (ms : list A) : M (Controller A) (list Z) :=
  match ms with
  | [] => ret []
  | m :: ms' =>
      '(built, _) ← ctl_add mk m;
      rest ← ctl_adds mk ms';
      ret ((if (built : bool) then [msg_View m] else []) ++ rest)
  end.

(** The distinct nodes that sent a message for view [v]. *)
Definition senders (v : Z) (ms : list A) : gset NodeID :=
  list_to_set (msg_NodeID <$> filter (fun m => msg_View m = v) ms).

(** How often [v] still has to be certified, given the senders recorded. *)
Definition certificates (n : Z) (recorded : gset NodeID) (new : gset NodeID) : nat :=
  if two_thirds n <? Z.of_nat (size recorded) then 0
  else if two_thirds n <? Z.of_nat (size (recorded ∪ new)) then 1 else 0.

Definition count_view (v : Z) (l : list Z) : nat := length (filter (fun x => x = v) l).

Lemma senders_cons v m ms :
  senders v (m :: ms) = (if decide (msg_View m = v) then {[msg_NodeID m]} else ∅) ∪ senders v ms.
Proof.
  unfold senders. rewrite filter_cons. case_decide; simpl; [done|]. set_solver.
Qed.

Lemma count_view_app v l k : count_view v (l ++ k) = (count_view v l + count_view v k)%nat.
Proof. unfold count_view. by rewrite filter_app, length_app. Qed.

Lemma count_view_if v x (b : bool) :
  count_view v (if b then [x] else []) = if decide (x = v) then Nat.b2n b else 0%nat.
Proof. unfold count_view. destruct b; [rewrite filter_cons|]; by case_decide. Qed.

Lemma ctl_total_dom c v : ctl_total c v = Z.of_nat (size (dom (requests c v) : gset NodeID)).
Proof. unfold ctl_total. by rewrite size_dom. Qed.

Lemma dom_record m c v :
  dom (requests (record_msg m c) v) =
  (if decide (msg_View m = v) then {[msg_NodeID m]} else ∅) ∪ dom (requests c v) :> gset NodeID.
Proof. rewrite requests_record. case_decide; [by rewrite dom_insert_L | set_solver]. Qed.

(** One more recorded sender: the certificate it completes, if any, is the one
    that was due. *)
Lemma certificates_step n (R N : gset NodeID) x :
  (two_thirds n <? Z.of_nat (size R)) = false ->
  (Nat.b2n (two_thirds n <? Z.of_nat (size ({[x]} ∪ R)))%Z + certificates n ({[x]} ∪ R) N)%nat =
  certificates n R ({[x]} ∪ N).
Proof.
  intros HR. unfold certificates. rewrite HR.
  assert (Hsub : (size ({[x]} ∪ R) <= size (R ∪ ({[x]} ∪ N)))%nat) by (apply subseteq_size; set_solver).
  replace ({[x]} ∪ R ∪ N) with (R ∪ ({[x]} ∪ N)) by set_solver.
  destruct (two_thirds n <? Z.of_nat (size ({[x]} ∪ R))) eqn:E; [|done].
  rewrite (proj2 (Z.ltb_lt _ _)); [done|]. lia.
Qed.

Lemma ctl_adds_count {C} (mk : Z -> gmap NodeID A -> C) ms v : forall c built c',
  ctl_adds mk ms c = Ret (built, c') ->
  count_view v built = certificates (ctl_n c) (dom (requests c v)) (senders v ms).
Proof.
  induction ms as [|m ms IH]; intros c built c' Hrun; simpl in Hrun.
  - go_inv. unfold certificates, senders. simpl. rewrite union_empty_r_L. by destruct (_ <? _).
  - apply bind_ret in Hrun as ([b o] & c1 & Hadd & Hrun). apply bind_ret in Hrun as (rest & c2 & Hrest & Hrun).
    go_inv. specialize (IH _ _ _ Hrest). rewrite count_view_app, IH, senders_cons. clear IH Hrest.
    rewrite ctl_add_run in Hadd. cbv zeta in Hadd. unfold ctl_superMajority in Hadd. rewrite !ctl_total_dom in Hadd.
    destruct (two_thirds (ctl_n c) <? Z.of_nat (size (dom (requests c (msg_View m))))) eqn:E1.
    { injection Hadd as <- <- <-. case_decide as Ev; [|by rewrite union_empty_l_L].
      unfold certificates. subst v. by rewrite E1. }
    change (ctl_n (record_msg m c)) with (ctl_n c) in Hadd.
    assert (Hc1 : c1 = record_msg m c) by (by destruct (_ <? _); injection Hadd).
    assert (Hb : b = (two_thirds (ctl_n c) <? Z.of_nat (size (dom (requests c1 (msg_View m))))))
      by (subst c1; destruct (two_thirds _ <? _) eqn:E in Hadd; injection Hadd; intros; subst; by rewrite E).
    clear Hadd. rewrite Hb, Hc1, !dom_record, (decide_True (P := msg_View m = msg_View m)) by done.
    change (ctl_n (record_msg m c)) with (ctl_n c). case_decide as Ev.
    + subst v. rewrite <- certificates_step by done. f_equal.
      rewrite count_view_if, decide_True by done. done.
    + rewrite !union_empty_l_L. by rewrite count_view_if, decide_False.
Qed.
End controller.

(** [TimeoutController] and [ViewChangeController]. *)
Definition TimeoutController : Type := Controller TMO.
Definition ViewChangeController : Type := Controller VMO.
Definition NewTimeoutController (n : Z) : TimeoutController := NewController n.
Definition NewViewChangeController (n : Z) : ViewChangeController := NewController n.
Definition AddTmo (tmo : TMO) : M (Controller TMO) (bool * option TC) := ctl_add NewTC tmo.
Definition AddVmo (vmo : VMO) : M (Controller VMO) (bool * option VC) := ctl_add NewVC vmo.

(** C27.  Exactly one certificate per view: whatever timeout (view-change)
    messages arrive, in whatever order and however often repeated, a new
    controller builds one TC (VC) for a view when more than [n*2/3] distinct nodes
    sent a message for it, and none otherwise. *)
Theorem certificate_exactly_once {A C} (TM : TimeoutMsg A) (mk : Z -> gmap NodeID A -> C) n ms v built c :
  0 <= two_thirds n ->
  ctl_adds mk ms (NewController n) = Ret (built, c) ->
  count_view v built = if two_thirds n <? Z.of_nat (size (senders v ms)) then 1%nat else 0%nat.
Proof.
  intros Hn Hrun. rewrite (ctl_adds_count _ _ v _ _ _ Hrun). unfold certificates, requests. simpl.
  rewrite lookup_empty. simpl. rewrite dom_empty_L, size_empty, union_empty_l_L.
  by destruct (Z.ltb_spec (two_thirds n) (Z.of_nat 0)); [lia|].
Qed.

(** Four nodes: the third message completes the certificate, the fourth and the
    repeated one do not build another. *)
Definition toy_tmo (node : NodeID) (view : Z) : TMO := mkTMO view node None.
Definition toy_tmos : list TMO :=
  [toy_tmo "1" 2; toy_tmo "1" 2; toy_tmo "2" 2; toy_tmo "1" 3; toy_tmo "3" 2; toy_tmo "4" 2]%string.

Lemma certificate_exactly_once_witness :
  exists built c, ctl_adds NewTC toy_tmos (NewTimeoutController 4) = Ret (built, c) /\
    count_view 2 built = 1%nat /\ count_view 3 built = 0%nat.
Proof.
  eexists [2], _. split; [vm_compute; reflexivity|].
  split; [refine (certificate_exactly_once tmo_msg NewTC 4 toy_tmos 2 [2] _ _ _)
         |refine (certificate_exactly_once tmo_msg NewTC 4 toy_tmos 3 [2] _ _ _)];
    vm_compute; first [reflexivity | discriminate].
Defined.

(** ** pacemaker.go *)

Record Pacemaker := mkPM {
  curView : Z;
  newViewChan : list Z;
  timeoutController : Controller TMO;
  viewChangeController : Controller VMO }.

Definition NewPacemaker (n : Z) : Pacemaker :=
  mkPM 0 [] (NewTimeoutController n) (NewViewChangeController n).

Definition set_timeoutController (c : Controller TMO) (p : Pacemaker) : Pacemaker :=
  mkPM (curView p) (newViewChan p) c (viewChangeController p).
Definition set_viewChangeController (c : Controller VMO) (p : Pacemaker) : Pacemaker :=
  mkPM (curView p) (newViewChan p) (timeoutController p) c.

Definition pm_ProcessRemoteTmo (tmo : TMO) : M Pacemaker (bool * option TC) :=
  v ← gets curView;
  if tmo_View tmo <? v then ret (false, None)
  else zoom timeoutController set_timeoutController (AddTmo tmo).

Definition pm_ProcessRemoteVmo (vmo : VMO) : M Pacemaker (bool * option VC) :=
  v ← gets curView;
  if vmo_View vmo <? v then ret (false, None)
  else zoom viewChangeController set_viewChangeController (AddVmo vmo).

Definition enter_view (v : Z) (p : Pacemaker) : Pacemaker :=
  mkPM v (newViewChan p ++ [v]) (timeoutController p) (viewChangeController p).

Definition AdvanceView (view : Z) : M Pacemaker unit :=
  v ← gets curView;
  if view <? v then skip else modify (enter_view (view +! 1)).

(** [EnteringViewEvent]: the channel itself. *)
Definition EnteringViewEvent (p : Pacemaker) : list Z := newViewChan p.
Definition GetCurView (p : Pacemaker) : Z := curView p.

(** [time.Duration(Timeout) * time.Millisecond], in nanoseconds. *)
Definition GetTimerForView (cfg : Config) : Z := i64 (Timeout cfg * 1000000).

(** What the current view and the channel may do: never backwards (below the
    overflow of the view counter), announcements appended, the last one being the
    current view. *)
Definition views_grow (p p' : Pacemaker) : Prop :=
  curView p <= curView p' /\
  exists l, newViewChan p' = newViewChan p ++ l /\
    Forall (fun v => curView p < v) l /\ (l = [] /\ curView p' = curView p \/ last l = Some (curView p')).

#[export] Instance views_grow_preorder : PreOrder views_grow.
Proof.
  split.
  - intros p. split; [lia|]. exists []. rewrite app_nil_r. split; [done|]. split; [constructor | by left].
  - intros p q r [H1 (l & E1 & F1 & L1)] [H2 (k & E2 & F2 & L2)]. split; [lia|]. exists (l ++ k).
    rewrite E2, E1, app_assoc. split; [done|]. split.
    + apply Forall_app. split; [done|]. eapply Forall_impl; [exact F2|]. simpl. lia.
    + destruct L2 as [[-> ->]|L2]; [rewrite app_nil_r; destruct L1 as [[-> ?]|?]; auto|].
      right. by rewrite last_app, L2.
Qed.

Lemma AdvanceView_run view p :
  AdvanceView view p = Ret (tt, if view <? curView p then p else enter_view (view +! 1) p).
Proof. unfold AdvanceView. cbv [gbind gets skip modify]. by destruct (view <? curView p). Qed.

Lemma AdvanceView_grows view p p' :
  is_i64 view -> view < two63 - 1 -> AdvanceView view p = Ret (tt, p') -> views_grow p p'.
Proof.
  intros Hi Hv H. rewrite AdvanceView_run in H. injection H as <-.
  destruct (Z.ltb_spec view (curView p)); [reflexivity|].
  unfold views_grow, enter_view. simpl. rewrite i64_id by (unfold is_i64, two63 in *; lia).
  split; [lia|]. exists [view + 1]. split; [done|]. split; [|by right]. constructor; [lia|done].
Qed.
