(* ===== verification/Protocol.v ===== *)
(** * What the chained protocols share

    hotstuff/hotstuff.go, tchs/tchs.go and fasthostuff/fhs.go keep the same
    state and contain the same view-change code, line for line; it is modelled
    here once and instantiated in HotStuff.v, Tchs.v and Fhs.v.

    - The state is one record.  [lastVotedView] exists in Tchs and Fhs only,
      [height] in HotStuff only; both keep their zero value there.
    - [Send], [Broadcast] and the channels append to lists.
    - The recursion of the Go methods (a block may release a buffered block,
      which may release a view change, ...) is modelled by fuel; the view-change
      code takes the protocol's [ProcessBlock] as an argument. *)

From Stdlib Require Import String.
From stdpp Require Import base gmap strings numbers list.
From S2P Require Import Prelude.
From S2P Require Import Identity.
From S2P Require Import Config.
From S2P Require Import Crypto.
From S2P Require Import Election.
From S2P Require Import Message.
From S2P Require Import Block.
From S2P Require Import Quorum.
From S2P Require Import Forest.
From S2P Require Import ForestSpec.
From S2P Require Import BlockChain.
From S2P Require Import Pacemaker.

Local Open Scope Z_scope.
Local Open Scope go_scope.

(** ** State *)

Inductive Msg := MVote (v : Vote) | MTmo (t : TMO) | MVmo (v : VMO) | MBlock (b : Block).
(** What a replica does with its messages: the calls of [Send] and [Broadcast], and
    the votes of its own that it counts itself instead of sending them.  The last
    are a history only: no node receives them and the code does not read them. *)
Inductive Out := OSend (to : NodeID) (m : Msg) | OBroadcast (m : Msg) | OKeep (v : Vote).

Record Proto := mkProto {
  pm : Pacemaker;
  lastVotedView : Z;
  preferredView : Z;
  highQC : QC;
  height : Z;
  bc : BlockChain;
  committedBlocks : list Block;
  forkedBlocks : list Block;
  bufferedQCs : gmap Identifier QC;
  bufferedBlocks : gmap Z Block;
  recivedVMO : gmap Z VMO;
  recivedBlock : gmap Z Block;
  outbox : list Out }.

(** The state the constructors build. *)
Definition newProto (n : Z) : Proto :=
  mkProto (NewPacemaker n) 0 0 genesisQC 0 (NewBlockchain n) [] [] ∅ ∅ ∅ ∅ [].

Definition set_pm (x : Pacemaker) (s : Proto) : Proto :=
  mkProto x (lastVotedView s) (preferredView s) (highQC s) (height s) (bc s) (committedBlocks s)
    (forkedBlocks s) (bufferedQCs s) (bufferedBlocks s) (recivedVMO s) (recivedBlock s) (outbox s).
Definition set_lastVotedView (x : Z) (s : Proto) : Proto :=
  mkProto (pm s) x (preferredView s) (highQC s) (height s) (bc s) (committedBlocks s)
    (forkedBlocks s) (bufferedQCs s) (bufferedBlocks s) (recivedVMO s) (recivedBlock s) (outbox s).
Definition set_preferredView (x : Z) (s : Proto) : Proto :=
  mkProto (pm s) (lastVotedView s) x (highQC s) (height s) (bc s) (committedBlocks s)
    (forkedBlocks s) (bufferedQCs s) (bufferedBlocks s) (recivedVMO s) (recivedBlock s) (outbox s).
Definition set_highQC (x : QC) (s : Proto) : Proto :=
  mkProto (pm s) (lastVotedView s) (preferredView s) x (height s) (bc s) (committedBlocks s)
    (forkedBlocks s) (bufferedQCs s) (bufferedBlocks s) (recivedVMO s) (recivedBlock s) (outbox s).
Definition set_bc (x : BlockChain) (s : Proto) : Proto :=
  mkProto (pm s) (lastVotedView s) (preferredView s) (highQC s) (height s) x (committedBlocks s)
    (forkedBlocks s) (bufferedQCs s) (bufferedBlocks s) (recivedVMO s) (recivedBlock s) (outbox s).
Definition push_committed (l : list Block) (s : Proto) : Proto :=
  mkProto (pm s) (lastVotedView s) (preferredView s) (highQC s) (height s) (bc s) (committedBlocks s ++ l)
    (forkedBlocks s) (bufferedQCs s) (bufferedBlocks s) (recivedVMO s) (recivedBlock s) (outbox s).
Definition push_forked (l : list Block) (s : Proto) : Proto :=
  mkProto (pm s) (lastVotedView s) (preferredView s) (highQC s) (height s) (bc s) (committedBlocks s)
    (forkedBlocks s ++ l) (bufferedQCs s) (bufferedBlocks s) (recivedVMO s) (recivedBlock s) (outbox s).
Definition upd_bufferedQCs (f : gmap Identifier QC -> gmap Identifier QC) (s : Proto) : Proto :=
  mkProto (pm s) (lastVotedView s) (preferredView s) (highQC s) (height s) (bc s) (committedBlocks s)
    (forkedBlocks s) (f (bufferedQCs s)) (bufferedBlocks s) (recivedVMO s) (recivedBlock s) (outbox s).
Definition upd_bufferedBlocks (f : gmap Z Block -> gmap Z Block) (s : Proto) : Proto :=
  mkProto (pm s) (lastVotedView s) (preferredView s) (highQC s) (height s) (bc s) (committedBlocks s)
    (forkedBlocks s) (bufferedQCs s) (f (bufferedBlocks s)) (recivedVMO s) (recivedBlock s) (outbox s).
Definition upd_recivedVMO (f : gmap Z VMO -> gmap Z VMO) (s : Proto) : Proto :=
  mkProto (pm s) (lastVotedView s) (preferredView s) (highQC s) (height s) (bc s) (committedBlocks s)
    (forkedBlocks s) (bufferedQCs s) (bufferedBlocks s) (f (recivedVMO s)) (recivedBlock s) (outbox s).
Definition upd_recivedBlock (f : gmap Z Block -> gmap Z Block) (s : Proto) : Proto :=
  mkProto (pm s) (lastVotedView s) (preferredView s) (highQC s) (height s) (bc s) (committedBlocks s)
    (forkedBlocks s) (bufferedQCs s) (bufferedBlocks s) (recivedVMO s) (f (recivedBlock s)) (outbox s).
Definition push_out (o : Out) (s : Proto) : Proto :=
  mkProto (pm s) (lastVotedView s) (preferredView s) (highQC s) (height s) (bc s) (committedBlocks s)
    (forkedBlocks s) (bufferedQCs s) (bufferedBlocks s) (recivedVMO s) (recivedBlock s) (outbox s ++ [o]).

(** The effects, one per kind of write in the Go code. *)
Definition get : M Proto Proto := gets (fun s => s).
Definition curViewM : M Proto Z := gets (fun s => GetCurView (pm s)).
Definition advanceView (view : Z) : M Proto unit := zoom pm set_pm (AdvanceView view).
Definition addBlock (b : Block) : M Proto unit := zoom bc set_bc (AddBlock b).
Definition commitBlock (id : Identifier) (view : Z) : M Proto (error + (list Block * list Block)) :=
  zoom bc set_bc (CommitBlock id view).
Definition bufferQC (qc : QC) : M Proto unit := modify (upd_bufferedQCs (insert (qc_BlockID qc) qc)).
Definition unbufferQC (id : Identifier) : M Proto unit := modify (upd_bufferedQCs (delete id)).
Definition bufferBlock (b : Block) : M Proto unit := modify (upd_bufferedBlocks (insert (b_View b -! 1) b)).
Definition unbufferBlock (k : Z) : M Proto unit := modify (upd_bufferedBlocks (delete k)).
Definition receiveVMO (v : VMO) : M Proto unit := modify (upd_recivedVMO (insert (vmo_View v -! 1) v)).
Definition dropVMO (k : Z) : M Proto unit := modify (upd_recivedVMO (delete k)).
Definition receiveBlock (b : Block) : M Proto unit := modify (upd_recivedBlock (insert (b_View b -! 1) b)).
Definition dropBlock (k : Z) : M Proto unit := modify (upd_recivedBlock (delete k)).
Definition Send (to : NodeID) (m : Msg) : M Proto unit := modify (push_out (OSend to m)).
Definition Broadcast (m : Msg) : M Proto unit := modify (push_out (OBroadcast m)).
(** The mark that a vote goes to the replica's own [ProcessVote]. *)
Definition keepVote (v : Vote) : M Proto unit := modify (push_out (OKeep v)).

(** A write through a pointer to a stored block: [g] changes the block. *)
Definition write_vertex (g : Block -> Block) (id : Identifier) (f : LevelledForest) : LevelledForest :=
  match vertices f !! id with
  | None => f
  | Some l =>
      with_store (alter (fun c => mkVC (vc_id c) (vc_level c) (vc_children c) (g <$> vc_vertex c))
                        l (store f)) f
  end.
Definition write_stored (g : Block -> Block) (id : Identifier) : M Proto unit :=
  modify (fun s => set_bc (set_forrest (write_vertex g id (forrest (bc s))) (bc s)) s).

(** The written block is read back. *)
Lemma write_vertex_lookup g f i b :
  GetVertex f i = Some b -> b_ID b = i -> GetVertex (write_vertex g (b_ID b) f) (b_ID b) = Some (g b).
Proof.
  intros Hb <-. unfold GetVertex, container_of, write_vertex in *.
  destruct (vertices f !! b_ID b) as [l|] eqn:El; [|done]. simpl. rewrite El, list_lookup_alter_eq.
  destruct (store f !! l) as [c|]; [|done]. simpl. by rewrite Hb.
Qed.

Lemma write_vertex_low g id f : LowestLevel (write_vertex g id f) = LowestLevel f.
Proof. unfold write_vertex. by destruct (vertices f !! id). Qed.

Lemma write_vertex_wf g id f :
  (forall b, b_ID (g b) = b_ID b) -> (forall b, b_PrevID (g b) = b_PrevID b) ->
  forest_wf f -> forest_wf (write_vertex g id f).
Proof.
  intros Hid Hprev H. unfold write_vertex. destruct (vertices f !! id) as [l|] eqn:El; [|done].
  destruct (wf_vertices _ H _ _ El) as (c & Hc & _).
  eapply alter_wf; eauto; simpl.
  - intros b ->. simpl. eauto.
  - intros b (b0 & Hb0 & ->)%fmap_Some. unfold VertexID. rewrite Hid. by eapply (wf_full _ H).
Qed.

(** [b.CommitFromThis = true]. *)
Definition mark_stored (id : Identifier) : M Proto unit := write_stored mark_commit id.
(** [b.QC.View = view]. *)
Definition retag_QC (view : Z) (qc : QC) : QC :=
  mkQC (qc_Leader qc) view (qc_BlockID qc) (qc_Signers qc) (qc_AggSig qc) (qc_Signature qc).
Definition retag (view : Z) (b : Block) : Block :=
  mkBlock (b_View b) (retag_QC view <$> b_QC b) (b_Proposer b) (b_Timestamp b) (b_Payload b) (b_PrevID b)
          (b_Sig b) (b_ID b) (b_Ts b) (b_Mali b) (b_forkNum b) (b_height b) (b_CommitFromThis b).
Definition retag_stored (view : Z) (id : Identifier) : M Proto unit := write_stored (retag view) id.

(** ** The code the protocols share *)

(** The environment of a replica: its identity, whether it is Byzantine, the
    configuration, the election and the crypto package. *)
Class Env := {
  env_crypto :: CryptoEnv;
  env_election :: Election;
  env_cfg : Config;
  me : NodeID;
  IsByz : bool }.

Section shared.
Context {EV : Env}.

Definition addVote (v : Vote) : M Proto (bool * option QC) := zoom bc set_bc (AddVote env_cfg v).

(** [if pm.GetCurView() < 1 { pm.AdvanceView(0) }]. *)
Definition enter_first_view : M Proto unit :=
  v ← curViewM; when (v <? 1) (advanceView 0).

(** The block signature is checked but a failure is only logged. *)
Definition check_block_sig (b : Block) : M Proto unit :=
  if decide (b_Proposer b = me) then skip
  else _ ← lift (PubVerify ce_keys (b_Sig b) (IDToByte (b_ID b)) (b_Proposer b)); skip.

Definition updateHighQC (qc : QC) : M Proto unit :=
  s ← get; when (qc_View (highQC s) <? qc_View qc) (modify (set_highQC qc)).

(** The signature check at the head of [processCertificate]. *)
Definition quorumIsVerified (qc : QC) : M Proto bool :=
  if decide (qc_Leader qc = me) then ret true
  else
    r ← lift (VerifyQuorumSignature ce_keys (qc_AggSig qc) (qc_BlockID qc) (qc_Signers qc));
    ret (fst r).

Definition remoteVc (vc : VC) : M Proto unit := advanceView (vc_View vc).

Definition processTC (tc : TC) : M Proto unit :=
  v ← curViewM; if tc_View tc <? v then skip else advanceView (tc_View tc).

(** [GetChainStatus]. *)
Definition chainStatus : M Proto string := gets (fun s => chain_status me (GetCurView (pm s)) (bc s)).

(** The tail of [ProcessRemoteTmo]. *)
Definition collectTmo (tmo : TMO) : M Proto unit :=
  '(isBuilt, tc) ← zoom pm set_pm (pm_ProcessRemoteTmo tmo);
  if negb (isBuilt : bool) then skip
  else tc ← lift (of_option tc); processTC tc.

Definition localTmo (view : Z) : M Proto TMO :=
  s ← get;
  let tmo := mkTMO view me (Some (highQC s)) in
  Broadcast (MTmo tmo);; ret tmo.

(** [qc.Leader = ID()] on a certificate just built. *)
Definition set_Leader (id : NodeID) (qc : QC) : QC :=
  mkQC id (qc_View qc) (qc_BlockID qc) (qc_Signers qc) (qc_AggSig qc) (qc_Signature qc).

(** [ProcessVMOAndBlock]; [pb] is the protocol's [ProcessBlock], whose error
    is dropped. *)
Definition vmoAndBlock (pb : Block -> M Proto (option error)) (view : Z) : M Proto bool :=
  s ← get;
  match recivedVMO s !! (view -! 1) with
  | None => ret false
  | Some vmo =>
      match bufferedBlocks s !! (view -! 1) with
      | Some block => unbufferBlock (view -! 1);; _ ← pb block; skip
      | None => skip
      end;;
      s ← get;
      match recivedBlock s !! (view -! 1) with
      | None => ret false
      | Some _ =>
          nextLeaderId ← lift (FindLeaderFor (view +! 1));
          (if decide (nextLeaderId = me) then skip
           else Send nextLeaderId (MVmo (mkVMO (vmo_View vmo) me (vmo_HighQC vmo))));;
          dropVMO (view -! 1);;
          dropBlock (view -! 1);;
          advanceView view;;
          ret true
      end
  end.

(** [ProcessRemoteVmo]; [pre] is what Tchs and Fhs do before recording the
    message (HotStuff: nothing). *)
Fixpoint remoteVmo (fuel : nat) (pre : M Proto unit) (pb : Block -> M Proto (option error))
    (vmo : VMO) : M Proto unit :=
  match fuel with
  | O => outOfFuel
  | S fuel' =>
      nextLeaderId ← lift (FindLeaderFor (vmo_View vmo +! 1));
      if decide (nextLeaderId = me) then
        '(isBuilt, vc) ← zoom pm set_pm (pm_ProcessRemoteVmo vmo);
        if negb (isBuilt : bool) then skip
        else vc ← lift (of_option vc); remoteVc vc
      else
        pre;;
        receiveVMO vmo;;
        enter_first_view;;
        v ← curViewM;
        if v <? vmo_View vmo then skip
        else
          ok ← vmoAndBlock pb (vmo_View vmo);
          if (ok : bool) then
            s ← get;
            match recivedVMO s !! vmo_View vmo with
            | Some vmo' => remoteVmo fuel' pre pb vmo'
            | None => skip
            end
          else skip
  end.

Definition localVmo (fuel : nat) (pre : M Proto unit) (pb : Block -> M Proto (option error))
    (view : Z) : M Proto unit :=
  s ← get;
  let vmo := mkVMO view me (Some (highQC s)) in
  Broadcast (MVmo vmo);;
  remoteVmo fuel pre pb vmo.

(** [heightestBlock] of a committed list: the first of maximal view. *)
Definition heightest (l : list Block) : option Block :=
  foldl (fun h c => match h with
                    | None => Some c
                    | Some b => if b_View b <? b_View c then Some c else Some b
                    end) None l.
Definition mark_heightest (l : list Block) : list Block :=
  match heightest l with
  | None => l
  | Some h => (fun b => if decide (b_ID b = b_ID h) then mark_commit b else b) <$> l
  end.

(** Emission of a commit on the two channels. *)
Definition emit (committed forked : list Block) : M Proto unit :=
  modify (push_committed committed);; modify (push_forked forked).

(** [commitRule] of Tchs and Fhs: [block.QC] is dereferenced; the callers have checked it. *)
Definition twoChainRule (block : Block) : M Proto (error + option Block) :=
  qc ← lift (of_option (b_QC block));
  s ← get;
  r ← lift (GetParentBlock (qc_BlockID qc) (bc s));
  match r with
  | inl e => ret (inl ("cannot commit any block: " +:+ e)%string)
  | inr parentBlock =>
      if b_View parentBlock +! 1 =? qc_View qc then ret (inr (Some parentBlock)) else ret (inr None)
  end.

(** [updateLastVotedView]: declared in Tchs and Fhs, not called. *)
Definition setLastVotedView (targetView : Z) : M Proto (option error) :=
  s ← get;
  if targetView <? lastVotedView s then ret (Some "target view is lower than the last voted view"%string)
  else modify (set_lastVotedView targetView);; ret None.

(** The commit step of [ProcessBlock] in Tchs and Fhs.  The flag [CommitFromThis] is written
    after the blocks were sent; the model sets it on the copy sent and on the
    stored block. *)
Definition twoChainStep (block : Block) (qc : QC) : M Proto (option error) :=
  if (2 <=? qc_View qc) && (qc_View qc +! 1 =? b_View block) then
    r ← twoChainRule block;
    match r with
    | inr (Some b) =>
        v ← curViewM;
        c ← commitBlock (b_ID b) v;
        match c with
        | inl _ => ret (Some "cannot commit blocks"%string)
        | inr (committed, forked) =>
            emit (mark_heightest committed) forked;;
            match heightest committed with
            | Some h => mark_stored (b_ID h)
            | None => skip
            end;;
            ret None
        end
    | _ => ret None
    end
  else ret None.
End shared.

(** The observable part a certificate may not touch before the commit. *)
Definition same_chain (s s' : Proto) : Prop :=
  bc s' = bc s /\ committedBlocks s' = committedBlocks s /\ forkedBlocks s' = forkedBlocks s.
#[export] Instance same_chain_preorder : PreOrder same_chain.
Proof. split; [done|]. intros a b c (?&?&?) (?&?&?). unfold same_chain. repeat split; congruence. Qed.

Lemma updateHighQC_chain qc : preserves same_chain (updateHighQC qc).
Proof. unfold updateHighQC, get. preserves_auto. Qed.
Lemma bufferQC_chain qc : preserves same_chain (bufferQC qc).
Proof. unfold bufferQC. preserves_auto. Qed.

Lemma quorumIsVerified_run {EV : Env} qc s r s' :
  quorumIsVerified qc s = Ret (r, s') ->
  s' = s /\ (r = true -> qc_Leader qc = me \/
    exists e, VerifyQuorumSignature ce_keys (qc_AggSig qc) (qc_BlockID qc) (qc_Signers qc) = Ret (true, e)).
Proof.
  unfold quorumIsVerified. intros H. destruct (decide (qc_Leader qc = me)); go_inv; [by auto|].
  unfold lift in *. destruct (VerifyQuorumSignature _ _ _ _) as [[b e]| | |] eqn:E; go_inv.
  split; [done|]. simpl. intros ->. right. by exists e.
Qed.

(** ** Frame reasoning over the protocols

    A relation between states that every single effect respects is respected by
    every handler.  [Frame] lists the effects; each protocol proves once that its
    handlers preserve every [Frame], and the invariants are instances. *)
Class Frame {EV : Env} (R : Proto -> Proto -> Prop) : Prop := {
  fr_preorder :: PreOrder R;
  fr_advance view : preserves R (advanceView view);
  fr_tmo t : preserves R (zoom pm set_pm (pm_ProcessRemoteTmo t));
  fr_vmo v : preserves R (zoom pm set_pm (pm_ProcessRemoteVmo v));
  fr_highQC qc : preserves R (updateHighQC qc);
  fr_prefer s v : preferredView s < v -> R s (set_preferredView v s);
  fr_add b : preserves R (addBlock b);
  fr_addVote v : preserves R (addVote v);
  fr_commit id view : preserves R (commitBlock id view);
  fr_mark id : preserves R (mark_stored id);
  fr_retag view id : preserves R (retag_stored view id);
  fr_emit l k : preserves R (emit l k);
  fr_bufferQC qc : preserves R (bufferQC qc);
  fr_unbufferQC id : preserves R (unbufferQC id);
  fr_bufferBlock b : preserves R (bufferBlock b);
  fr_unbufferBlock k : preserves R (unbufferBlock k);
  fr_receiveVMO v : preserves R (receiveVMO v);
  fr_dropVMO k : preserves R (dropVMO k);
  fr_receiveBlock b : preserves R (receiveBlock b);
  fr_dropBlock k : preserves R (dropBlock k);
  fr_send_vote view id v to :
    MakeVote view me id = Ret v -> FindLeaderFor (view +! 1) = Ret to -> preserves R (Send to (MVote v));
  fr_keep_vote view id v : MakeVote view me id = Ret v -> preserves R (keepVote v);
  fr_send_vmo to v : vmo_NodeID v = me -> preserves R (Send to (MVmo v));
  fr_bcast_tmo t : tmo_NodeID t = me -> preserves R (Broadcast (MTmo t));
  fr_bcast_vmo v : vmo_NodeID v = me -> preserves R (Broadcast (MVmo v)) }.

#[export] Hint Resolve fr_advance fr_tmo fr_vmo fr_highQC fr_add fr_addVote fr_commit fr_mark fr_retag fr_emit
  fr_bufferQC fr_unbufferQC fr_bufferBlock fr_unbufferBlock fr_receiveVMO fr_dropVMO fr_receiveBlock
  fr_dropBlock fr_send_vote fr_keep_vote fr_send_vmo fr_bcast_tmo fr_bcast_vmo : bamboo.

Section frame.
Context {EV : Env} (R : Proto -> Proto -> Prop) {FR : Frame R}.

Lemma enter_first_view_frame : preserves R enter_first_view.
Proof. unfold enter_first_view, curViewM. preserves_auto. Qed.

Lemma check_block_sig_frame b : preserves R (check_block_sig b).
Proof. unfold check_block_sig. preserves_auto. Qed.

Lemma quorumIsVerified_frame qc : preserves R (quorumIsVerified qc).
Proof. unfold quorumIsVerified. preserves_auto. Qed.

Lemma collectTmo_frame t : preserves R (collectTmo t).
Proof. unfold collectTmo, processTC, curViewM. preserves_auto. Qed.

Lemma localTmo_frame view : preserves R (localTmo view).
Proof. unfold localTmo, get. preserves_auto. Qed.

Lemma vmoAndBlock_frame pb view :
  (forall b, preserves R (pb b)) -> preserves R (vmoAndBlock pb view).
Proof. intros Hpb. unfold vmoAndBlock, get. preserves_auto. Qed.

Lemma remoteVmo_frame pre pb : preserves R pre -> (forall b, preserves R (pb b)) ->
  forall fuel v, preserves R (remoteVmo fuel pre pb v).
Proof.
  intros Hpre Hpb fuel. induction fuel as [|fuel IH]; intros v; simpl; [apply preserves_outOfFuel|].
  pose proof enter_first_view_frame.
  unfold remoteVc, curViewM, get. preserves_auto. by apply vmoAndBlock_frame.
Qed.

Lemma localVmo_frame fuel pre pb view :
  preserves R pre -> (forall b, preserves R (pb b)) -> preserves R (localVmo fuel pre pb view).
Proof.
  intros Hpre Hpb. unfold localVmo, get. preserves_auto. by apply remoteVmo_frame.
Qed.

Lemma twoChainStep_frame b qc : preserves R (twoChainStep b qc).
Proof. unfold twoChainStep, twoChainRule, curViewM, get. preserves_auto. Qed.
End frame.

#[export] Hint Resolve enter_first_view_frame check_block_sig_frame quorumIsVerified_frame collectTmo_frame
  localTmo_frame vmoAndBlock_frame remoteVmo_frame localVmo_frame : bamboo.
#[export] Hint Extern 1 (Frame _) => typeclasses eauto : bamboo.

(** ** The two-chain commit of Tchs and Fhs *)

Lemma twoChainRule_run block qc s r s' :
  b_QC block = Some qc -> twoChainRule block s = Ret (r, s') ->
  s' = s /\ forall g, r = inr (Some g) -> exists x,
    GetVertex (forrest (bc s)) (qc_BlockID qc) = Some x /\
    GetVertex (forrest (bc s)) (b_PrevID x) = Some g /\ b_View g +! 1 = qc_View qc.
Proof.
  intros Hqc H. unfold twoChainRule, get, lift in H. rewrite Hqc in H. simpl in H. go_inv.
  destruct (GetParentBlock (qc_BlockID qc) (bc s)) as [[e|p]| | |] eqn:E; go_inv; [done|].
  destruct (Z.eqb_spec (b_View p +! 1) (qc_View qc)); go_inv; [|done].
  split; [done|]. intros g [= <-]. apply GetParentBlock_inr in E as (x & ? & _ & ?). by exists x.
Qed.

(** C4.  Two-chain commit (Tchs, Fhs): the commit step of a block with
    certificate [qc] either emits nothing, or the certificate's view is at least
    2 and directly precedes the block's, the certified block and its parent are
    stored, the certificate's view follows the parent's, and what is emitted is
    the chain of uncommitted blocks ending in that parent, the highest marked. *)
Theorem two_chain block qc s r s' :
  forest_wf (forrest (bc s)) -> b_QC block = Some qc -> twoChainStep block qc s = Ret (r, s') ->
  committedBlocks s' = committedBlocks s /\ forkedBlocks s' = forkedBlocks s \/
  exists x p l fk,
    r = None /\ 2 <= qc_View qc /\ qc_View qc +! 1 = b_View block /\
    GetVertex (forrest (bc s)) (qc_BlockID qc) = Some x /\
    GetVertex (forrest (bc s)) (b_PrevID x) = Some p /\ b_View p +! 1 = qc_View qc /\
    commit_chain (forrest (bc s)) p l /\
    committedBlocks s' = committedBlocks s ++ mark_heightest l /\ forkedBlocks s' = forkedBlocks s ++ fk.
Proof.
  intros Hwf Hqc H. unfold twoChainStep in H.
  destruct ((2 <=? qc_View qc) && (qc_View qc +! 1 =? b_View block)) eqn:E; [|go_inv; by left].
  apply andb_true_iff in E as [?%Z.leb_le ?%Z.eqb_eq].
  apply bind_ret in H as (rule & s1 & Hr & H). apply (twoChainRule_run _ qc) in Hr as [-> Hr]; [|done].
  destruct rule as [e|[g|]]; [go_inv; by left| |go_inv; by left].
  destruct (Hr g eq_refl) as (x & Hx & Hp & Hv). unfold curViewM, commitBlock in H. go_inv.
  match goal with Hrun : CommitBlock _ _ _ = _ |- _ => rename Hrun into Hcb end.
  apply CommitBlock_inv in Hcb. rewrite (GetVertex_ID _ _ _ Hwf Hp), Hp in Hcb.
  destruct Hcb as (l & f' & pr & Hl & _ & Hc). destruct pr as [e|[fk no]]; destruct Hc as [-> _].
  - go_inv. by left.
  - right. exists x, g, l, fk.
    assert (Hs : r = None /\ committedBlocks s' = committedBlocks s ++ mark_heightest l /\
                 forkedBlocks s' = forkedBlocks s ++ fk).
    { unfold emit, mark_stored, write_stored in H. destruct (heightest l); go_inv; done. }
    destruct Hs as (-> & -> & ->). done.
Qed.

(** ** A concrete environment

    Four replicas with the toy signature scheme, a static leader ["2"], one
    tolerated fault; the replica is ["1"]. *)
Definition toy_env : Env := {|
  env_crypto := toy_crypto; env_election := static_election (NewStatic "2"%string);
  env_cfg := cfg_f 1; me := "1"%string; IsByz := false |}.

(** A block the leader signed whose certificate carries no signature. *)
Definition wire_block (id : Identifier) (view : Z) (prev : Identifier) (qcView : Z) : Block :=
  let sig := match PrivSign (E := toy_ecdsa) toy_keys (IDToByte id) "2"%string None with
             | Ret (inr s) => s | _ => [] end in
  mkBlock view (Some (mkQC "2"%string qcView prev [] [] [])) "2"%string 0 [] prev sig id 0 false 0 0 false.
Definition wire_vmo (view : Z) : VMO := mkVMO view "2"%string None.
