(* ===== verification/Notarized.v ===== *)
(** * The notarized-chain protocols (streamlet/streamlet.go, lbft/lbft.go)

    Streamlet and LBFT keep the same state and the same handlers; they differ in
    how messages are echoed, in whether old certificates are dropped and in the
    marking of the highest committed block.  The shared program is modelled once
    over the class [Variant] of these differences and instantiated in Streamlet.v
    and Lbft.v.  A notarized chain is a list of rows, one per height.

    - [Broadcast] appends to a list; a [Send] scheduled by [time.AfterFunc]
      appends to the list of delayed sends; [go AdvanceView] appends to the list of
      spawned calls, which an event of their own runs later.
    - The handlers call each other; the recursion is modelled by fuel. *)

From Stdlib Require Import String.
From stdpp Require Import base gmap strings numbers relations list.
From S2P Require Import Prelude.
From S2P Require Import Identity.
From S2P Require Import Config.
From S2P Require Import Crypto.
From S2P Require Import Election.
From S2P Require Import Message.
From S2P Require Import Block.
From S2P Require Import Quorum.
From S2P Require Import Forest.
From S2P Require Import ForestSpec.
From S2P Require Import BlockChain.
From S2P Require Import Pacemaker.
From S2P Require Import Protocol.

Local Open Scope Z_scope.
Local Open Scope go_scope.

(** ** State *)

(** A send that a timer will do: after [d_ns] nanoseconds. *)
Record Delayed := mkDelayed { d_ns : Z; d_to : NodeID; d_msg : Msg }.

Record Notar := mkNotar {
  n_pm : Pacemaker;
  n_bc : BlockChain;
  notarizedChain : list (list Block);
  n_bufferedBlocks : gmap Identifier Block;
  n_bufferedQCs : gmap Identifier QC;
  bufferedNotarizedBlock : gmap Identifier QC;
  n_committed : list Block;
  n_forked : list Block;
  echoedBlock : gset Identifier;
  echoedVote : gset Identifier;
  n_outbox : list Out;
  delayed : list Delayed;
  spawned : list Z }.

Definition nset_pm (x : Pacemaker) (s : Notar) : Notar :=
  mkNotar x (n_bc s) (notarizedChain s) (n_bufferedBlocks s) (n_bufferedQCs s) (bufferedNotarizedBlock s)
    (n_committed s) (n_forked s) (echoedBlock s) (echoedVote s) (n_outbox s) (delayed s) (spawned s).
Definition nset_bc (x : BlockChain) (s : Notar) : Notar :=
  mkNotar (n_pm s) x (notarizedChain s) (n_bufferedBlocks s) (n_bufferedQCs s) (bufferedNotarizedBlock s)
    (n_committed s) (n_forked s) (echoedBlock s) (echoedVote s) (n_outbox s) (delayed s) (spawned s).
Definition push_row (row : list Block) (s : Notar) : Notar :=
  mkNotar (n_pm s) (n_bc s) (notarizedChain s ++ [row]) (n_bufferedBlocks s) (n_bufferedQCs s)
    (bufferedNotarizedBlock s) (n_committed s) (n_forked s) (echoedBlock s) (echoedVote s) (n_outbox s)
    (delayed s) (spawned s).
Definition nupd_blocks (f : gmap Identifier Block -> gmap Identifier Block) (s : Notar) : Notar :=
  mkNotar (n_pm s) (n_bc s) (notarizedChain s) (f (n_bufferedBlocks s)) (n_bufferedQCs s)
    (bufferedNotarizedBlock s) (n_committed s) (n_forked s) (echoedBlock s) (echoedVote s) (n_outbox s)
    (delayed s) (spawned s).
Definition nupd_QCs (f : gmap Identifier QC -> gmap Identifier QC) (s : Notar) : Notar :=
  mkNotar (n_pm s) (n_bc s) (notarizedChain s) (n_bufferedBlocks s) (f (n_bufferedQCs s))
    (bufferedNotarizedBlock s) (n_committed s) (n_forked s) (echoedBlock s) (echoedVote s) (n_outbox s)
    (delayed s) (spawned s).
Definition nupd_notarized (f : gmap Identifier QC -> gmap Identifier QC) (s : Notar) : Notar :=
  mkNotar (n_pm s) (n_bc s) (notarizedChain s) (n_bufferedBlocks s) (n_bufferedQCs s)
    (f (bufferedNotarizedBlock s)) (n_committed s) (n_forked s) (echoedBlock s) (echoedVote s) (n_outbox s)
    (delayed s) (spawned s).
(** The commit on the two channels; the ids of committed blocks leave the echo
    tables. *)
Definition npush_commit (committed forked : list Block) (s : Notar) : Notar :=
  mkNotar (n_pm s) (n_bc s) (notarizedChain s) (n_bufferedBlocks s) (n_bufferedQCs s)
    (bufferedNotarizedBlock s) (n_committed s ++ committed) (n_forked s ++ forked)
    (echoedBlock s ∖ list_to_set (b_ID <$> committed)) (echoedVote s ∖ list_to_set (b_ID <$> committed))
    (n_outbox s) (delayed s) (spawned s).
Definition add_echoed (id : Identifier) (s : Notar) : Notar :=
  mkNotar (n_pm s) (n_bc s) (notarizedChain s) (n_bufferedBlocks s) (n_bufferedQCs s)
    (bufferedNotarizedBlock s) (n_committed s) (n_forked s) ({[id]} ∪ echoedBlock s) (echoedVote s)
    (n_outbox s) (delayed s) (spawned s).
Definition npush_out (o : Out) (s : Notar) : Notar :=
  mkNotar (n_pm s) (n_bc s) (notarizedChain s) (n_bufferedBlocks s) (n_bufferedQCs s)
    (bufferedNotarizedBlock s) (n_committed s) (n_forked s) (echoedBlock s) (echoedVote s)
    (n_outbox s ++ [o]) (delayed s) (spawned s).
Definition push_delayed (l : list Delayed) (s : Notar) : Notar :=
  mkNotar (n_pm s) (n_bc s) (notarizedChain s) (n_bufferedBlocks s) (n_bufferedQCs s)
    (bufferedNotarizedBlock s) (n_committed s) (n_forked s) (echoedBlock s) (echoedVote s)
    (n_outbox s) (delayed s ++ l) (spawned s).
Definition set_spawned (l : list Z) (s : Notar) : Notar :=
  mkNotar (n_pm s) (n_bc s) (notarizedChain s) (n_bufferedBlocks s) (n_bufferedQCs s)
    (bufferedNotarizedBlock s) (n_committed s) (n_forked s) (echoedBlock s) (echoedVote s)
    (n_outbox s) (delayed s) l.

(** The state the constructors build; the pacemaker has entered view 1. *)
Definition newNotar (n : Z) : Notar :=
  mkNotar (enter_view 1 (NewPacemaker n)) (NewBlockchain n) [] ∅ ∅ ∅ [] [] ∅ ∅ [] [] [].

Definition nget : M Notar Notar := gets (fun s => s).
Definition ncurView : M Notar Z := gets (fun s => GetCurView (n_pm s)).
Definition nadvanceView (view : Z) : M Notar unit := zoom n_pm nset_pm (AdvanceView view).
Definition naddBlock (b : Block) : M Notar unit := zoom n_bc nset_bc (AddBlock b).
Definition ncommitBlock (id : Identifier) (view : Z) : M Notar (error + (list Block * list Block)) :=
  zoom n_bc nset_bc (CommitBlock id view).
Definition nbufferBlock (b : Block) : M Notar unit := modify (nupd_blocks (insert (b_PrevID b) b)).
Definition nunbufferBlock (id : Identifier) : M Notar unit := modify (nupd_blocks (delete id)).
Definition nbufferQC (qc : QC) : M Notar unit := modify (nupd_QCs (insert (qc_BlockID qc) qc)).
Definition nunbufferQC (id : Identifier) : M Notar unit := modify (nupd_QCs (delete id)).
Definition bufferNotarized (prev : Identifier) (qc : QC) : M Notar unit := modify (nupd_notarized (insert prev qc)).
Definition nBroadcast (m : Msg) : M Notar unit := modify (npush_out (OBroadcast m)).
Definition nmark_stored (id : Identifier) : M Notar unit :=
  modify (fun s => nset_bc (set_forrest (write_vertex mark_commit id (forrest (n_bc s))) (n_bc s)) s).

(** ** The notarized chain *)

(** [GetChainStatus]. *)
Definition nchainStatus {EV : Env} : M Notar string :=
  gets (fun s => chain_status me (GetCurView (n_pm s)) (n_bc s)).

(** [GetNotarizedHeight]. *)
Definition GetNotarizedHeight (rows : list (list Block)) : Z := Z.of_nat (length rows).

Definition has_id (id : Identifier) (row : list Block) : bool := existsb (fun b => bool_decide (b_ID b = id)) row.

(** The search of [updateNotarizedChain], from row [i] downwards:
    [for i := h-1; i >= 0 || i >= h-3; i--].  An index below 0 panics, so with
    [h + 1] iterations it is over. *)
Fixpoint find_parent (fuel : nat) (rows : list (list Block)) (prev : Identifier) (i : Z) : outcome bool :=
  if (0 <=? i) || (GetNotarizedHeight rows - 3 <=? i) then
    match fuel with
    | O => OutOfFuel
    | S fuel' =>
        row ←? go_index rows i;
        if has_id prev row then Ret true else find_parent fuel' rows prev (i - 1)
    end
  else Ret false.

Definition updateNotarizedChain (qc : QC) : M Notar (option error) :=
  s ← nget;
  match GetBlockByID (qc_BlockID qc) (n_bc s) with
  | inl _ => ret (Some "cannot find the block"%string)
  | inr block =>
      let rows := notarizedChain s in
      if GetNotarizedHeight rows =? 0 then modify (push_row [block]);; ret None
      else
        found ← lift (find_parent (S (length rows)) rows (b_PrevID block) (GetNotarizedHeight rows - 1));
        if (found : bool) then modify (push_row [block]);; ret None
        else
          bufferNotarized (b_PrevID block) qc;;
          ret (Some "the block is not extending the notarized chain"%string)
  end.

Definition votingRule (block : Block) (rows : list (list Block)) : outcome bool :=
  if b_View block <=? 2 then Ret true
  else
    lastBlocks ←? go_index rows (GetNotarizedHeight rows - 1);
    Ret (has_id (b_PrevID block) lastBlocks).

(** The single block of a row, if the row has one block. *)
Definition single (row : list Block) : option Block := match row with [b] => Some b | _ => None end.

Definition commitRule (rows : list (list Block)) : outcome (option Block) :=
  let height := GetNotarizedHeight rows in
  if height <? 3 then Ret None
  else
    lastBlocks ←? go_index rows (height - 1);
    match single lastBlocks with
    | None => Ret None
    | Some lastBlock =>
        secondBlocks ←? go_index rows (height - 2);
        match single secondBlocks with
        | None => Ret None
        | Some secondBlock =>
            firstBlocks ←? go_index rows (height - 3);
            match single firstBlocks with
            | None => Ret None
            | Some firstBlock =>
                if (b_View firstBlock +! 1 =? b_View secondBlock) && (b_View secondBlock +! 1 =? b_View lastBlock)
                then Ret (Some secondBlock) else Ret None
            end
        end
    end.

(** ** The handlers *)

(** What differs between the two protocols: the echo of a received block, the
    broadcast of the own vote, the echo of a received vote, whether a certificate
    below the current view is dropped, whether the highest committed block is
    marked, and the proposal (none when the leader keeps silent). *)
Class Variant {EV : Env} := {
  echo_block : Block -> M Notar unit;
  cast_vote : Vote -> M Notar unit;
  echo_vote : Vote -> M Notar unit;
  drops_stale : bool;
  marks_commit : bool;
  make_proposal : Z -> list Transaction -> M Notar (option Block) }.

Section shared.
Context {EV : Env}.

Definition naddVote (v : Vote) : M Notar (bool * option QC) := zoom n_bc nset_bc (AddVote env_cfg v).

Definition nquorumIsVerified (qc : QC) : M Notar bool :=
  if decide (qc_Leader qc = me) then ret true
  else
    r ← lift (VerifyQuorumSignature ce_keys (qc_AggSig qc) (qc_BlockID qc) (qc_Signers qc));
    ret (fst r).

(** A verification error is fatal. *)
Definition nvoteIsVerified (vote : Vote) : M Notar bool :=
  if decide (v_Voter vote = me) then ret true
  else
    r ← lift (PubVerify ce_keys (v_Signature vote) (IDToByte (v_BlockID vote)) (v_Voter vote));
    match snd r with Some _ => panic | None => ret (fst r) end.

Definition ncheck_block_sig (b : Block) : M Notar unit :=
  if decide (b_Proposer b = me) then skip
  else _ ← lift (PubVerify ce_keys (b_Sig b) (IDToByte (b_ID b)) (b_Proposer b)); skip.

(** [if _, exists := echoedBlock[id]; !exists { ...; echo }]. *)
Definition echo_once (id : Identifier) (echo : M Notar unit) : M Notar unit :=
  s ← nget;
  if decide (id ∈ echoedBlock s) then skip else modify (add_echoed id);; echo.

(** [go pm.AdvanceView(tc.View)]. *)
Definition nprocessTC (tc : TC) : M Notar unit :=
  v ← ncurView;
  if tc_View tc <? v then skip else modify (fun s => set_spawned (spawned s ++ [tc_View tc]) s).

Definition nProcessRemoteTmo (tmo : TMO) : M Notar unit :=
  '(isBuilt, tc) ← zoom n_pm nset_pm (pm_ProcessRemoteTmo tmo);
  if negb (isBuilt : bool) then skip
  else tc ← lift (of_option tc); nprocessTC tc.

Definition nProcessLocalTmo (view : Z) : M Notar unit :=
  let tmo := mkTMO view me None in
  nBroadcast (MTmo tmo);; nProcessRemoteTmo tmo.

(** The tail of the longest notarized chain, the parent of the next proposal. *)
Definition tail_id (genesis : Identifier) (rows : list (list Block)) : outcome Identifier :=
  if GetNotarizedHeight rows =? 0 then Ret genesis
  else
    row ←? go_index rows (GetNotarizedHeight rows - 1);
    b ←? go_index row 0;
    Ret (b_ID b).

(** The certificate of a proposal carries only the parent's id. *)
Definition parent_QC (prevID : Identifier) : QC := mkQC ""%string 0 prevID [] [] [].

Context {VA : Variant}.

(** The commit step of [processCertificate]; [true] when blocks were committed. *)
Definition commitNotarized : M Notar bool :=
  s ← nget;
  c ← lift (commitRule (notarizedChain s));
  match c with
  | None => ret false
  | Some block =>
      v ← ncurView;
      r ← ncommitBlock (b_ID block) v;
      match r with
      | inl _ => ret false
      | inr (committed, forked) =>
          (if marks_commit then
             match heightest committed with Some h => nmark_stored (b_ID h) | None => skip end
           else skip);;
          modify (npush_commit (if marks_commit then mark_heightest committed else committed) forked);;
          ret true
      end
  end.

(** [ProcessVote]; [cert] is [processCertificate]. *)
Definition processVote (cert : QC -> M Notar unit) (vote : Vote) : M Notar unit :=
  ok ← nvoteIsVerified vote;
  if negb ok then skip
  else
    echo_once (v_BlockID vote) (echo_vote vote);;
    '(isBuilt, qc) ← naddVote vote;
    if negb (isBuilt : bool) then skip
    else qc ← lift (of_option qc); cert qc.

Fixpoint ProcessBlock (fuel : nat) (block : Block) : M Notar (option error) :=
  match fuel with
  | O => outOfFuel
  | S fuel' =>
      s ← nget;
      if Exists (b_ID block) (n_bc s) then ret None
      else
        curView ← ncurView;
        if b_View block <? curView then ret (Some "received a stale block"%string)
        else if (match GetBlockByID (b_PrevID block) (n_bc s) with inl _ => true | inr _ => false end)
                && (1 <? b_View block)
        then nbufferBlock block;; ret None
        else
          isLeader ← lift (IsLeader (b_Proposer block) (b_View block));
          if negb isLeader then ret (Some "received a proposal from an invalid leader"%string)
          else
            ncheck_block_sig block;;
            echo_once (b_ID block) (echo_block block);;
            naddBlock block;;
            s ← nget;
            shouldVote ← lift (votingRule block (notarizedChain s));
            if negb shouldVote then nbufferBlock block;; ret None
            else
              vote ← lift (MakeVote (b_View block) me (b_ID block));
              processVote (processCertificate fuel') vote;;
              cast_vote vote;;
              s ← nget;
              match n_bufferedQCs s !! b_ID block with
              | Some qc => processCertificate fuel' qc
              | None => skip
              end;;
              s ← nget;
              match n_bufferedBlocks s !! b_ID block with
              | Some b => _ ← ProcessBlock fuel' b; ret None
              | None => ret None
              end
  end
with processCertificate (fuel : nat) (qc : QC) : M Notar unit :=
  match fuel with
  | O => outOfFuel
  | S fuel' =>
      v ← ncurView;
      if drops_stale && (qc_View qc <? v) then skip
      else
        s ← nget;
        if (match GetBlockByID (qc_BlockID qc) (n_bc s) with inl _ => true | inr _ => false end)
           && (1 <? qc_View qc)
        then nbufferQC qc
        else
          ok ← nquorumIsVerified qc;
          if negb ok then skip
          else
            err ← updateNotarizedChain qc;
            match err with
            | Some _ => skip
            | None =>
                nadvanceView (qc_View qc);;
                if qc_View qc <? 3 then skip
                else
                  done ← commitNotarized;
                  if negb done then skip
                  else
                    s ← nget;
                    match n_bufferedBlocks s !! qc_BlockID qc with
                    | Some b => _ ← ProcessBlock fuel' b; nunbufferBlock (qc_BlockID qc)
                    | None => skip
                    end;;
                    s ← nget;
                    match bufferedNotarizedBlock s !! qc_BlockID qc with
                    | Some qc' => processCertificate fuel' qc';; nunbufferQC (qc_BlockID qc')
                    | None => skip
                    end
            end
  end.

Definition ProcessVote (fuel : nat) (vote : Vote) : M Notar unit := processVote (processCertificate fuel) vote.
End shared.

(** ** What the search does *)

Definition any_id (id : Identifier) (rows : list (list Block)) : bool := existsb (has_id id) rows.

Lemma any_id_snoc id rows row : any_id id (rows ++ [row]) = any_id id rows || has_id id row.
Proof. unfold any_id. rewrite existsb_app. simpl. by rewrite orb_false_r. Qed.

Lemma find_parent_run rows prev : forall fuel (k : nat), (k <= length rows)%nat -> (k < fuel)%nat ->
  find_parent fuel rows prev (Z.of_nat k - 1) =
  if any_id prev (take k rows) then Ret true else if (length rows <=? 2)%nat then Panic else Ret false.
Proof.
  induction fuel as [|fuel IH]; intros k Hk Hf; [lia|]. cbn [find_parent]. unfold GetNotarizedHeight, go_index.
  destruct k as [|k].
  - simpl. destruct (Nat.leb_spec (length rows) 2).
    + rewrite (proj2 (Z.leb_le _ _)) by lia. done.
    + rewrite (proj2 (Z.leb_gt _ _)) by lia. done.
  - rewrite (proj2 (Z.leb_le 0 _)) by lia. rewrite orb_true_l, (proj2 (Z.ltb_ge _ 0)) by lia.
    replace (Z.to_nat (Z.of_nat (S k) - 1)) with k by lia.
    destruct (rows !! k) as [row|] eqn:Hr; [|apply lookup_ge_None in Hr; lia]. simpl.
    rewrite (take_S_r _ _ _ Hr), any_id_snoc. destruct (has_id prev row); [by rewrite orb_true_r|].
    rewrite orb_false_r. replace (Z.of_nat (S k) - 1 - 1) with (Z.of_nat k - 1) by lia. apply IH; lia.
Qed.

(** The outcome of the update, with the search evaluated. *)
Lemma updateNotarizedChain_run qc s :
  updateNotarizedChain qc s =
  match GetBlockByID (qc_BlockID qc) (n_bc s) with
  | inl _ => Ret (Some "cannot find the block"%string, s)
  | inr block =>
      if (length (notarizedChain s) =? 0)%nat || any_id (b_PrevID block) (notarizedChain s)
      then Ret (None, push_row [block] s)
      else if (length (notarizedChain s) <=? 2)%nat then Panic
      else Ret (Some "the block is not extending the notarized chain"%string,
                nupd_notarized (insert (b_PrevID block) qc) s)
  end.
Proof.
  unfold updateNotarizedChain, nget. cbv [gbind gets]. destruct (GetBlockByID _ _) as [e|block]; [done|].
  unfold GetNotarizedHeight. set (rows := notarizedChain s).
  destruct (Nat.eqb_spec (length rows) 0) as [E|E]; [by rewrite E|].
  rewrite (proj2 (Z.eqb_neq _ _)) by lia. cbn [orb]. unfold lift.
  rewrite find_parent_run by lia. rewrite firstn_all.
  destruct (any_id (b_PrevID block) rows); [done|]. by destruct (length rows <=? 2)%nat.
Qed.

(** [updateNotarizedChain], case by case: an unknown block is an error; the first
    notarized block opens the chain; a block whose parent is in some row is
    appended as a new last row of its own, whichever row the parent is in; for any
    other block the certificate is buffered under the parent's id when the chain
    has at least three rows, and with one or two rows the search runs past the
    first row and panics. *)
Theorem updateNotarizedChain_spec qc s :
  updateNotarizedChain qc s =
  match GetBlockByID (qc_BlockID qc) (n_bc s) with
  | inl _ => Ret (Some "cannot find the block"%string, s)
  | inr block =>
      if (length (notarizedChain s) =? 0)%nat || any_id (b_PrevID block) (notarizedChain s)
      then Ret (None, push_row [block] s)
      else if (length (notarizedChain s) <=? 2)%nat then Panic
      else Ret (Some "the block is not extending the notarized chain"%string,
                nupd_notarized (insert (b_PrevID block) qc) s)
  end.
Proof. apply updateNotarizedChain_run. Qed.

(** ** The invariant of the chain *)

(** Every row holds one block, and every block but the first has its parent in
    an earlier row. *)
Record rows_ok (rows : list (list Block)) : Prop := mkRowsOk {
  rk_single : Forall (fun row => exists b, row = [b]) rows;
  rk_linked : forall i b, rows !! S i = Some [b] ->
    exists j p, (j <= i)%nat /\ rows !! j = Some [p] /\ b_ID p = b_PrevID b }.

Lemma any_id_row id rows : rows_ok rows -> any_id id rows = true -> exists j p, rows !! j = Some [p] /\ b_ID p = id.
Proof.
  intros [Hs _] (row & Hin & Hid)%existsb_exists. apply list_elem_of_In, list_elem_of_lookup in Hin as [j Hj].
  destruct (Forall_lookup_1 _ _ _ _ Hs Hj) as [p ->]. exists j, p. split; [done|].
  unfold has_id in Hid. simpl in Hid. rewrite orb_false_r in Hid. by apply bool_decide_eq_true in Hid.
Qed.

Lemma push_row_ok rows b :
  rows_ok rows -> length rows = 0%nat \/ any_id (b_PrevID b) rows = true -> rows_ok (rows ++ [[b]]).
Proof.
  intros Hok Hor. split.
  - apply Forall_app. split; [apply Hok|]. constructor; [by eexists|constructor].
  - intros i x [Hx|[Hi Hx]]%lookup_app_Some.
    + destruct (rk_linked _ Hok _ _ Hx) as (j & p & Hj & Hp & E). exists j, p.
      split; [done|]. split; [|done]. by apply lookup_app_l_Some.
    + destruct Hor as [Hz|Hany].
      * apply length_zero_iff_nil in Hz as ->. simpl in Hx. done.
      * destruct (any_id_row _ _ Hok Hany) as (j & p & Hp & E). exists j, p.
        apply list_lookup_singleton_Some in Hx as [Hi' [= ->]]. pose proof (lookup_lt_Some _ _ _ Hp).
        split; [lia|]. split; [|done]. by apply lookup_app_l_Some.
Qed.

(** ** What every handler respects *)

(** The chain keeps its invariant and only grows; the block store keeps its
    invariant and its lowest level does not fall; nothing emitted or sent is
    retracted. *)
Record progress (s s' : Notar) : Prop := mkProgress {
  pg_rows : rows_ok (notarizedChain s) -> rows_ok (notarizedChain s');
  pg_chain : notarizedChain s `prefix_of` notarizedChain s';
  pg_bc : bc_wf (n_bc s) -> bc_wf (n_bc s');
  pg_low : bc_low (n_bc s) <= bc_low (n_bc s');
  pg_committed : n_committed s `prefix_of` n_committed s';
  pg_forked : n_forked s `prefix_of` n_forked s';
  pg_outbox : n_outbox s `prefix_of` n_outbox s';
  pg_delayed : delayed s `prefix_of` delayed s' }.

#[export] Instance progress_preorder : PreOrder progress.
Proof.
  split.
  - intros s. split; (lia || done || auto).
  - intros s1 s2 s3 [] []. split; try lia; try (by etrans); auto.
Qed.

Ltac solve_progress := split; simpl; first [lia | done | by apply prefix_app_r | by auto | idtac].

Lemma nbc_progress {A} (m : M BlockChain A) :
  preserves low_grows m -> preserves (fun b b' => bc_wf b -> bc_wf b') m ->
  preserves progress (zoom n_bc nset_bc m).
Proof.
  intros Hl Hw s a s' (b & Hrun & ->)%zoom_ret.
  pose proof (Hl _ _ _ Hrun). pose proof (Hw _ _ _ Hrun). by solve_progress.
Qed.

Lemma npm_progress {A} (m : M Pacemaker A) : preserves progress (zoom n_pm nset_pm m).
Proof. intros s a s' (p & _ & ->)%zoom_ret. by solve_progress. Qed.

Lemma updateNotarizedChain_progress qc : preserves progress (updateNotarizedChain qc).
Proof.
  intros s a s' H. rewrite updateNotarizedChain_run in H. destruct (GetBlockByID _ _) as [e|b].
  { injection H as _ <-. reflexivity. }
  destruct (_ || _) eqn:E.
  - injection H as _ <-. solve_progress. intros Hok. apply push_row_ok; [done|].
    apply orb_true_iff in E as [E%Nat.eqb_eq|E]; auto.
  - destruct (_ <=? 2)%nat; [done|]. injection H as _ <-. by solve_progress.
Qed.

#[export] Hint Resolve npm_progress updateNotarizedChain_progress : bamboo.

Section progress.
Context {EV : Env}.

Lemma naddBlock_progress b : preserves progress (naddBlock b).
Proof. apply nbc_progress; [apply AddBlock_low | apply AddBlock_wf]. Qed.
Lemma naddVote_progress v : preserves progress (naddVote v).
Proof. apply nbc_progress; [apply AddVote_low | apply AddVote_wf]. Qed.
Lemma ncommitBlock_progress id view : preserves progress (ncommitBlock id view).
Proof. apply nbc_progress; [apply CommitBlock_low | apply CommitBlock_wf]. Qed.
Lemma nmark_stored_progress id : preserves progress (nmark_stored id).
Proof.
  intros s a s' [= _ <-]. solve_progress.
  - intros []. split; simpl; [|done]. by apply write_vertex_wf.
  - unfold bc_low. simpl. by rewrite write_vertex_low.
Qed.

#[local] Hint Resolve naddBlock_progress naddVote_progress ncommitBlock_progress nmark_stored_progress : bamboo.

Lemma echo_once_progress id echo : preserves progress echo -> preserves progress (echo_once id echo).
Proof. intros He. unfold echo_once, nget. preserves_auto. Qed.

Lemma nProcessRemoteTmo_progress t : preserves progress (nProcessRemoteTmo t).
Proof. unfold nProcessRemoteTmo, nprocessTC, ncurView. preserves_auto; by solve_progress. Qed.

Lemma nProcessLocalTmo_progress view : preserves progress (nProcessLocalTmo view).
Proof.
  pose proof nProcessRemoteTmo_progress. unfold nProcessLocalTmo, nBroadcast. preserves_auto; by solve_progress.
Qed.

(** What a variant promises. *)
Class VariantLaws (VA : Variant) : Prop := {
  echo_block_progress b : preserves progress (echo_block b);
  cast_vote_progress v : preserves progress (cast_vote v);
  echo_vote_progress v : preserves progress (echo_vote v);
  make_proposal_progress view payload : preserves progress (make_proposal view payload) }.

Context {VA : Variant} {VL : VariantLaws VA}.

Lemma commitNotarized_progress : preserves progress commitNotarized.
Proof. unfold commitNotarized, nget, ncurView. preserves_auto; by solve_progress. Qed.

Lemma processVote_progress cert v :
  (forall qc, preserves progress (cert qc)) -> preserves progress (processVote cert v).
Proof.
  intros Hc. pose proof (echo_once_progress (v_BlockID v) _ (echo_vote_progress v)).
  unfold processVote, nvoteIsVerified. preserves_auto.
Qed.

Lemma handlers_progress fuel :
  (forall b, preserves progress (ProcessBlock fuel b)) /\ (forall qc, preserves progress (processCertificate fuel qc)).
Proof.
  induction fuel as [|fuel [IHb IHc]]; [split; intros; apply preserves_outOfFuel|].
  pose proof commitNotarized_progress. split.
  - intros b. pose proof (echo_once_progress (b_ID b) _ (echo_block_progress b)). pose proof cast_vote_progress.
    pose proof (fun v => processVote_progress _ v IHc).
    cbn [ProcessBlock]. unfold nget, ncurView, ncheck_block_sig, nbufferBlock. preserves_auto; by solve_progress.
  - intros qc. cbn [processCertificate].
    unfold nget, ncurView, nquorumIsVerified, nadvanceView, nbufferQC, nunbufferBlock, nunbufferQC.
    preserves_auto; by solve_progress.
Qed.

(** ** Events and reachability *)

(** [NRun i] is the scheduler running the [i]-th spawned [AdvanceView]. *)
Inductive NEvent :=
| NBlock (b : Block) | NVote (v : Vote) | NTmo (t : TMO) | NLocalTmo (view : Z)
| NPropose (view : Z) (payload : list Transaction) | NRun (i : nat).

Definition run_spawned (i : nat) : M Notar unit :=
  s ← nget;
  match spawned s !! i with
  | None => skip
  | Some view => modify (set_spawned (delete i (spawned s)));; nadvanceView view
  end.

Definition ndeliver (fuel : nat) (ev : NEvent) : M Notar unit :=
  match ev with
  | NBlock b => _ ← ProcessBlock fuel b; skip
  | NVote v => ProcessVote fuel v
  | NTmo t => nProcessRemoteTmo t
  | NLocalTmo view => nProcessLocalTmo view
  | NPropose view payload => _ ← make_proposal view payload; skip
  | NRun i => run_spawned i
  end.

Definition nstep (s s' : Notar) : Prop := exists fuel ev, ndeliver fuel ev s = Ret (tt, s').

Lemma ndeliver_progress fuel ev : preserves progress (ndeliver fuel ev).
Proof.
  destruct (handlers_progress fuel) as [Hb Hc]. pose proof (fun v => processVote_progress _ v Hc).
  pose proof nProcessRemoteTmo_progress. pose proof nProcessLocalTmo_progress. pose proof make_proposal_progress.
  unfold ndeliver, ProcessVote, run_spawned, nget, nadvanceView. preserves_auto; by solve_progress.
Qed.

Lemma nsteps_progress s s' : rtc nstep s s' -> progress s s'.
Proof.
  induction 1 as [|s1 s2 s3 (fuel & ev & Hstep) _ IH]; [reflexivity|].
  transitivity s2; [by eapply ndeliver_progress | done].
Qed.

(** C18.  In every state Streamlet or LBFT reaches, whatever is delivered and however
    spawned calls are scheduled: each height of the notarized chain holds exactly
    one block, each notarized block but the first has its parent notarized at a
    smaller height, and the block store is well formed; and from there on the
    notarized chain is never rewritten, only extended, the lowest retained level
    does not fall, and nothing emitted or sent is retracted. *)
Theorem notarized_invariant n s s' :
  rtc nstep (newNotar n) s -> rtc nstep s s' ->
  rows_ok (notarizedChain s) /\ bc_wf (n_bc s) /\ progress s s'.
Proof.
  intros H1%nsteps_progress H2%nsteps_progress. split; [|split; [|done]].
  - apply (pg_rows _ _ H1). split; [constructor|]. by intros i b.
  - apply (pg_bc _ _ H1), NewBlockchain_wf.
Qed.
End progress.

(** ** The commit *)

Lemma go_index_Ret {A} (l : list A) i a : go_index l i = Ret a -> 0 <= i /\ l !! Z.to_nat i = Some a.
Proof.
  unfold go_index. destruct (Z.ltb_spec i 0); [done|]. unfold of_option.
  destruct (l !! Z.to_nat i); [|done]. by intros [= ->].
Qed.

Lemma single_Some row b : single row = Some b -> row = [b].
Proof. destruct row as [|x [|??]]; [done|by intros [= ->]|done]. Qed.

Lemma commitRule_inv rows b :
  commitRule rows = Ret (Some b) -> exists pre a c,
    rows = pre ++ [[a]; [b]; [c]] /\ b_View a +! 1 = b_View b /\ b_View b +! 1 = b_View c.
Proof.
  unfold commitRule, GetNotarizedHeight. intros H.
  destruct (Z.ltb_spec (Z.of_nat (length rows)) 3); [done|].
  destruct (go_index rows _) as [r3| | |] eqn:E3; try done. simpl in H.
  destruct (single r3) as [c|] eqn:S3; [|done].
  destruct (go_index rows (_ - 2)) as [r2| | |] eqn:E2; try done. simpl in H.
  destruct (single r2) as [b'|] eqn:S2; [|done].
  destruct (go_index rows (_ - 3)) as [r1| | |] eqn:E1; try done. simpl in H.
  destruct (single r1) as [a|] eqn:S1; [|done].
  destruct (_ && _) eqn:Ev; [|done]. injection H as ->.
  apply andb_true_iff in Ev as [?%Z.eqb_eq ?%Z.eqb_eq].
  apply single_Some in S1 as ->, S2 as ->, S3 as ->.
  apply go_index_Ret in E1 as [_ E1], E2 as [_ E2], E3 as [_ E3].
  exists (take (length rows - 3) rows), a, c. split; [|done].
  rewrite <- (take_drop (length rows - 3) rows) at 1. f_equal.
  replace (Z.to_nat (Z.of_nat (length rows) - 3)) with (length rows - 3)%nat in E1 by lia.
  replace (Z.to_nat (Z.of_nat (length rows) - 2)) with (S (length rows - 3)) in E2 by lia.
  replace (Z.to_nat (Z.of_nat (length rows) - 1)) with (S (S (length rows - 3))) in E3 by lia.
  rewrite (drop_S _ _ _ E1), (drop_S _ _ _ E2), (drop_S _ _ _ E3), drop_ge by lia. done.
Qed.

(** C19.  A commit of Streamlet or LBFT: either nothing is emitted, or the last three
    rows of the notarized chain hold single blocks of consecutive views, the
    middle one is stored, and what is emitted is the chain of uncommitted blocks
    ending in the stored middle block (its highest marked, in Streamlet). *)
Theorem notarized_commit {EV : Env} {VA : Variant} s r s' :
  commitNotarized s = Ret (r, s') ->
  r = false /\ n_committed s' = n_committed s /\ n_forked s' = n_forked s \/
  exists pre a b c x l fk,
    r = true /\ notarizedChain s = pre ++ [[a]; [b]; [c]] /\
    b_View a +! 1 = b_View b /\ b_View b +! 1 = b_View c /\
    GetVertex (forrest (n_bc s)) (b_ID b) = Some x /\ commit_chain (forrest (n_bc s)) x l /\
    n_committed s' = n_committed s ++ (if marks_commit then mark_heightest l else l) /\
    n_forked s' = n_forked s ++ fk.
Proof.
  intros H. unfold commitNotarized, nget in H. go_inv. unfold lift in *.
  destruct (commitRule (notarizedChain s)) as [[b|]| | |] eqn:Ec; go_inv; [|by left].
  apply commitRule_inv in Ec as (pre & a & c & Erows & Hab & Hbc).
  unfold ncurView, ncommitBlock in *. go_inv.
  match goal with Hrun : CommitBlock _ _ _ = _ |- _ => apply CommitBlock_inv in Hrun; rename Hrun into Hcb end.
  destruct (GetVertex (forrest (n_bc s)) (b_ID b)) as [x|] eqn:Hx; cycle 1.
  { destruct Hcb as [-> ->]. go_inv. by left. }
  destruct Hcb as (l & f' & pr & Hl & _ & Hc). destruct pr as [e|[fk no]]; destruct Hc as [-> _].
  { go_inv. by left. }
  right. exists pre, a, b, c, x, l, fk. unfold nmark_stored in *.
  destruct marks_commit; [destruct (heightest l)|]; go_inv; done.
Qed.
