(* ===== verification/Streamlet.v ===== *)
(** * Streamlet (streamlet/streamlet.go)

    The shared program of Notarized.v with Streamlet's echo rules: honest replicas
    send after a fixed delay; a Byzantine one sends later, and its votes not to
    the next leader.  Result: whom the Byzantine vote broadcast reaches. *)

From Stdlib Require Import String.
From stdpp Require Import base gmap strings numbers relations list.
From S2P Require Import Prelude.
From S2P Require Import Identity.
From S2P Require Import Config.
From S2P Require Import Crypto.
From S2P Require Import Election.
From S2P Require Import Message.
From S2P Require Import Block.
From S2P Require Import Quorum.
From S2P Require Import Forest.
From S2P Require Import ForestSpec.
From S2P Require Import BlockChain.
From S2P Require Import Pacemaker.
From S2P Require Import Protocol.
From S2P Require Import Notarized.

Local Open Scope Z_scope.
Local Open Scope go_scope.

Module Streamlet.
Section streamlet.
(** [encode] is the JSON encoder on strings. *)
Context {EV : Env} (encode : string -> bytes).

Definition NewStreamlet : Notar := newNotar (Config_N env_cfg).
Definition GetChainStatus : M Notar string := nchainStatus.

(** [Timeout * k / 7] milliseconds, as a duration. *)
Definition delay_ns (k : Z) : Z := i64 (Z.quot (i64 (Timeout env_cfg * k)) 7 * 1000000).

(** [for nodeId := 1; nodeId <= N; nodeId++]. *)
Definition all_nodes : list Z := Z.of_nat <$> seq 1 (Z.to_nat (Config_N env_cfg)).

Definition send_later (ns : Z) (m : Msg) (targets : list Z) : M Notar unit :=
  modify (push_delayed ((fun i => mkDelayed ns (NewNodeID i) m) <$> targets)).

Definition NoMailBroadcast (m : Msg) : M Notar unit := send_later (delay_ns 3) m all_nodes.

(** The loop of the Byzantine vote broadcast: the next leader's number is
    stepped over, the bound is [N - 1]. *)
Fixpoint mali_targets (fuel : nat) (n leader nodeId : Z) : outcome (list Z) :=
  if nodeId <=? n - 1 then
    match fuel with
    | O => OutOfFuel
    | S fuel' =>
        let nodeId := if nodeId =? leader then nodeId + 1 else nodeId in
        rest ←? mali_targets fuel' n leader (nodeId + 1);
        Ret (nodeId :: rest)
    end
  else Ret [].

Definition nextLeader : M Notar Z :=
  v ← ncurView;
  l ← lift (FindLeaderFor (v +! 1));
  ret (Node l).

Definition MaliBroadcast (m : Msg) (isVote : bool) : M Notar unit :=
  nextLeaderId ← nextLeader;
  if nextLeaderId <=? ByzNo env_cfg then NoMailBroadcast m
  else if isVote then
    targets ← lift (mali_targets (Z.to_nat (Config_N env_cfg)) (Config_N env_cfg) nextLeaderId 1);
    send_later (delay_ns 6) m targets
  else send_later (delay_ns 5) m all_nodes.

(** The choice between the two, in [ProcessBlock]. *)
Definition spread (m : Msg) (isVote : bool) : M Notar unit :=
  if IsByz then
    l ← nextLeader;
    if ByzNo env_cfg <? l then MaliBroadcast m isVote else NoMailBroadcast m
  else NoMailBroadcast m.

Definition genesisID : Identifier := MakeID encode "Genesis block"%string.

(** A Byzantine leader keeps silent when its proposal would complete a
    three-chain. *)
Definition silent (cur : Z) (rows : list (list Block)) : outcome bool :=
  let height := GetNotarizedHeight rows in
  if (3 <? height) && IsByz then
    lastBlocks ←? go_index rows (height - 1);
    secondBlocks ←? go_index rows (height - 2);
    match single lastBlocks, single secondBlocks with
    | Some l, Some s => Ret ((b_View l =? b_View s +! 1) && (b_View l +! 1 =? cur))
    | _, _ => Ret false
    end
  else Ret false.

Definition forkChoice : M Notar (Identifier * Z * bool) :=
  s ← nget;
  quiet ← lift (silent (GetCurView (n_pm s)) (notarizedChain s));
  if (quiet : bool) then ret (zeroID, 0, true)
  else
    prevID ← lift (tail_id genesisID (notarizedChain s));
    l ← nextLeader;
    ret (prevID, if (ByzNo env_cfg <? l) && IsByz then 1 else 0, false).

Definition MakeProposal (view : Z) (payload : list Transaction) : M Notar (option Block) :=
  '(prevID, forkNum, quiet) ← forkChoice;
  if (quiet : bool) then ret None
  else
    b ← lift (MakeBlock view (Some (parent_QC prevID)) prevID payload me IsByz forkNum 0);
    ret (Some b).

#[export] Instance streamlet_variant : Variant := {|
  echo_block b := spread (MBlock b) false; cast_vote v := spread (MVote v) true;
  echo_vote v := NoMailBroadcast (MVote v); drops_stale := false; marks_commit := true;
  make_proposal := MakeProposal |}.

(** The handlers of the protocol. *)
Definition ProcessBlock (fuel : nat) (block : Block) : M Notar (option error) := Notarized.ProcessBlock fuel block.
Definition ProcessVote (fuel : nat) (vote : Vote) : M Notar unit := Notarized.ProcessVote fuel vote.
Definition processCertificate (fuel : nat) (qc : QC) : M Notar unit := Notarized.processCertificate fuel qc.
Definition ProcessRemoteTmo (tmo : TMO) : M Notar unit := nProcessRemoteTmo tmo.
Definition ProcessLocalTmo (view : Z) : M Notar unit := nProcessLocalTmo view.

#[export] Instance streamlet_laws : VariantLaws streamlet_variant.
Proof.
  assert (Hl : forall ns m t, preserves progress (send_later ns m t)).
  { intros ns m t. unfold send_later. preserves_auto. by solve_progress. }
  assert (Hn : preserves progress nextLeader) by (unfold nextLeader, ncurView; preserves_auto).
  assert (Hs : forall m b, preserves progress (spread m b)).
  { intros m b. unfold spread, MaliBroadcast, NoMailBroadcast. preserves_auto. }
  split; intros; cbn; [done|done|apply Hl|].
  unfold MakeProposal, forkChoice, nget. preserves_auto.
Qed.

(** ** Whom a Byzantine vote reaches *)

Lemma mali_targets_run n leader : forall fuel i, 1 <= i -> n - i < Z.of_nat fuel ->
  exists l, mali_targets fuel n leader i = Ret l /\ NoDup l /\
    forall x, (x ∈ l) <-> x <> leader /\ (i <= x < n \/ x = n /\ leader = n - 1 /\ i <= leader).
Proof.
  induction fuel as [|fuel IH]; intros i Hi Hf; cbn [mali_targets]; destruct (Z.leb_spec i (n - 1)).
  - lia.
  - exists []. split; [done|]. split; [constructor|]. intros x. rewrite elem_of_nil. lia.
  - set (id := if i =? leader then i + 1 else i).
    assert (Hid : id = i /\ i <> leader \/ id = i + 1 /\ i = leader) by (unfold id; destruct (Z.eqb_spec i leader); lia).
    destruct (IH (id + 1)) as (l & -> & Hnd & Hl); [lia..|]. exists (id :: l). split; [done|]. split.
    + constructor; [|done]. rewrite Hl. lia.
    + intros x. rewrite elem_of_cons, Hl. lia.
  - exists []. split; [done|]. split; [constructor|]. intros x. rewrite elem_of_nil. lia.
Qed.

(** The Byzantine broadcast of a vote, with an honest next leader: the vote goes
    once to every node below [N] but the next leader, and to node [N] only when
    the next leader is node [N - 1]; it is not, as the comment says, sent to all
    nodes except the leader. *)
Theorem MaliBroadcast_vote m s leader :
  FindLeaderFor (GetCurView (n_pm s) +! 1) = Ret leader -> ByzNo env_cfg < Node leader ->
  exists l, MaliBroadcast m true s =
      Ret (tt, push_delayed ((fun i => mkDelayed (delay_ns 6) (NewNodeID i) m) <$> l) s) /\ NoDup l /\
    forall x, (x ∈ l) <-> x <> Node leader /\
      (1 <= x < Config_N env_cfg \/ x = Config_N env_cfg /\ Node leader = Config_N env_cfg - 1 /\ 1 <= Node leader).
Proof.
  intros Hl Hb. destruct (mali_targets_run (Config_N env_cfg) (Node leader) (Z.to_nat (Config_N env_cfg)) 1)
    as (l & Hrun & Hnd & Hin); [lia..|].
  exists l. split; [|done]. unfold MaliBroadcast, nextLeader, ncurView. cbv [gbind gets ret]. unfold lift.
  rewrite Hl. rewrite (proj2 (Z.leb_gt _ _)) by lia. by rewrite Hrun.
Qed.
End streamlet.
End Streamlet.

(** A Byzantine replica of four, node 2 the next leader: the vote goes to nodes 1
    and 3, not to node 4. *)
Definition byz_toy_env : Env := {|
  env_crypto := toy_crypto; env_election := static_election (NewStatic "2"%string);
  env_cfg := cfg_f 1; me := "1"%string; IsByz := true |}.
Lemma MaliBroadcast_vote_witness :
  exists l, (4 ∉ l) /\ (1 ∈ l) /\
    Streamlet.MaliBroadcast (EV := byz_toy_env) (MVote (toy_vote 1 "1"%string [9])) true (newNotar 4) =
    Ret (tt, push_delayed ((fun i => mkDelayed (Streamlet.delay_ns (EV := byz_toy_env) 6) (NewNodeID i)
      (MVote (toy_vote 1 "1"%string [9]))) <$> l) (newNotar 4)).
Proof.
  destruct (Streamlet.MaliBroadcast_vote (EV := byz_toy_env) (MVote (toy_vote 1 "1"%string [9])) (newNotar 4) "2"%string)
    as (l & Hrun & _ & Hl); [reflexivity | vm_compute; reflexivity |].
  exists l. split; [|split; [|exact Hrun]].
  - rewrite Hl. vm_compute. intros [_ [[_ H]|(_ & H & _)]]; discriminate H.
  - rewrite Hl. vm_compute. split; [discriminate|]. left. split; [discriminate | reflexivity].
Defined.
