(* ===== verification/Lbft.v ===== *)
(** * LBFT (lbft/lbft.go)

    The shared program of Notarized.v with plain broadcasts; certificates below
    the current view are dropped.  Results: the runs, for Streamlet and LBFT, in
    which the notarized chain crashes the replica or commits a block that the
    last notarized one does not extend. *)

From Stdlib Require Import String.
From stdpp Require Import base gmap strings numbers relations list.
From S2P Require Import Prelude.
From S2P Require Import Identity.
From S2P Require Import Config.
From S2P Require Import Crypto.
From S2P Require Import Election.
From S2P Require Import Message.
From S2P Require Import Block.
From S2P Require Import Quorum.
From S2P Require Import Forest.
From S2P Require Import ForestSpec.
From S2P Require Import BlockChain.
From S2P Require Import Pacemaker.
From S2P Require Import Protocol.
From S2P Require Import Notarized.
From S2P Require Import Streamlet.

Local Open Scope Z_scope.
Local Open Scope go_scope.

Module Lbft.
Section lbft.
(** [encode] is the JSON encoder on strings. *)
Context {EV : Env} (encode : string -> bytes).

(** The fields of the struct are those of Streamlet's. *)
Definition State : Type := Notar.
Definition NewLbft : Notar := newNotar (Config_N env_cfg).
Definition GetChainStatus : M Notar string := nchainStatus.
Definition GetNotarizedHeight : M Notar Z := gets (fun s => Notarized.GetNotarizedHeight (notarizedChain s)).

Definition forkChoice : M Notar Identifier :=
  s ← nget; lift (tail_id (MakeID encode "Genesis block"%string) (notarizedChain s)).

Definition MakeProposal (view : Z) (payload : list Transaction) : M Notar (option Block) :=
  prevID ← forkChoice;
  b ← lift (MakeBlock view (Some (parent_QC prevID)) prevID payload me false 0 0);
  ret (Some b).

#[export] Instance lbft_variant : Variant := {|
  echo_block b := nBroadcast (MBlock b); cast_vote v := nBroadcast (MVote v);
  echo_vote v := nBroadcast (MVote v); drops_stale := true; marks_commit := false;
  make_proposal := MakeProposal |}.

(** The handlers of the protocol. *)
Definition ProcessBlock (fuel : nat) (block : Block) : M Notar (option error) := Notarized.ProcessBlock fuel block.
Definition ProcessVote (fuel : nat) (vote : Vote) : M Notar unit := Notarized.ProcessVote fuel vote.
Definition processCertificate (fuel : nat) (qc : QC) : M Notar unit := Notarized.processCertificate fuel qc.
Definition ProcessRemoteTmo (tmo : TMO) : M Notar unit := nProcessRemoteTmo tmo.
Definition ProcessLocalTmo (view : Z) : M Notar unit := nProcessLocalTmo view.
Definition processTC (tc : TC) : M Notar unit := nprocessTC tc.
Definition updateNotarizedChain (qc : QC) : M Notar (option error) := Notarized.updateNotarizedChain qc.
Definition votingRule (block : Block) (rows : list (list Block)) : outcome bool := Notarized.votingRule block rows.
Definition commitRule (rows : list (list Block)) : outcome (option Block) := Notarized.commitRule rows.

#[export] Instance lbft_laws : VariantLaws lbft_variant.
Proof.
  split; intros; cbn; unfold nBroadcast, MakeProposal, forkChoice, nget; preserves_auto; by solve_progress.
Qed.
End lbft.
End Lbft.

(** ** Concrete runs

    Replica ["1"] of four; the leader ["2"] proposes, the other nodes vote. *)
Definition toy_encode (x : string) : bytes := [Z.of_nat (String.length x)].
Definition toy_streamlet : Variant (EV := toy_env) := Streamlet.streamlet_variant (EV := toy_env) toy_encode.
Definition toy_lbft : Variant (EV := toy_env) := Lbft.lbft_variant (EV := toy_env) toy_encode.

Fixpoint ndeliver_all {EV : Env} (VA : Variant) (fuel : nat) (evs : list NEvent) (s : Notar) : outcome Notar :=
  match evs with
  | [] => Ret s
  | ev :: evs' => '(_, s') ←? ndeliver fuel ev s; ndeliver_all VA fuel evs' s'
  end.
Definition nrun (VA : Variant (EV := toy_env)) (evs : list NEvent) : outcome Notar :=
  ndeliver_all (EV := toy_env) VA 20 evs (newNotar 4).

Definition votes_for_block (view : Z) (id : Identifier) (nodes : list NodeID) : list NEvent :=
  (fun node => NVote (toy_vote view node id)) <$> nodes.
(** A proposal and the votes that notarize it. *)
Definition notarize (id : Identifier) (view : Z) (prev : Identifier) (nodes : list NodeID) : list NEvent :=
  NBlock (wire_block id view prev 0) :: votes_for_block view id nodes.

(** Current view, ids of the notarized rows, ids committed. *)
Definition nsummary (o : outcome Notar) : option (Z * list (list Identifier) * list Identifier) :=
  match o with
  | Ret s => Some (curView (n_pm s), map (map b_ID) (notarizedChain s), map b_ID (n_committed s))
  | _ => None
  end.

(** Four blocks, each extending the one before: the prefix of three is
    committed. *)
Definition straight : list NEvent :=
  notarize [1] 1 [100] ["2"; "3"]%string ++ notarize [2] 2 [1] ["2"; "3"]%string ++
  notarize [3] 3 [2] ["2"; "3"]%string ++ notarize [4] 4 [3] ["2"; "3"]%string.
Example straight_streamlet :
  nsummary (nrun toy_streamlet straight) = Some (5, [[[1]]; [[2]]; [[3]]; [[4]]], [[2]; [1]; [3]]).
Proof. vm_compute. reflexivity. Qed.
Example straight_lbft :
  nsummary (nrun toy_lbft straight) = Some (5, [[[1]]; [[2]]; [[3]]; [[4]]], [[2]; [1]; [3]]).
Proof. vm_compute. reflexivity. Qed.

(** The last block extends block 1, beside block 2. *)
Definition forked_three : list NEvent :=
  notarize [1] 1 [100] ["2"; "3"]%string ++ notarize [2] 2 [1] ["2"; "3"]%string ++
  notarize [3] 3 [1] ["2"; "3"; "4"]%string.

(** C38.  Streamlet and LBFT commit without a three-chain: block 3 is notarized as a
    child of block 1, and because the rows are only compared by their views block
    2, which block 3 does not extend, is committed. *)
Theorem unlinked_commit :
  let expected := Some (4, [[[1]]; [[2]]; [[3]]], [[2]; [1]]) in
  nsummary (nrun toy_streamlet forked_three) = expected /\ nsummary (nrun toy_lbft forked_three) = expected /\
  NBlock (wire_block [3] 3 [1] 0) ∈ forked_three.
Proof. split; [vm_compute; done|]. split; [vm_compute; done|]. unfold forked_three. set_solver. Qed.

(** The certificate of block 2 is completed before that of block 1, and then
    block 3 extends block 1. *)
Definition reordered : list NEvent :=
  [NBlock (wire_block [1] 1 [100] 0); NBlock (wire_block [2] 2 [1] 0)] ++
  votes_for_block 2 [2] ["2"; "3"]%string ++ notarize [3] 3 [1] ["2"; "3"; "4"]%string.

(** Reordered certificates crash a replica: with a single notarized row, a
    certificate for a block whose parent is not in it makes the search for the
    parent run past the first row.  In Streamlet it is enough that the votes for
    block 2 arrive before those for block 1. *)
Theorem reordered_certificates_panic :
  nrun toy_streamlet reordered = Panic /\ nrun toy_lbft reordered = Panic /\
  nrun toy_streamlet (take 4 reordered ++ votes_for_block 1 [1] ["2"; "3"]%string) = Panic.
Proof. vm_compute. done. Qed.

Lemma ndeliver_all_steps {EV : Env} (VA : Variant) fuel evs : forall s s',
  ndeliver_all VA fuel evs s = Ret s' -> rtc nstep s s'.
Proof.
  induction evs as [|ev evs IH]; intros s s' H; simpl in H; [by injection H as <-|].
  destruct (ndeliver fuel ev s) as [[[] s1]| | |] eqn:E; try done. simpl in H.
  eapply rtc_l; [by exists fuel, ev | by apply IH].
Qed.

Definition nstate (VA : Variant (EV := toy_env)) (evs : list NEvent) : Notar :=
  match nrun VA evs with Ret s => s | _ => newNotar 4 end.

Lemma nstate_steps (VA : Variant (EV := toy_env)) evs : rtc (nstep (EV := toy_env)) (newNotar 4) (nstate VA evs).
Proof.
  unfold nstate, nrun. destruct (ndeliver_all VA 20 evs (newNotar 4)) as [s| | |] eqn:E; [|done..].
  by eapply (ndeliver_all_steps (EV := toy_env)).
Qed.

Lemma notarized_invariant_witness : rows_ok (notarizedChain (nstate toy_streamlet straight)).
Proof.
  exact (proj1 (notarized_invariant (EV := toy_env) (VA := toy_streamlet)
    (VL := Streamlet.streamlet_laws (EV := toy_env) toy_encode) 4 _ _
    (nstate_steps toy_streamlet straight) (rtc_refl _ _))).
Defined.

(** Blocks 1 and 2 notarized, then block 3: the middle block 2 is committed. *)
Definition before_commit : Notar :=
  push_row [wire_block [3] 3 [2] 0] (nstate toy_streamlet (take 6 straight)).
Lemma notarized_commit_witness :
  exists pre a b c, notarizedChain before_commit = pre ++ [[a]; [b]; [c]] /\ b_View b +! 1 = b_View c /\
    GetVertex (forrest (n_bc before_commit)) (b_ID b) <> None.
Proof.
  destruct (commitNotarized (EV := toy_env) (VA := toy_streamlet) before_commit) as [[r s']| | |] eqn:E;
    [|vm_compute in E; discriminate E..].
  destruct (notarized_commit (EV := toy_env) (VA := toy_streamlet) before_commit r s' E)
    as [(Hr & _)|(pre & a & b & c & x & l & fk & _ & H1 & _ & H3 & H4 & _)].
  - exfalso. subst r. apply (f_equal (fun o => match o with Ret (b, _) => b | _ => false end)) in E.
    vm_compute in E. discriminate E.
  - exists pre, a, b, c. split; [exact H1|]. split; [exact H3|]. rewrite H4. discriminate.
Defined.
