(* ===== verification/HotStuff.v ===== *)
(** * Chained HotStuff (hotstuff/hotstuff.go)

    Every method of [HotStuff] that reads or writes its state.  Results: the
    voting rule, the three-chain commit rule, what a certificate does, and that
    all handlers respect every [Frame] (Protocol.v). *)

From Stdlib Require Import String.
From stdpp Require Import base gmap strings numbers list.
From S2P Require Import Prelude.
From S2P Require Import Identity.
From S2P Require Import Config.
From S2P Require Import Crypto.
From S2P Require Import Election.
From S2P Require Import Message.
From S2P Require Import Block.
From S2P Require Import Quorum.
From S2P Require Import Forest.
From S2P Require Import ForestSpec.
From S2P Require Import BlockChain.
From S2P Require Import Pacemaker.
From S2P Require Import Protocol.

Local Open Scope Z_scope.
Local Open Scope go_scope.

Module HotStuff.
Section hotstuff.
Context {EV : Env}.

Definition NewHotStuff : Proto := newProto (Config_N env_cfg).

Definition GetHighQC : M Proto QC := gets highQC.
Definition GetHeight : M Proto Z := gets height.
Definition GetChainStatus : M Proto string := chainStatus.

Definition votingRule (block : Block) : M Proto (error + bool) :=
  if b_View block <=? 2 then ret (inr true)
  else
    s ← get;
    r ← lift (GetParentBlock (b_ID block) (bc s));
    match r with
    | inl e => ret (inl ("cannot vote for block: " +:+ e)%string)
    | inr parentBlock => ret (inr (negb (b_View parentBlock <? preferredView s)))
    end.

(** The error and [(false, nil)] are told apart; the callers ignore the
    difference. *)
Definition commitRule (qc : QC) : M Proto (error + option Block) :=
  s ← get;
  r ← lift (GetParentBlock (qc_BlockID qc) (bc s));
  match r with
  | inl e => ret (inl ("cannot commit any block: " +:+ e)%string)
  | inr parentBlock =>
      r ← lift (GetParentBlock (b_ID parentBlock) (bc s));
      match r with
      | inl e => ret (inl ("cannot commit any block: " +:+ e)%string)
      | inr grandParentBlock =>
          if (b_View grandParentBlock +! 1 =? b_View parentBlock) &&
             (b_View parentBlock +! 1 =? qc_View qc)
          then mark_stored (b_ID grandParentBlock);; ret (inr (Some grandParentBlock))
          else ret (inr None)
      end
  end.

Definition updatePreferredView (qc : QC) : M Proto (option error) :=
  if qc_View qc <=? 2 then ret None
  else
    s ← get;
    match GetBlockByID (qc_BlockID qc) (bc s) with
    | inl e => ret (Some ("cannot update preferred view: " +:+ e)%string)
    | inr _ =>
        r ← lift (GetParentBlock (qc_BlockID qc) (bc s));
        match r with
        | inl e => ret (Some ("cannot update preferred view: " +:+ e)%string)
        | inr grandParentBlock =>
            (if preferredView s <? b_View grandParentBlock
             then modify (set_preferredView (b_View grandParentBlock)) else skip);;
            ret None
        end
    end.

Definition processCertificate (qc : QC) : M Proto unit :=
  ok ← quorumIsVerified qc;
  if negb ok then skip
  else
    err ← updatePreferredView qc;
    match err with
    | Some _ => bufferQC qc
    | None =>
        updateHighQC qc;;
        if qc_View qc <? 3 then skip
        else
          r ← commitRule qc;
          match r with
          | inr (Some block) =>
              v ← curViewM;
              c ← commitBlock (b_ID block) v;
              match c with
              | inl _ => skip
              | inr (committed, forked) => emit committed forked
              end
          | _ => skip
          end
    end.

(** Is the vote's signature accepted (or the vote our own)? *)
Definition voteIsVerified (vote : Vote) : M Proto bool :=
  if decide (v_Voter vote = me) then ret true
  else
    r ← lift (PubVerify ce_keys (v_Signature vote) (IDToByte (v_BlockID vote)) (v_Voter vote));
    match snd r with Some _ => ret false | None => ret (fst r) end.

(** [ProcessVote]; [pb] is [ProcessBlock], reached through [ProcessLocalVmo]. *)
Definition processVote (fuel : nat) (pb : Block -> M Proto (option error)) (vote : Vote) : M Proto unit :=
  if IsByz then skip
  else
    ok ← voteIsVerified vote;
    if negb ok then skip
    else
      '(isBuilt, qc) ← addVote vote;
      if negb (isBuilt : bool) then skip
      else
        qc ← lift (of_option qc);
        let qc := set_Leader me qc in
        s ← get;
        match GetBlockByID (qc_BlockID qc) (bc s) with
        | inl _ => bufferQC qc
        | inr _ =>
            processCertificate qc;;
            v ← curViewM;
            localVmo fuel skip pb v
        end.

Fixpoint ProcessBlock (fuel : nat) (block : Block) : M Proto (option error) :=
  match fuel with
  | O => outOfFuel
  | S fuel' =>
      enter_first_view;;
      curView ← curViewM;
      check_block_sig block;;
      if curView <? b_View block then bufferBlock block;; ret None
      else
        receiveBlock block;;
        _ ← vmoAndBlock (ProcessBlock fuel') (b_View block);
        match b_QC block with
        | None => ret (Some "the block should contain a QC"%string)
        | Some qc =>
            updateHighQC qc;;
            (if decide (b_Proposer block = me) then skip else processCertificate qc);;
            isLeader ← lift (IsLeader (b_Proposer block) (b_View block));
            if negb isLeader then ret (Some "received a proposal from an invalid leader"%string)
            else
              addBlock block;;
              s ← get;
              match bufferedQCs s !! b_ID block with
              | Some qc =>
                  processCertificate qc;;
                  unbufferQC (b_ID block);;
                  next ← lift (FindLeaderFor (b_View block +! 1));
                  if decide (next = me) then localVmo fuel' skip (ProcessBlock fuel') (b_View block)
                  else skip
              | None => skip
              end;;
              r ← votingRule block;
              match r with
              | inl err => ret (Some err)
              | inr false => ret None
              | inr true =>
                  vote ← lift (MakeVote (b_View block) me (b_ID block));
                  voteAggregator ← lift (FindLeaderFor (b_View block +! 1));
                  (if decide (voteAggregator = me) then keepVote vote;; processVote fuel' (ProcessBlock fuel') vote
                   else Send voteAggregator (MVote vote));;
                  s ← get;
                  match bufferedBlocks s !! b_View block with
                  | Some b => _ ← ProcessBlock fuel' b; unbufferBlock (b_View block);; ret None
                  | None => ret None
                  end
              end
        end
  end.

Definition ProcessVote (fuel : nat) (vote : Vote) : M Proto unit := processVote fuel (ProcessBlock fuel) vote.

(** [processCertificate(tmo.HighQC)] dereferences the certificate. *)
Definition ProcessRemoteTmo (tmo : TMO) : M Proto unit :=
  qc ← lift (of_option (tmo_HighQC tmo));
  processCertificate qc;;
  collectTmo tmo.

Definition ProcessLocalTmo (view : Z) : M Proto unit :=
  tmo ← localTmo view; ProcessRemoteTmo tmo.

(** The shared view-change code at this protocol. *)
Definition ProcessVMOAndBlock (fuel : nat) (view : Z) : M Proto bool := vmoAndBlock (ProcessBlock fuel) view.
Definition ProcessRemoteVmo (fuel : nat) (vmo : VMO) : M Proto unit := remoteVmo fuel skip (ProcessBlock fuel) vmo.
Definition ProcessLocalVmo (fuel : nat) (view : Z) : M Proto unit := localVmo fuel skip (ProcessBlock fuel) view.
Definition ProcessRemoteVc (vc : VC) : M Proto unit := remoteVc vc.

(** [forkRule] of a Byzantine leader; nil blocks are dereferenced. *)
Definition forkRule : M Proto (option QC * Z * Z) :=
  s ← get;
  let parBlockID := qc_BlockID (highQC s) in
  let par := GetBlockByID parBlockID (bc s) in
  grand ← lift (GetParentBlock parBlockID (bc s));
  match par with
  | inl _ => panic
  | inr parBlock =>
      if (b_View parBlock <? preferredView s) || GetMali parBlock then
        ret (Some (highQC s), 0, height s +! 1)
      else
        match grand with
        | inl _ => panic
        | inr grandParBlock =>
            if negb (b_View grandParBlock <? preferredView s) && negb (GetMali grandParBlock)
            then ret (b_QC grandParBlock, 2, Block.GetHeight grandParBlock)
            else ret (b_QC parBlock, 1, Block.GetHeight parBlock)
        end
  end.

Definition forkChoice : M Proto (option QC * Z * Z) :=
  if negb IsByz || negb (ForkATK env_cfg) then
    s ← get;
    match GetBlockByID (qc_BlockID (highQC s)) (bc s) with
    | inr parBlock => ret (Some (highQC s), -1, Block.GetHeight parBlock +! 1)
    | inl _ => ret (Some (highQC s), -1, height s +! 1)
    end
  else forkRule.

Definition MakeProposal (view : Z) (payload : list Transaction) : M Proto Block :=
  '(qc, forkNum, height) ← forkChoice;
  q ← lift (of_option qc);
  lift (MakeBlock view qc (qc_BlockID q) payload me IsByz forkNum height).

(** ** The rules *)

(** The voting rule: a block of view at most 2 is always voted for; a
    later one exactly when it is stored with its certificate, its parent is
    stored, and the parent's view is not below the preferred view; a missing
    block or parent is an error, and the state is never changed. *)
Theorem votingRule_spec block s :
  votingRule block s = Ret (inr true, s) <->
  b_View block <= 2 \/
  exists x p, GetVertex (forrest (bc s)) (b_ID block) = Some x /\ b_QC x <> None /\
    GetVertex (forrest (bc s)) (b_PrevID x) = Some p /\ preferredView s <= b_View p.
Proof.
  assert (Hrun : votingRule block s =
    if b_View block <=? 2 then Ret (inr true, s)
    else match GetParentBlock (b_ID block) (bc s) with
         | Ret (inl e) => Ret (inl ("cannot vote for block: " +:+ e)%string, s)
         | Ret (inr p) => Ret (inr (negb (b_View p <? preferredView s)), s)
         | Panic => Panic
         | Diverge => Diverge
         | OutOfFuel => OutOfFuel
         end).
  { unfold votingRule. destruct (b_View block <=? 2); [done|]. cbv [gbind get gets lift ret].
    by destruct (GetParentBlock (b_ID block) (bc s)) as [[e|p]| | |]. }
  rewrite Hrun. destruct (Z.leb_spec (b_View block) 2); [by split; [left | intros _]|]. split.
  - destruct (GetParentBlock (b_ID block) (bc s)) as [[e|p]| | |] eqn:E; try done.
    apply GetParentBlock_inr in E as (x & ? & ? & ?).
    destruct (Z.ltb_spec (b_View p) (preferredView s)); [done|]. intros _. right. by exists x, p.
  - intros [?|(x & p & H1 & H2 & H3 & Hle)]; [lia|].
    rewrite (proj2 (GetParentBlock_inr (b_ID block) (bc s) p)) by eauto.
    by rewrite (proj2 (Z.ltb_ge _ _) Hle).
Qed.

Lemma updatePreferredView_chain qc : preserves same_chain (updatePreferredView qc).
Proof. unfold updatePreferredView, get. preserves_auto. Qed.

(** A successful commit rule names a three-chain. *)
Lemma commitRule_chain qc s r s' :
  forest_wf (forrest (bc s)) -> commitRule qc s = Ret (r, s') ->
  match r with
  | inr (Some g) => exists x p,
      GetVertex (forrest (bc s)) (qc_BlockID qc) = Some x /\
      GetVertex (forrest (bc s)) (b_PrevID x) = Some p /\
      GetVertex (forrest (bc s)) (b_PrevID p) = Some g /\
      b_View g +! 1 = b_View p /\ b_View p +! 1 = qc_View qc /\
      bc s' = set_forrest (write_vertex mark_commit (b_ID g) (forrest (bc s))) (bc s) /\
      committedBlocks s' = committedBlocks s /\ forkedBlocks s' = forkedBlocks s
  | _ => s' = s
  end.
Proof.
  intros Hwf H. unfold commitRule, get in H. go_inv. unfold lift in *.
  destruct (GetParentBlock (qc_BlockID qc) (bc s)) as [[e|p]| | |] eqn:E1; go_inv; [done|].
  destruct (GetParentBlock (b_ID p) (bc s)) as [[e|g]| | |] eqn:E2; go_inv; [done|].
  apply GetParentBlock_inr in E1 as (x & Hx & _ & Hp). apply GetParentBlock_inr in E2 as (p' & Hp' & _ & Hg).
  rewrite (GetVertex_ID _ _ _ Hwf Hp), Hp in Hp'. injection Hp' as <-.
  destruct ((b_View g +! 1 =? b_View p) && (b_View p +! 1 =? qc_View qc)) eqn:E3; [|by go_inv].
  unfold mark_stored, write_stored in H. go_inv. apply andb_true_iff in E3 as [?%Z.eqb_eq ?%Z.eqb_eq].
  by exists x, p.
Qed.

(** C3.  Three-chain commit: processing a certificate either emits nothing, or
    the certificate was accepted (built here, or its signatures verify), its view
    is at least 3, its block, the block's parent and grandparent are stored, the
    parent's view follows the grandparent's and the certificate's view follows
    the parent's, and what is emitted is the chain of uncommitted blocks ending in
    that grandparent, which is marked as the commit's origin. *)
Theorem three_chain qc s s' :
  forest_wf (forrest (bc s)) -> processCertificate qc s = Ret (tt, s') ->
  committedBlocks s' = committedBlocks s /\ forkedBlocks s' = forkedBlocks s \/
  exists x p g l fk,
    (qc_Leader qc = me \/ exists e,
       VerifyQuorumSignature ce_keys (qc_AggSig qc) (qc_BlockID qc) (qc_Signers qc) = Ret (true, e)) /\
    3 <= qc_View qc /\
    GetVertex (forrest (bc s)) (qc_BlockID qc) = Some x /\
    GetVertex (forrest (bc s)) (b_PrevID x) = Some p /\
    GetVertex (forrest (bc s)) (b_PrevID p) = Some g /\
    b_View g +! 1 = b_View p /\ b_View p +! 1 = qc_View qc /\
    commit_chain (write_vertex mark_commit (b_ID g) (forrest (bc s))) (mark_commit g) l /\
    committedBlocks s' = committedBlocks s ++ l /\ forkedBlocks s' = forkedBlocks s ++ fk.
Proof.
  intros Hwf H. unfold processCertificate in H.
  apply bind_ret in H as (ok & s1 & Hq & H). apply quorumIsVerified_run in Hq as [-> Hq].
  destruct ok; simpl in H; [|go_inv; by left].
  apply bind_ret in H as (err & s2 & Hu & H).
  apply updatePreferredView_chain in Hu as (E1 & E2 & E3).
  destruct err as [e|]; [apply bufferQC_chain in H as (_ & -> & ->); by left|].
  apply bind_ret in H as ([] & s3 & Hh & H). apply updateHighQC_chain in Hh as (E4 & E5 & E6).
  destruct (Z.ltb_spec (qc_View qc) 3); [go_inv; left; split; congruence|].
  apply bind_ret in H as (r & s4 & Hc & H).
  apply commitRule_chain in Hc; [|by rewrite E4, E1].
  destruct r as [e|[g|]]; [go_inv; left; split; congruence| |go_inv; left; split; congruence].
  destruct Hc as (x & p & Hx & Hp & Hg & Hv1 & Hv2 & Hbc & E7 & E8). rewrite E4, E1 in *.
  unfold curViewM, commitBlock in H. go_inv.
  match goal with Hrun : CommitBlock _ _ _ = _ |- _ => rename Hrun into Hcb end.
  apply CommitBlock_inv in Hcb. rewrite Hbc in Hcb. simpl in Hcb.
  rewrite (write_vertex_lookup _ _ _ _ Hg (GetVertex_ID _ _ _ Hwf Hg)) in Hcb.
  destruct Hcb as (l & f' & pr & Hl & _ & Hr). destruct pr as [e|[fk no]]; destruct Hr as [-> _].
  - go_inv. left. split; simpl; congruence.
  - unfold emit in H. go_inv. right. exists x, p, g, l, fk. simpl.
    repeat (split; [by eauto|]). rewrite E7, E8, E5, E6, E2, E3. done.
Qed.

(** ** Frames *)

Section frames.
Context (R : Proto -> Proto -> Prop) {FR : Frame R}.

Lemma hs_votingRule_frame b : preserves R (votingRule b).
Proof. unfold votingRule, get. preserves_auto. Qed.

Lemma commitRule_frame qc : preserves R (commitRule qc).
Proof. unfold commitRule, get. preserves_auto. Qed.

Lemma hs_updatePreferredView_frame qc : preserves R (updatePreferredView qc).
Proof.
  intros s r s' H. unfold updatePreferredView, get in H. destruct (qc_View qc <=? 2); go_inv; [reflexivity|].
  destruct (GetBlockByID _ _) as [?|b]; go_inv; [reflexivity|].
  unfold lift in *. destruct (GetParentBlock _ _) as [[?|gp]| | |]; go_inv; [reflexivity|].
  destruct (Z.ltb_spec (preferredView s) (b_View gp)); go_inv; [by apply fr_prefer | reflexivity].
Qed.

Lemma hs_processCertificate_frame qc : preserves R (processCertificate qc).
Proof.
  pose proof commitRule_frame. pose proof hs_updatePreferredView_frame.
  unfold processCertificate, curViewM. preserves_auto.
Qed.

Lemma hs_processVote_frame fuel pb v : (forall b, preserves R (pb b)) -> preserves R (processVote fuel pb v).
Proof.
  intros Hpb. pose proof hs_processCertificate_frame.
  unfold processVote, voteIsVerified, curViewM, get. preserves_auto.
Qed.

Lemma hs_ProcessBlock_frame fuel : forall b, preserves R (ProcessBlock fuel b).
Proof.
  induction fuel as [|fuel IH]; intros b; simpl; [apply preserves_outOfFuel|].
  pose proof hs_processCertificate_frame. pose proof hs_votingRule_frame. pose proof (hs_processVote_frame fuel).
  unfold curViewM, get. preserves_auto.
Qed.
End frames.
End hotstuff.
End HotStuff.
