(* ===== verification/Tchs.v ===== *)
(** * Two-chain HotStuff (tchs/tchs.go)

    Every method of [Tchs] that reads or writes its state.  The commit is
    decided when a block arrives, from its own certificate; the voting rule
    accepts everything. *)

From Stdlib Require Import String.
From stdpp Require Import base gmap strings numbers list.
From S2P Require Import Prelude.
From S2P Require Import Identity.
From S2P Require Import Config.
From S2P Require Import Crypto.
From S2P Require Import Election.
From S2P Require Import Message.
From S2P Require Import Block.
From S2P Require Import Quorum.
From S2P Require Import Forest.
From S2P Require Import ForestSpec.
From S2P Require Import BlockChain.
From S2P Require Import Pacemaker.
From S2P Require Import Protocol.

Local Open Scope Z_scope.
Local Open Scope go_scope.

Module Tchs.
Section tchs.
Context {EV : Env}.

(** The fields of the struct are those of HotStuff's. *)
Definition State : Type := Proto.
Definition NewTchs : Proto := newProto (Config_N env_cfg).
Definition GetHighQC : M Proto QC := gets highQC.
Definition GetChainStatus : M Proto string := chainStatus.

Definition votingRule (block : Block) : M Proto (error + bool) := ret (inr true).

Definition commitRule (block : Block) : M Proto (error + option Block) := twoChainRule block.
Definition updateLastVotedView (targetView : Z) : M Proto (option error) := setLastVotedView targetView.

Definition updatePreferredView (qc : QC) : M Proto (option error) :=
  if qc_View qc <? 2 then ret None
  else
    s ← get;
    r ← lift (GetParentBlock (qc_BlockID qc) (bc s));
    match r with
    | inl e => ret (Some ("cannot update preferred view: " +:+ e)%string)
    | inr parentBlock =>
        (if preferredView s <? b_View parentBlock
         then modify (set_preferredView (b_View parentBlock)) else skip);;
        ret None
    end.

Definition processCertificate (qc : QC) : M Proto unit :=
  ok ← quorumIsVerified qc;
  if negb ok then skip
  else
    err ← updatePreferredView qc;
    match err with
    | Some _ => bufferQC qc
    | None => updateHighQC qc
    end.

(** A verification error is fatal. *)
Definition voteIsVerified (vote : Vote) : M Proto bool :=
  if decide (v_Voter vote = me) then ret true
  else
    r ← lift (PubVerify ce_keys (v_Signature vote) (IDToByte (v_BlockID vote)) (v_Voter vote));
    match snd r with Some _ => panic | None => ret (fst r) end.

Definition processVote (fuel : nat) (pb : Block -> M Proto (option error)) (vote : Vote) : M Proto unit :=
  if IsByz then skip
  else
    ok ← voteIsVerified vote;
    if negb ok then skip
    else
      '(isBuilt, qc) ← addVote vote;
      if negb (isBuilt : bool) then skip
      else
        qc ← lift (of_option qc);
        let qc := set_Leader me qc in
        s ← get;
        match GetBlockByID (qc_BlockID qc) (bc s) with
        | inl _ => bufferQC qc
        | inr _ =>
            processCertificate qc;;
            v ← curViewM;
            localVmo fuel enter_first_view pb v
        end.

Definition commitStep (block : Block) (qc : QC) : M Proto (option error) := twoChainStep block qc.

Fixpoint ProcessBlock (fuel : nat) (block : Block) : M Proto (option error) :=
  match fuel with
  | O => outOfFuel
  | S fuel' =>
      enter_first_view;;
      curView ← curViewM;
      check_block_sig block;;
      if curView <? b_View block then bufferBlock block;; ret None
      else
        receiveBlock block;;
        _ ← vmoAndBlock (ProcessBlock fuel') (b_View block);
        match b_QC block with
        | None => ret (Some "the block should contain a QC"%string)
        | Some qc =>
            updateHighQC qc;;
            (if decide (b_Proposer block = me) then skip else processCertificate qc);;
            isLeader ← lift (IsLeader (b_Proposer block) (b_View block));
            if negb isLeader then ret (Some "received a proposal from an invalid leader"%string)
            else
              addBlock block;;
              err ← commitStep block qc;
              match err with
              | Some e => ret (Some e)
              | None =>
                  s ← get;
                  match bufferedQCs s !! b_ID block with
                  | Some qc =>
                      processCertificate qc;;
                      unbufferQC (b_ID block);;
                      next ← lift (FindLeaderFor (b_View block +! 1));
                      if decide (next = me)
                      then localVmo fuel' enter_first_view (ProcessBlock fuel') (b_View block) else skip
                  | None => skip
                  end;;
                  r ← votingRule block;
                  match r with
                  | inl err => ret (Some err)
                  | inr false => ret None
                  | inr true =>
                      vote ← lift (MakeVote (b_View block) me (b_ID block));
                      voteAggregator ← lift (FindLeaderFor (b_View block +! 1));
                      (if decide (voteAggregator = me) then keepVote vote;; processVote fuel' (ProcessBlock fuel') vote
                       else Send voteAggregator (MVote vote));;
                      s ← get;
                      match bufferedBlocks s !! b_View block with
                      | Some b => ProcessBlock fuel' b
                      | None => ret None
                      end
                  end
              end
        end
  end.

Definition ProcessVote (fuel : nat) (vote : Vote) : M Proto unit := processVote fuel (ProcessBlock fuel) vote.

Definition ProcessRemoteTmo (tmo : TMO) : M Proto unit :=
  v ← curViewM; if tmo_View tmo <? v then skip else collectTmo tmo.

Definition ProcessLocalTmo (view : Z) : M Proto unit :=
  tmo ← localTmo view; ProcessRemoteTmo tmo.

(** The shared view-change code at this protocol. *)
Definition ProcessVMOAndBlock (fuel : nat) (view : Z) : M Proto bool := vmoAndBlock (ProcessBlock fuel) view.
Definition ProcessRemoteVmo (fuel : nat) (vmo : VMO) : M Proto unit :=
  remoteVmo fuel enter_first_view (ProcessBlock fuel) vmo.
Definition ProcessLocalVmo (fuel : nat) (view : Z) : M Proto unit :=
  localVmo fuel enter_first_view (ProcessBlock fuel) view.
Definition processTC (tc : TC) : M Proto unit := Protocol.processTC tc.
Definition updateHighQC (qc : QC) : M Proto unit := Protocol.updateHighQC qc.
Definition ProcessRemoteVc (vc : VC) : M Proto unit := remoteVc vc.

(** [forkRule]: the view of the parent's certificate is overwritten in place. *)
Definition forkRule : M Proto (option QC * Z * Z) :=
  s ← get;
  match GetBlockByID (qc_BlockID (highQC s)) (bc s) with
  | inl _ => panic
  | inr parBlock =>
      if (b_View parBlock <? preferredView s) || GetMali parBlock then ret (Some (highQC s), 0, 0)
      else
        v ← curViewM;
        choice ← lift (of_option (b_QC parBlock));
        retag_stored (v -! 1) (b_ID parBlock);;
        ret (Some (retag_QC (v -! 1) choice), 1, Block.GetHeight parBlock)
  end.

Definition forkChoice : M Proto (option QC * Z * Z) :=
  if IsByz && ForkATK env_cfg then forkRule
  else s ← get; ret (Some (highQC s), 0, 0).

Definition MakeProposal (view : Z) (payload : list Transaction) : M Proto Block :=
  '(qc, flag, _) ← forkChoice;
  q ← lift (of_option qc);
  lift (MakeBlock view qc (qc_BlockID q) payload me IsByz flag 0).

(** ** Frames *)

Section frames.
Context (R : Proto -> Proto -> Prop) {FR : Frame R}.

Lemma tchs_commitStep_frame b qc : preserves R (commitStep b qc).
Proof. by apply twoChainStep_frame. Qed.

Lemma tchs_updatePreferredView_frame qc : preserves R (updatePreferredView qc).
Proof.
  intros s r s' H. unfold updatePreferredView, get in H. destruct (qc_View qc <? 2); go_inv; [reflexivity|].
  unfold lift in *. destruct (GetParentBlock _ _) as [[?|gp]| | |]; go_inv; [reflexivity|].
  destruct (Z.ltb_spec (preferredView s) (b_View gp)); go_inv; [by apply fr_prefer | reflexivity].
Qed.

Lemma tchs_processCertificate_frame qc : preserves R (processCertificate qc).
Proof. pose proof tchs_updatePreferredView_frame. unfold processCertificate. preserves_auto. Qed.

Lemma tchs_processVote_frame fuel pb v : (forall b, preserves R (pb b)) -> preserves R (processVote fuel pb v).
Proof.
  intros Hpb. pose proof tchs_processCertificate_frame.
  unfold processVote, voteIsVerified, curViewM, get. preserves_auto.
Qed.

Lemma tchs_ProcessBlock_frame fuel : forall b, preserves R (ProcessBlock fuel b).
Proof.
  induction fuel as [|fuel IH]; intros b; simpl; [apply preserves_outOfFuel|].
  pose proof tchs_processCertificate_frame. pose proof tchs_commitStep_frame. pose proof (tchs_processVote_frame fuel).
  unfold curViewM, get, votingRule. preserves_auto.
Qed.

Lemma forkChoice_frame : preserves R forkChoice.
Proof. unfold forkChoice, forkRule, curViewM, get. preserves_auto. Qed.
End frames.
End tchs.
End Tchs.
