(* ===== verification/Safety.v ===== *)
(** * The Safety interface (replica/safety.go) and what every protocol keeps

    [Safety] is the Go interface the replica drives; [SafetyLaws] is the promise
    the three implementations discharge: every method respects every [Frame].
    The theorems are proved once, against the interface, for all states reachable
    by any sequence of events. *)

From Stdlib Require Import String.
From stdpp Require Import base gmap strings numbers relations list.
From S2P Require Import Prelude.
From S2P Require Import Identity.
From S2P Require Import Config.
From S2P Require Import Crypto.
From S2P Require Import Election.
From S2P Require Import Message.
From S2P Require Import Block.
From S2P Require Import Quorum.
From S2P Require Import Forest.
From S2P Require Import ForestSpec.
From S2P Require Import BlockChain.
From S2P Require Import Pacemaker.
From S2P Require Import Protocol.
From S2P Require Import HotStuff.
From S2P Require Import Tchs.
From S2P Require Import Fhs.

Local Open Scope Z_scope.
Local Open Scope go_scope.

(** ** The interface *)

Class Safety {EV : Env} := {
  ProcessBlock : nat -> Block -> M Proto (option error);
  ProcessVote : nat -> Vote -> M Proto unit;
  ProcessRemoteTmo : TMO -> M Proto unit;
  ProcessLocalTmo : Z -> M Proto unit;
  MakeProposal : Z -> list Transaction -> M Proto Block;
  ProcessRemoteVmo : nat -> VMO -> M Proto unit }.

Class SafetyLaws {EV : Env} (S : Safety) : Prop := {
  law_block R : Frame R -> forall fuel b, preserves R (ProcessBlock fuel b);
  law_vote R : Frame R -> forall fuel v, preserves R (ProcessVote fuel v);
  law_tmo R : Frame R -> forall t, preserves R (ProcessRemoteTmo t);
  law_localTmo R : Frame R -> forall v, preserves R (ProcessLocalTmo v);
  law_proposal R : Frame R -> forall v p, preserves R (MakeProposal v p);
  law_vmo R : Frame R -> forall fuel v, preserves R (ProcessRemoteVmo fuel v) }.

Section instances.
Context {EV : Env}.

Definition hotstuff_safety : Safety := {|
  ProcessBlock := HotStuff.ProcessBlock; ProcessVote := HotStuff.ProcessVote;
  ProcessRemoteTmo := HotStuff.ProcessRemoteTmo; ProcessLocalTmo := HotStuff.ProcessLocalTmo;
  MakeProposal := HotStuff.MakeProposal; ProcessRemoteVmo := HotStuff.ProcessRemoteVmo |}.

Definition tchs_safety : Safety := {|
  ProcessBlock := Tchs.ProcessBlock; ProcessVote := Tchs.ProcessVote;
  ProcessRemoteTmo := Tchs.ProcessRemoteTmo; ProcessLocalTmo := Tchs.ProcessLocalTmo;
  MakeProposal := Tchs.MakeProposal; ProcessRemoteVmo := Tchs.ProcessRemoteVmo |}.

Definition fhs_safety : Safety := {|
  ProcessBlock := Fhs.ProcessBlock; ProcessVote := Fhs.ProcessVote;
  ProcessRemoteTmo := Fhs.ProcessRemoteTmo; ProcessLocalTmo := Fhs.ProcessLocalTmo;
  MakeProposal := Fhs.MakeProposal; ProcessRemoteVmo := Fhs.ProcessRemoteVmo |}.

#[export] Instance hotstuff_laws : SafetyLaws hotstuff_safety.
Proof.
  split; intros R FR; simpl; intros.
  - apply HotStuff.hs_ProcessBlock_frame; done.
  - apply HotStuff.hs_processVote_frame; [done|]. apply HotStuff.hs_ProcessBlock_frame; done.
  - pose proof (HotStuff.hs_processCertificate_frame R). unfold HotStuff.ProcessRemoteTmo. preserves_auto.
  - pose proof (HotStuff.hs_processCertificate_frame R).
    unfold HotStuff.ProcessLocalTmo, HotStuff.ProcessRemoteTmo. preserves_auto.
  - unfold HotStuff.MakeProposal, HotStuff.forkChoice, HotStuff.forkRule, get. preserves_auto.
  - apply remoteVmo_frame; [done | apply preserves_skip; apply _ | apply HotStuff.hs_ProcessBlock_frame; done].
Qed.

#[export] Instance tchs_laws : SafetyLaws tchs_safety.
Proof.
  split; intros R FR; simpl; intros.
  - apply Tchs.tchs_ProcessBlock_frame; done.
  - apply Tchs.tchs_processVote_frame; [done|]. apply Tchs.tchs_ProcessBlock_frame; done.
  - unfold Tchs.ProcessRemoteTmo, curViewM. preserves_auto.
  - unfold Tchs.ProcessLocalTmo, Tchs.ProcessRemoteTmo, curViewM. preserves_auto.
  - pose proof (Tchs.forkChoice_frame R). unfold Tchs.MakeProposal. preserves_auto.
  - apply remoteVmo_frame; [done | apply enter_first_view_frame; done | apply Tchs.tchs_ProcessBlock_frame; done].
Qed.

#[export] Instance fhs_laws : SafetyLaws fhs_safety.
Proof.
  split; intros R FR; simpl; intros.
  - apply Fhs.fhs_ProcessBlock_frame; done.
  - apply Fhs.fhs_processVote_frame; [done|]. apply Fhs.fhs_ProcessBlock_frame; done.
  - unfold Fhs.ProcessRemoteTmo. preserves_auto.
  - unfold Fhs.ProcessLocalTmo, Fhs.ProcessRemoteTmo. preserves_auto.
  - unfold Fhs.MakeProposal, Fhs.forkChoice, get. preserves_auto.
  - apply remoteVmo_frame; [done | apply enter_first_view_frame; done | apply Fhs.fhs_ProcessBlock_frame; done].
Qed.
End instances.

(** ** Events and reachability *)

Inductive Event :=
| EvBlock (b : Block) | EvVote (v : Vote) | EvTmo (t : TMO) | EvLocalTmo (view : Z) | EvVmo (v : VMO)
| EvPropose (view : Z) (payload : list Transaction).

Section reach.
Context {EV : Env} (S : Safety).

Definition deliver (fuel : nat) (ev : Event) : M Proto unit :=
  match ev with
  | EvBlock b => _ ← ProcessBlock fuel b; skip
  | EvVote v => ProcessVote fuel v
  | EvTmo t => ProcessRemoteTmo t
  | EvLocalTmo view => ProcessLocalTmo view
  | EvVmo v => ProcessRemoteVmo fuel v
  | EvPropose view payload => _ ← MakeProposal view payload; skip
  end.

Definition step (s s' : Proto) : Prop := exists fuel ev, deliver fuel ev s = Ret (tt, s').

Context {SL : SafetyLaws S}.

Lemma deliver_frame R : Frame R -> forall fuel ev, preserves R (deliver fuel ev).
Proof.
  intros FR fuel ev. pose proof (law_block R FR). pose proof (law_vote R FR). pose proof (law_tmo R FR).
  pose proof (law_localTmo R FR). pose proof (law_proposal R FR). pose proof (law_vmo R FR).
  unfold deliver. preserves_auto.
Qed.

Lemma steps_frame R : Frame R -> forall s s', rtc step s s' -> R s s'.
Proof.
  intros FR s s' Hr. induction Hr as [|s1 s2 s3 (fuel & ev & Hstep) _ IH]; [reflexivity|].
  transitivity s2; [by eapply deliver_frame | done].
Qed.
End reach.

(** ** What only grows *)

Record grows (s s' : Proto) : Prop := mkGrows {
  gr_highQC : qc_View (highQC s) <= qc_View (highQC s');
  gr_preferred : preferredView s <= preferredView s';
  gr_low : bc_low (bc s) <= bc_low (bc s');
  gr_committed : committedBlocks s `prefix_of` committedBlocks s';
  gr_forked : forkedBlocks s `prefix_of` forkedBlocks s';
  gr_outbox : outbox s `prefix_of` outbox s' }.

#[export] Instance grows_preorder : PreOrder grows.
Proof.
  split.
  - intros s. split; (lia || done).
  - intros s1 s2 s3 [] []. split; [lia|lia|lia|..]; by etrans.
Qed.

(** A write that leaves the six quantities alone, or moves one forward. *)
Ltac solve_grows := split; simpl; first [lia | done | by apply prefix_app_r | idtac].

#[export] Instance grows_frame {EV : Env} : Frame grows.
Proof.
  assert (Hbc : forall A (m : M BlockChain A), preserves low_grows m -> preserves grows (zoom bc set_bc m)).
  { intros A m Hm. eapply preserves_zoom; [exact Hm|]. intros s b' Hb. solve_grows. }
  assert (Hpm : forall A (m : M Pacemaker A), preserves grows (zoom pm set_pm m)).
  { intros A m s r s' H. go_inv. solve_grows. }
  assert (Hw : forall g id, preserves grows (write_stored g id)).
  { intros g id s r s' H. unfold write_stored in H. go_inv. solve_grows.
    unfold bc_low. simpl. rewrite write_vertex_low. done. }
  assert (Hqc : forall qc, preserves grows (updateHighQC qc)).
  { intros qc s r s' H. unfold updateHighQC, get, when in H. go_inv.
    destruct (Z.ltb_spec (qc_View (highQC s)) (qc_View qc)); go_inv; solve_grows. }
  split; intros; try (by apply Hpm); try (by apply Hw); try (apply Hbc; by eauto with bamboo); try apply _; try done.
  all: try (intros s0 r0 s1 Hx;
            unfold emit, bufferQC, unbufferQC, bufferBlock, unbufferBlock, receiveVMO, dropVMO,
              receiveBlock, dropBlock, Send, keepVote, Broadcast, get, when in Hx; go_inv).
  all: solve_grows.
Qed.

(** Along any run of any of the protocols, whatever is delivered: the view
    of the highest certificate, the preferred view and the lowest retained level
    never decrease, and what was emitted on the committed channel, the forked
    channel and the network is never retracted or reordered. *)
Theorem protocol_grows {EV : Env} (S : Safety) (SL : SafetyLaws S) s s' :
  rtc (step S) s s' -> grows s s'.
Proof. apply steps_frame; apply _. Qed.

(** ** Well-formed protocol states *)

Record proto_wf (s : Proto) : Prop := mkProtoWf {
  pw_bc : bc_wf (bc s);
  pw_qcs : forall id qc, bufferedQCs s !! id = Some qc -> qc_BlockID qc = id;
  pw_blocks : forall k b, bufferedBlocks s !! k = Some b -> b_View b -! 1 = k;
  pw_vmos : forall k v, recivedVMO s !! k = Some v -> vmo_View v -! 1 = k;
  pw_received : forall k b, recivedBlock s !! k = Some b -> b_View b -! 1 = k }.

Definition keeps_wf (s s' : Proto) : Prop := proto_wf s -> proto_wf s'.
#[export] Instance keeps_wf_preorder : PreOrder keeps_wf.
Proof. split; [intros s H; exact H|]. intros s1 s2 s3 H1 H2 H. by apply H2, H1. Qed.

Lemma newProto_wf n : proto_wf (newProto n).
Proof.
  split; [apply NewBlockchain_wf|..]; intros *; simpl; rewrite lookup_empty; done.
Qed.

Lemma keyed_insert {V} (key : V -> Z) (m : gmap Z V) x k v :
  (forall k v, m !! k = Some v -> key v = k) -> <[key x := x]> m !! k = Some v -> key v = k.
Proof. intros Hm [[<- <-]|[_ ?]]%lookup_insert_Some; [done | by apply Hm]. Qed.

Lemma keyed_delete {K} `{Countable K} {V} (key : V -> K) (m : gmap K V) j k v :
  (forall k v, m !! k = Some v -> key v = k) -> delete j m !! k = Some v -> key v = k.
Proof. intros Hm [_ ?]%lookup_delete_Some. by apply Hm. Qed.

#[export] Instance keeps_wf_frame {EV : Env} : Frame keeps_wf.
Proof.
  assert (Hbc : forall A (m : M BlockChain A), preserves (fun b b' => bc_wf b -> bc_wf b') m ->
    preserves keeps_wf (zoom bc set_bc m)).
  { intros A m Hm. eapply preserves_zoom; [exact Hm|]. intros s b' Hb []. split; simpl; auto. }
  assert (Hpm : forall A (m : M Pacemaker A), preserves keeps_wf (zoom pm set_pm m)).
  { intros A m s r s' H []. go_inv. by split. }
  assert (Hw : forall g id, (forall b, b_ID (g b) = b_ID b) -> (forall b, b_PrevID (g b) = b_PrevID b) ->
    preserves keeps_wf (write_stored g id)).
  { intros g id H1 H2 s r s' H [[]]. unfold write_stored in H. go_inv. split; simpl; try done.
    split; [by apply write_vertex_wf | done]. }
  split; intros; try (by apply Hpm); try (by apply Hw); try apply _;
    try (apply Hbc; first [apply AddBlock_wf | apply AddVote_wf | apply CommitBlock_wf]).
  all: try (intros s0 r0 s1 Hx [];
            unfold updateHighQC, emit, bufferQC, unbufferQC, bufferBlock, unbufferBlock, receiveVMO, dropVMO,
              receiveBlock, dropBlock, Send, keepVote, Broadcast, get, when in Hx; go_inv).
  all: try (match goal with H : (if ?b then _ else _) _ = _ |- _ => destruct b end; go_inv).
  all: try (intros []); split; simpl; try done; intros j x.
  all: first [by apply (keyed_insert (fun b => b_View b -! 1)) | by apply (keyed_insert (fun v => vmo_View v -! 1))
             | by apply (keyed_delete (fun b => b_View b -! 1)) | by apply (keyed_delete (fun v => vmo_View v -! 1))
             | by apply (keyed_delete qc_BlockID) | idtac].
  intros [[<- <-]|[_ ?]]%lookup_insert_Some; [done | auto].
Qed.

(** C9.  Every state any of the protocols reaches from its initial one, whatever
    blocks, votes and messages arrive, is well formed: the forest and the vote
    table satisfy their invariants, and buffered certificates, blocks and
    view-change messages are filed under the key their own content determines. *)
Theorem protocol_wf {EV : Env} (S : Safety) (SL : SafetyLaws S) n s :
  rtc (step S) (newProto n) s -> proto_wf s.
Proof. intros Hr. apply (steps_frame S keeps_wf _ _ _ Hr), newProto_wf. Qed.

(** ** What a replica sends *)

Definition genuine {EV : Env} (o : Out) : Prop :=
  match o with
  | OSend to (MVote v) =>
      v_Voter v = me /\ FindLeaderFor (v_View v +! 1) = Ret to /\
      PubVerify ce_keys (v_Signature v) (IDToByte (v_BlockID v)) me = Ret (true, None)
  | OKeep v => v_Voter v = me /\ PubVerify ce_keys (v_Signature v) (IDToByte (v_BlockID v)) me = Ret (true, None)
  | OSend _ (MVmo v) | OBroadcast (MVmo v) => vmo_NodeID v = me
  | OBroadcast (MTmo t) => tmo_NodeID t = me
  | _ => False
  end.

Definition keeps_genuine {EV : Env} (s s' : Proto) : Prop :=
  Forall genuine (outbox s) -> Forall genuine (outbox s').
#[export] Instance keeps_genuine_preorder {EV : Env} : PreOrder keeps_genuine.
Proof. split; [intros s H; exact H|]. intros s1 s2 s3 H1 H2 H. by apply H2, H1. Qed.

Lemma keeps_genuine_frame {EV : Env} c err (EL : EcdsaLaws ce_ecdsa) :
  SetKeys c = Ret (err, ce_keys) -> Frame keeps_genuine.
Proof.
  intros Hkeys.
  assert (Hz : forall A (m : M BlockChain A), preserves keeps_genuine (zoom bc set_bc m)).
  { intros A m s r s' H. go_inv. intros Ho. exact Ho. }
  assert (Hp : forall A (m : M Pacemaker A), preserves keeps_genuine (zoom pm set_pm m)).
  { intros A m s r s' H. go_inv. intros Ho. exact Ho. }
  assert (Hpush : forall o, genuine o -> preserves keeps_genuine (modify (push_out o))).
  { intros o Ho s r s' H Hall. go_inv. simpl. apply Forall_app. split; [done | by constructor]. }
  split; intros; try apply Hz; try apply Hp; try apply _; try (by apply Hpush).
  all: try (intros s0 r0 s1 Hx;
            unfold updateHighQC, mark_stored, retag_stored, write_stored, emit, bufferQC, unbufferQC,
              bufferBlock, unbufferBlock, receiveVMO, dropVMO, receiveBlock, dropBlock, get, when in Hx; go_inv).
  all: try (match goal with H : (if ?b then _ else _) _ = _ |- _ => destruct b end; go_inv).
  all: try (intros Ho; exact Ho).
  all: match goal with Hm : MakeVote _ _ _ = Ret _ |- _ =>
    destruct (MakeVote_verifies EL c err _ _ _ _ Hkeys Hm) as [Hv Hsig] end.
  all: eapply Hpush; [|exact Hx]; simpl; destruct v as [vw vt vb vs]; simpl in *; injection Hv as -> -> ->; done.
Qed.

(** C10.  What a replica puts on the network is genuine: every vote it sends, in
    any run of any protocol, names it as the voter, carries a signature that its
    own public key verifies, and goes to the leader of the following view; the
    votes it counts itself name it and verify as well; every timeout and
    view-change message names it as the sender; nothing else is sent. *)
Theorem outbox_genuine {EV : Env} (S : Safety) (SL : SafetyLaws S) (EL : EcdsaLaws ce_ecdsa) c err n s :
  SetKeys c = Ret (err, ce_keys) ->
  rtc (step S) (newProto n) s -> Forall genuine (outbox s).
Proof.
  intros Hkeys Hr. apply (steps_frame S keeps_genuine (keeps_genuine_frame c err EL Hkeys) _ _ Hr).
  constructor.
Qed.

(** ** Concrete runs *)

Fixpoint deliver_all {EV : Env} (S : Safety) (fuel : nat) (evs : list Event) (s : Proto) : outcome Proto :=
  match evs with
  | [] => Ret s
  | ev :: evs' => '(_, s') ←? deliver S fuel ev s; deliver_all S fuel evs' s'
  end.

Lemma deliver_all_steps {EV : Env} (S : Safety) fuel evs : forall s s',
  deliver_all S fuel evs s = Ret s' -> rtc (step S) s s'.
Proof.
  induction evs as [|ev evs IH]; intros s s' H; simpl in H; [by injection H as <-|].
  destruct (deliver S fuel ev s) as [[[] s1]| | |] eqn:E; try done. simpl in H.
  eapply rtc_l; [by exists fuel, ev | by apply IH].
Qed.

(** Four blocks of the leader in consecutive views, each followed by the
    leader's view change. *)
Definition four_views : list Event :=
  [EvBlock (wire_block [1] 1 zeroID 0); EvVmo (wire_vmo 1); EvBlock (wire_block [2] 2 [1] 1); EvVmo (wire_vmo 2);
   EvBlock (wire_block [3] 3 [2] 2); EvVmo (wire_vmo 3); EvBlock (wire_block [4] 4 [3] 3)].
Definition state_after {EV : Env} (S : Safety) (evs : list Event) : Proto :=
  match deliver_all S 20 evs (newProto 4) with Ret s => s | _ => newProto 4 end.

Lemma state_after_steps {EV : Env} (S : Safety) evs : rtc (step S) (newProto 4) (state_after S evs).
Proof.
  unfold state_after. destruct (deliver_all S 20 evs (newProto 4)) as [s| | |] eqn:E; [|done..].
  by eapply deliver_all_steps.
Qed.

(** What a run leaves: current view, committed and forked views, highest
    certificate, preferred view, lowest level, number of messages sent. *)
Definition summary (s : Proto) : Z * list Z * list Z * Z * Z * Z * nat :=
  (curView (pm s), b_View <$> committedBlocks s, b_View <$> forkedBlocks s, qc_View (highQC s), preferredView s,
   bc_low (bc s), length (outbox s)).

Example hotstuff_run : summary (state_after (EV := toy_env) hotstuff_safety four_views) = (4, [1], [], 3, 2, 1, 7%nat).
Proof. vm_compute. reflexivity. Qed.
Example tchs_run : summary (state_after (EV := toy_env) tchs_safety four_views) = (4, [1; 2], [], 3, 2, 2, 7%nat).
Proof. vm_compute. reflexivity. Qed.
Example fhs_run : summary (state_after (EV := toy_env) fhs_safety four_views) = (4, [1; 2], [], 3, 0, 2, 7%nat).
Proof. vm_compute. reflexivity. Qed.

Lemma protocol_grows_witness :
  grows (newProto 4) (state_after (EV := toy_env) hotstuff_safety four_views).
Proof.
  exact (protocol_grows (EV := toy_env) hotstuff_safety hotstuff_laws _ _
    (state_after_steps (EV := toy_env) hotstuff_safety four_views)).
Defined.

Lemma protocol_wf_witness : proto_wf (state_after (EV := toy_env) tchs_safety four_views).
Proof.
  exact (protocol_wf (EV := toy_env) tchs_safety tchs_laws 4 _
    (state_after_steps (EV := toy_env) tchs_safety four_views)).
Defined.

Lemma outbox_genuine_witness :
  Forall (genuine (EV := toy_env)) (outbox (state_after (EV := toy_env) fhs_safety four_views)).
Proof.
  refine (outbox_genuine (EV := toy_env) fhs_safety fhs_laws toy_ecdsa_laws toy_config None 4 _ _
    (state_after_steps (EV := toy_env) fhs_safety four_views)).
  reflexivity.
Defined.

(** C34.  Certificates without signatures commit: none of the four blocks of
    this run is backed by a vote -- every certificate has an empty signer list --
    and yet an honest replica of each protocol commits. *)
Theorem unsigned_certificates_commit :
  (forall b, EvBlock b ∈ four_views -> exists qc, b_QC b = Some qc /\ qc_Signers qc = [] /\ qc_AggSig qc = []) /\
  committedBlocks (state_after (EV := toy_env) hotstuff_safety four_views) <> [] /\
  committedBlocks (state_after (EV := toy_env) tchs_safety four_views) <> [] /\
  committedBlocks (state_after (EV := toy_env) fhs_safety four_views) <> [].
Proof.
  split; [|vm_compute; done].
  intros b Hb. unfold four_views in Hb.
  repeat (apply elem_of_cons in Hb as [Hb|Hb]; [try discriminate Hb; injection Hb as ->; by eexists|]).
  by apply elem_of_nil in Hb.
Qed.

(** The views and blocks a replica sent votes for. *)
Definition votes_sent (s : Proto) : list (Z * Identifier) :=
  omap (fun o => match o with OSend _ (MVote v) => Some (v_View v, v_BlockID v) | _ => None end) (outbox s).

(** An honest replica votes twice in one view: two different blocks of
    view 1 both get its vote, in each of the three protocols. *)
Theorem votes_twice_in_a_view :
  let evs := [EvBlock (wire_block [1] 1 zeroID 0); EvBlock (wire_block [11] 1 zeroID 0)] in
  votes_sent (state_after (EV := toy_env) hotstuff_safety evs) = [(1, [1]); (1, [11])] /\
  votes_sent (state_after (EV := toy_env) tchs_safety evs) = [(1, [1]); (1, [11])] /\
  votes_sent (state_after (EV := toy_env) fhs_safety evs) = [(1, [1]); (1, [11])].
Proof. vm_compute. done. Qed.

(** Every state of a run satisfies the forest invariant. *)
Lemma state_after_wf {EV : Env} (S : Safety) {SL : SafetyLaws S} evs : forest_wf (forrest (bc (state_after S evs))).
Proof.
  pose proof (steps_frame S keeps_wf _ _ _ (state_after_steps S evs) (newProto_wf 4)) as Hwf. apply Hwf.
Qed.

(** The certificate of the fourth block, processed after the first three:
    block 1 is committed, as the grandparent of block 3. *)
Definition qc3 : QC := mkQC "2"%string 3 [3] [] [] [].
Lemma three_chain_witness :
  let s := state_after (EV := toy_env) hotstuff_safety (take 6 four_views) in
  exists x p g, GetVertex (forrest (bc s)) [3] = Some x /\ GetVertex (forrest (bc s)) (b_PrevID x) = Some p /\
    GetVertex (forrest (bc s)) (b_PrevID p) = Some g /\ b_View p +! 1 = 3.
Proof.
  intros s.
  destruct (HotStuff.processCertificate (EV := toy_env) qc3 s) as [[[] s']| | |] eqn:E;
    [|vm_compute in E; discriminate E..].
  destruct (HotStuff.three_chain (EV := toy_env) qc3 s s' (state_after_wf (EV := toy_env) hotstuff_safety _) E)
    as [[Hc _]|(x & p & g & l & fk & _ & _ & Hx & Hp & Hg & _ & Hv & _)].
  - exfalso. apply (f_equal (fun o => match o with Ret (_, t) => length (committedBlocks t) | _ => 0%nat end)) in E.
    rewrite Hc in E. vm_compute in E. discriminate E.
  - exists x, p, g. exact (conj Hx (conj Hp (conj Hg Hv))).
Defined.

(** The commit step of the fourth block in Tchs: block 2 is the parent of the
    certified block 3. *)
Lemma two_chain_witness :
  let s := state_after (EV := toy_env) tchs_safety (take 6 four_views) in
  exists x p, GetVertex (forrest (bc s)) [3] = Some x /\ GetVertex (forrest (bc s)) (b_PrevID x) = Some p /\
    b_View p +! 1 = 3.
Proof.
  intros s.
  destruct (twoChainStep (wire_block [4] 4 [3] 3) qc3 s) as [[r s']| | |] eqn:E;
    [|vm_compute in E; discriminate E..].
  destruct (two_chain (wire_block [4] 4 [3] 3) qc3 s r s'
    (state_after_wf (EV := toy_env) tchs_safety _) eq_refl E)
    as [[Hc _]|(x & p & l & fk & _ & _ & _ & Hx & Hp & Hv & _)].
  - exfalso. apply (f_equal (fun o => match o with Ret (_, t) => length (committedBlocks t) | _ => 0%nat end)) in E.
    rewrite Hc in E. vm_compute in E. discriminate E.
  - exists x, p. exact (conj Hx (conj Hp Hv)).
Defined.
