(* ===== verification/Termination.v ===== *)
(** * The handlers end

    A block may release a buffered block, which may release a view change, which
    may release another block: [ProcessBlock], [ProcessVote] and
    [ProcessRemoteVmo] call each other.  The model bounds this recursion by fuel.
    Here it is proved that enough fuel always exists, for the three protocols and
    from every state they reach: the buffer of early blocks never grows inside a
    handler, a view change that releases a block removes it from the buffer, and
    a block releases only the block of the next view. *)

From Stdlib Require Import String.
From stdpp Require Import base gmap strings numbers relations list.
From S2P Require Import Prelude.
From S2P Require Import Identity.
From S2P Require Import Config.
From S2P Require Import Crypto.
From S2P Require Import Election.
From S2P Require Import Message.
From S2P Require Import Block.
From S2P Require Import Quorum.
From S2P Require Import Forest.
From S2P Require Import ForestSpec.
From S2P Require Import BlockChain.
From S2P Require Import Pacemaker.
From S2P Require Import Protocol.
From S2P Require Import HotStuff.
From S2P Require Import Tchs.
From S2P Require Import Fhs.
From S2P Require Import Safety.

Local Open Scope Z_scope.
Local Open Scope go_scope.

(** ** Settling

    [settles m s Q]: from some amount of fuel on, [m] has one outcome at [s],
    which is not "out of fuel", and if it returns, [Q] holds. *)
Definition settles {S A} (m : nat -> M S A) (s : S) (Q : A -> S -> Prop) : Prop :=
  exists N o, o <> OutOfFuel /\ (forall n, (N <= n)%nat -> m n s = o) /\
    forall a s', o = Ret (a, s') -> Q a s'.

Section settles.
Context {S : Type}.

Lemma settles_const {A} (m : M S A) s (Q : A -> S -> Prop) :
  m s <> OutOfFuel -> (forall a s', m s = Ret (a, s') -> Q a s') -> settles (fun _ => m) s Q.
Proof. intros H1 H2. by exists 0%nat, (m s). Qed.

Lemma settles_mono {A} (m : nat -> M S A) s (Q Q' : A -> S -> Prop) :
  settles m s Q -> (forall a s', Q a s' -> Q' a s') -> settles m s Q'.
Proof. intros (N & o & H1 & H2 & H3) HQ. exists N, o. eauto. Qed.

Lemma settles_bind {A B} (m : nat -> M S A) (k : nat -> A -> M S B) s Q :
  settles m s (fun a s' => settles (fun n => k n a) s' Q) ->
  settles (fun n => gbind (m n) (k n)) s Q.
Proof.
  intros (N & o & Ho & Hm & Hk). destruct o as [[a s1]| | |]; try done.
  - destruct (Hk a s1 eq_refl) as (N2 & o2 & Ho2 & Hm2 & HQ). exists (N `max` N2)%nat, o2.
    split; [done|]. split; [|done]. intros n Hn. unfold gbind. rewrite Hm by lia. apply Hm2. lia.
  - exists N, Panic. split; [done|]. split; [|done]. intros n Hn. unfold gbind. by rewrite Hm.
  - exists N, Diverge. split; [done|]. split; [|done]. intros n Hn. unfold gbind. by rewrite Hm.
Qed.

(** One unfolding of a fuelled recursion. *)
Lemma settles_S {A} (m : nat -> M S A) s Q : settles (fun n => m (Datatypes.S n)) s Q -> settles m s Q.
Proof.
  intros (N & o & Ho & Hm & HQ). exists (Datatypes.S N), o. split; [done|]. split; [|done].
  intros [|n] Hn; [lia|]. apply Hm. lia.
Qed.

Lemma settles_shift {A} (m : nat -> M S A) s Q : settles m s Q -> settles (fun n => m (Datatypes.S n)) s Q.
Proof. intros (N & o & Ho & Hm & HQ). exists N, o. split; [done|]. split; [|done]. intros n Hn. apply Hm. lia. Qed.
End settles.

(** ** The states and the measure *)

Definition buffered (s : Proto) : gset Z := dom (bufferedBlocks s).

(** The view counter is a machine integer; buffered blocks are filed one below
    their view, which is not the least integer; view changes one below theirs. *)
Record tame (s : Proto) : Prop := mkTame {
  tm_view : is_i64 (curView (pm s));
  tm_blocks : forall k b, bufferedBlocks s !! k = Some b -> b_View b = k + 1 /\ is_i64 k /\ is_i64 (k + 1);
  tm_vmos : forall k v, recivedVMO s !! k = Some v -> vmo_View v -! 1 = k }.

Definition ok_at (D : gset Z) (s : Proto) : Prop := tame s /\ buffered s ⊆ D.
Definition keeps (D : gset Z) (s s' : Proto) : Prop := ok_at D s -> ok_at D s'.
#[export] Instance keeps_preorder D : PreOrder (keeps D).
Proof. split; [intros s H; exact H|]. intros s1 s2 s3 H1 H2 H. by apply H2, H1. Qed.

(** [safe D m]: from every tame state with early blocks at most [D], [m] settles
    in such a state. *)
Definition safe {A} (D : gset Z) (m : nat -> M Proto A) : Prop :=
  forall s, ok_at D s -> settles m s (fun _ s' => ok_at D s').

Lemma safe_const {A} D (m : M Proto A) : fuelless m -> preserves (keeps D) m -> safe D (fun _ => m).
Proof. intros Hf Hp s Hs. apply settles_const; [apply Hf|]. intros a s' H. by eapply Hp. Qed.

Lemma safe_bind {A B} D (m : nat -> M Proto A) (k : nat -> A -> M Proto B) :
  safe D m -> (forall a, safe D (fun n => k n a)) -> safe D (fun n => gbind (m n) (k n)).
Proof. intros Hm Hk s Hs. apply settles_bind. eapply settles_mono; [by apply Hm|]. intros a s' H. by apply Hk. Qed.

Lemma safe_get {B} D (k : nat -> Proto -> M Proto B) :
  (forall s, ok_at D s -> settles (fun n => k n s) s (fun _ s' => ok_at D s')) -> safe D (fun n => gbind get (k n)).
Proof. intros Hk s Hs. apply settles_bind, settles_const; [done|]. intros a s' [= <- <-]. by apply Hk. Qed.

(** A write that leaves the two tables and the view alone. *)
Definition quiet (s s' : Proto) : Prop :=
  bufferedBlocks s' = bufferedBlocks s /\ recivedVMO s' = recivedVMO s /\
  (is_i64 (curView (pm s)) -> is_i64 (curView (pm s'))).
#[export] Instance quiet_preorder : PreOrder quiet.
Proof.
  split; [intros s; unfold quiet; auto|]. intros a b c (?&?&?) (?&?&?). split_and!; [congruence..|auto].
Qed.

Lemma quiet_tame s s' : quiet s s' -> tame s -> tame s' /\ buffered s' = buffered s.
Proof. intros (E1 & E2 & Hv) []. unfold buffered. rewrite E1. split; [|done]. split; rewrite ?E1, ?E2; auto. Qed.

Lemma quiet_keeps D s s' : quiet s s' -> keeps D s s'.
Proof. intros Hq [Ht Hb]. destruct (quiet_tame _ _ Hq Ht) as [? E]. split; [done|]. by rewrite E. Qed.

Lemma safe_quiet {A} D (m : M Proto A) : fuelless m -> preserves quiet m -> safe D (fun _ => m).
Proof. intros Hf Hp. apply safe_const; [done|]. intros s a s' H. by eapply quiet_keeps, Hp. Qed.

(** ** The pieces that do not recurse *)

(** What the crypto package and the election return, they return without fuel.
    The election is an interface: this is what an implementation promises. *)
Class ElectionEnds (E : Election) : Prop := {
  IsLeader_ends id view : IsLeader id view <> OutOfFuel;
  FindLeaderFor_ends view : FindLeaderFor view <> OutOfFuel }.

Lemma go_index_ends {A} (l : list A) i : go_index l i <> OutOfFuel.
Proof. unfold go_index. fuelless_auto. Qed.

Section leaves.
Context {EV : Env}.

Lemma PubVerify_ends sig data id : PubVerify ce_keys sig data id <> OutOfFuel.
Proof. pose proof (@go_index_ends). unfold PubVerify, PublicKey_Verify, ToECDSA. fuelless_auto. Qed.

Lemma PrivSign_ends data id e : PrivSign ce_keys data id e <> OutOfFuel.
Proof. pose proof (@go_index_ends). unfold PrivSign. fuelless_auto. Qed.

Lemma VerifyQuorumSignature_ends agg id signers : VerifyQuorumSignature ce_keys agg id signers <> OutOfFuel.
Proof.
  unfold VerifyQuorumSignature. generalize 0%nat. pose proof PubVerify_ends.
  induction signers as [|sg l IH]; intros i; simpl; fuelless_auto.
Qed.

Lemma MakeVote_ends view voter id : MakeVote view voter id <> OutOfFuel.
Proof. pose proof PrivSign_ends. unfold MakeVote. fuelless_auto. Qed.

Lemma MakeBlock_ends view qc prev payload p mali fk h : MakeBlock view qc prev payload p mali fk h <> OutOfFuel.
Proof. pose proof PrivSign_ends. unfold MakeBlock, makeID. fuelless_auto. Qed.

Lemma GetParentBlock_ends id b : GetParentBlock id b <> OutOfFuel.
Proof. unfold GetParentBlock, Parent. fuelless_auto. Qed.

Lemma AddBlock_fuelless b : fuelless (AddBlock b).
Proof.
  unfold AddBlock, AddVertex, registerWithParent, getOrCreateVertexContainer, deref, Parent. fuelless_auto.
Qed.
Lemma AddVote_fuelless v : fuelless (AddVote env_cfg v).
Proof. unfold AddVote, quorum_Add. fuelless_auto. Qed.

Lemma advanceView_safe D view : safe D (fun _ => advanceView view).
Proof.
  apply safe_quiet; [unfold advanceView, AdvanceView; fuelless_auto|].
  intros s [] s' (p & H & ->)%zoom_ret. rewrite AdvanceView_run in H. injection H as <-.
  split_and!; simpl; try done. destruct (view <? _); [done|]. intros _. apply i64_range.
Qed.

(** Writes to other fields. *)
Lemma zoom_bc_quiet {A} (m : M BlockChain A) : preserves quiet (zoom bc set_bc m).
Proof. intros s a s' (b & _ & ->)%zoom_ret. split_and!; auto. Qed.

Lemma safe_ret {A} D (a : A) : safe D (fun _ => ret a).
Proof. by apply safe_quiet; [|apply preserves_ret, _]. Qed.
Lemma safe_skip D : safe D (fun _ => skip).
Proof. by apply safe_quiet; [|apply preserves_skip, _]. Qed.
Lemma safe_panic {A} D : safe D (fun _ => panic : M Proto A).
Proof. by apply safe_quiet; [|apply preserves_panic]. Qed.
Lemma safe_gets {A} D (f : Proto -> A) : safe D (fun _ => gets f).
Proof. by apply safe_quiet; [|apply preserves_gets, _]. Qed.
Lemma safe_lift {A} D (o : outcome A) : o <> OutOfFuel -> safe D (fun _ => lift o).
Proof. intros Ho. apply safe_quiet; [by apply fuelless_lift|apply preserves_lift, _]. Qed.
Lemma safe_modify D f : (forall s, quiet s (f s)) -> safe D (fun _ => modify f).
Proof. intros Hf. apply safe_quiet; [done|]. by apply preserves_modify. Qed.

Lemma addBlock_safe D b : safe D (fun _ => addBlock b).
Proof. apply safe_quiet; [apply fuelless_zoom, AddBlock_fuelless | apply zoom_bc_quiet]. Qed.
Lemma addVote_safe D v : safe D (fun _ => addVote v).
Proof. apply safe_quiet; [apply fuelless_zoom, AddVote_fuelless | apply zoom_bc_quiet]. Qed.
Lemma commitBlock_safe D id view : safe D (fun _ => commitBlock id view).
Proof. apply safe_quiet; [apply fuelless_zoom, CommitBlock_fuelless | apply zoom_bc_quiet]. Qed.

Lemma remoteTmo_safe D t : safe D (fun _ => zoom pm set_pm (pm_ProcessRemoteTmo t)).
Proof.
  apply safe_quiet; [unfold pm_ProcessRemoteTmo, AddTmo, ctl_add; fuelless_auto|].
  intros s a s' (p & H & ->)%zoom_ret. unfold pm_ProcessRemoteTmo in H. split_and!; simpl; try done.
  go_inv. destruct (_ <? _); go_inv; done.
Qed.
Lemma remoteVmoCtl_safe D v : safe D (fun _ => zoom pm set_pm (pm_ProcessRemoteVmo v)).
Proof.
  apply safe_quiet; [unfold pm_ProcessRemoteVmo, AddVmo, ctl_add; fuelless_auto|].
  intros s a s' (p & H & ->)%zoom_ret. unfold pm_ProcessRemoteVmo in H. split_and!; simpl; try done.
  go_inv. destruct (_ <? _); go_inv; done.
Qed.

Lemma unbufferBlock_safe D k : safe D (fun _ => unbufferBlock k).
Proof.
  apply safe_const; [done|]. intros s a s' [= _ <-] [[T1 T2 T3] Hb]. split; [split; simpl; try done|].
  - intros j b [_ ?]%lookup_delete_Some. by apply T2.
  - unfold buffered in *. simpl. rewrite dom_delete_L. set_solver.
Qed.
Lemma receiveVMO_safe D v : safe D (fun _ => receiveVMO v).
Proof.
  apply safe_const; [done|]. intros s a s' [= _ <-] [[T1 T2 T3] Hb]. split; [split; simpl; try done|done].
  intros k x. by apply (keyed_insert (fun v => vmo_View v -! 1)).
Qed.
Lemma dropVMO_safe D k : safe D (fun _ => dropVMO k).
Proof.
  apply safe_const; [done|]. intros s a s' [= _ <-] [[T1 T2 T3] Hb]. split; [split; simpl; try done|done].
  intros j x. by apply (keyed_delete (fun v => vmo_View v -! 1)).
Qed.
End leaves.

#[export] Hint Resolve safe_ret safe_skip safe_panic safe_gets safe_lift addBlock_safe addVote_safe commitBlock_safe
  remoteTmo_safe remoteVmoCtl_safe unbufferBlock_safe receiveVMO_safe dropVMO_safe advanceView_safe
  PubVerify_ends PrivSign_ends VerifyQuorumSignature_ends MakeVote_ends MakeBlock_ends GetParentBlock_ends
  IsLeader_ends FindLeaderFor_ends : bamboo.

(** Walk through a body; writes to fields the measure does not read are
    recognised by their setter. *)
Ltac safe_step :=
  match goal with
  | |- safe _ (fun _ => gbind _ _) => apply safe_bind; [|intros ?]
  | |- safe _ (fun _ => match ?x with _ => _ end) => destruct x
  | |- safe _ (fun _ => let '_ := ?x in _) => destruct x
  | |- safe _ (fun _ => when ?b _) => destruct b; cbn [when]
  | |- safe _ (fun _ => modify _) => apply safe_modify; intros ?; split_and!; by auto
  end.
Ltac safe_auto := repeat safe_step; try solve [eauto with bamboo].

Section shared_safe.
Context {EV : Env} {EE : ElectionEnds env_election} (D : gset Z).

Lemma enter_first_view_safe : safe D (fun _ => enter_first_view).
Proof. unfold enter_first_view, curViewM. safe_auto. Qed.
Lemma check_block_sig_safe b : safe D (fun _ => check_block_sig b).
Proof. unfold check_block_sig. safe_auto. Qed.
Lemma quorumIsVerified_safe qc : safe D (fun _ => quorumIsVerified qc).
Proof. unfold quorumIsVerified. safe_auto. Qed.
Lemma updateHighQC_safe qc : safe D (fun _ => updateHighQC qc).
Proof. unfold updateHighQC, get. safe_auto. Qed.
Lemma collectTmo_safe t : safe D (fun _ => collectTmo t).
Proof. unfold collectTmo, processTC, curViewM. safe_auto. Qed.
Lemma localTmo_safe view : safe D (fun _ => localTmo view).
Proof. unfold localTmo, get, Broadcast. safe_auto. Qed.
Lemma twoChainStep_safe b qc : safe D (fun _ => twoChainStep b qc).
Proof.
  unfold twoChainStep, twoChainRule, emit, mark_stored, write_stored, curViewM, get. safe_auto.
Qed.
End shared_safe.
#[export] Hint Resolve enter_first_view_safe check_block_sig_safe quorumIsVerified_safe updateHighQC_safe
  collectTmo_safe localTmo_safe twoChainStep_safe : bamboo.

(** ** The recursion *)

(** What [ProcessBlock] leaves of the buffer: at most what was there; or it put
    the block itself there and did nothing else to the two tables. *)
Definition block_post (b : Block) (s s' : Proto) : Prop :=
  tame s' /\
  (buffered s' ⊆ buffered s \/
   buffered s' = {[b_View b -! 1]} ∪ buffered s /\ recivedVMO s' = recivedVMO s).

(** [pb] settles on the states with fewer than [N] early blocks. *)
Definition block_ends (N : nat) (pb : nat -> Block -> M Proto (option error)) : Prop :=
  forall s b, tame s -> is_i64 (b_View b) -> (size (buffered s) < N)%nat ->
    settles (fun n => pb n b) s (fun _ s' => block_post b s s').

Lemma block_ends_shift N pb : block_ends N pb -> block_ends N (fun n => pb (S n)).
Proof. intros H s b Ht Hb Hs. by apply (settles_shift (fun n => pb n b)), H. Qed.

(** A view change either removed an early block or consumed a message. *)
Definition vmo_progress (s s' : Proto) : Prop :=
  (size (buffered s') < size (buffered s))%nat \/ (size (recivedVMO s') < size (recivedVMO s))%nat.

Section view_change.
Context {EV : Env} {EE : ElectionEnds env_election}.

(** The tail of [ProcessVMOAndBlock], after the buffered block. *)
Definition vmo_tail (view : Z) (vmo : VMO) : M Proto bool :=
  s ← get;
  match recivedBlock s !! (view -! 1) with
  | None => ret false
  | Some _ =>
      nextLeaderId ← lift (FindLeaderFor (view +! 1));
      (if decide (nextLeaderId = me) then skip
       else Send nextLeaderId (MVmo (mkVMO (vmo_View vmo) me (vmo_HighQC vmo))));;
      dropVMO (view -! 1);;
      dropBlock (view -! 1);;
      advanceView view;;
      ret true
  end.

Lemma vmo_tail_safe D view vmo : safe D (fun _ => vmo_tail view vmo).
Proof. unfold vmo_tail, get, Send, dropBlock. safe_auto. Qed.

Lemma vmo_tail_run view vmo s ok s' :
  vmo_tail view vmo s = Ret (ok, s') ->
  bufferedBlocks s' = bufferedBlocks s /\
  (ok = true -> recivedVMO s' = delete (view -! 1) (recivedVMO s)).
Proof.
  unfold vmo_tail, get, Send, dropBlock, dropVMO, advanceView. intros H. go_inv.
  destruct (recivedBlock s !! (view -! 1)); go_inv; [|done].
  unfold lift in *. destruct (FindLeaderFor _) as [l| | |]; go_inv.
  destruct (decide (l = me)); go_inv; done.
Qed.
Lemma safe_inv {A} D (m : M Proto A) s :
  safe D (fun _ => m) -> ok_at D s -> m s <> OutOfFuel /\ forall a s', m s = Ret (a, s') -> ok_at D s'.
Proof. intros Hm Hs. destruct (Hm s Hs) as (N & o & Ho & Hn & HQ). by rewrite (Hn N). Qed.

Lemma tame_ok s : tame s -> ok_at (buffered s) s.
Proof. by split. Qed.

(** The tail, from a state [s2] that a block handler left behind. *)
Lemma vmo_tail_settles view vmo s s2 :
  tame s2 -> buffered s2 ⊆ buffered s -> is_Some (recivedVMO s !! (view -! 1)) ->
  (size (buffered s2) < size (buffered s))%nat \/ recivedVMO s2 = recivedVMO s ->
  settles (fun _ => vmo_tail view vmo) s2
    (fun ok s' => tame s' /\ buffered s' ⊆ buffered s /\ (ok = true -> vmo_progress s s')).
Proof.
  intros Ht Hsub [v Hv] Hor.
  destruct (safe_inv (buffered s) _ s2 (vmo_tail_safe (buffered s) view vmo)) as [Hf Hok]; [by split|].
  apply settles_const; [done|]. intros ok s' Hrun. destruct (Hok _ _ Hrun) as [Ht' Hsub'].
  split; [done|]. split; [done|]. intros ->. apply vmo_tail_run in Hrun as [Eb Ev].
  unfold vmo_progress, buffered in *. rewrite Eb, (Ev eq_refl).
  destruct Hor as [?| ->]; [by left|]. right. rewrite map_size_delete_Some by eauto.
  enough (size (recivedVMO s) <> 0%nat) by lia. by apply map_size_ne_0_lookup_2 with (view -! 1).
Qed.

Lemma vmoAndBlock_settles N pb view s :
  block_ends N pb -> tame s -> (size (buffered s) <= N)%nat ->
  settles (fun n => vmoAndBlock (pb n) view) s
    (fun ok s' => tame s' /\ buffered s' ⊆ buffered s /\ (ok = true -> vmo_progress s s')).
Proof.
  intros Hpb Ht HN. apply settles_bind, settles_const; [done|]. intros _ s0 [= <- <-].
  destruct (recivedVMO s !! (view -! 1)) as [vmo|] eqn:Hvmo; cycle 1.
  { apply settles_const; [done|]. by intros ok s' [= <- <-]. }
  apply (settles_bind _ (fun _ _ => vmo_tail view vmo)).
  destruct (bufferedBlocks s !! (view -! 1)) as [block|] eqn:Hb; cycle 1.
  { apply settles_const; [done|]. intros _ s1 [= _ <-]. apply vmo_tail_settles; eauto. }
  destruct (tm_blocks _ Ht _ _ Hb) as (Hview & Hk & Hk1).
  assert (Hin : view -! 1 ∈ buffered s) by (by apply elem_of_dom).
  apply settles_bind. destruct (safe_inv (buffered s) _ s (unbufferBlock_safe (buffered s) (view -! 1))) as [? Hs1]; [by apply tame_ok|].
  apply settles_const; [done|]. intros u s1 Hrun. pose proof (Hs1 _ _ Hrun) as [Ht1 _].
  injection Hrun as _ <-. set (s1 := upd_bufferedBlocks _ s) in *.
  assert (E1 : buffered s1 = buffered s ∖ {[view -! 1]}) by (unfold buffered; simpl; by rewrite dom_delete_L).
  assert (Hlt : (size (buffered s1) < size (buffered s))%nat) by (rewrite E1; apply subset_size; set_solver).
  apply settles_bind. eapply settles_mono; [apply Hpb; [done|by rewrite Hview|lia]|].
  intros _ s2 [Ht2 Hor]. apply settles_const; [done|]. intros _ s3 [= _ <-].
  destruct Hor as [Hsub|[E Ev]]; (apply vmo_tail_settles; [done| |by eauto|]).
  - rewrite E1 in Hsub. set_solver.
  - left. apply subseteq_size in Hsub. lia.
  - rewrite E, E1, Hview, Z.add_simpl_r, i64_id by done. set_solver.
  - by right.
Qed.
Lemma settles_quiet {A} (m : M Proto A) s (Q : A -> Proto -> Prop) :
  fuelless m -> preserves quiet m -> (forall a s', quiet s s' -> Q a s') -> settles (fun _ => m) s Q.
Proof. intros Hf Hp HQ. apply settles_const; [apply Hf|]. intros a s' H. by eapply HQ, Hp. Qed.

Lemma enter_first_view_quiet : fuelless enter_first_view /\ preserves quiet enter_first_view.
Proof.
  unfold enter_first_view, curViewM, advanceView, AdvanceView. split; [fuelless_auto|].
  intros s a s' H. go_inv. destruct (_ <? 1); cbn [when] in *; go_inv; [|reflexivity].
  destruct (0 <? _); go_inv; [split_and!; auto|]. by split_and!.
Qed.

(** A step of the chain of view changes, or a whole handler: the state stays
    tame and the buffer does not grow. *)
Definition shrinks (s s' : Proto) : Prop := tame s' /\ buffered s' ⊆ buffered s.

(** Recording a view-change message. *)
Lemma receive_settles {A} (pre : M Proto unit) v s (k : nat -> M Proto A) Q :
  fuelless pre -> preserves quiet pre -> tame s ->
  (forall s', tame s' -> buffered s' = buffered s ->
    recivedVMO s' = <[vmo_View v -! 1 := v]> (recivedVMO s) -> settles k s' Q) ->
  settles (fun n => pre;; receiveVMO v;; enter_first_view;; k n) s Q.
Proof.
  intros Hpf Hpq Ht Hk. apply settles_bind, settles_quiet; [done..|]. intros _ s1 H1.
  apply settles_bind, settles_const; [done|]. intros _ s2 [= _ <-].
  destruct enter_first_view_quiet as [Hef Heq].
  apply settles_bind, settles_quiet; [done..|]. intros _ s3 H3.
  destruct (quiet_tame _ _ H1 Ht) as [Ht1 Eb1].
  destruct (safe_inv (buffered s1) _ s1 (receiveVMO_safe (buffered s1) v)) as [_ Hs]; [by apply tame_ok|].
  destruct (Hs _ _ eq_refl) as [Ht2 _]. destruct (quiet_tame _ _ H3 Ht2) as [Ht3 Eb3].
  apply Hk; [done|rewrite Eb3; exact Eb1|].
  destruct H3 as (_ & -> & _). simpl. by destruct H1 as (_ & -> & _).
Qed.

Lemma remoteVmo_settles N pre : fuelless pre -> preserves quiet pre ->
  forall nb nv pb s v, block_ends N pb -> tame s -> (size (buffered s) <= N)%nat ->
  size (buffered s) = nb -> size (<[vmo_View v -! 1 := v]> (recivedVMO s)) = nv ->
  settles (fun n => remoteVmo n pre (pb n) v) s (fun _ s' => shrinks s s').
Proof.
  intros Hpf Hpq. induction nb as [nb IHb] using lt_wf_ind. induction nv as [nv IHv] using lt_wf_ind.
  intros pb s v Hpb Ht HN Enb Env.
  apply settles_S. cbn [remoteVmo]. apply settles_bind.
  apply settles_const; [apply fuelless_lift, FindLeaderFor_ends|].
  intros l s0 E0. unfold lift in E0. destruct (FindLeaderFor _) as [l'| | |]; [|done..]. injection E0 as -> <-.
  destruct (decide (l = me)).
  { refine ((_ : safe (buffered s) _) s (tame_ok s Ht)). unfold remoteVc. safe_auto. }
  apply receive_settles; [done..|]. intros s3 Ht3 Eb Ev.
  apply settles_bind, settles_const; [done|]. intros w s4 [= _ <-].
  assert (Hstop : shrinks s s3) by (split; [done|]; by rewrite Eb).
  destruct (w <? vmo_View v). { apply settles_const; [done|]. by intros _ s4 [= _ <-]. }
  apply settles_bind. eapply settles_mono.
  { apply (vmoAndBlock_settles N (fun n => pb (S n))); [by apply block_ends_shift|done|by rewrite Eb]. }
  intros ok s4 (Ht4 & Hsub & Hok). rewrite Eb in Hsub.
  assert (Hstop4 : shrinks s s4) by done.
  destruct ok; [|apply settles_const; [done|]; by intros _ s5 [= _ <-]].
  apply settles_bind, settles_const; [done|]. intros s5 s6 [= <- <-].
  destruct (recivedVMO s4 !! vmo_View v) as [v'|] eqn:Hv'; cycle 1.
  { apply settles_const; [done|]. by intros _ s5 [= _ <-]. }
  pose proof (tm_vmos _ Ht4 _ _ Hv') as Hkey.
  assert (Hins : <[vmo_View v' -! 1 := v']> (recivedVMO s4) = recivedVMO s4) by (rewrite Hkey; by apply insert_id).
  pose proof (subseteq_size _ _ Hsub) as Hle.
  apply settles_mono with (fun _ s' => shrinks s4 s'); cycle 1.
  { intros _ s' [? ?]. split; [done|]. by etrans. }
  destruct (Hok eq_refl) as [Hlt|Hlt]; rewrite ?Eb, ?Ev in Hlt.
  - eapply (IHb (size (buffered s4))); [lia|by apply block_ends_shift|done|lia|done|done].
  - destruct (decide (size (buffered s4) < size (buffered s))%nat).
    + eapply (IHb (size (buffered s4))); [lia|by apply block_ends_shift|done|lia|done|done].
    + eapply (IHv (size (recivedVMO s4))); [lia|by apply block_ends_shift|done|lia|lia|by rewrite Hins].
Qed.

Lemma localVmo_safe D pre pb view : fuelless pre -> preserves quiet pre -> block_ends (size D) pb ->
  safe D (fun n => localVmo n pre (pb n) view).
Proof.
  intros Hpf Hpq Hpb. unfold localVmo, get, Broadcast. repeat safe_step; [by eauto with bamboo|].
  intros s [Ht Hsub]. pose proof (subseteq_size _ _ Hsub).
  eapply settles_mono; [by eapply (remoteVmo_settles (size D))|].
  intros _ s' [? ?]. split; [done|]. by etrans.
Qed.

Lemma vmoAndBlock_safe D pb view : block_ends (size D) pb -> safe D (fun n => vmoAndBlock (pb n) view).
Proof.
  intros Hpb s [Ht Hsub]. pose proof (subseteq_size _ _ Hsub).
  eapply settles_mono; [by eapply (vmoAndBlock_settles (size D))|].
  intros ok s' (? & ? & _). split; [done|]. by etrans.
Qed.
End view_change.

(** ** Blocks *)

Section blocks.
Context {EV : Env} {EE : ElectionEnds env_election}.

(** The head all three [ProcessBlock] share: a block of a later view is
    buffered, any other goes to the [rest]. *)
Lemma block_head b (rest : nat -> M Proto (option error)) s :
  tame s -> is_i64 (b_View b) -> safe (buffered s) rest ->
  settles (fun n =>
    enter_first_view;; curView ← curViewM; check_block_sig b;;
    if curView <? b_View b then bufferBlock b;; ret None else rest n) s (fun _ s' => block_post b s s').
Proof.
  intros Ht Hb Hrest. destruct enter_first_view_quiet as [Hef Heq].
  apply settles_bind, settles_quiet; [done..|]. intros _ s1 H1.
  apply settles_bind, settles_const; [done|]. intros w s2 [= Ew <-].
  assert (Hcq : fuelless (check_block_sig b) /\ preserves quiet (check_block_sig b)).
  { unfold check_block_sig. split; [|preserves_auto]. pose proof PubVerify_ends. fuelless_auto. }
  destruct Hcq. apply settles_bind, settles_quiet; [done..|]. intros _ s2 H2.
  destruct (quiet_tame _ _ H1 Ht) as [Ht1 E1]. destruct (quiet_tame _ _ H2 Ht1) as [Ht2 E2].
  destruct (Z.ltb_spec w (b_View b)) as [Hlt|Hle].
  - apply settles_bind, settles_const; [done|]. intros _ s3 [= _ <-].
    apply settles_const; [done|]. intros _ s4 [= _ <-].
    pose proof (tm_view _ Ht1) as Hw. unfold GetCurView in Ew. rewrite Ew in Hw.
    assert (Hkey : b_View b -! 1 = b_View b - 1) by (apply i64_id; unfold is_i64 in *; lia).
    split.
    + destruct Ht2 as [T1 T2 T3]. split; simpl; try done. rewrite Hkey.
      intros k x [[<- <-]|[_ ?]]%lookup_insert_Some; [|by apply T2].
      rewrite Z.sub_add. unfold is_i64 in *. split_and!; (done || lia).
    + right. split; [unfold buffered; simpl; rewrite dom_insert_L; f_equal; unfold buffered in *; congruence|].
      simpl. destruct H1 as (_ & ? & _), H2 as (_ & ? & _). congruence.
  - eapply settles_mono; [apply Hrest; split; [done|]; by rewrite E2, E1|].
    intros _ s' [? ?]. split; [done|]. by left.
Qed.

(** The recursion theorem: a [ProcessBlock] whose body settles whenever the
    calls on smaller buffers and the call on the block of the next view do,
    settles everywhere. *)
Lemma block_recursion (pb : nat -> Block -> M Proto (option error)) :
  (forall s b, tame s -> is_i64 (b_View b) -> block_ends (size (buffered s)) pb ->
    (forall s' b', ok_at (buffered s) s' -> bufferedBlocks s' !! b_View b = Some b' ->
      settles (fun n => pb n b') s' (fun _ s'' => block_post b' s' s'')) ->
    settles (fun n => pb n b) s (fun _ s' => block_post b s s')) ->
  forall N, block_ends N pb.
Proof.
  intros Hstep N. induction N as [N IHN] using lt_wf_ind. intros s b.
  remember (size (filter (fun k => b_View b <= k) (buffered s))) as m eqn:Em.
  revert s b Em. induction m as [m IHm] using lt_wf_ind. intros s b -> Ht Hb HN.
  apply Hstep; [done|done|by apply IHN|]. intros s' b' [Ht' Hsub] Hb'.
  destruct (tm_blocks _ Ht' _ _ Hb') as (Hview & _ & Hi).
  assert (Hin : b_View b ∈ buffered s') by (by apply elem_of_dom).
  pose proof (subseteq_size _ _ Hsub). eapply (IHm _ _ s' b' eq_refl); [done|by rewrite Hview|lia].
  Unshelve. apply subset_size. split.
  - intros k. rewrite !elem_of_filter. intros [? ?]. split; [lia|]. by apply Hsub.
  - intros Hs. specialize (Hs (b_View b)). rewrite !elem_of_filter in Hs.
    destruct Hs as [? _]; [|lia]. split; [done|]. by apply Hsub.
Qed.

(** The last step of a body: the block of the next view. *)
Lemma next_block_post D b b' s s' :
  ok_at D s -> bufferedBlocks s !! b_View b = Some b' -> block_post b' s s' -> ok_at D s'.
Proof.
  intros [Ht Hsub] Hb [Ht' Hor]. split; [done|].
  destruct (tm_blocks _ Ht _ _ Hb) as (Hview & Hi & _).
  assert (b_View b ∈ buffered s) by (by apply elem_of_dom).
  destruct Hor as [?|[-> _]]; [by etrans|]. rewrite Hview, Z.add_simpl_r, i64_id by done. set_solver.
Qed.

Lemma next_block_safe {A} D b (k : nat -> Block -> M Proto A) (d : M Proto A) :
  (forall s b', ok_at D s -> bufferedBlocks s !! b_View b = Some b' ->
    settles (fun n => k n b') s (fun _ s' => ok_at D s')) ->
  safe D (fun _ => d) ->
  safe D (fun n => s ← get; match bufferedBlocks s !! b_View b with Some b' => k n b' | None => d end).
Proof.
  intros Hk Hd. apply safe_get. intros s Hs.
  destruct (bufferedBlocks s !! b_View b) as [b'|] eqn:Hb; [by apply Hk | by apply Hd].
Qed.

Ltac block_auto :=
  repeat first [apply next_block_safe | safe_step]; try solve [eauto with bamboo].

(** *** HotStuff *)

Lemma hs_processCertificate_safe D qc : safe D (fun _ => HotStuff.processCertificate qc).
Proof.
  unfold HotStuff.processCertificate, HotStuff.updatePreferredView, HotStuff.commitRule, bufferQC, emit,
    mark_stored, write_stored, curViewM, get.
  safe_auto.
Qed.

Lemma hs_processVote_safe D pb v : block_ends (size D) pb -> safe D (fun n => HotStuff.processVote n (pb n) v).
Proof.
  intros Hpb. pose proof (hs_processCertificate_safe D).
  assert (forall view, safe D (fun n => localVmo n skip (pb n) view))
    by (intros view; apply localVmo_safe; [done|apply preserves_skip, _|done]).
  unfold HotStuff.processVote, HotStuff.voteIsVerified, bufferQC, curViewM, get. safe_auto.
Qed.

Lemma hs_block_ends N : block_ends N HotStuff.ProcessBlock.
Proof.
  revert N. apply block_recursion. intros s b Ht Hb Hpb Hnext.
  apply settles_S. cbn [HotStuff.ProcessBlock]. apply block_head; [done..|].
  set (D := buffered s) in *. pose proof (hs_processCertificate_safe D).
  pose proof (hs_processVote_safe D HotStuff.ProcessBlock). pose proof (vmoAndBlock_safe D HotStuff.ProcessBlock).
  assert (forall view, safe D (fun n => localVmo n skip (HotStuff.ProcessBlock n) view))
    by (intros view; apply localVmo_safe; [done|apply preserves_skip, _|done]).
  unfold HotStuff.votingRule, receiveBlock, unbufferQC, keepVote, Send.
  block_auto.
  intros s1 b' Hs1 Hb'. apply settles_bind. eapply settles_mono; [by apply Hnext|].
  intros e s2 H2'%(next_block_post D b); [|done..].
  refine ((_ : safe D _) s2 H2'). safe_auto.
Qed.

(** *** Tchs *)

Lemma tchs_processCertificate_safe D qc : safe D (fun _ => Tchs.processCertificate qc).
Proof. unfold Tchs.processCertificate, Tchs.updatePreferredView, bufferQC, get. safe_auto. Qed.

Lemma first_view_localVmo D pb view :
  block_ends (size D) pb -> safe D (fun n => localVmo n enter_first_view (pb n) view).
Proof. intros Hpb. destruct enter_first_view_quiet. by apply localVmo_safe. Qed.

Lemma tchs_processVote_safe D pb v : block_ends (size D) pb -> safe D (fun n => Tchs.processVote n (pb n) v).
Proof.
  intros Hpb. pose proof (tchs_processCertificate_safe D). pose proof (first_view_localVmo D pb).
  unfold Tchs.processVote, Tchs.voteIsVerified, bufferQC, curViewM, get. safe_auto.
Qed.

Lemma tchs_block_ends N : block_ends N Tchs.ProcessBlock.
Proof.
  revert N. apply block_recursion. intros s b Ht Hb Hpb Hnext.
  apply settles_S. cbn [Tchs.ProcessBlock]. apply block_head; [done..|].
  set (D := buffered s) in *. pose proof (tchs_processCertificate_safe D).
  pose proof (tchs_processVote_safe D Tchs.ProcessBlock). pose proof (vmoAndBlock_safe D Tchs.ProcessBlock).
  pose proof (first_view_localVmo D Tchs.ProcessBlock). pose proof (twoChainStep_safe D).
  unfold Tchs.votingRule, Tchs.commitStep, receiveBlock, unbufferQC, keepVote, Send.
  block_auto.
  intros s1 b' Hs1 Hb'. eapply settles_mono; [by apply Hnext|]. intros e s2. by apply (next_block_post D b).
Qed.

(** *** Fast HotStuff *)

Lemma fhs_processCertificate_safe D qc : safe D (fun _ => Fhs.processCertificate qc).
Proof. unfold Fhs.processCertificate, Fhs.updatePreferredView, bufferQC, curViewM, get. safe_auto. Qed.

Lemma fhs_processVote_safe D pb v : block_ends (size D) pb -> safe D (fun n => Fhs.processVote n (pb n) v).
Proof.
  intros Hpb. pose proof (fhs_processCertificate_safe D). pose proof (first_view_localVmo D pb).
  unfold Fhs.processVote, Fhs.voteIsVerified, bufferQC, curViewM, get. safe_auto.
Qed.

Lemma fhs_block_ends N : block_ends N Fhs.ProcessBlock.
Proof.
  revert N. apply block_recursion. intros s b Ht Hb Hpb Hnext.
  apply settles_S. cbn [Fhs.ProcessBlock]. apply block_head; [done..|].
  set (D := buffered s) in *. pose proof (fhs_processCertificate_safe D).
  pose proof (fhs_processVote_safe D Fhs.ProcessBlock). pose proof (vmoAndBlock_safe D Fhs.ProcessBlock).
  pose proof (first_view_localVmo D Fhs.ProcessBlock). pose proof (twoChainStep_safe D).
  unfold Fhs.votingRule, Fhs.commitStep, receiveBlock, unbufferQC, keepVote, Send.
  block_auto.
  intros s1 b' Hs1 Hb'. eapply settles_mono; [by apply Hnext|]. intros e s2. by apply (next_block_post D b).
Qed.
End blocks.

(** ** Every event of every run settles *)

(** The views of wire blocks are machine integers. *)
Definition event_ok (ev : Event) : Prop :=
  match ev with EvBlock b => is_i64 (b_View b) | _ => True end.

(** The promise a protocol makes about termination. *)
Class SafetyEnds {EV : Env} (S : Safety) : Prop :=
  deliver_settles : forall ev s, event_ok ev -> tame s ->
    settles (fun n => deliver S n ev) s (fun _ s' => tame s').

Section ends.
Context {EV : Env} {EE : ElectionEnds env_election}.

Lemma safe_tame {A} (m : nat -> M Proto A) s :
  (forall D, safe D m) -> tame s -> settles m s (fun _ s' => tame s').
Proof. intros Hm Ht. eapply settles_mono; [apply (Hm (buffered s)), tame_ok, Ht|]. by intros a s' [? _]. Qed.

(** The handlers that recurse, from a [ProcessBlock] that settles. *)
Lemma deliver_block pb b s : (forall N, block_ends N pb) -> is_i64 (b_View b) -> tame s ->
  settles (fun n => _ ← pb n b; skip) s (fun _ s' => tame s').
Proof.
  intros Hpb Hb Ht. apply settles_bind. eapply settles_mono; [by apply (Hpb (S (size (buffered s)))); [..|lia]|].
  intros _ s1 [? _]. apply settles_const; [done|]. by intros _ s2 [= _ <-].
Qed.

Lemma deliver_vmo pb pre v s : (forall N, block_ends N pb) -> fuelless pre -> preserves quiet pre -> tame s ->
  settles (fun n => remoteVmo n pre (pb n) v) s (fun _ s' => tame s').
Proof.
  intros Hpb Hf Hq Ht. eapply settles_mono; [by eapply (remoteVmo_settles (size (buffered s)))|].
  by intros _ s' [? _].
Qed.

#[export] Instance hotstuff_ends : SafetyEnds hotstuff_safety.
Proof.
  pose proof hs_block_ends. intros [b|v|t|view|v|view p] s Hev Ht; cbn.
  - by apply deliver_block.
  - apply safe_tame; [|done]. intros D. by apply hs_processVote_safe.
  - apply safe_tame; [|done]. intros D. pose proof (hs_processCertificate_safe D).
    unfold HotStuff.ProcessRemoteTmo. safe_auto.
  - apply safe_tame; [|done]. intros D. pose proof (hs_processCertificate_safe D).
    unfold HotStuff.ProcessLocalTmo, HotStuff.ProcessRemoteTmo. safe_auto.
  - apply deliver_vmo; [done|done|apply preserves_skip, _|done].
  - apply safe_tame; [|done]. intros D.
    unfold HotStuff.MakeProposal, HotStuff.forkChoice, HotStuff.forkRule, get. safe_auto.
Qed.

#[export] Instance tchs_ends : SafetyEnds tchs_safety.
Proof.
  pose proof tchs_block_ends. destruct enter_first_view_quiet. intros [b|v|t|view|v|view p] s Hev Ht; cbn.
  - by apply deliver_block.
  - apply safe_tame; [|done]. intros D. by apply tchs_processVote_safe.
  - apply safe_tame; [|done]. intros D. unfold Tchs.ProcessRemoteTmo, curViewM. safe_auto.
  - apply safe_tame; [|done]. intros D. unfold Tchs.ProcessLocalTmo, Tchs.ProcessRemoteTmo, curViewM. safe_auto.
  - by apply deliver_vmo.
  - apply safe_tame; [|done]. intros D.
    unfold Tchs.MakeProposal, Tchs.forkChoice, Tchs.forkRule, retag_stored, write_stored, curViewM, get. safe_auto.
Qed.

#[export] Instance fhs_ends : SafetyEnds fhs_safety.
Proof.
  pose proof fhs_block_ends. destruct enter_first_view_quiet. intros [b|v|t|view|v|view p] s Hev Ht; cbn.
  - by apply deliver_block.
  - apply safe_tame; [|done]. intros D. by apply fhs_processVote_safe.
  - apply safe_tame; [|done]. intros D. unfold Fhs.ProcessRemoteTmo. safe_auto.
  - apply safe_tame; [|done]. intros D. unfold Fhs.ProcessLocalTmo, Fhs.ProcessRemoteTmo. safe_auto.
  - by apply deliver_vmo.
  - apply safe_tame; [|done]. intros D. unfold Fhs.MakeProposal, Fhs.forkChoice, get. safe_auto.
Qed.
End ends.

Lemma newProto_tame n : tame (newProto n).
Proof. split; simpl; [done|..]; intros *; by rewrite lookup_empty. Qed.

(** C6.  Every run ends: for any finite sequence of events there is an amount of fuel
    from which on the run has one definite outcome -- it returns a state, or the
    replica panics, or a commit loop diverges -- whatever the fuel.  The
    recursion between block, vote and view-change handlers never goes on for
    ever. *)
Theorem run_settles {EV : Env} (S : Safety) (SE : SafetyEnds S) n evs :
  Forall event_ok evs ->
  exists N o, o <> OutOfFuel /\ forall fuel, (N <= fuel)%nat -> deliver_all S fuel evs (newProto n) = o.
Proof.
  intros Hall. assert (Ht := newProto_tame n). revert Ht. generalize (newProto n).
  induction Hall as [|ev evs Hev _ IH]; intros s Ht; [by exists 0%nat, (Ret s)|].
  destruct (deliver_settles ev s Hev Ht) as (N & o & Ho & HN & HQ).
  destruct o as [[u s1]| | |]; try done.
  - destruct (IH s1) as (N2 & o2 & Ho2 & HN2); [by eapply HQ|].
    exists (N `max` N2)%nat, o2. split; [done|]. intros fuel Hf. simpl. rewrite HN by lia. apply HN2. lia.
  - exists N, Panic. split; [done|]. intros fuel Hf. simpl. by rewrite HN.
  - exists N, Diverge. split; [done|]. intros fuel Hf. simpl. by rewrite HN.
Qed.

(** ** The elections of the repository *)

#[export] Instance static_ends st : ElectionEnds (static_election st).
Proof. by split. Qed.

#[export] Instance rotation_ends r : ElectionEnds (rotation_election r).
Proof.
  split; intros; cbn; unfold Rotation_IsLeader, Rotation_FindLeaderFor, Rotation_data, BigEndian_Uint64, u64_mod;
    fuelless_auto.
Qed.

Lemma run_settles_witness :
  exists N o, o <> OutOfFuel /\
    forall fuel, (N <= fuel)%nat -> deliver_all (EV := toy_env) hotstuff_safety fuel four_views (newProto 4) = o.
Proof.
  apply (run_settles (EV := toy_env) hotstuff_safety (@hotstuff_ends toy_env (static_ends _)) 4 four_views).
  unfold four_views. repeat constructor; done.
Defined.

(** ** A block that is its own parent

    The id and the parent of a block come from the wire and are not checked
    against each other or against the block's content. *)
Definition self_parent : list Event := EvBlock (wire_block [1] 1 [1] 0) :: tail four_views.

(** C39.  A block that is its own parent hangs a commit: in any store, committing a
    stored block above the lowest level that names itself as its parent never
    ends, since its parent links go round; and each of the three protocols can be brought there -- the run of four
    views, a proposal and a view-change message for each, in which the first block
    names itself as its parent, never ends. *)
Theorem self_parent_hangs :
  (forall id view bc b, GetVertex (forrest bc) id = Some b -> b_PrevID b = id ->
     LowestLevel (forrest bc) < Level b ->
     goes_round (parent_link (forrest bc)) id /\ CommitBlock id view bc = Diverge) /\
  Forall (fun S : @Safety toy_env => deliver_all (EV := toy_env) S 20 self_parent (newProto 4) = Diverge)
    [@hotstuff_safety toy_env; @tchs_safety toy_env; @fhs_safety toy_env].
Proof.
  split; [exact self_parent_loops|].
  repeat apply Forall_cons_2; try apply Forall_nil_2; vm_compute; reflexivity.
Qed.

Lemma self_parent_hangs_witness :
  goes_round (parent_link (forrest own_parent)) [7] /\ CommitBlock [7] 9 own_parent = Diverge.
Proof.
  apply (proj1 self_parent_hangs [7] 9 own_parent (toy_block [7] 7 [7] 0)); vm_compute; reflexivity.
Defined.

(** ** Forged timeouts

    Timeout messages carry no signature, so one sender can name three nodes. *)
Definition forged_timeouts : list Event :=
  (fun node => EvTmo (mkTMO (two63 - 1) node (Some genesisQC))) <$> ["2"; "3"; "4"]%string.

(** The view counter goes backwards: three timeouts for the largest view form a
    certificate, the increment overflows and a replica in view 4 is left in
    view [-2^63]; the next block takes it to view 1. *)
Theorem forged_timeouts_reset_view :
  let view_after S evs := curView (pm (state_after (EV := toy_env) S evs)) in
  let views S := (view_after S four_views, view_after S (four_views ++ forged_timeouts),
                  view_after S (four_views ++ forged_timeouts ++ [EvBlock (wire_block [5] 5 [4] 4)])) in
  views hotstuff_safety = (4, - two63, 1) /\ views tchs_safety = (4, - two63, 1) /\
  views fhs_safety = (4, - two63, 1).
Proof. vm_compute. done. Qed.
