(* ===== verification/Replica.v ===== *)
(** * The replica (replica/replica.go)

    The replica owns the mempool producer, feeds the protocol (through the
    [Safety] interface) from its event channel, turns view announcements into
    proposals and keeps the statistics.  Its goroutines -- the message handlers,
    the event loop, the listener for local events and the listener for committed
    blocks -- are steps on one state, one handler at a time; [time.Now()] is an
    argument ([now i]: the i-th reading of the call).

    The statistics are all modelled, with the text [handleQuery] formats from
    them. *)

From Stdlib Require Import String SpecFloat.
From stdpp Require Import base gmap strings numbers relations list.
From coqutil Require Import Datatypes.RecordSetters.
From S2P Require Import Prelude.
From S2P Require Import Identity.
From S2P Require Import Url.
From S2P Require Import Float.
From S2P Require Import Config.
From S2P Require Import Crypto.
From S2P Require Import Election.
From S2P Require Import Db.
From S2P Require Import Message.
From S2P Require Import Mempool.
From S2P Require Import Block.
From S2P Require Import Quorum.
From S2P Require Import Forest.
From S2P Require Import ForestSpec.
From S2P Require Import BlockChain.
From S2P Require Import Pacemaker.
From S2P Require Import Protocol.
From S2P Require Import HotStuff.
From S2P Require Import Tchs.
From S2P Require Import Fhs.
From S2P Require Import Safety.

Import DoubleBraceUpdate.
Local Open Scope Z_scope.
Local Open Scope go_scope.

(** What travels on [eventChan]. *)
Inductive REvent := REView (v : Z) | REBlock (b : Block) | REVote (v : Vote) | RETmo (t : TMO) | REVmo (v : VMO).

(** A time is a number of nanoseconds since 1970; the zero [time.Time] is the first
    of January of year 1. *)
Definition zeroTime : Z := -62135596800000000000.
(** [d.Seconds()] and [d.Milliseconds()]. *)
Definition Seconds (d : Z) : spec_float :=
  f64_add (f64_of_Z (Z.quot d 1000000000)) (f64_div (f64_of_Z (Z.rem d 1000000000)) (f64_of_Z 1000000000)).
Definition Milliseconds (d : Z) : Z := Z.quot d 1000000.

(** The statistics of a node. *)
Record Stats := mkStats {
  thrus : string;
  lastViewTime : Z; startTime : Z; tmpTime : Z; voteStart : Z;
  totalCreateDuration : Z; totalProcessDuration : Z; totalProposeDuration : Z;
  totalDelay : Z; totalRoundTime : Z; totalVoteTime : Z;
  totalBlockSize : Z; receivedNo : Z; roundNo : Z; voteNo : Z; totalCommittedTx : Z;
  latencyNo : Z; proposedNo : Z; processedNo : Z; committedNo : Z; forkedNo : Z; maliNo : Z; kindNo : Z;
  totolCommitTimes : Z }.
Definition zeroStats : Stats :=
  mkStats "" zeroTime zeroTime zeroTime zeroTime 0 0 0 0 0 0 0 0 0 0 0 0 0 0 0 0 0 0 0.

(** [x++] and [x += d] on machine integers. *)
Definition incr (x : Z) : Z := x +! 1.
Definition plus (d x : Z) : Z := x +! d.

Section replica.
Context {EV : Env} {B : BitSet} (S : Safety).

(** [replies]: what was sent on the reply channels of queries. *)
Record Replica := mkReplica {
  proto : Proto;
  pd : Backend;
  isStarted : bool;
  eventChan : list REvent;
  stats : Stats;
  replies : list QueryReply }.

(** [NewReplica]: the three protocols start in the same state. *)
Definition NewReplica : Replica :=
  mkReplica (newProto (Config_N env_cfg)) (NewProducer env_cfg) false [] zeroStats [].

Definition set_proto (p : Proto) (r : Replica) : Replica :=
  mkReplica p (pd r) (isStarted r) (eventChan r) (stats r) (replies r).
Definition set_pd (b : Backend) (r : Replica) : Replica :=
  mkReplica (proto r) b (isStarted r) (eventChan r) (stats r) (replies r).
Definition set_events (l : list REvent) (r : Replica) : Replica :=
  mkReplica (proto r) (pd r) (isStarted r) l (stats r) (replies r).
Definition upd_stats (f : Stats -> Stats) (r : Replica) : Replica :=
  mkReplica (proto r) (pd r) (isStarted r) (eventChan r) (f (stats r)) (replies r).
Definition push_reply (q : QueryReply) (r : Replica) : Replica :=
  mkReplica (proto r) (pd r) (isStarted r) (eventChan r) (stats r) (replies r ++ [q]).

Definition onProto {A} (m : M Proto A) : M Replica A := zoom proto set_proto m.
Definition onPool {A} (m : M Backend A) : M Replica A := zoom pd set_pd m.
Definition count (f : Stats -> Stats) : M Replica unit := modify (upd_stats f).
Definition enqueue (e : REvent) : M Replica unit := modify (fun r => set_events (eventChan r ++ [e]) r).
Definition rCurView : M Replica Z := onProto curViewM.

(** ** Message handlers *)

(** [startSignal] also unblocks [Start]. *)
Definition startSignal (now : nat -> Z) : M Replica unit :=
  r ← gets (fun r => r);
  if isStarted r then skip
  else
    count (fun s => s {{ startTime := now 0%nat; tmpTime := now 1%nat }});;
    modify (fun r => mkReplica (proto r) (pd r) true (eventChan r) (stats r) (replies r)).

Definition HandleBlock (now : nat -> Z) (b : Block) : M Replica unit :=
  count (fun s => s {{ receivedNo ::= incr }});;
  startSignal now;;
  enqueue (REBlock b).

Definition HandleVote (now : nat -> Z) (v : Vote) : M Replica unit :=
  cur ← rCurView;
  if negb (bool_decide (Algorithm env_cfg = "streamlet"%string)) && (v_View v <? cur) then skip
  else startSignal now;; enqueue (REVote v).

Definition HandleTmo (t : TMO) : M Replica unit :=
  cur ← rCurView; if tmo_View t <? cur then skip else enqueue (RETmo t).

Definition HandleVmo (v : VMO) : M Replica unit :=
  cur ← rCurView; if vmo_View v <? cur then skip else enqueue (REVmo v).

(** The text [handleQuery] appends to [r.thrus]: the quotients are float64
    divisions, which print NaN or an infinity when nothing was counted. *)
Definition ratio (a b : Z) : string := fmt_v (f64_div (f64_of_Z a) (f64_of_Z b)).
Definition report (now : nat -> Z) (view : Z) (s : Stats) : string :=
  let seconds i := Seconds (time_Sub (now i) (startTime s)) in
  let lost := i64 (forkedNo s * ByzNo env_cfg) in
  let kind := i64 (BSize env_cfg * (kindNo s -! lost)) in
  ("Time: " +:+ fmt_v (seconds 0%nat) +:+ " s. Throughput: " +:+
     fmt_v (f64_div (f64_of_Z kind) (seconds 1%nat)) +:+ " txs/s." +:+ newline +:+
   "maliBlock: " +:+ Strconv.Itoa (maliNo s) +:+ ". forkedBlock: " +:+ Strconv.Itoa lost +:+ ". totalNo: " +:+
     Strconv.Itoa (committedNo s) +:+ ". kindNo: " +:+ Strconv.Itoa (kindNo s) +:+ "." +:+ newline +:+
   "chainQuality: " +:+ ratio (kindNo s) (committedNo s) +:+ "." +:+ newline +:+
   "censorship: " +:+ ratio (kindNo s) (kindNo s +! lost) +:+ "." +:+ newline +:+
   "latency: " +:+ ratio (totolCommitTimes s) view +:+ "." +:+ newline +:+
   "chain growth: " +:+ ratio (kindNo s) view +:+ "." +:+ newline +:+
   "commitTimes: " +:+ Strconv.Itoa (totolCommitTimes s) +:+ " ." +:+ newline +:+
   "view: " +:+ Strconv.Itoa view +:+ " ." +:+ newline +:+ newline)%string.

Definition handleQuery (now : nat -> Z) : M Replica unit :=
  r ← gets (fun r => r);
  view ← rCurView;
  let latency := ratio (Milliseconds (totalDelay (stats r))) (latencyNo (stats r)) in
  let thrus' := (thrus (stats r) +:+ report now view (stats r))%string in
  count (fun s => s {{ thrus := thrus'; totalCommittedTx := 0 }});;
  modify (push_reply (mkQueryReply ("Latency: " +:+ latency +:+ newline +:+ thrus')%string)).

Definition handleTxn (now : nat -> Z) (m : Transaction) : M Replica unit :=
  onPool (AddTxn (now 0%nat) m);;
  startSignal (fun i => now (Datatypes.S i));;
  cur ← rCurView;
  if cur =? 0 then
    lead ← lift (IsLeader me 1);
    if (lead : bool) then onProto (advanceView 0) else skip
  else skip.

(** ** Processors *)

Definition bump_delay (d : Z) (s : Stats) : Stats := s {{ totalDelay ::= plus d; latencyNo ::= incr }}.
Fixpoint count_delays (now : nat -> Z) (l : list Transaction) (s : Stats) : Stats :=
  match l with
  | [] => s
  | txn :: l' => count_delays (fun i => now (Datatypes.S i)) l' (bump_delay (time_Sub (now 0%nat) (t_Timestamp txn)) s)
  end.

(** [processCommittedBlock]; the block that writes files is guarded by
    [&& false]. *)
Definition committed_stats (now : nat -> Z) (block : Block) (s : Stats) : Stats :=
  let s := if b_CommitFromThis block then s {{ totolCommitTimes ::= incr }} else s in
  let s := if decide (b_Proposer block = me) then count_delays now (b_Payload block) s else s in
  let s := s {{ committedNo ::= incr; totalCommittedTx ::= plus (Z.of_nat (length (b_Payload block))) }} in
  if GetMali block then s {{ maliNo ::= incr; forkedNo ::= plus (GetForkNum block) }}
  else s {{ kindNo ::= incr }}.
Definition processCommittedBlock (now : nat -> Z) (block : Block) : M Replica unit :=
  count (committed_stats now block).

Definition processForkedBlock (block : Block) : M Replica unit :=
  if decide (b_Proposer block = me) then onPool (collect_all (b_Payload block)) else skip.

Definition set_BlockTimestamp (t : Z) (b : Block) : Block :=
  mkBlock (b_View b) (b_QC b) (b_Proposer b) t (b_Payload b) (b_PrevID b) (b_Sig b) (b_ID b) (b_Ts b)
          (b_Mali b) (b_forkNum b) (b_height b) (b_CommitFromThis b).

(** [proposeBlock]: a nil transaction of the payload is dereferenced when the
    block's id is computed. *)
Definition proposeBlock (fuel : nat) (now : nat -> Z) (view : Z) : M Replica unit :=
  payload ← onPool (GeneratePayload env_cfg);
  txs ← lift (of_option (mapM (fun t => t) payload));
  block ← onProto (MakeProposal view txs);
  count (fun s => s {{ totalBlockSize ::= plus (Z.of_nat (length (b_Payload block))); proposedNo ::= incr;
                       totalCreateDuration ::= plus (time_Sub (now 1%nat) (now 0%nat)) }});;
  let block := set_BlockTimestamp (now 2%nat) block in
  (if bool_decide (Algorithm env_cfg = "streamlet"%string) then skip
   else onProto (Broadcast (MBlock block)));;
  _ ← onProto (ProcessBlock fuel block);
  count (fun s => s {{ voteStart := now 3%nat }}).

Definition processNewView (fuel : nat) (now : nat -> Z) (newView : Z) : M Replica unit :=
  lead ← lift (IsLeader me newView);
  if negb lead then skip
  else if IsByz then skip
  else proposeBlock fuel now newView.

(** ** The loops, one iteration each *)

(** [Start]: take one event from the channel and dispatch it. *)
Definition eventLoop (fuel : nat) (now : nat -> Z) : M Replica unit :=
  r ← gets (fun r => r);
  match eventChan r with
  | [] => skip
  | e :: rest =>
      modify (set_events rest);;
      match e with
      | REView v => processNewView fuel now v
      | REBlock b =>
          count (fun s => s {{ totalProposeDuration ::= plus (time_Sub (now 0%nat) (b_Timestamp b)) }});;
          _ ← onProto (ProcessBlock fuel b);
          count (fun s => s {{ totalProcessDuration ::= plus (time_Sub (now 1%nat) (now 0%nat));
                               voteStart := now 2%nat; processedNo ::= incr }})
      | REVote v =>
          onProto (ProcessVote fuel v);;
          count (fun s => s {{ totalVoteTime ::= plus (time_Sub (now 1%nat) (now 0%nat)); voteNo ::= incr }})
      | RETmo t => onProto (ProcessRemoteTmo t)
      | REVmo v => onProto (ProcessRemoteVmo fuel v)
      end
  end.

(** [ListenLocalEvent] starts the clock of the first view; a view announcement is
    forwarded to the event loop ... *)
Definition listenStart (now : nat -> Z) : M Replica unit := count (fun s => s {{ lastViewTime := now 0%nat }}).
Definition take_view (p : Proto) : Proto :=
  set_pm (mkPM (curView (pm p)) (tail (newViewChan (pm p))) (timeoutController (pm p))
               (viewChangeController (pm p))) p.
Definition view_stats (now : nat -> Z) (view : Z) (s : Stats) : Stats :=
  let s1 := if 2 <=? view then s {{ totalVoteTime ::= plus (time_Sub (now 0%nat) (voteStart s)) }} else s in
  let t := now (if 2 <=? view then 1%nat else 0%nat) in
  s1 {{ totalRoundTime ::= plus (time_Sub t (lastViewTime s1)); roundNo ::= incr; lastViewTime := t }}.
Definition listenNewView (now : nat -> Z) : M Replica unit :=
  r ← gets (fun r => r);
  match newViewChan (pm (proto r)) with
  | [] => skip
  | view :: _ =>
      onProto (modify take_view);;
      count (view_stats now view);;
      enqueue (REView view)
  end.
(** ... and the timer fires a local timeout for the current view. *)
Definition listenTimer : M Replica unit :=
  cur ← rCurView; onProto (ProcessLocalTmo cur).

(** [ListenCommittedBlocks]: one block from either channel. *)
Definition set_committed (l : list Block) (p : Proto) : Proto :=
  mkProto (pm p) (lastVotedView p) (preferredView p) (highQC p) (height p) (bc p) l (forkedBlocks p)
    (bufferedQCs p) (bufferedBlocks p) (recivedVMO p) (recivedBlock p) (outbox p).
Definition set_forked (l : list Block) (p : Proto) : Proto :=
  mkProto (pm p) (lastVotedView p) (preferredView p) (highQC p) (height p) (bc p) (committedBlocks p) l
    (bufferedQCs p) (bufferedBlocks p) (recivedVMO p) (recivedBlock p) (outbox p).
Definition listenCommitted (now : nat -> Z) : M Replica unit :=
  r ← gets (fun r => r);
  match committedBlocks (proto r) with
  | [] => skip
  | b :: rest => onProto (modify (set_committed rest));; processCommittedBlock now b
  end.
Definition listenForked : M Replica unit :=
  r ← gets (fun r => r);
  match forkedBlocks (proto r) with
  | [] => skip
  | b :: rest => onProto (modify (set_forked rest));; processForkedBlock b
  end.

(** ** Runs of a replica *)

Inductive Label :=
| LBlock (b : Block) | LVote (v : Vote) | LTmo (t : TMO) | LVmo (v : VMO) | LTxn (m : Transaction) | LQuery
| LEvent (fuel : nat) | LListen | LNewView | LTimer | LCommitted | LForked.

Definition perform (now : nat -> Z) (l : Label) : M Replica unit :=
  match l with
  | LBlock b => HandleBlock now b
  | LVote v => HandleVote now v
  | LTmo t => HandleTmo t
  | LVmo v => HandleVmo v
  | LTxn m => handleTxn now m
  | LQuery => handleQuery now
  | LEvent fuel => eventLoop fuel now
  | LListen => listenStart now
  | LNewView => listenNewView now
  | LTimer => listenTimer
  | LCommitted => listenCommitted now
  | LForked => listenForked
  end.

(** Any interleaving of the handlers and loop iterations. *)
Definition rstep (r r' : Replica) : Prop := exists now l, perform now l r = Ret (tt, r').

(** Protocol relations extended to what the replica itself does to the protocol
    state: announce a block, consume a view or a block from a channel. *)
Class ReplicaFrame (R : Proto -> Proto -> Prop) : Prop := {
  rf_frame :: Frame R;
  rf_block b : IsByz = false -> preserves R (Broadcast (MBlock b));
  rf_view p : R p (take_view p);
  rf_committed p l : R p (set_committed l p);
  rf_forked p l : R p (set_forked l p) }.

Section rframe.
Context {SL : SafetyLaws S} (R : Proto -> Proto -> Prop) {RF : ReplicaFrame R}.

Definition onR (r r' : Replica) : Prop := R (proto r) (proto r').
#[export] Instance onR_preorder : PreOrder onR.
Proof.
  split; [intros r; unfold onR; reflexivity|]. intros a b c. unfold onR. apply transitivity.
Qed.

Lemma onProto_frame {A} (m : M Proto A) : preserves R m -> preserves onR (onProto m).
Proof. intros Hm. by eapply preserves_zoom; [exact Hm|]. Qed.
Lemma onPool_frame {A} (m : M Backend A) : preserves onR (onPool m).
Proof. intros r a r' H. unfold onPool in H. go_inv. unfold onR. simpl. reflexivity. Qed.
Lemma count_frame f : preserves onR (count f).
Proof. intros r a r' H. unfold count in H. go_inv. unfold onR. simpl. reflexivity. Qed.
Lemma enqueue_frame e : preserves onR (enqueue e).
Proof. intros r a r' H. unfold enqueue in H. go_inv. unfold onR. simpl. reflexivity. Qed.
Lemma startSignal_frame now : preserves onR (startSignal now).
Proof.
  intros r a r' H. unfold startSignal, count in H. go_inv. unfold onR. destruct (isStarted r); go_inv; simpl; reflexivity.
Qed.
Lemma reply_frame q : preserves onR (modify (push_reply q)).
Proof. intros r a r' H. go_inv. unfold onR. simpl. reflexivity. Qed.
Lemma rCurView_frame : preserves onR rCurView.
Proof. apply onProto_frame. unfold curViewM. preserves_auto. Qed.

#[local] Hint Resolve onProto_frame onPool_frame count_frame enqueue_frame startSignal_frame reply_frame rCurView_frame
  : bamboo.

Lemma proposeBlock_frame fuel now view : IsByz = false -> preserves onR (proposeBlock fuel now view).
Proof.
  intros Hbyz. pose proof (law_block (S := S) R _). pose proof (law_proposal (S := S) R _).
  pose proof (fun b => rf_block b Hbyz). unfold proposeBlock. preserves_auto.
Qed.

Lemma processNewView_frame fuel now view : preserves onR (processNewView fuel now view).
Proof.
  pose proof (proposeBlock_frame fuel now view). unfold processNewView. preserves_auto.
Qed.

Lemma eventLoop_frame fuel now : preserves onR (eventLoop fuel now).
Proof.
  pose proof (law_block (S := S) R _). pose proof (law_vote (S := S) R _). pose proof (law_tmo (S := S) R _).
  pose proof (law_vmo (S := S) R _). pose proof (processNewView_frame fuel now).
  unfold eventLoop. preserves_auto; unfold onR; simpl; reflexivity.
Qed.

Lemma listeners_frame now :
  preserves onR (listenNewView now) /\ preserves onR listenTimer /\ preserves onR (listenCommitted now) /\
  preserves onR listenForked.
Proof.
  pose proof (law_localTmo (S := S) R _).
  assert (preserves R (modify take_view)) by (apply preserves_modify; apply rf_view).
  assert (forall l, preserves R (modify (set_committed l))) by (intros l; apply preserves_modify; intros p; apply rf_committed).
  assert (forall l, preserves R (modify (set_forked l))) by (intros l; apply preserves_modify; intros p; apply rf_forked).
  unfold listenNewView, listenTimer, listenCommitted, listenForked, processCommittedBlock, processForkedBlock.
  split; [|split; [|split]]; preserves_auto.
Qed.

Lemma perform_frame now l : preserves onR (perform now l).
Proof.
  destruct (listeners_frame now) as (H1 & H2 & H3 & H4). pose proof (fr_advance (R := R) 0).
  destruct l; simpl; try done; unfold HandleBlock, HandleVote, HandleTmo, HandleVmo, handleTxn, handleQuery, listenStart;
    preserves_auto; try (unfold onR; simpl; reflexivity).
  apply eventLoop_frame.
Qed.

Lemma rsteps_frame r r' : rtc rstep r r' -> R (proto r) (proto r').
Proof.
  intros Hr. induction Hr as [|r1 r2 r3 (now & l & Hstep) _ IH]; [reflexivity|].
  transitivity (proto r2); [by eapply perform_frame | done].
Qed.
End rframe.
End replica.

(** ** Invariants of a replica *)

Lemma preserves_weaken {St A} (R1 R2 : St -> St -> Prop) (m : M St A) :
  (forall s s', R1 s s' -> R2 s s') -> preserves R1 m -> preserves R2 m.
Proof. intros Hw Hm s a s' H. by eapply Hw, Hm. Qed.

Lemma frame_weaken {EV : Env} (R1 R2 : Proto -> Proto -> Prop) :
  (forall s s', R1 s s' -> R2 s s') -> PreOrder R2 -> Frame R1 -> Frame R2.
Proof.
  intros Hw HP HF. split; try apply _; intros; try (eapply preserves_weaken; [exact Hw|]); eauto with bamboo.
  by apply Hw, fr_prefer.
Qed.

(** The three quantities of the protocol that never decrease. *)
Definition levels_grow (s s' : Proto) : Prop :=
  qc_View (highQC s) <= qc_View (highQC s') /\ preferredView s <= preferredView s' /\
  bc_low (bc s) <= bc_low (bc s').
#[export] Instance levels_grow_preorder : PreOrder levels_grow.
Proof. split; [intros s; unfold levels_grow; lia|]. intros a b c. unfold levels_grow. lia. Qed.

#[export] Instance levels_grow_rframe {EV : Env} : ReplicaFrame levels_grow.
Proof.
  assert (HF : Frame levels_grow).
  { apply (frame_weaken grows); [|apply _|apply _]. intros s s' []. by unfold levels_grow. }
  split; [done| |intros; unfold levels_grow; simpl; lia..].
  intros b _ s r s' H. unfold Broadcast in H. go_inv. unfold levels_grow. simpl. lia.
Qed.

#[export] Instance keeps_wf_rframe {EV : Env} : ReplicaFrame keeps_wf.
Proof.
  split; [apply _| |intros; intros []; by split..].
  intros b _ s r s' H []. unfold Broadcast in H. go_inv. by split.
Qed.

(** C7.  A replica as a whole: through any interleaving of message arrivals,
    event-loop iterations, timeouts and channel listeners, started from
    [NewReplica], the protocol state stays well formed, and from any point on the
    highest certificate's view, the preferred view and the lowest retained level
    only grow. *)
Theorem replica_invariant {EV : Env} {B : BitSet} (S : Safety) (SL : SafetyLaws S) r r' :
  rtc (rstep S) NewReplica r -> rtc (rstep S) r r' ->
  proto_wf (proto r) /\ levels_grow (proto r) (proto r').
Proof.
  intros H1 H2. split.
  - apply (rsteps_frame S keeps_wf _ _ H1). apply newProto_wf.
  - by apply (rsteps_frame S levels_grow).
Qed.

(** ** A Byzantine replica never proposes *)

Definition no_proposal (o : Out) : Prop :=
  match o with OSend _ (MBlock _) | OBroadcast (MBlock _) => False | _ => True end.
Definition keeps_silent (s s' : Proto) : Prop := Forall no_proposal (outbox s) -> Forall no_proposal (outbox s').
#[export] Instance keeps_silent_preorder : PreOrder keeps_silent.
Proof. split; [intros s H; exact H|]. intros a b c H1 H2 H. by apply H2, H1. Qed.

Lemma keeps_silent_rframe {EV : Env} : IsByz = true -> ReplicaFrame keeps_silent.
Proof.
  intros Hbyz.
  assert (Hz : forall A (m : M BlockChain A), preserves keeps_silent (zoom bc set_bc m)).
  { intros A m s r s' H. go_inv. intros Ho. exact Ho. }
  assert (Hp : forall A (m : M Pacemaker A), preserves keeps_silent (zoom pm set_pm m)).
  { intros A m s r s' H. go_inv. intros Ho. exact Ho. }
  assert (Hpush : forall o, no_proposal o -> preserves keeps_silent (modify (push_out o))).
  { intros o Ho s r s' H Hall. go_inv. simpl. apply Forall_app. split; [done | by constructor]. }
  split; [|intros b Hb; congruence|intros; intros Ho; exact Ho..].
  split; intros; try apply Hz; try apply Hp; try apply _; try (by apply Hpush).
  all: try (intros s0 r0 s1 Hx;
            unfold updateHighQC, mark_stored, retag_stored, write_stored, emit, bufferQC, unbufferQC,
              bufferBlock, unbufferBlock, receiveVMO, dropVMO, receiveBlock, dropBlock, get, when in Hx; go_inv).
  all: try (match goal with H : (if ?b then _ else _) _ = _ |- _ => destruct b end; go_inv).
  all: intros Ho; exact Ho.
Qed.

(** C28.  A Byzantine replica never sends a block, whatever happens to it: the
    fork attacks coded in the protocols' [forkChoice] are never carried out. *)
Theorem byzantine_never_proposes {EV : Env} {B : BitSet} (S : Safety) (SL : SafetyLaws S) r :
  IsByz = true -> rtc (rstep S) NewReplica r -> Forall no_proposal (outbox (proto r)).
Proof.
  intros Hbyz Hr. pose proof (keeps_silent_rframe Hbyz) as HF.
  apply (rsteps_frame S keeps_silent _ _ Hr). constructor.
Qed.

(** ** Accounting *)

Lemma count_delays_counters now l : forall s,
  let s' := count_delays now l s in
  committedNo s' = committedNo s /\ maliNo s' = maliNo s /\ kindNo s' = kindNo s.
Proof.
  revert now. induction l as [|t l IH]; intros now s; simpl; [done|].
  destruct (IH (fun i => now (S i)) (bump_delay (time_Sub (now 0%nat) (t_Timestamp t)) s)) as (-> & -> & ->).
  by destruct s.
Qed.

Definition balanced (s : Stats) : Prop := committedNo s = i64 (maliNo s + kindNo s).

Lemma committed_stats_balanced {EV : Env} now b s : balanced s -> balanced (committed_stats now b s).
Proof.
  unfold balanced, committed_stats. intros Hs.
  set (s1 := if b_CommitFromThis b then _ else s).
  assert (E1 : committedNo s1 = committedNo s /\ maliNo s1 = maliNo s /\ kindNo s1 = kindNo s)
    by (unfold s1; destruct (b_CommitFromThis b); by destruct s).
  set (s2 := if decide (b_Proposer b = me) then _ else s1).
  assert (E2 : committedNo s2 = committedNo s /\ maliNo s2 = maliNo s /\ kindNo s2 = kindNo s).
  { unfold s2. destruct (decide (b_Proposer b = me)); [|done].
    destruct (count_delays_counters now (b_Payload b) s1) as (-> & -> & ->). done. }
  destruct E2 as (H1 & H2 & H3). clearbody s2. rewrite <- H1, <- H2, <- H3 in Hs. clear -Hs.
  destruct s2. simpl in *. subst. unfold incr.
  destruct (GetMali b); simpl; rewrite i64_add_l; [rewrite i64_add_l | rewrite i64_add_r]; f_equal; lia.
Qed.

Section balance.
Context {EV : Env} {B : BitSet} (S : Safety).

Definition keeps_balance (r r' : Replica) : Prop := balanced (stats r) -> balanced (stats r').
#[export] Instance keeps_balance_preorder : PreOrder keeps_balance.
Proof. split; [intros s H; exact H|]. intros a b c H1 H2 H. by apply H2, H1. Qed.

Lemma onProto_balance {A} (m : M Proto A) : preserves keeps_balance (onProto m).
Proof. intros r a r' H Hb. unfold onProto in H. go_inv. exact Hb. Qed.
Lemma onPool_balance {A} (m : M Backend A) : preserves keeps_balance (onPool m).
Proof. intros r a r' H Hb. unfold onPool in H. go_inv. exact Hb. Qed.
Lemma count_balance f : (forall s, balanced s -> balanced (f s)) -> preserves keeps_balance (count f).
Proof. intros Hf r a r' H Hb. unfold count in H. go_inv. by apply Hf. Qed.
Lemma enqueue_balance e : preserves keeps_balance (enqueue e).
Proof. intros r a r' H Hb. unfold enqueue in H. go_inv. exact Hb. Qed.
Lemma startSignal_balance now : preserves keeps_balance (startSignal now).
Proof.
  intros r a r' H Hb. unfold startSignal, count in H. go_inv. destruct (isStarted r); go_inv; [exact Hb|].
  unfold balanced in *. simpl in *. by destruct (stats r).
Qed.
Lemma reply_balance q : preserves keeps_balance (modify (push_reply q)).
Proof. intros r a r' H Hb. go_inv. exact Hb. Qed.
#[local] Hint Resolve onProto_balance onPool_balance enqueue_balance startSignal_balance reply_balance : bamboo.

Lemma perform_balance now l : preserves keeps_balance (perform S now l).
Proof.
  assert (Hset : forall l, preserves keeps_balance (modify (set_events l)))
    by (intros l0; apply preserves_modify; intros r Hb; exact Hb).
  pose proof (committed_stats_balanced now).
  assert (Hstat : forall f, (forall s, committedNo (f s) = committedNo s /\ maliNo (f s) = maliNo s /\ kindNo (f s) = kindNo s) ->
    forall s, balanced s -> balanced (f s)) by (intros f Hf s; unfold balanced; by destruct (Hf s) as (-> & -> & ->)).
  destruct l; simpl; unfold HandleBlock, HandleVote, HandleTmo, HandleVmo, handleTxn, eventLoop, processNewView,
    proposeBlock, listenStart, listenNewView, listenTimer, listenCommitted, listenForked, processCommittedBlock,
    processForkedBlock, handleQuery, rCurView; preserves_auto;
    first [apply count_balance; by eauto | intros Hb; exact Hb
          | apply count_balance, Hstat; intros s; unfold view_stats; repeat case_match; by destruct s].
Qed.

(** The statistics add up: in every reachable state the number of committed
    blocks counted is the number of malicious ones plus the number of honest
    ones (modulo the width of the counters). *)
Theorem committed_balance r : rtc (rstep S) NewReplica r -> balanced (stats r).
Proof.
  intros Hr. enough (Hgen : keeps_balance NewReplica r) by (by apply Hgen).
  induction Hr as [|r1 r2 r3 (now & l & Hstep) _ IH]; [reflexivity|].
  transitivity r2; [by eapply perform_balance | done].
Qed.
End balance.

(** A forked block's transactions are not lost: when the replica learns
    that one of its own blocks was forked, all its transactions are back at the
    front of the pool (in reverse order), ahead of what was there; a foreign
    block changes nothing. *)
Theorem forked_returned {EV : Env} {B : BitSet} (b : Block) (r : Replica) :
  exists r', processForkedBlock b r = Ret (tt, r') /\
    txns (pd r') = (if decide (b_Proposer b = me) then reverse (b_Payload b) else []) ++ txns (pd r) /\
    proto r' = proto r /\ stats r' = stats r.
Proof.
  unfold processForkedBlock. destruct (decide (b_Proposer b = me)); [|by exists r].
  unfold onPool, zoom. rewrite collect_all_run. eexists. split; [reflexivity|]. done.
Qed.

(** ** Concrete runs *)

Section concrete.
Context {EV : Env} {B : BitSet} (S : Safety).

Fixpoint perform_all (now : nat -> Z) (ls : list Label) (r : Replica) : outcome Replica :=
  match ls with
  | [] => Ret r
  | l :: ls' => '(_, r') ←? perform S now l r; perform_all now ls' r'
  end.
Definition replica_after (ls : list Label) : Replica :=
  match perform_all (fun _ => 0) ls NewReplica with Ret r => r | _ => NewReplica end.

Lemma perform_all_steps now ls : forall r r', perform_all now ls r = Ret r' -> rtc (rstep S) r r'.
Proof.
  induction ls as [|l ls IH]; intros r r' H; simpl in H; [by injection H as <-|].
  destruct (perform S now l r) as [[[] r1]| | |] eqn:E; try done. simpl in H.
  eapply rtc_l; [by exists now, l | by apply IH].
Qed.

Lemma replica_after_steps ls : rtc (rstep S) NewReplica (replica_after ls).
Proof.
  unfold replica_after. destruct (perform_all (fun _ => 0) ls NewReplica) as [r| | |] eqn:E; [|done..].
  by eapply perform_all_steps.
Qed.
End concrete.

(** A query is answered once, with the text of every earlier report before the
    new one, and changes nothing but the statistics. *)
Lemma handleQuery_run {EV : Env} {B : BitSet} now r :
  exists r', handleQuery now r = Ret (tt, r') /\
    replies r' = replies r ++ [mkQueryReply ("Latency: " +:+
      ratio (Milliseconds (totalDelay (stats r))) (latencyNo (stats r)) +:+ newline +:+ thrus (stats r'))%string] /\
    thrus (stats r') = (thrus (stats r) +:+ report now (curView (pm (proto r))) (stats r))%string /\
    totalCommittedTx (stats r') = 0 /\ committedNo (stats r') = committedNo (stats r) /\
    proto r' = proto r /\ pd r' = pd r /\ eventChan r' = eventChan r.
Proof.
  destruct r as [p b st ev s rp]. unfold handleQuery, rCurView, onProto, curViewM, count.
  cbv [gbind gets modify zoom]. eexists. split; [reflexivity|]. by destruct s, p.
Qed.

(** The four views of Safety.v, through the replica's handlers. *)
Definition four_labels : list Label :=
  [LBlock (wire_block [1] 1 zeroID 0); LEvent 20; LVmo (wire_vmo 1); LEvent 20;
   LBlock (wire_block [2] 2 [1] 1); LEvent 20; LVmo (wire_vmo 2); LEvent 20;
   LBlock (wire_block [3] 3 [2] 2); LEvent 20; LVmo (wire_vmo 3); LEvent 20;
   LBlock (wire_block [4] 4 [3] 3); LEvent 20; LCommitted].
(** A Byzantine leader ["2"] that is told to kick off the protocol. *)
Definition byz_env : Env := {|
  env_crypto := toy_crypto; env_election := static_election (NewStatic "2"%string);
  env_cfg := cfg_f 1; me := "2"%string; IsByz := true |}.
Definition kick_off : list Label := [LTxn (toy_txn "x"%string); LNewView; LEvent 20; LTimer].

(** The honest replica has committed the first block and counted it. *)
Example replica_run :
  let r := replica_after (EV := toy_env) (B := gset_bits) (@hotstuff_safety toy_env) four_labels in
  (committedNo (stats r), kindNo (stats r), processedNo (stats r), bc_low (bc (proto r)), eventChan r) =
  (1, 1, 4, 1, []).
Proof. vm_compute. reflexivity. Qed.
(** What it answers to a query two seconds after its start. *)
Example query_run :
  let now := fun i : nat => match i with O => 2000000000 | _ => 2500000000 end in
  let r := replica_after (EV := toy_env) (B := gset_bits) (@hotstuff_safety toy_env) four_labels in
  match handleQuery (EV := toy_env) (B := gset_bits) now r with
  | Ret (_, r') => chars <$> (qr_Info <$> replies r')
  | _ => []
  end = [chars ("Latency: NaN" +:+ newline +:+
     "Time: 2 s. Throughput: 0 txs/s." +:+ newline +:+
     "maliBlock: 0. forkedBlock: 0. totalNo: 1. kindNo: 1." +:+ newline +:+
     "chainQuality: 1." +:+ newline +:+ "censorship: 1." +:+ newline +:+ "latency: 0.25." +:+ newline +:+
     "chain growth: 0.25." +:+ newline +:+ "commitTimes: 1 ." +:+ newline +:+ "view: 4 ." +:+ newline +:+ newline)%string].
Proof. vm_compute. reflexivity. Qed.
(** An honest leader proposes when kicked off (and counts its own vote), the Byzantine
    one does not. *)
Example byz_run :
  let honest := {| env_crypto := toy_crypto; env_election := static_election (NewStatic "2"%string);
                   env_cfg := cfg_f 1; me := "2"%string; IsByz := false |} in
  length (outbox (proto (replica_after (EV := byz_env) (B := gset_bits) (@hotstuff_safety byz_env) kick_off))) = 1%nat /\
  length (outbox (proto (replica_after (EV := honest) (B := gset_bits) (@hotstuff_safety honest) kick_off))) = 3%nat.
Proof. vm_compute. done. Qed.

Lemma replica_invariant_witness :
  let r := replica_after (EV := toy_env) (B := gset_bits) (@hotstuff_safety toy_env) four_labels in
  proto_wf (proto r) /\ levels_grow (proto r) (proto r).
Proof.
  exact (replica_invariant (EV := toy_env) (B := gset_bits) hotstuff_safety hotstuff_laws _ _
    (replica_after_steps (EV := toy_env) (B := gset_bits) hotstuff_safety four_labels) (rtc_refl _ _)).
Defined.

Lemma byzantine_never_proposes_witness :
  Forall no_proposal
    (outbox (proto (replica_after (EV := byz_env) (B := gset_bits) (@hotstuff_safety byz_env) kick_off))).
Proof.
  exact (byzantine_never_proposes (EV := byz_env) (B := gset_bits) hotstuff_safety hotstuff_laws _ eq_refl
    (replica_after_steps (EV := byz_env) (B := gset_bits) hotstuff_safety kick_off)).
Defined.

Lemma committed_balance_witness :
  balanced (stats (replica_after (EV := toy_env) (B := gset_bits) (@hotstuff_safety toy_env) four_labels)).
Proof.
  exact (committed_balance (EV := toy_env) (B := gset_bits) hotstuff_safety _
    (replica_after_steps (EV := toy_env) (B := gset_bits) hotstuff_safety four_labels)).
Defined.
