(* ===== verification/Loops.v ===== *)
(** * The goroutines of a replica (Start and the listeners of replica/replica.go)

    [Start] waits for the start signal, launches [ListenLocalEvent] and
    [ListenCommittedBlocks] and then takes events from [eventChan], one at a time.
    [ListenLocalEvent] forwards the views the pacemaker announces to the same
    channel and otherwise fires the view timer.  Replica.v has one iteration of
    each loop as a step that is always possible; here every goroutine has its
    program counter and the channels block:

    - [eventChan] is unbuffered: its contents are the goroutines waiting in a
      send, in the order the runtime serves them; a sender goes on when its event
      is taken;
    - [newViewChan] holds [viewCap] announcements ([NewPacemaker]); the sender,
      [AdvanceView], runs inside the event loop, inside the timer branch of the
      listener or inside [handleTxn];
    - the pacemaker's mutex is held by [AdvanceView] for as long as its send
      blocks.  Whoever calls [GetCurView] waits for it: the handlers of votes,
      timeouts, view changes, transactions and queries, the timer branch before
      [ProcessLocalTmo], and the block listener, which logs the current view after
      every block.

    What is coarser than the code: the state changes of an event, of the timer
    branch and of a handler are applied at once, when it starts, and its
    announcements are then sent one by one (no handler reads [newViewChan], so it may
    run on an empty copy of it to find out what it announces); the [GetCurView] calls
    inside an event or inside [ProcessLocalTmo] do not wait for the mutex; the channels
    of committed and forked blocks take any number.  All three only let goroutines go on
    where the code may block, so a goroutine that never gets on here does not there; the
    schedules that complete an event leave the mutex to the event loop and
    move, beside it, only the [select] of the listener.

    Results: when an event can be completed
    ([event_completes]): the event loop fills the channel whose only reader
    may be waiting for the event loop or for the mutex, so an event that announces more
    views than the channel has room for, one more if the listener is still at its
    [select], blocks the replica for ever.  [catching_up_deadlocks] reaches that
    state: a replica that receives the messages of 102 views in the wrong order. *)

From Stdlib Require Import String.
From stdpp Require Import base gmap strings numbers relations list.
From S2P Require Import Prelude.
From S2P Require Import Identity.
From S2P Require Import Config.
From S2P Require Import Crypto.
From S2P Require Import Election.
From S2P Require Import Message.
From S2P Require Import Mempool.
From S2P Require Import Block.
From S2P Require Import Quorum.
From S2P Require Import BlockChain.
From S2P Require Import Pacemaker.
From S2P Require Import Protocol.
From S2P Require Import HotStuff.
From S2P Require Import Tchs.
From S2P Require Import Fhs.
From S2P Require Import Safety.
From S2P Require Import Replica.

Local Open Scope Z_scope.
Local Open Scope go_scope.

(** [make(chan types.View, 100)] in [NewPacemaker]. *)
Definition viewCap : nat := 100.
Ltac cap := unfold viewCap in *; lia.

(** [Start]: before [<-r.start]; at [event := <-r.eventChan]; inside an event,
    with the views it still has to announce. *)
Inductive MainPC := MStart | MWait | MBusy (pending : list Z).
(** [ListenLocalEvent]: not launched; at its [select]; in [r.eventChan <- view]; in
    the timer branch, at [GetCurView]; further in it, with the views it still has to
    announce. *)
Inductive LocalPC := LOff | LSelect | LSend | LTimeout | LBusy (pending : list Z).
(** Who holds [p.mu], inside [AdvanceView]. *)
Inductive Holder := HMain | HLocal | HHandler.

Section loops.
Context {EV : Env} {B : BitSet} (S : Safety).

(** [mu]: the holder of the pacemaker's mutex and the view it is sending;
    [logging]: [ListenCommittedBlocks] is at the [GetCurView] of its log line. *)
Record Loops := mkLoops {
  rep : Replica; main : MainPC; local : LocalPC; mu : option (Holder * Z); logging : bool }.

(** [Start] is called on a new replica. *)
Definition StartReplica : Loops := mkLoops NewReplica MStart LOff None false.

Definition views (r : Replica) : list Z := newViewChan (pm (proto r)).
Definition set_views (l : list Z) (r : Replica) : Replica :=
  let p := proto r in
  set_proto (set_pm (mkPM (curView (pm p)) l (timeoutController (pm p)) (viewChangeController (pm p))) p) r.

(** Run [m] and hold its announcements back. *)
Definition held_back (m : M Replica unit) (r : Replica) : outcome (Replica * list Z) :=
  '(_, r') ←? m (set_views [] r); Ret (set_views (views r) r', views r').

(** One move of one goroutine; [None]: it is blocked. *)
Inductive Move :=
| MvHandle (l : Label) | MvStart | MvReceive (fuel : nat) | MvLock (h : Holder) | MvSend | MvNext
| MvView | MvTimer | MvTimeout | MvReset | MvBlock (forked : bool) | MvLogged.

(** The handlers, which the node calls, and those that call [GetCurView]. *)
Definition is_handler (l : Label) : bool :=
  match l with LBlock _ | LVote _ | LTmo _ | LVmo _ | LTxn _ | LQuery => true | _ => false end.
Definition reads_view (l : Label) : bool :=
  match l with
  | LBlock _ => false
  | LVote _ => negb (bool_decide (Algorithm env_cfg = "streamlet"%string))
  | _ => true
  end.

(** [p.newViewChan <- v]. *)
Definition announce (v : Z) (r : Replica) : option Replica :=
  if decide (length (views r) < viewCap)%nat then Some (set_views (views r ++ [v]) r) else None.

Definition listening (s : Loops) : bool := match local s with LOff => false | _ => true end.
Definition locked (s : Loops) : bool := match mu s with Some _ => true | None => false end.

(** A handler; [handleTxn] may enter the first view, with the mutex in its hands. *)
Definition handle (now : nat -> Z) (l : Label) (s : Loops) : outcome (option Loops) :=
  if negb (is_handler l) || (reads_view l && locked s) then Ret None
  else
    '(r, vs) ←? held_back (perform S now l) (rep s);
    Ret (Some (mkLoops r (main s) (local s) (match vs with v :: _ => Some (HHandler, v) | [] => mu s end) (logging s))).
(** [Start]: [<-r.start], then the two listeners. *)
Definition start_loops (now : nat -> Z) (s : Loops) : outcome (option Loops) :=
  match main s with
  | MStart =>
      if isStarted (rep s) then
        '(_, r) ←? perform S now LListen (rep s); Ret (Some (mkLoops r MWait LSelect (mu s) (logging s)))
      else Ret None
  | _ => Ret None
  end.
(** [event := <-r.eventChan] and the event; the listener goes on when the event was
    its view. *)
Definition receive (now : nat -> Z) (fuel : nat) (s : Loops) : outcome (option Loops) :=
  match main s, eventChan (rep s) with
  | MWait, e :: _ =>
      '(r, vs) ←? held_back (perform S now (LEvent fuel)) (rep s);
      Ret (Some (mkLoops r (MBusy vs) (match e with REView _ => LSelect | _ => local s end) (mu s) (logging s)))
  | _, _ => Ret None
  end.
(** [AdvanceView]: the mutex is taken, then the view sent and the mutex given back.
    ([handleTxn] takes it in [handle].) *)
Definition lock (h : Holder) (s : Loops) : option Loops :=
  match mu s, h, main s, local s with
  | None, HMain, MBusy (v :: vs), _ => Some (mkLoops (rep s) (MBusy vs) (local s) (Some (HMain, v)) (logging s))
  | None, HLocal, _, LBusy (v :: vs) => Some (mkLoops (rep s) (main s) (LBusy vs) (Some (HLocal, v)) (logging s))
  | _, _, _, _ => None
  end.
Definition send (s : Loops) : option Loops :=
  match mu s with
  | Some (_, v) => (fun r => mkLoops r (main s) (local s) None (logging s)) <$> announce v (rep s)
  | None => None
  end.
(** The event is over when its last [AdvanceView] has returned; so is the timer branch. *)
Definition next_event (s : Loops) : option Loops :=
  match main s, mu s with
  | MBusy [], Some (HMain, _) => None
  | MBusy [], _ => Some (mkLoops (rep s) MWait (local s) (mu s) (logging s))
  | _, _ => None
  end.
Definition reset_timer (s : Loops) : option Loops :=
  match local s, mu s with
  | LBusy [], Some (HLocal, _) => None
  | LBusy [], _ => Some (mkLoops (rep s) (main s) LSelect (mu s) (logging s))
  | _, _ => None
  end.
(** [ListenLocalEvent]: the two cases of the [select]; the timer branch calls
    [GetCurView] and then [ProcessLocalTmo]. *)
Definition select_view (now : nat -> Z) (s : Loops) : outcome (option Loops) :=
  match local s, views (rep s) with
  | LSelect, _ :: _ =>
      '(_, r) ←? perform S now LNewView (rep s); Ret (Some (mkLoops r (main s) LSend (mu s) (logging s)))
  | _, _ => Ret None
  end.
Definition select_timer (s : Loops) : option Loops :=
  match local s with LSelect => Some (mkLoops (rep s) (main s) LTimeout (mu s) (logging s)) | _ => None end.
Definition local_timeout (now : nat -> Z) (s : Loops) : outcome (option Loops) :=
  match local s, mu s with
  | LTimeout, None =>
      '(r, vs) ←? held_back (perform S now LTimer) (rep s); Ret (Some (mkLoops r (main s) (LBusy vs) None (logging s)))
  | _, _ => Ret None
  end.
(** [ListenCommittedBlocks]: one block of either channel, then the log line. *)
Definition listen_blocks (now : nat -> Z) (forked : bool) (s : Loops) : outcome (option Loops) :=
  if listening s && negb (logging s) then
    '(_, r) ←? perform S now (if forked then LForked else LCommitted) (rep s);
    Ret (Some (mkLoops r (main s) (local s) (mu s) true))
  else Ret None.
Definition logged (s : Loops) : option Loops :=
  if logging s && negb (locked s) then Some (mkLoops (rep s) (main s) (local s) (mu s) false) else None.

Definition move (now : nat -> Z) (mv : Move) (s : Loops) : outcome (option Loops) :=
  match mv with
  | MvHandle l => handle now l s
  | MvStart => start_loops now s
  | MvReceive fuel => receive now fuel s
  | MvLock h => Ret (lock h s)
  | MvSend => Ret (send s)
  | MvNext => Ret (next_event s)
  | MvView => select_view now s
  | MvTimer => Ret (select_timer s)
  | MvTimeout => local_timeout now s
  | MvReset => Ret (reset_timer s)
  | MvBlock forked => listen_blocks now forked s
  | MvLogged => Ret (logged s)
  end.

Definition lstep (s s' : Loops) : Prop := exists now mv, move now mv s = Ret (Some s').

Fixpoint move_all (now : nat -> Z) (mvs : list Move) (s : Loops) : outcome (option Loops) :=
  match mvs with
  | [] => Ret (Some s)
  | mv :: rest => o ←? move now mv s; match o with Some s' => move_all now rest s' | None => Ret None end
  end.

Lemma move_all_steps now mvs : forall s s', move_all now mvs s = Ret (Some s') -> rtc lstep s s'.
Proof.
  induction mvs as [|mv mvs IH]; intros s s' H; simpl in H; [by injection H as <-|].
  destruct (move now mv s) as [[s1|]| | |] eqn:E; try done. simpl in H.
  eapply rtc_l; [by exists now, mv | by apply IH].
Qed.

(** ** What the moves do to the channel *)

Lemma views_set_views l r : views (set_views l r) = l.
Proof. done. Qed.

Lemma announce_inv v r r' :
  announce v r = Some r' -> views r' = views r ++ [v] /\ (length (views r) < viewCap)%nat.
Proof. unfold announce. case_decide; [|done]. by intros [= <-]. Qed.

Lemma announce_ok v r :
  (length (views r) < viewCap)%nat -> announce v r = Some (set_views (views r ++ [v]) r).
Proof. intros H. unfold announce. by rewrite decide_True. Qed.

Lemma listenNewView_run now r v vs :
  views r = v :: vs ->
  exists r', perform S now LNewView r = Ret (tt, r') /\ views r' = vs /\ eventChan r' = eventChan r ++ [REView v].
Proof.
  intros Hv. unfold perform, listenNewView, gbind, gets. unfold views in Hv. rewrite Hv.
  eexists. split; [reflexivity|]. split; [|done]. unfold views. cbn. by rewrite Hv.
Qed.

(** The block listener leaves the announcements alone. *)
Definition keeps_views (r r' : Replica) : Prop := views r' = views r.
#[local] Instance keeps_views_preorder : PreOrder keeps_views.
Proof. split; [done|]. intros a b c. unfold keeps_views. congruence. Qed.

Lemma channel_views f : (forall p, pm (f p) = pm p) -> preserves keeps_views (onProto (modify f)).
Proof. intros Hf r a r' (p & Hm & ->)%zoom_ret. injection Hm as <- <-. unfold keeps_views, views. simpl. by rewrite Hf. Qed.

Lemma pool_views {A} (m : M Backend A) : preserves keeps_views (onPool m).
Proof. by intros r a r' (b & _ & ->)%zoom_ret. Qed.
#[local] Hint Resolve pool_views : bamboo.

Lemma listener_views now l r r' :
  l = LListen \/ l = LCommitted \/ l = LForked -> perform S now l r = Ret (tt, r') -> views r' = views r.
Proof.
  intros Hl. enough (Hp : preserves keeps_views (perform S now l)) by apply Hp.
  destruct Hl as [->|[->| ->]]; simpl;
    unfold listenStart, listenCommitted, listenForked, processCommittedBlock, processForkedBlock, count;
    preserves_auto; try done; by apply channel_views.
Qed.

Lemma held_back_views m r r' vs : held_back m r = Ret (r', vs) -> views r' = views r.
Proof. unfold held_back. destruct (m (set_views [] r)) as [[a r1]| | |]; try done. by intros [= <- <-]. Qed.

(** ** When an event can be completed *)

(** What the event loop has in the channel or still has to put there: the announcements
    waiting, those of its event, and the one it is sending with the mutex in its hands. *)
Definition holding (s : Loops) : nat := match mu s with Some (HMain, _) => 1 | _ => 0 end.
Definition load (s : Loops) (vs : list Z) : nat := (length (views (rep s)) + length vs + holding s)%nat.
(** What can be taken: the listener frees one place if it has not taken a view yet. *)
Definition room (l : LocalPC) : nat := match l with LOff | LSend => viewCap | _ => viewCap + 1 end.
Definition in_cap (s : Loops) : Prop := (length (views (rep s)) <= viewCap)%nat.

(** Too much for the channel; or the channel is full, the event loop waits in its send, and
    the listener waits in the timer branch for the mutex the event loop holds. *)
Definition overloaded (s : Loops) : Prop :=
  in_cap s /\ exists vs, main s = MBusy vs /\ (room (local s) < load s vs)%nat.
Definition waits_for_mutex (l : LocalPC) : Prop := match l with LTimeout | LBusy (_ :: _) => True | _ => False end.
Definition embraced (s : Loops) : Prop :=
  length (views (rep s)) = viewCap /\ (exists vs, main s = MBusy vs) /\ (exists v, mu s = Some (HMain, v)) /\
  waits_for_mutex (local s).

(** A move, by what it can do to the parts that matter here. *)
Inductive effect (s s' : Loops) : Prop :=
| eff_quiet : main s' = main s -> local s' = local s -> views (rep s') = views (rep s) ->
    (mu s' = mu s \/ mu s = None /\ exists v, mu s' = Some (HHandler, v)) -> effect s s'
| eff_start : main s = MStart -> main s' = MWait -> views (rep s') = views (rep s) -> mu s' = mu s -> effect s s'
| eff_receive : main s = MWait -> views (rep s') = views (rep s) -> mu s' = mu s -> effect s s'
| eff_lock v vs : main s = MBusy (v :: vs) -> main s' = MBusy vs -> local s' = local s ->
    views (rep s') = views (rep s) -> mu s = None -> mu s' = Some (HMain, v) -> effect s s'
| eff_lock_local v vs : local s = LBusy (v :: vs) -> local s' = LBusy vs -> main s' = main s ->
    views (rep s') = views (rep s) -> mu s = None -> mu s' = Some (HLocal, v) -> effect s s'
| eff_send h v : mu s = Some (h, v) -> mu s' = None -> main s' = main s -> local s' = local s ->
    (length (views (rep s)) < viewCap)%nat -> views (rep s') = views (rep s) ++ [v] -> effect s s'
| eff_next : main s = MBusy [] -> main s' = MWait -> holding s = 0%nat -> local s' = local s ->
    views (rep s') = views (rep s) -> mu s' = mu s -> effect s s'
| eff_view v : local s = LSelect -> local s' = LSend -> views (rep s) = v :: views (rep s') -> main s' = main s ->
    mu s' = mu s -> effect s s'
| eff_timer : local s = LSelect -> local s' = LTimeout -> views (rep s') = views (rep s) -> main s' = main s ->
    mu s' = mu s -> effect s s'
| eff_timeout ws : local s = LTimeout -> local s' = LBusy ws -> mu s = None -> views (rep s') = views (rep s) ->
    main s' = main s -> mu s' = mu s -> effect s s'
| eff_reset : local s = LBusy [] -> local s' = LSelect -> views (rep s') = views (rep s) -> main s' = main s ->
    mu s' = mu s -> effect s s'.

(** The handlers other than [handleTxn] announce nothing, so only it takes the mutex. *)
Definition keeps_empty (r r' : Replica) : Prop := views r = [] -> views r' = [].
#[local] Instance keeps_empty_preorder : PreOrder keeps_empty.
Proof. split; [intros r H; exact H|]. intros a b c H1 H2 H. by apply H2, H1. Qed.
Lemma enqueue_empty e : preserves keeps_empty (enqueue e).
Proof. intros r a r' H. unfold enqueue in H. go_inv. intros Hx. exact Hx. Qed.
Lemma count_empty f : preserves keeps_empty (count f).
Proof. intros r a r' H. unfold count in H. go_inv. intros Hx. exact Hx. Qed.
Lemma startSignal_empty now : preserves keeps_empty (startSignal now).
Proof. intros r a r' H. unfold startSignal, count in H. go_inv. destruct (isStarted r); go_inv; intros Hx; exact Hx. Qed.
Lemma rCurView_empty : preserves keeps_empty rCurView.
Proof. intros r a r' H. unfold rCurView, onProto, zoom, curViewM, gets in H. go_inv. intros Hx. exact Hx. Qed.
#[local] Hint Resolve enqueue_empty count_empty startSignal_empty rCurView_empty : bamboo.

Lemma handler_mutex now l r r' v vs :
  is_handler l = true -> held_back (perform S now l) r = Ret (r', v :: vs) -> reads_view l = true.
Proof.
  intros Hl H. destruct (reads_view l) eqn:E; [done|]. exfalso.
  assert (Hp : preserves keeps_empty (perform S now l)).
  { destruct l; try done; simpl; unfold HandleBlock, HandleVote; preserves_auto. }
  unfold held_back in H. destruct (perform S now l _) as [[[] r1]| | |] eqn:Er; try done.
  pose proof (Hp _ _ _ Er eq_refl) as E0. simpl in H. rewrite E0 in H. done.
Qed.

Lemma move_effect s s' : lstep s s' -> effect s s'.
Proof.
  destruct s as [r mn lc m lg]. intros (now & mv & H).
  destruct mv; unfold move, handle, start_loops, receive, lock, send, next_event, select_view, select_timer,
    local_timeout, reset_timer, listen_blocks, logged in H; cbn [rep main local mu logging] in H.
  - destruct (is_handler l) eqn:Hl; [|done]. simpl in H.
    destruct (reads_view l && _) eqn:Eg; [done|].
    destruct (held_back _ r) as [[r' vs]| | |] eqn:E; try done. injection H as <-.
    apply eff_quiet; simpl; try done; [by eapply held_back_views|].
    destruct vs as [|v vs]; [by left|]. right. apply handler_mutex in E as E'; [|done]. rewrite E' in Eg.
    destruct m; [done|]. eauto.
  - destruct mn; try done. destruct (isStarted r); [|done].
    destruct (perform S now LListen r) as [[[] r']| | |] eqn:E; try done. injection H as <-.
    apply listener_views in E; [|auto]. by apply eff_start.
  - destruct mn; try done. destruct (eventChan r); [done|].
    destruct (held_back _ r) as [[r' vs]| | |] eqn:E; try done. injection H as <-.
    apply eff_receive; simpl; try done. by eapply held_back_views.
  - destruct m; [done|]. destruct h; [| |by destruct mn as [| |[]], lc].
    + destruct mn as [| |[|v vs]]; try done. injection H as <-. by eapply eff_lock.
    + destruct lc as [| | | |[|v vs]]; try (by destruct mn as [| |[]]). destruct mn as [| |[]]; injection H as <-; by eapply eff_lock_local.
  - destruct m as [[h v]|]; [|done]. destruct (announce v r) as [r'|] eqn:E; [|done]. injection H as <-.
    apply announce_inv in E as [E ?]. by eapply eff_send.
  - destruct mn as [| |[|v vs]]; try done. destruct m as [[[] v]|]; try done; injection H as <-; by apply eff_next.
  - destruct lc; try done. destruct (views r) as [|v l] eqn:Ev; [done|].
    destruct (listenNewView_run now r v l Ev) as (r' & Hr & Hv & _). rewrite Hr in H. injection H as <-.
    apply (eff_view _ _ v); simpl; congruence.
  - destruct lc; try done. injection H as <-. by apply eff_timer.
  - destruct lc; try done. destruct m; [done|].
    destruct (held_back _ r) as [[r' vs]| | |] eqn:E; try done. injection H as <-.
    eapply eff_timeout; simpl; try done. by eapply held_back_views.
  - destruct lc as [| | | |[|v vs]]; try done. destruct m as [[[] v]|]; try done; injection H as <-; by apply eff_reset.
  - destruct (_ && _); [|done].
    destruct (perform S now _ r) as [[[] r']| | |] eqn:E; try done. injection H as <-.
    apply listener_views in E; [|destruct forked; auto]. apply eff_quiet; simpl; auto.
  - destruct (_ && _); [|done]. injection H as <-. apply eff_quiet; simpl; auto.
Qed.

Lemma overloaded_step s s' : overloaded s -> lstep s s' -> overloaded s'.
Proof.
  intros (Hcap & vs & Hm & Hl) H%move_effect. unfold overloaded, in_cap, load, holding, room in *.
  destruct H as [E1 E2 E3 E4|E1|E1|v vs' E1 E2 E3 E4 E5 E6|v ws E1 E2 E3 E4 E5 E6|h v E1 E2 E3 E4 E5 E6|E1 E2 E3 E4 E5 E6
    |v E1 E2 E3 E4 E5|E1 E2 E3 E4 E5|ws E1 E2 E3 E4 E5 E6|E1 E2 E3 E4 E5]; try congruence.
  - rewrite E3. split; [done|]. exists vs. rewrite E1, E2. split; [done|].
    destruct E4 as [->|[E4 (w & ->)]]; [done | by rewrite E4 in Hl].
  - rewrite E4, E3. split; [done|]. exists vs'. split; [done|]. rewrite E6. rewrite E5 in Hl.
    rewrite E1 in Hm. injection Hm as <-. simpl in Hl. destruct (local s); cap.
  - rewrite E4. split; [done|]. exists vs. rewrite E3, E2, E6. split; [done|]. by rewrite E5, E1 in Hl.
  - rewrite E6, length_app. simpl. split; [cap|]. exists vs. rewrite E3, E4, E2. split; [done|].
    rewrite E1 in Hl. destruct h, (local s); cap.
  - exfalso. unfold holding in E3. rewrite E3 in Hl. rewrite E1 in Hm. injection Hm as <-. simpl in Hl.
    destruct (local s); cap.
  - rewrite E3, E1 in *. simpl in *. split; [cap|]. exists vs. rewrite E4, E2, E5. split; [done|]. cap.
  - rewrite E3. split; [done|]. exists vs. rewrite E4, E2, E5. by rewrite E1 in Hl.
  - rewrite E4. split; [done|]. exists vs. rewrite E5, E2, E6. by rewrite E1 in Hl.
  - rewrite E3. split; [done|]. exists vs. rewrite E4, E2, E5. by rewrite E1 in Hl.
Qed.

Lemma embraced_step s s' : embraced s -> lstep s s' -> embraced s'.
Proof.
  intros (Hv & (vs & Hm) & (v & Hh) & Hl) H%move_effect. unfold embraced, waits_for_mutex, holding in *.
  destruct H as [E1 E2 E3 E4|E1|E1|? ? E1 E2 E3 E4 E5 E6|? ? E1 E2 E3 E4 E5 E6|? ? E1 E2 E3 E4 E5 E6|E1 E2 E3 E4 E5 E6
    |? E1 E2 E3 E4 E5|E1 E2 E3 E4 E5|? E1 E2 E3 E4 E5 E6|E1 E2 E3 E4 E5]; try congruence; try (by rewrite E1 in Hl).
  - rewrite E3, E2, E1. split_and!; eauto. destruct E4 as [->|[E4 _]]; [eauto | congruence].
  - cap.
  - unfold holding in E3. by rewrite Hh in E3.
Qed.

Lemma never_completes (J : Loops -> Prop) s :
  (forall s s', J s -> lstep s s' -> J s') -> (forall s, J s -> exists vs, main s = MBusy vs) -> J s ->
  forall s', rtc lstep s s' -> main s' <> MWait.
Proof.
  intros Hstep HJ Hs s' H. assert (J s') as (vs & E)%HJ; [|by rewrite E]. induction H; eauto.
Qed.

(** Sending what fits. *)
Lemma send_one r v vs lc lg : (length (views r) < viewCap)%nat ->
  rtc lstep (mkLoops r (MBusy (v :: vs)) lc None lg) (mkLoops (set_views (views r ++ [v]) r) (MBusy vs) lc None lg).
Proof.
  intros Hl. eapply rtc_l; [by exists (fun _ => 0), (MvLock HMain)|]. eapply rtc_l; [|reflexivity].
  exists (fun _ => 0), MvSend. simpl. unfold send. simpl. by rewrite announce_ok.
Qed.
Lemma send_many r k vs lc lg : (length (views r) + k <= viewCap)%nat ->
  exists r', rtc lstep (mkLoops r (MBusy vs) lc None lg) (mkLoops r' (MBusy (drop k vs)) lc None lg) /\
    views r' = views r ++ take k vs.
Proof.
  revert r k. induction vs as [|v vs IH]; intros r [|k] Hl; simpl in *;
    try (exists r; rewrite app_nil_r; by split).
  destruct (IH (set_views (views r ++ [v]) r) k) as (r' & Hr & Hv).
  { rewrite views_set_views, length_app. simpl. cap. }
  exists r'. split; [|by rewrite Hv, views_set_views, <- app_assoc].
  etransitivity; [apply send_one; cap | exact Hr].
Qed.

Definition completes (s : Loops) : Prop := exists s', rtc lstep s s' /\ main s' = MWait.
Lemma completes_steps s s' : rtc lstep s s' -> completes s' -> completes s.
Proof. intros H (t & Ht & Hm). exists t. split; [by etransitivity | done]. Qed.

Lemma finish_room r vs lc lg :
  (length (views r) + length vs <= viewCap)%nat -> completes (mkLoops r (MBusy vs) lc None lg).
Proof.
  intros Hl. destruct (send_many r (length vs) vs lc lg Hl) as (r' & Hr & _). rewrite drop_all in Hr.
  eapply completes_steps; [exact Hr|]. exists (mkLoops r' MWait lc None lg). split; [|done].
  apply rtc_once. by exists (fun _ => 0), MvNext.
Qed.

Lemma take_view_step r vs lg v l m : views r = v :: l ->
  exists r', lstep (mkLoops r (MBusy vs) LSelect m lg) (mkLoops r' (MBusy vs) LSend m lg) /\ views r' = l.
Proof.
  intros Ev. destruct (listenNewView_run (fun _ => 0) r v l Ev) as (r' & Hr & Hv & _). exists r'. split; [|done].
  exists (fun _ => 0), MvView. unfold move, select_view. cbn [local rep]. rewrite Ev, Hr. done.
Qed.

Lemma finish_select r vs lg :
  (length (views r) <= viewCap)%nat -> (length (views r) + length vs <= viewCap + 1)%nat ->
  completes (mkLoops r (MBusy vs) LSelect None lg).
Proof.
  intros Hcap Hl. destruct (decide (length (views r) + length vs <= viewCap)%nat) as [Hr|Hr]; [by apply finish_room|].
  destruct (send_many r (viewCap - length (views r)) vs LSelect lg ltac:(cap)) as (r1 & Hr1 & Hv1).
  assert (Hn : length (views r1) = viewCap) by (rewrite Hv1, length_app, length_take; cap).
  destruct (views r1) as [|v l] eqn:Ev; [done|].
  destruct (take_view_step r1 (drop (viewCap - length (views r)) vs) lg v l None Ev) as (r2 & Hr2 & Hv2).
  eapply completes_steps; [exact Hr1|]. eapply completes_steps; [by eapply rtc_once|].
  apply finish_room. rewrite Hv2, length_drop. simpl in Hn. cap.
Qed.

(** The send the event loop is in. *)
Lemma finish_held r vs lc lg v : (lc = LSelect \/ lc = LSend) -> (length (views r) <= viewCap)%nat ->
  (length (views r) + length vs + 1 <= room lc)%nat -> completes (mkLoops r (MBusy vs) lc (Some (HMain, v)) lg).
Proof.
  intros Hlc Hcap Hl.
  assert (Hsend : forall r lc, (length (views r) < viewCap)%nat ->
    lstep (mkLoops r (MBusy vs) lc (Some (HMain, v)) lg) (mkLoops (set_views (views r ++ [v]) r) (MBusy vs) lc None lg)).
  { intros r0 lc0 H0. exists (fun _ => 0), MvSend. simpl. unfold send. simpl. by rewrite announce_ok. }
  destruct (decide (length (views r) < viewCap)%nat) as [Hr|Hr].
  - eapply completes_steps; [by eapply rtc_once, Hsend|].
    destruct Hlc as [-> | ->]; simpl in Hl; [apply finish_select | apply finish_room];
      rewrite ?views_set_views, ?length_app; simpl; cap.
  - destruct Hlc as [-> | ->]; simpl in Hl; [|cap]. destruct (views r) as [|w l] eqn:Ev; [simpl in Hr; cap|].
    destruct (take_view_step r vs lg w l (Some (HMain, v)) Ev) as (r2 & Hr2 & Hv2). simpl in *.
    eapply completes_steps; [by eapply rtc_once|]. eapply completes_steps; [apply rtc_once, Hsend; rewrite Hv2; cap|].
    apply finish_room. rewrite views_set_views, length_app, Hv2. simpl. cap.
Qed.

(** C8.  An event that has announced all but [vs]: when what is in [newViewChan], what it
    still has to announce and what it is just sending is more than the channel holds, one more
    if the listener has not yet taken a view, then no schedule of the goroutines, no message and no
    timer ever gets the event loop back to [eventChan]; nor when the channel is full, the event
    loop waits in its send and the listener waits in its timer branch for the mutex.  With
    the listener at its [select] or in its own send, and the mutex free or with the event
    loop, the first condition is the only obstacle: otherwise some schedule completes the event. *)
Theorem event_completes s vs :
  in_cap s -> main s = MBusy vs ->
  ((room (local s) < load s vs)%nat \/
     length (views (rep s)) = viewCap /\ holding s = 1%nat /\ waits_for_mutex (local s) ->
   forall s', rtc lstep s s' -> main s' <> MWait) /\
  (local s = LSelect \/ local s = LSend -> mu s = None \/ holding s = 1%nat ->
   (exists s', rtc lstep s s' /\ main s' = MWait) <-> (load s vs <= room (local s))%nat).
Proof.
  intros Hcap Hm. assert (Hover : (room (local s) < load s vs)%nat -> forall s', rtc lstep s s' -> main s' <> MWait).
  { intros Hl. apply (never_completes overloaded); [exact overloaded_step | by intros ? (_ & ws & ? & _); eauto|].
    split; [done|]. by exists vs. }
  split; [intros [Hl|(Hv & Hh & Hw)]; [by apply Hover|]|].
  - apply (never_completes embraced); [exact embraced_step | by intros ? (_ & ? & _)|].
    unfold embraced, holding in *. destruct (mu s) as [[[] v]|]; try done. split_and!; eauto.
  - intros Hloc Hmu. split; [intros (s' & Hs & Hw); destruct (decide (load s vs <= room (local s))%nat); [done|];
      exfalso; apply (Hover ltac:(lia) s' Hs Hw)|].
    destruct s as [r mn lc m lg]. unfold in_cap, load, holding in *. simpl in *. subst mn. intros Hl.
    destruct m as [[[] v]|]; [|destruct Hmu as [?|?]; done..|]; [by apply finish_held; [| |lia]|].
    destruct Hloc as [-> | ->]; simpl in Hl; [apply finish_select | apply finish_room]; cap.
Qed.

(** The channel never holds more than it was made for. *)
Lemma reachable_cap s : rtc lstep StartReplica s -> in_cap s.
Proof.
  apply (rtc_ind_r in_cap); [unfold in_cap; simpl; cap|]. unfold in_cap. intros x y _ H%move_effect Hx.
  destruct H as [E1 E2 E3 E4|E1 E2 E3 E4|E1 E2 E3|? ? E1 E2 E3 E4|? ? E1 E2 E3 E4|? ? E1 E2 E3 E4 E5 E6|E1 E2 E3 E4 E5
    |? E1 E2 E3|E1 E2 E3|? E1 E2 E3 E4|E1 E2 E3]; try congruence.
  - rewrite E6, length_app. simpl. cap.
  - rewrite E3 in Hx. simpl in Hx. cap.
Qed.
End loops.

(** ** A replica that catches up

    The blocks of a static leader arrive in order, the view-change messages too,
    but the one of view 1 comes last. *)
Section catching_up.
#[local] Existing Instance toy_env.
#[local] Existing Instance gset_bits.

Definition nth_id (k : nat) : Identifier := match k with O => zeroID | _ => [Z.of_nat k] end.
Definition nth_block (k : nat) : Block :=
  wire_block (nth_id k) (Z.of_nat k) (nth_id (k - 1)) (Z.of_nat k - 1).
Definition nth_vmo (k : nat) : VMO := wire_vmo (Z.of_nat k).

(** A message is handled and its event completed. *)
Definition serve (l : Label) : list Move := [MvHandle l; MvReceive 9; MvNext].
Definition late_vmo (n : nat) : list Move :=
  [MvHandle (LBlock (nth_block 1)); MvStart; MvReceive 9; MvLock HMain; MvSend; MvNext; MvView; MvReceive 9; MvNext] ++
  (seq 2 (n - 1) ≫= (fun k => serve (LBlock (nth_block k)))) ++
  (seq 2 (n - 1) ≫= (fun k => serve (LVmo (nth_vmo k)))) ++
  [MvHandle (LVmo (nth_vmo 1))].
Definition at_view_1 (S : Safety) (n : nat) : Loops :=
  match move_all S (fun _ => 0) (late_vmo n) StartReplica with
  | Ret (Some s) => s
  | _ => StartReplica
  end.
Definition catches_up (S : Safety) (n : nat) : Loops :=
  match move S (fun _ => 0) (MvReceive (5 * n)) (at_view_1 S n) with
  | Ret (Some s) => s
  | _ => StartReplica
  end.

(** [s] is in view 1 with no view announced and all goroutines at their channels, it has kept
    the view-change messages and buffered the blocks of the views 2 to [n], and the
    view-change message of view 1 has just arrived. *)
Definition behind (n : nat) (s : Loops) : Prop :=
  main s = MWait /\ local s = LSelect /\ mu s = None /\ views (rep s) = [] /\
  curView (pm (proto (rep s))) = 1 /\ eventChan (rep s) = [REVmo (nth_vmo 1)] /\
  Forall (fun k => recivedVMO (proto (rep s)) !! (Z.of_nat k - 1) = Some (nth_vmo k) /\
                   b_ID <$> bufferedBlocks (proto (rep s)) !! (Z.of_nat k - 1) = Some (nth_id k)) (seq 2 (n - 1)).
(** Receiving that message takes [s] to [s'], with [n] views to announce. *)
Definition announces (s : Loops) : option nat := match main s with MBusy vs => Some (length vs) | _ => None end.
Definition catching_up (S : Safety) (n : nat) (s s' : Loops) : Prop :=
  rtc (lstep S) StartReplica s /\ behind n s /\
  (exists now fuel, move S now (MvReceive fuel) s = Ret (Some s')) /\
  announces s' = Some n /\ views (rep s') = [] /\ local s' = LSelect /\ mu s' = None.

(** The same, evaluated. *)
Definition behindb (n : nat) (s : Loops) : bool :=
  match main s, local s, mu s with MWait, LSelect, None => true | _, _, _ => false end &&
  (bool_decide (views (rep s) = []) && ((curView (pm (proto (rep s))) =? 1) &&
  (match eventChan (rep s) with [REVmo v] => bool_decide (v = nth_vmo 1) | _ => false end &&
  forallb (fun k => bool_decide (recivedVMO (proto (rep s)) !! (Z.of_nat k - 1) = Some (nth_vmo k)) &&
                    bool_decide (b_ID <$> bufferedBlocks (proto (rep s)) !! (Z.of_nat k - 1) = Some (nth_id k)))
    (seq 2 (n - 1))))).
Definition caught (n : nat) (s : Loops) : bool :=
  bool_decide (announces s = Some n) && (bool_decide (views (rep s) = []) &&
  match local s, mu s with LSelect, None => true | _, _ => false end).
Definition catchesb (S : Safety) (n : nat) : bool :=
  behindb n (at_view_1 S n) && caught n (catches_up S n).

Lemma behindb_ok n s : behindb n s = true -> behind n s.
Proof.
  unfold behindb, behind. intros [H1 [H2%bool_decide_eq_true [H3%Z.eqb_eq [H4 H5]%andb_true_iff]%andb_true_iff]%andb_true_iff]%andb_true_iff.
  destruct (main s); try done. destruct (local s); try done. destruct (mu s); try done.
  destruct (eventChan (rep s)) as [|[] []]; try done. apply bool_decide_eq_true in H4 as ->.
  split_and!; try done. apply Forall_forall. intros k Hk%list_elem_of_In.
  by apply (proj1 (forallb_forall _ _) H5), andb_true_iff in Hk as [?%bool_decide_eq_true ?%bool_decide_eq_true].
Qed.

Lemma at_view_1_steps S n : rtc (lstep S) StartReplica (at_view_1 S n).
Proof.
  unfold at_view_1. destruct (move_all _ _ _ _) as [[s|]| | |] eqn:E; try done. by eapply move_all_steps.
Qed.

Lemma catchesb_ok S n : catchesb S n = true -> catching_up S n (at_view_1 S n) (catches_up S n).
Proof.
  unfold catchesb, caught. intros [Hb [Ha%bool_decide_eq_true [Hv%bool_decide_eq_true Hl]%andb_true_iff]%andb_true_iff]%andb_true_iff.
  split; [apply at_view_1_steps|]. split; [by apply behindb_ok|].
  assert (Hmove : exists now fuel, move S now (MvReceive fuel) (at_view_1 S n) = Ret (Some (catches_up S n))).
  { exists (fun _ => 0), (5 * n)%nat. revert Ha. unfold catches_up.
    destruct (move _ _ _ _) as [[s|]| | |]; [done | discriminate..]. }
  split; [exact Hmove|]. do 2 (split; [done|]). destruct (local _); try done. by destruct (mu _).
Qed.

Lemma announces_inv s n : announces s = Some n -> exists vs, main s = MBusy vs /\ length vs = n.
Proof. unfold announces. destruct (main s) as [| |vs]; try done. intros [= <-]. by exists vs. Qed.

(** One view too many; as many as can be sent. *)
Lemma catching_up_stuck S n s s' t :
  catching_up S n s s' -> (viewCap + 1 < n)%nat -> rtc (lstep S) s' t -> main t <> MWait.
Proof.
  intros (_ & _ & _ & (vs & Hm & Hn)%announces_inv & Hv & Hl & Hmu) Hlt.
  apply (never_completes S overloaded); [apply overloaded_step | by intros ? (_ & ws & ? & _); eauto|].
  unfold overloaded, in_cap, load, holding. rewrite Hv, Hl, Hmu. split; [simpl; cap|]. exists vs.
  split; [done|]. simpl. cap.
Qed.
Lemma catching_up_done S n s s' :
  catching_up S n s s' -> (n <= viewCap + 1)%nat -> exists t, rtc (lstep S) s' t /\ main t = MWait.
Proof.
  intros (_ & _ & _ & (vs & Hm & Hn)%announces_inv & Hv & Hl & Hmu) Hle.
  destruct s' as [r mn lc m lg]. simpl in *. subst. apply finish_select; rewrite Hv; simpl; cap.
Qed.

Example catches_101_102 : forallb (fun S => catchesb S 101 && catchesb S 102) [hotstuff_safety; tchs_safety; fhs_safety] = true.
Proof. vm_compute. reflexivity. Qed.

(** C37.  Catching up: for each of the three protocols there is a reachable state in
    view 1, no view announced and every goroutine at its channel, in which the replica has the
    blocks and the view-change messages of the views 2 to 102 and receives the late one of view 1;
    its event announces 102 views and from then on no schedule ever gets the event loop back to
    its channel.  With one view less, 101 announcements, some schedule completes the event. *)
Theorem catching_up_deadlocks :
  Forall (fun S : Safety =>
    (exists s s', catching_up S 102 s s' /\ forall t, rtc (lstep S) s' t -> main t <> MWait) /\
    (exists s s', catching_up S 101 s s' /\ exists t, rtc (lstep S) s' t /\ main t = MWait))
    [hotstuff_safety; tchs_safety; fhs_safety].
Proof.
  apply List.Forall_forall. intros S HS.
  pose proof (proj1 (forallb_forall _ _) catches_101_102 S HS) as [H1%catchesb_ok H2%catchesb_ok]%andb_true_iff.
  split; eexists _, _; (split; [eassumption|]).
  - intros t. apply (catching_up_stuck _ _ _ _ _ H2). cap.
  - apply (catching_up_done _ _ _ _ H1). cap.
Qed.

Lemma event_completes_witness :
  (forall t, rtc (lstep hotstuff_safety) (catches_up hotstuff_safety 102) t -> main t <> MWait) /\
  exists t, rtc (lstep hotstuff_safety) (catches_up hotstuff_safety 101) t /\ main t = MWait.
Proof.
  pose proof (proj1 (forallb_forall _ _) catches_101_102 hotstuff_safety ltac:(by left))
    as [(_ & _ & _ & (vs1 & Hm1 & Hn1)%announces_inv & Hv1 & Hl1 & Hmu1)%catchesb_ok
        (_ & _ & _ & (vs2 & Hm2 & Hn2)%announces_inv & Hv2 & Hl2 & Hmu2)%catchesb_ok]%andb_true_iff.
  assert (C1 : in_cap (catches_up hotstuff_safety 101)) by (unfold in_cap; rewrite Hv1; simpl; cap).
  assert (C2 : in_cap (catches_up hotstuff_safety 102)) by (unfold in_cap; rewrite Hv2; simpl; cap).
  split.
  - refine (proj1 (event_completes hotstuff_safety _ vs2 C2 Hm2) (or_introl _)).
    unfold load, holding. rewrite Hv2, Hl2, Hmu2. simpl. cap.
  - refine (proj2 (proj2 (event_completes hotstuff_safety _ vs1 C1 Hm1) (or_introl Hl1) (or_introl Hmu1)) _).
    unfold load, holding. rewrite Hv1, Hl1, Hmu1. simpl. cap.
Defined.
End catching_up.
