(* ===== verification/Certified.v ===== *)
(** * Where certificates come from

    For predicates [P] on certificates and [V] on votes that admit what a replica
    builds from votes in [V] and the votes it cast itself, every certificate the
    replica keeps or sends satisfies [P] and every vote in its table [V].  Cluster.v
    instantiates them with what the cluster's nodes have sent. *)

From Stdlib Require Import String.
From stdpp Require Import base gmap strings numbers relations list.
From S2P Require Import Prelude.
From S2P Require Import Identity.
From S2P Require Import Config.
From S2P Require Import Crypto.
From S2P Require Import Election.
From S2P Require Import Message.
From S2P Require Import Mempool.
From S2P Require Import Block.
From S2P Require Import Quorum.
From S2P Require Import Forest.
From S2P Require Import ForestSpec.
From S2P Require Import BlockChain.
From S2P Require Import Pacemaker.
From S2P Require Import Protocol.
From S2P Require Import HotStuff.
From S2P Require Import Tchs.
From S2P Require Import Fhs.
From S2P Require Import Safety.
From S2P Require Import Replica.

Local Open Scope Z_scope.
Local Open Scope go_scope.

(** The votes of a table. *)
Definition votes_in (V : Vote -> Prop) (q : Quorum) : Prop :=
  forall id vs k v, q_votes q !! id = Some vs -> vs !! k = Some v -> V v.

Lemma record_vote_in V vote q : V vote -> votes_in V q -> votes_in V (record_vote vote q).
Proof.
  intros Hv Hq id vs k v H1 H2. unfold record_vote in H1. simpl in H1.
  apply lookup_insert_Some in H1 as [[<- <-]|[_ H1]]; [|by eapply Hq].
  apply lookup_insert_Some in H2 as [[<- <-]|[_ H2]]; [done|].
  unfold votes_for in H2. destruct (q_votes q !! v_BlockID vote) as [vs|] eqn:E; [by eapply Hq|].
  simpl in H2. by rewrite lookup_empty in H2.
Qed.

Lemma quorum_Add_in V cfg vote q r q' :
  V vote -> votes_in V q -> quorum_Add cfg vote q = Ret (r, q') -> votes_in V q'.
Proof.
  intros Hv Hq H. rewrite quorum_Add_run in H. destruct (superMajority _ _ _); ret_inv H; [done|].
  by apply record_vote_in.
Qed.

(** A commit only drops votes. *)
Lemma CommitBlock_votes V id view bc r bc' :
  CommitBlock id view bc = Ret (r, bc') -> votes_in V (quorum bc) -> votes_in V (quorum bc').
Proof.
  intros H Hq. apply CommitBlock_inv in H. destruct (GetVertex (forrest bc) id) as [b|]; [|by destruct H as [_ ->]].
  destruct H as (l & f' & pr & _ & _ & H).
  assert (Hc : votes_in V (quorum (count_all view l (set_highest (b_View b) bc)))).
  { intros i vs k v H1. rewrite count_all_votes in H1. case_bool_decide; [done|]. by eapply Hq. }
  destruct pr as [e|[fk no]]; destruct H as [_ ->]; exact Hc.
Qed.

Lemma CommitBlock_quorum id view bc r bc' :
  CommitBlock id view bc = Ret (r, bc') -> quorum_wf (quorum bc) -> quorum_wf (quorum bc').
Proof.
  intros H Hq. apply CommitBlock_inv in H. destruct (GetVertex (forrest bc) id) as [b|]; [|by destruct H as [_ ->]].
  destruct H as (l & f' & pr & _ & _ & H).
  pose proof (count_all_quorum_wf view l (set_highest (b_View b) bc) Hq).
  by destruct pr as [e|[fk no]]; destruct H as [_ ->].
Qed.

(** ** Blocks of the forest *)

(** Every block a container holds. *)
Definition heap (T : Block -> Prop) (f : LevelledForest) : Prop :=
  forall c b, c ∈ store f -> vc_vertex c = Some b -> T b.
Definition keeps_heap (T : Block -> Prop) (f f' : LevelledForest) : Prop := heap T f -> heap T f'.
#[export] Instance keeps_heap_preorder T : PreOrder (keeps_heap T).
Proof. split; [intros f H; exact H|]. intros a b c H1 H2 H. by apply H2, H1. Qed.

Lemma heap_vertex_at T f l b : heap T f -> vertex_at f l = Some b -> T b.
Proof.
  intros H. unfold vertex_at. destruct (store f !! l) as [c|] eqn:E; [|done]. apply H. by eapply list_elem_of_lookup_2.
Qed.
Lemma heap_GetVertex T f id b : heap T f -> GetVertex f id = Some b -> T b.
Proof.
  intros H. unfold GetVertex, container_of. destruct (vertices f !! id) as [l|]; [|done]. apply (heap_vertex_at T f l b H).
Qed.

Lemma heap_alter (T : Block -> Prop) h l f :
  (forall c b, vc_vertex (h c) = Some b -> vc_vertex c = Some b \/ T b \/ exists b0, vc_vertex c = Some b0 /\ (T b0 -> T b)) ->
  keeps_heap T f (with_store (alter h l (store f)) f).
Proof.
  intros Hh Hf c b (k & Hk)%list_elem_of_lookup Hb. simpl in Hk. rewrite list_lookup_alter in Hk.
  destruct (decide (l = k)) as [->|].
  - apply fmap_Some in Hk as (c0 & Hc0%list_elem_of_lookup_2 & ->).
    destruct (Hh _ _ Hb) as [E|[E|(b0 & E & Hb0)]]; [by eapply Hf | done | by eapply Hb0, Hf].
  - by eapply Hf; [eapply list_elem_of_lookup_2|].
Qed.

Lemma heap_alloc T id level f : keeps_heap T f (alloc id level f).
Proof.
  intros Hf c b Hc Hb. simpl in Hc. apply elem_of_app in Hc as [Hc|Hc]; [by eapply Hf|].
  apply list_elem_of_singleton in Hc as ->. done.
Qed.

Lemma heap_add T b : T b -> preserves (keeps_heap T) (AddVertex b).
Proof.
  intros Hb. assert (Hg : forall id lv, preserves (keeps_heap T) (getOrCreateVertexContainer id lv)).
  { intros id lv. unfold getOrCreateVertexContainer. preserves_auto. apply heap_alloc. }
  unfold AddVertex, registerWithParent, deref. preserves_auto; apply heap_alter; simpl; intros c x; eauto.
  intros [= <-]. eauto.
Qed.

Lemma heap_write (T : Block -> Prop) g id f : (forall b, T b -> T (g b)) -> keeps_heap T f (write_vertex g id f).
Proof.
  intros Hg. unfold write_vertex. destruct (vertices f !! id) as [l|]; [|intros H; exact H].
  apply heap_alter. simpl. intros c b (b0 & E & ->)%fmap_Some. right. right. eauto.
Qed.

(** Pruning leaves the containers alone and reports blocks they hold. *)
Lemma prune_level_heap T cl l vs : forall forked no f r f',
  prune_level cl l vs forked no f = Ret (r, f') -> store f' = store f /\ (heap T f -> Forall T forked -> Forall T r.1).
Proof.
  induction vs as [|v vs IH]; intros forked no f r f' H; simpl in H; [go_inv; split; [done | by intros]|].
  apply bind_ret in H as (c & f1 & Hc & H). unfold deref in Hc. go_inv. unfold lift in Hc.
  destruct (store f !! v) as [c0|] eqn:Ec; simplify_eq/=.
  go_inv. apply IH in H as [-> Hr]. split; [done|]. intros Hf Hk. apply Hr; [exact Hf|]. destruct (_ && _); [|done].
  destruct (vc_vertex c) as [b|] eqn:Eb; [|done]. apply Forall_app. split; [done|]. constructor; [|done].
  eapply Hf; [by eapply list_elem_of_lookup_2 | done].
Qed.
Lemma prune_levels_heap T k cl : forall l forked no f r f',
  prune_levels k cl l forked no f = Ret (r, f') -> store f' = store f /\ (heap T f -> Forall T forked -> Forall T r.1).
Proof.
  induction k as [|k IH]; intros l forked no f r f' H; simpl in H; [go_inv; split; [done | by intros]|].
  go_inv. match goal with Hr : prune_level _ _ _ _ _ _ = Ret (?r1, _) |- _ => destruct r1 as [fk n]; rename Hr into Hp end.
  go_inv. apply IH in H as [-> H2]. apply (prune_level_heap T) in Hp as [E H1].
  simpl in E. split; [done|]. intros Hf Hk. apply H2; [|by apply H1]. unfold heap. simpl. by rewrite E.
Qed.
Lemma PruneUpToLevel_heap T level f r f' : PruneUpToLevel level f = Ret (r, f') ->
  store f' = store f /\ (heap T f -> forall fk no, r = inr (fk, no) -> Forall T fk).
Proof.
  destruct (Z.ltb_spec level (LowestLevel f)) as [Hlt|Hge]; intros H.
  { unfold PruneUpToLevel in H. go_inv. rewrite (proj2 (Z.ltb_lt _ _) Hlt) in *. by go_inv. }
  rewrite PruneUpToLevel_run in H by done. destruct (committed_levels _ _ _ _) as [cl| | |]; try done. simpl in H.
  destruct (prune_levels _ _ _ _ _ _) as [[r1 f1]| | |] eqn:Hp; try done. injection H as <- <-.
  apply (prune_levels_heap T) in Hp as [E H1]. split; [done|]. intros Hf fk no [= ->]. by apply (H1 Hf).
Qed.

(** What a commit returns. *)
Definition commits (T : Block -> Prop) (r : error + (list Block * list Block)) : Prop :=
  match r with inl _ => True | inr (l, forked) => Forall T l /\ Forall T forked end.

Lemma commit_chain_heap T f b l : heap T f -> T b -> commit_chain f b l -> Forall T l.
Proof.
  intros Hf Hb Hl. induction Hl as [b|b|b p l ? Hp Hl IH]; [constructor | by repeat constructor |].
  constructor; [done|]. exact (IH (heap_GetVertex T _ _ _ Hf Hp)).
Qed.

Lemma CommitBlock_heap T id view bc r bc' :
  CommitBlock id view bc = Ret (r, bc') -> heap T (forrest bc) -> heap T (forrest bc') /\ commits T r.
Proof.
  intros H Hf. apply CommitBlock_inv in H. destruct (GetVertex (forrest bc) id) as [b|] eqn:Hb; [|by destruct H as [-> ->]].
  destruct H as (l & f' & pr & Hch & Hp & H). apply (PruneUpToLevel_heap T) in Hp as [E Hk].
  assert (Hf' : heap T f') by (unfold heap; by rewrite E).
  destruct pr as [e|[fk no]]; destruct H as [-> ->]; (split; [exact Hf'|]); [done|]. split; [|by eapply Hk].
  eapply commit_chain_heap; [exact Hf | exact (heap_GetVertex T _ _ _ Hf Hb) | done].
Qed.

Lemma mark_heightest_all (T : Block -> Prop) l :
  (forall b, T b -> T (mark_commit b)) -> Forall T l -> Forall T (mark_heightest l).
Proof.
  intros Hm Hl. unfold mark_heightest. destruct (heightest l) as [h|]; [|done]. apply Forall_fmap.
  eapply Forall_impl; [done|]. intros b Hb. simpl. destruct (decide _); auto.
Qed.

(** ** Messages of the pacemaker *)

Definition msgs_in {A} (T : A -> Prop) (c : Controller A) : Prop :=
  forall view ms k m, ctl_timeouts c !! view = Some ms -> ms !! k = Some m -> T m.

Lemma record_msg_in {A} {TM : TimeoutMsg A} (T : A -> Prop) m c : T m -> msgs_in T c -> msgs_in T (record_msg m c).
Proof.
  intros Hm Hc view ms k x H1 H2. simpl in H1. apply lookup_insert_Some in H1 as [[_ <-]|[_ H1]]; [|by eapply Hc].
  apply lookup_insert_Some in H2 as [[_ <-]|[_ H2]]; [done|]. unfold requests in H2.
  destruct (ctl_timeouts c !! msg_View m) as [old|] eqn:E; [by eapply Hc|]. simpl in H2. by rewrite lookup_empty in H2.
Qed.
Lemma ctl_add_in {A C} {TM : TimeoutMsg A} (T : A -> Prop) (mk : Z -> gmap NodeID A -> C) m c r c' :
  T m -> ctl_add mk m c = Ret (r, c') -> msgs_in T c -> msgs_in T c'.
Proof.
  intros Hm H Hc. rewrite ctl_add_run in H. destruct (ctl_superMajority c _); [by injection H as _ <-|].
  injection H as _ <-. by apply record_msg_in.
Qed.

(** What is logged stays logged. *)
Definition outbox_grows (s s' : Proto) : Prop := outbox s `prefix_of` outbox s'.
#[export] Instance outbox_grows_preorder : PreOrder outbox_grows.
Proof. split; [intros s; unfold outbox_grows; done|]. intros a b c. unfold outbox_grows. by apply transitivity. Qed.
#[export] Instance outbox_grows_rframe {EV : Env} : ReplicaFrame outbox_grows.
Proof.
  split; [apply (frame_weaken grows); [by intros s s' []|apply _|apply _]| |intros; unfold outbox_grows; done..].
  intros b _ s r s' H. unfold Broadcast in H. go_inv. unfold outbox_grows. simpl. by apply prefix_app_r.
Qed.

Lemma outbox_grows_same s s' : outbox s = outbox s' -> outbox_grows s s'.
Proof. unfold outbox_grows. by intros ->. Qed.
#[export] Hint Resolve outbox_grows_same : bamboo.

Definition ok_opt (P : QC -> Prop) (o : option QC) : Prop := forall qc, o = Some qc -> P qc.

Section certified.
Context {EV : Env} (F : Proto) (P : QC -> Prop) (V : Vote -> Prop).

Definition ok_block (b : Block) : Prop := ok_opt P (b_QC b).
Definition ok_msg (m : Msg) : Prop :=
  match m with
  | MVote v => v_Voter v = me
  | MTmo t => ok_opt P (tmo_HighQC t)
  | MVmo v => ok_opt P (vmo_HighQC v)
  | MBlock b => ok_block b
  end.
Definition ok_out (o : Out) : Prop :=
  match o with OBroadcast (MVote _) => False | OSend _ m | OBroadcast m => ok_msg m | OKeep v => v_Voter v = me end.

(** Every certificate a replica holds satisfies [P], every vote in its table
    [V], and what it sent is of that kind. *)
Record certified (s : Proto) : Prop := mkCertified {
  ct_high : P (highQC s);
  ct_qcs : forall id qc, bufferedQCs s !! id = Some qc -> P qc;
  ct_buffered : forall k b, bufferedBlocks s !! k = Some b -> ok_block b;
  ct_received : forall k b, recivedBlock s !! k = Some b -> ok_block b;
  ct_vmos : forall k v, recivedVMO s !! k = Some v -> ok_opt P (vmo_HighQC v);
  ct_stored : heap ok_block (forrest (bc s));
  ct_committed : Forall ok_block (committedBlocks s);
  ct_forked : Forall ok_block (forkedBlocks s);
  ct_timeouts : msgs_in (fun t => ok_opt P (tmo_HighQC t)) (timeoutController (pm s));
  ct_changes : msgs_in (fun v => ok_opt P (vmo_HighQC v)) (viewChangeController (pm s));
  ct_wf : quorum_wf (quorum (bc s));
  ct_votes : votes_in V (quorum (bc s));
  ct_outbox : Forall ok_out (outbox s) }.

Lemma certified_new n : P genesisQC -> certified (newProto n).
Proof.
  intros HP. split; simpl; try done; try (intros *; rewrite lookup_empty; done).
  intros c b Hc. by apply elem_of_nil in Hc.
Qed.

(** What [P] and [V] have to admit: a certificate built here from votes in [V],
    and the votes the replica has cast with itself by the end of the run. *)
Definition admits_built : Prop := forall q vote qc q', quorum_wf q -> votes_in V q' ->
  quorum_Add env_cfg vote q = Ret (true, Some qc, q') -> P (set_Leader me qc).
Definition admits_own : Prop := forall v, v_Voter v = me -> OKeep v ∈ outbox F -> V v.

Context (P_built : admits_built) (V_own : admits_own).

(** ** The effects *)

Ltac effect := intros s a s' Hs H; unfold advanceView, emit, mark_stored, write_stored, unbufferQC,
  unbufferBlock, dropVMO, dropBlock, addBlock, AddBlock in H; go_inv; (split; [destruct Hs|done]).

Lemma ct_advance view : triple outbox_grows F certified (advanceView view) (fun _ => True).
Proof.
  intros s a s' [] H. unfold advanceView in H. go_inv. split; [|done].
  match goal with Ha : AdvanceView _ _ = _ |- _ => rewrite AdvanceView_run in Ha; injection Ha as _ <- end.
  destruct (view <? _); by split.
Qed.
Lemma ct_tmo t : ok_opt P (tmo_HighQC t) ->
  triple outbox_grows F certified (zoom pm set_pm (pm_ProcessRemoteTmo t)) (fun _ => True).
Proof.
  intros Ht s a s' [] H. unfold pm_ProcessRemoteTmo in H. go_inv. split; [|done].
  destruct (tmo_View t <? _); go_inv; [by split|]. split; simpl; try done. by eapply ctl_add_in.
Qed.
Lemma ct_vmo v : ok_opt P (vmo_HighQC v) ->
  triple outbox_grows F certified (zoom pm set_pm (pm_ProcessRemoteVmo v)) (fun _ => True).
Proof.
  intros Hv s a s' [] H. unfold pm_ProcessRemoteVmo in H. go_inv. split; [|done].
  destruct (vmo_View v <? _); go_inv; [by split|]. split; simpl; try done. by eapply ctl_add_in.
Qed.
Lemma ct_addBlock b : ok_block b -> triple outbox_grows F certified (addBlock b) (fun _ => True).
Proof. intros Hb. effect. split; simpl; try done. by eapply heap_add. Qed.
Lemma ct_emit l k : commits ok_block (inr (l, k)) -> triple outbox_grows F certified (emit l k) (fun _ => True).
Proof. intros [Hl Hk]. effect. split; simpl; try done; by apply Forall_app. Qed.
Lemma ct_emit_marked l k :
  commits ok_block (inr (l, k)) -> triple outbox_grows F certified (emit (mark_heightest l) k) (fun _ => True).
Proof. intros []. apply ct_emit. split; [|done]. by apply mark_heightest_all. Qed.
Lemma ct_mark id : triple outbox_grows F certified (mark_stored id) (fun _ => True).
Proof. effect. split; simpl; try done. by apply heap_write. Qed.
Lemma ct_commit id view : triple outbox_grows F certified (commitBlock id view) (commits ok_block).
Proof.
  intros s a s' [] H. unfold commitBlock in H. go_inv.
  match goal with Hc : CommitBlock _ _ _ = _ |- _ => rename Hc into Hcb end.
  destruct (CommitBlock_heap ok_block _ _ _ _ _ Hcb) as [Hh Hr]; [done|]. split; [|done].
  split; simpl; try done; [by eapply CommitBlock_quorum | by eapply CommitBlock_votes].
Qed.
Lemma ct_prefer view : triple outbox_grows F certified (modify (set_preferredView view)) (fun _ => True).
Proof. effect. by split. Qed.
Lemma ct_unbufferQC id : triple outbox_grows F certified (unbufferQC id) (fun _ => True).
Proof. effect. split; simpl; try done. intros i qc [_ ?]%lookup_delete_Some. eauto. Qed.
Lemma ct_unbufferBlock k : triple outbox_grows F certified (unbufferBlock k) (fun _ => True).
Proof. effect. split; simpl; try done. intros i qc [_ ?]%lookup_delete_Some. eauto. Qed.
Lemma ct_dropVMO k : triple outbox_grows F certified (dropVMO k) (fun _ => True).
Proof. effect. split; simpl; try done. intros i qc [_ ?]%lookup_delete_Some. eauto. Qed.
Lemma ct_dropBlock k : triple outbox_grows F certified (dropBlock k) (fun _ => True).
Proof. effect. split; simpl; try done. intros i qc [_ ?]%lookup_delete_Some. eauto. Qed.

Lemma ct_highQC qc : P qc -> triple outbox_grows F certified (updateHighQC qc) (fun _ => True).
Proof.
  intros HP s a s' Hs H. unfold updateHighQC, get, when in H. go_inv. split; [|done].
  destruct (_ <? _); go_inv; [|done]. destruct Hs. by split.
Qed.
Lemma ct_bufferQC qc : P qc -> triple outbox_grows F certified (bufferQC qc) (fun _ => True).
Proof.
  intros HP. apply triple_modify. intros s []. split; simpl; try done.
  intros i q [[_ <-]|[_ ?]]%lookup_insert_Some; eauto.
Qed.
Lemma ct_bufferBlock b : ok_block b -> triple outbox_grows F certified (bufferBlock b) (fun _ => True).
Proof.
  intros HP. apply triple_modify. intros s []. split; simpl; try done.
  intros i q [[_ <-]|[_ ?]]%lookup_insert_Some; eauto.
Qed.
Lemma ct_receiveBlock b : ok_block b -> triple outbox_grows F certified (receiveBlock b) (fun _ => True).
Proof.
  intros HP. apply triple_modify. intros s []. split; simpl; try done.
  intros i q [[_ <-]|[_ ?]]%lookup_insert_Some; eauto.
Qed.
Lemma ct_receiveVMO v : ok_opt P (vmo_HighQC v) -> triple outbox_grows F certified (receiveVMO v) (fun _ => True).
Proof.
  intros HP. apply triple_modify. intros s []. split; simpl; try done.
  intros i q [[_ <-]|[_ ?]]%lookup_insert_Some; eauto.
Qed.
Lemma ct_out o : ok_out o -> triple outbox_grows F certified (modify (push_out o)) (fun _ => True).
Proof.
  intros Ho. apply triple_modify. intros s []. split; simpl; try done.
  apply Forall_app. split; [done | by constructor].
Qed.
Lemma ct_send_vmo to view id o : ok_opt P o -> triple outbox_grows F certified (Send to (MVmo (mkVMO view id o))) (fun _ => True).
Proof. intros Ho. apply ct_out. done. Qed.
Lemma ct_bcast_tmo view id o : ok_opt P o -> triple outbox_grows F certified (Broadcast (MTmo (mkTMO view id o))) (fun _ => True).
Proof. intros Ho. apply ct_out. done. Qed.
Lemma ct_bcast_vmo view id o : ok_opt P o -> triple outbox_grows F certified (Broadcast (MVmo (mkVMO view id o))) (fun _ => True).
Proof. intros Ho. apply ct_out. done. Qed.
Lemma MakeVote_voter view id v : MakeVote view me id = Ret v -> v_Voter v = me.
Proof. unfold MakeVote. by destruct (PrivSign _ _ _ _) as [[e|sig]| | |]; intros [= <-]. Qed.
Lemma ct_keep view id v : MakeVote view me id = Ret v -> triple outbox_grows F certified (keepVote v) (fun _ => V v).
Proof.
  intros Hv s a s' Hs H Hend. pose proof (MakeVote_voter _ _ _ Hv).
  destruct (ct_out (OKeep v) ltac:(done) s a s' Hs H Hend) as [Hs' _]. split; [done|]. apply V_own; [done|].
  unfold keepVote in H. go_inv. destruct Hend as [k Hk]. rewrite Hk. simpl. set_solver.
Qed.
Lemma ct_send_vote view id to v : MakeVote view me id = Ret v -> triple outbox_grows F certified (Send to (MVote v)) (fun _ => True).
Proof. intros Hv. apply ct_out. simpl. by eapply MakeVote_voter. Qed.

(** A recorded vote may complete a certificate. *)
Lemma ct_addVote vote : V vote -> triple outbox_grows F certified (addVote vote)
  (fun r => forall qc, r = (true, Some qc) -> P (set_Leader me qc)).
Proof.
  intros Hv s r s' [] H. unfold addVote, AddVote in H. go_inv.
  match goal with Hq : quorum_Add _ _ _ = _ |- _ => rename Hq into Hadd end.
  pose proof (quorum_Add_in V _ _ _ _ _ Hv ct_votes0 Hadd) as Hin.
  split; [split; simpl; try done; by eapply quorum_Add_wf|]. intros qc ->. by eapply P_built.
Qed.

Lemma ok_block_qc b qc : ok_block b -> b_QC b = Some qc -> P qc.
Proof. intros Hb. apply Hb. Qed.
Lemma ok_opt_qc o qc : ok_opt P o -> o = Some qc -> P qc.
Proof. intros Ho. apply Ho. Qed.
Lemma ok_opt_some qc : P qc -> ok_opt P (Some qc).
Proof. by intros HP ? [= <-]. Qed.
Lemma of_option_some {A} (o : option A) a : of_option o = Ret a -> o = Some a.
Proof. destruct o; [by intros [= ->]|done]. Qed.

#[local] Hint Resolve ct_advance ct_tmo ct_vmo ct_keep ct_addBlock ct_emit ct_emit_marked ct_mark ct_commit ct_prefer ct_unbufferQC ct_unbufferBlock
  ct_dropVMO ct_dropBlock ct_highQC ct_bufferQC ct_bufferBlock ct_receiveBlock ct_receiveVMO ct_send_vmo
  ct_bcast_tmo ct_bcast_vmo ct_send_vote
  ct_addVote ok_block_qc ok_opt_qc ok_opt_some of_option_some ct_high ct_qcs ct_buffered ct_vmos : bamboo.

(** ** The shared code *)

Lemma ct_enter : triple outbox_grows F certified enter_first_view (fun _ => True).
Proof. unfold enter_first_view, curViewM. triple_auto. Qed.
Lemma ct_check b : triple outbox_grows F certified (check_block_sig b) (fun _ => True).
Proof. unfold check_block_sig. triple_auto. Qed.
Lemma ct_verified qc : triple outbox_grows F certified (quorumIsVerified qc) (fun _ => True).
Proof. unfold quorumIsVerified. triple_auto. Qed.
Lemma ct_collect t : ok_opt P (tmo_HighQC t) -> triple outbox_grows F certified (collectTmo t) (fun _ => True).
Proof. intros Ht. unfold collectTmo, processTC, curViewM. triple_auto. Qed.
Lemma ct_localTmo view : triple outbox_grows F certified (localTmo view) (fun t => ok_opt P (tmo_HighQC t)).
Proof.
  unfold localTmo, get. triple_auto.
Qed.
#[local] Hint Resolve ct_enter ct_check ct_verified ct_collect ct_localTmo : bamboo.

Section blocks.
Context (pb : Block -> M Proto (option error)).
Context (Hpb : forall b, ok_block b -> triple outbox_grows F certified (pb b) (fun _ => True)).
Context (Hgrow : forall b, preserves outbox_grows (pb b)).

Lemma ct_vmoAndBlock view : triple outbox_grows F certified (vmoAndBlock pb view) (fun _ => True).
Proof. unfold vmoAndBlock, get. triple_auto. Qed.

Lemma ct_remoteVmo fuel pre : preserves outbox_grows pre -> triple outbox_grows F certified pre (fun _ => True) ->
  forall v, ok_opt P (vmo_HighQC v) -> triple outbox_grows F certified (remoteVmo fuel pre pb v) (fun _ => True).
Proof.
  intros Hp Hpre. pose proof ct_vmoAndBlock.
  induction fuel as [|fuel IH]; intros v Hv; simpl; [apply triple_outOfFuel|].
  unfold remoteVc, curViewM, get. triple_auto.
Qed.

Lemma ct_localVmo fuel pre view : preserves outbox_grows pre ->
  triple outbox_grows F certified pre (fun _ => True) -> triple outbox_grows F certified (localVmo fuel pre pb view) (fun _ => True).
Proof.
  intros Hp Hpre. pose proof (ct_remoteVmo fuel pre Hp Hpre). unfold localVmo, get. triple_auto.
Qed.
End blocks.
#[local] Hint Resolve ct_vmoAndBlock ct_remoteVmo ct_localVmo : bamboo.

Lemma ct_twoChainStep b qc : triple outbox_grows F certified (twoChainStep b qc) (fun _ => True).
Proof. unfold twoChainStep, twoChainRule, curViewM, get. triple_auto. Qed.

(** ** The three protocols *)

Lemma built_qc (b : bool) (o : option QC) qc :
  (forall qc, (b, o) = (true, Some qc) -> P (set_Leader me qc)) -> negb b = false -> of_option o = Ret qc ->
  P (set_Leader me qc).
Proof. intros H Hb Ho. apply H. apply of_option_some in Ho as ->. by destruct b. Qed.
#[local] Hint Resolve ct_twoChainStep built_qc twoChainStep_frame HotStuff.hs_processCertificate_frame HotStuff.hs_processVote_frame
  HotStuff.hs_ProcessBlock_frame Tchs.tchs_processCertificate_frame Tchs.tchs_processVote_frame
  Tchs.tchs_ProcessBlock_frame Tchs.forkChoice_frame
  Fhs.fhs_processCertificate_frame Fhs.fhs_processVote_frame Fhs.fhs_ProcessBlock_frame : bamboo.

Lemma ct_hs_certificate qc : P qc -> triple outbox_grows F certified (HotStuff.processCertificate qc) (fun _ => True).
Proof.
  intros HP. unfold HotStuff.processCertificate, HotStuff.updatePreferredView, HotStuff.commitRule, curViewM, get.
  triple_auto.
Qed.
Lemma ct_tchs_certificate qc : P qc -> triple outbox_grows F certified (Tchs.processCertificate qc) (fun _ => True).
Proof. intros HP. unfold Tchs.processCertificate, Tchs.updatePreferredView, get. triple_auto. Qed.
Lemma ct_fhs_certificate qc : P qc -> triple outbox_grows F certified (Fhs.processCertificate qc) (fun _ => True).
Proof. intros HP. unfold Fhs.processCertificate, Fhs.updatePreferredView, curViewM, get. triple_auto. Qed.
#[local] Hint Resolve ct_hs_certificate ct_tchs_certificate ct_fhs_certificate : bamboo.

Section votes.
Context (fuel : nat) (pb : Block -> M Proto (option error)).
Context (Hpb : forall b, ok_block b -> triple outbox_grows F certified (pb b) (fun _ => True)).
Context (Hgrow : forall b, preserves outbox_grows (pb b)).

Lemma ct_hs_vote v : V v -> triple outbox_grows F certified (HotStuff.processVote fuel pb v) (fun _ => True).
Proof. intros Hv. unfold HotStuff.processVote, HotStuff.voteIsVerified, curViewM, get. triple_auto. Qed.
Lemma ct_tchs_vote v : V v -> triple outbox_grows F certified (Tchs.processVote fuel pb v) (fun _ => True).
Proof. intros Hv. unfold Tchs.processVote, Tchs.voteIsVerified, curViewM, get. triple_auto. Qed.
Lemma ct_fhs_vote v : V v -> triple outbox_grows F certified (Fhs.processVote fuel pb v) (fun _ => True).
Proof. intros Hv. unfold Fhs.processVote, Fhs.voteIsVerified, curViewM, get. triple_auto. Qed.
End votes.
#[local] Hint Resolve ct_hs_vote ct_tchs_vote ct_fhs_vote : bamboo.

Lemma ct_hs_block fuel : forall b, ok_block b -> triple outbox_grows F certified (HotStuff.ProcessBlock fuel b) (fun _ => True).
Proof.
  induction fuel as [|fuel IH]; intros b Hb; simpl; [apply triple_outOfFuel|].
  unfold curViewM, get, HotStuff.votingRule. triple_auto.
Qed.
Lemma ct_tchs_block fuel : forall b, ok_block b -> triple outbox_grows F certified (Tchs.ProcessBlock fuel b) (fun _ => True).
Proof.
  induction fuel as [|fuel IH]; intros b Hb; simpl; [apply triple_outOfFuel|].
  unfold curViewM, get, Tchs.votingRule, Tchs.commitStep. triple_auto.
Qed.
Lemma ct_fhs_block fuel : forall b, ok_block b -> triple outbox_grows F certified (Fhs.ProcessBlock fuel b) (fun _ => True).
Proof.
  induction fuel as [|fuel IH]; intros b Hb; simpl; [apply triple_outOfFuel|].
  unfold curViewM, get, Fhs.votingRule, Fhs.commitStep. triple_auto.
Qed.

Lemma MakeBlock_ok view qc prev payload mali k h b :
  ok_opt P qc -> MakeBlock view qc prev payload me mali k h = Ret b -> ok_block b.
Proof. intros Hq H. destruct (MakeBlock_fields _ _ _ _ _ _ _ _ _ H) as (_ & E & _). unfold ok_block. by rewrite E. Qed.

(** An honest leader proposes on its highest certificate. *)
Lemma ct_makeBlock view qc prev payload mali k h : P qc ->
  triple outbox_grows F certified (lift (MakeBlock view (Some qc) prev payload me mali k h)) ok_block.
Proof. intros HP s b s' Hs H. unfold lift in H. destruct (MakeBlock _ _ _ _ _ _ _ _) eqn:E; simplify_eq.
  split; [done|]. eapply MakeBlock_ok; [|done]. by apply ok_opt_some.
Qed.
#[local] Hint Resolve ct_hs_block ct_tchs_block ct_fhs_block ct_makeBlock : bamboo.

(** ** The promise of a protocol *)

Record certifies (S : Safety) : Prop := {
  cf_block fuel b : ok_block b -> triple outbox_grows F certified (ProcessBlock fuel b) (fun _ => True);
  cf_vote fuel v : V v -> triple outbox_grows F certified (ProcessVote fuel v) (fun _ => True);
  cf_tmo t : ok_opt P (tmo_HighQC t) -> triple outbox_grows F certified (ProcessRemoteTmo t) (fun _ => True);
  cf_localTmo view : triple outbox_grows F certified (ProcessLocalTmo view) (fun _ => True);
  cf_proposal view p : IsByz = false -> triple outbox_grows F certified (MakeProposal view p) ok_block;
  cf_vmo fuel v : ok_opt P (vmo_HighQC v) -> triple outbox_grows F certified (ProcessRemoteVmo fuel v) (fun _ => True) }.

Lemma ct_hs_choice : IsByz = false ->
  triple outbox_grows F certified HotStuff.forkChoice (fun r => exists qc, P qc /\ r = (Some qc, r.1.2, r.2)).
Proof. intros H. unfold HotStuff.forkChoice, get. rewrite H. simpl. triple_auto. Qed.
Lemma ct_tchs_choice : IsByz = false ->
  triple outbox_grows F certified Tchs.forkChoice (fun r => exists qc, P qc /\ r = (Some qc, r.1.2, r.2)).
Proof. intros H. unfold Tchs.forkChoice, get. rewrite H. simpl. triple_auto. Qed.
Lemma ct_fhs_choice : triple outbox_grows F certified Fhs.forkChoice (fun r => P r.1).
Proof. unfold Fhs.forkChoice, get. triple_auto. all: simpl; eauto with bamboo. Qed.

Lemma hotstuff_certifies : certifies hotstuff_safety.
Proof.
  pose proof (law_tmo (S := hotstuff_safety) outbox_grows _) as Hgrow. simpl in Hgrow.
  assert (Htmo : forall t, ok_opt P (tmo_HighQC t) -> triple outbox_grows F certified (HotStuff.ProcessRemoteTmo t) (fun _ => True))
    by (intros t Ht; unfold HotStuff.ProcessRemoteTmo; triple_auto).
  split; simpl; unfold HotStuff.ProcessVote, HotStuff.ProcessLocalTmo, HotStuff.ProcessRemoteVmo; intros; triple_auto.
  unfold HotStuff.MakeProposal. eapply triple_bind; [typeclasses eauto | by apply ct_hs_choice | intros; preserves_auto|].
  intros [[o k] z] (qc & HP & [= ->]). triple_auto.
Qed.
Lemma tchs_certifies : certifies tchs_safety.
Proof.
  pose proof (law_tmo (S := tchs_safety) outbox_grows _) as Hgrow. simpl in Hgrow.
  assert (Htmo : forall t, ok_opt P (tmo_HighQC t) -> triple outbox_grows F certified (Tchs.ProcessRemoteTmo t) (fun _ => True))
    by (intros t Ht; unfold Tchs.ProcessRemoteTmo, curViewM; triple_auto).
  split; simpl; unfold Tchs.ProcessVote, Tchs.ProcessLocalTmo, Tchs.ProcessRemoteVmo; intros; triple_auto.
  unfold Tchs.MakeProposal. eapply triple_bind; [typeclasses eauto | by apply ct_tchs_choice | intros; preserves_auto|].
  intros [[o k] z] (qc & HP & [= ->]). triple_auto.
Qed.
Lemma fhs_certifies : certifies fhs_safety.
Proof.
  pose proof (law_tmo (S := fhs_safety) outbox_grows _) as Hgrow. simpl in Hgrow.
  split; simpl; unfold Fhs.ProcessVote, Fhs.ProcessLocalTmo, Fhs.ProcessRemoteTmo, Fhs.ProcessRemoteVmo; intros; triple_auto.
  unfold Fhs.MakeProposal. eapply triple_bind; [typeclasses eauto | apply ct_fhs_choice | intros; preserves_auto|]. intros [qc k] HP. triple_auto.
Qed.
End certified.

(** The promise, for every choice of the two predicates. *)
Class CertifiedLaws {EV : Env} (S : Safety) : Prop :=
  certified_law F P V : admits_built P V -> admits_own F V -> certifies F P V S.
#[export] Instance hotstuff_certified {EV : Env} : CertifiedLaws hotstuff_safety.
Proof. intros F P V. apply hotstuff_certifies. Qed.
#[export] Instance tchs_certified {EV : Env} : CertifiedLaws tchs_safety.
Proof. intros F P V. apply tchs_certifies. Qed.
#[export] Instance fhs_certified {EV : Env} : CertifiedLaws fhs_safety.
Proof. intros F P V. apply fhs_certifies. Qed.

(** ** The replica *)

Section replica.
Context {EV : Env} {B : BitSet} (F : Replica) (P : QC -> Prop) (V : Vote -> Prop).
Context (S : Safety) {SL : SafetyLaws S} (HS : certifies (proto F) P V S).

Definition ok_event (e : REvent) : Prop :=
  match e with
  | REView _ => True
  | REBlock b => ok_block P b
  | REVote v => V v
  | RETmo t => ok_opt P (tmo_HighQC t)
  | REVmo v => ok_opt P (vmo_HighQC v)
  end.
Record rcertified (r : Replica) : Prop := mkRCertified {
  rc_proto : certified P V (proto r);
  rc_events : Forall ok_event (eventChan r) }.

Definition ok_label (l : Label) : Prop :=
  match l with
  | LBlock b => ok_block P b
  | LVote v => V v
  | LTmo t => ok_opt P (tmo_HighQC t)
  | LVmo v => ok_opt P (vmo_HighQC v)
  | _ => True
  end.

Lemma rc_onProto {A} (m : M Proto A) Q : triple outbox_grows (proto F) (certified P V) m Q -> triple (onR outbox_grows) F rcertified (onProto m) Q.
Proof.
  intros Hm r a r' [Hp He] H HF. unfold onProto in H. go_inv.
  match goal with Hr : m _ = _ |- _ => destruct (Hm _ _ _ Hp Hr HF) end. by split; [split|].
Qed.
Lemma rc_onPool {A} (m : M Backend A) : triple (onR outbox_grows) F rcertified (onPool m) (fun _ => True).
Proof. intros r a r' [Hp He] H. unfold onPool in H. go_inv. by split; [split|]. Qed.
Lemma rc_count f : triple (onR outbox_grows) F rcertified (count f) (fun _ => True).
Proof. apply triple_modify. intros r []. by split. Qed.
Lemma rc_start now : triple (onR outbox_grows) F rcertified (startSignal now) (fun _ => True).
Proof.
  intros r a r' [] H. split; [|done]. unfold startSignal, count in H. go_inv. destruct (isStarted r); go_inv; by split.
Qed.
Lemma rc_reply q : triple (onR outbox_grows) F rcertified (modify (push_reply q)) (fun _ => True).
Proof. apply triple_modify. intros r []. by split. Qed.
Lemma rc_enqueue e : ok_event e -> triple (onR outbox_grows) F rcertified (enqueue e) (fun _ => True).
Proof.
  intros He. apply triple_modify. intros r []. split; [done|]. simpl. apply Forall_app. split; [done | by constructor].
Qed.
Lemma rc_curView : triple (onR outbox_grows) F rcertified rCurView (fun _ => True).
Proof. apply rc_onProto. unfold curViewM. eapply triple_weaken; [|apply triple_gets]. done. Qed.
#[local] Hint Resolve onProto_frame onPool_frame count_frame enqueue_frame startSignal_frame reply_frame rCurView_frame
  processNewView_frame : bamboo.
Lemma onR_same (r r' : Replica) : proto r = proto r' -> onR outbox_grows r r'.
Proof. intros E. unfold onR. by rewrite E. Qed.
#[local] Hint Resolve onR_same : bamboo.
#[local] Hint Extern 1 (ReplicaFrame _) => typeclasses eauto : bamboo.
#[local] Hint Resolve rc_onProto rc_onPool rc_count rc_start rc_reply rc_enqueue rc_curView ct_advance cf_block cf_vote
  cf_tmo cf_localTmo cf_vmo : bamboo.

(** What the listeners do to the protocol state keeps its certificates. *)
Lemma rc_channels :
  triple outbox_grows (proto F) (certified P V) (modify take_view) (fun _ => True) /\
  (forall l, Forall (ok_block P) l -> triple outbox_grows (proto F) (certified P V) (modify (set_committed l)) (fun _ => True)) /\
  (forall l, Forall (ok_block P) l -> triple outbox_grows (proto F) (certified P V) (modify (set_forked l)) (fun _ => True)).
Proof. split_and!; intros; apply triple_modify; intros s []; by split. Qed.
Lemma rest_committed r b l : rcertified r -> committedBlocks (proto r) = b :: l -> Forall (ok_block P) l.
Proof. intros [Hp _] E. pose proof (ct_committed _ _ _ Hp) as H. rewrite E in H. by inv H. Qed.
Lemma rest_forked r b l : rcertified r -> forkedBlocks (proto r) = b :: l -> Forall (ok_block P) l.
Proof. intros [Hp _] E. pose proof (ct_forked _ _ _ Hp) as H. rewrite E in H. by inv H. Qed.
#[local] Hint Resolve rest_committed rest_forked : bamboo.

Lemma rc_propose fuel now view :
  IsByz = false -> triple (onR outbox_grows) F rcertified (proposeBlock S fuel now view) (fun _ => True).
Proof.
  intros Hbyz. pose proof (law_block (S := S) outbox_grows _). pose proof (fun b => rf_block (R := outbox_grows) b Hbyz).
  pose proof (law_proposal (S := S) outbox_grows _).
  unfold proposeBlock. do 2 triple_step.
  eapply triple_bind; [typeclasses eauto | apply rc_onProto, (cf_proposal _ _ _ _ HS); done | intros; preserves_auto|].
  intros b Hb. assert (Hb' : ok_block P (set_BlockTimestamp (now 2%nat) b)) by exact Hb.
  assert (Hout : triple outbox_grows (proto F) (certified P V) (Broadcast (MBlock (set_BlockTimestamp (now 2%nat) b))) (fun _ => True))
    by (by apply ct_out).
  triple_auto.
Qed.

Lemma rc_event fuel now : triple (onR outbox_grows) F rcertified (eventLoop S fuel now) (fun _ => True).
Proof.
  unfold eventLoop. apply triple_bind_gets. intros r [Hp He].
  destruct (eventChan r) as [|e rest]; [eauto with bamboo|]. apply Forall_cons in He as [He Hrest].
  pose proof (law_block (S := S) outbox_grows _). pose proof (law_vote (S := S) outbox_grows _).
  pose proof (law_tmo (S := S) outbox_grows _). pose proof (law_vmo (S := S) outbox_grows _).
  eapply (triple_bind _ _ _ _ _ (fun _ => True)); [by apply triple_modify; intros r1 []; split | |].
  { intros ?. preserves_auto. }
  intros _ _. pose proof (rc_propose fuel now). destruct e; simpl in He; unfold processNewView; triple_auto.
Qed.

Lemma perform_certified now l :
  ok_label l -> triple (onR outbox_grows) F rcertified (perform S now l) (fun _ => True).
Proof.
  intros Hl. destruct rc_channels as (? & ? & ?). pose proof (rc_event).
  pose proof (law_localTmo (S := S) outbox_grows _).
  destruct l; simpl in *; unfold HandleBlock, HandleVote, HandleTmo, HandleVmo, handleTxn, handleQuery, listenStart, listenNewView,
    listenTimer, listenCommitted, listenForked, processCommittedBlock, processForkedBlock; triple_auto.
Qed.
End replica.

(** The predicates may be weakened. *)
Lemma certified_mono {EV : Env} (P P' : QC -> Prop) (V V' : Vote -> Prop) s :
  (forall qc, P qc -> P' qc) -> (forall v, V v -> V' v) -> certified P V s -> certified P' V' s.
Proof.
  intros HP HV []. assert (Ho : forall o, ok_opt P o -> ok_opt P' o) by (intros o Ho qc E; auto).
  assert (Hb : forall b, ok_block P b -> ok_block P' b) by (intros b; apply Ho).
  split; eauto using Forall_impl.
  - intros c b H1 H2. eauto.
  - intros view ms k t E1 E2. eauto.
  - intros view ms k t E1 E2. eauto.
  - intros id vs k v E1 E2. eauto.
  - eapply Forall_impl; [done|]. intros [to [v|t|v|b]|[v|t|v|b]|v]; simpl; auto.
Qed.
Lemma rcertified_mono {EV : Env} {B : BitSet} (P P' : QC -> Prop) (V V' : Vote -> Prop) r :
  (forall qc, P qc -> P' qc) -> (forall v, V v -> V' v) -> rcertified P V r -> rcertified P' V' r.
Proof.
  intros HP HV [Hp He]. split; [by eapply certified_mono|]. eapply Forall_impl; [done|].
  intros []; simpl; auto; intros Ho qc E; auto.
Qed.
