(* ===== verification/Node.v ===== *)
(** * The node (node/node.go, node/http.go)

    The node connects the socket with the replica: it receives values, sorts them
    into two channels, and hands each to the function registered for its dynamic
    type; its HTTP handlers feed transactions, queries and faults.  A value of
    [interface{}] is nil, a struct or a pointer to a struct ([GoValue]); dispatch
    goes by the printed type name, so a struct and a pointer to it are different.
    gob is modelled as it treats such values: pointers are flattened, the
    unexported fields of a struct are lost.  The goroutines recv, handle and txn
    and the HTTP handlers are steps on one state; a step that would block leaves the
    state unchanged.

    Results: which handler runs for every message a replica sends, over tcp and
    over in-process channels; what crashes the node; the silence strategy; the
    routes of the HTTP server. *)

From Stdlib Require Import Ascii String SpecFloat.
From stdpp Require Import base gmap strings numbers list.
From S2P Require Import Prelude.
From S2P Require Import Channel.
From S2P Require Import Identity.
From S2P Require Import Url.
From S2P Require Import Config.
From S2P Require Import Crypto.
From S2P Require Import Db.
From S2P Require Import Message.
From S2P Require Import Utils.
From S2P Require Import Mempool.
From S2P Require Import Block.
From S2P Require Import Quorum.
From S2P Require Import Pacemaker.
From S2P Require Import Protocol.
From S2P Require Import Safety.
From S2P Require Import Replica.
From S2P Require Import Transport.
From S2P Require Import Socket.

Local Open Scope Z_scope.
Local Open Scope go_scope.

(** ** Values and their types *)

Inductive Payload :=
| PBlock (b : Block)
| PVote (v : Vote)
| PTmo (t : TMO)
| PVmo (v : VMO)
| PTc (t : TC)
| PVc (v : VC)
| PTransaction (t : Transaction)
| PTransactionReply (r : TransactionReply)
| PQuery (q : Query)
| PQueryReply (r : QueryReply)
| PRead (r : Read)
| PReadReply (r : ReadReply)
| PRegister (r : Register).

Inductive GoValue := VNil | VStruct (p : Payload) | VPtr (p : Payload).

(** The name of a payload's type, as reflect prints it. *)
Definition struct_name (p : Payload) : string :=
  match p with
  | PBlock _ => "blockchain.Block"
  | PVote _ => "blockchain.Vote"
  | PTmo _ => "pacemaker.TMO"
  | PVmo _ => "pacemaker.VMO"
  | PTc _ => "pacemaker.TC"
  | PVc _ => "pacemaker.VC"
  | PTransaction _ => "message.Transaction"
  | PTransactionReply _ => "message.TransactionReply"
  | PQuery _ => "message.Query"
  | PQueryReply _ => "message.QueryReply"
  | PRead _ => "message.Read"
  | PReadReply _ => "message.ReadReply"
  | PRegister _ => "message.Register"
  end.

(** [reflect.ValueOf(v).Type().String()]; nil has no type and panics. *)
Definition type_name (v : GoValue) : outcome string :=
  match v with
  | VNil => Panic
  | VStruct p => Ret (struct_name p)
  | VPtr p => Ret ("*" +:+ struct_name p)%string
  end.

(** ** gob

    What encoding and decoding in an interface variable makes of a value.  All
    these struct types are registered ([gob.Register] in message.go and
    replica.go), by value: the decoder builds structs, whatever was sent.  nil
    cannot be encoded, and neither can a struct without exported data ([Query]).
    Block's [forkNum] and [height] are unexported. *)
Definition exported (p : Payload) : Payload :=
  match p with
  | PBlock b =>
      PBlock (mkBlock (b_View b) (b_QC b) (b_Proposer b) (b_Timestamp b) (b_Payload b) (b_PrevID b) (b_Sig b)
                (b_ID b) (b_Ts b) (b_Mali b) 0 0 (b_CommitFromThis b))
  | p => p
  end.
Definition gob_value (v : GoValue) : option GoValue :=
  match v with
  | VNil | VStruct (PQuery _) | VPtr (PQuery _) => None
  | VStruct p | VPtr p => Some (VStruct (exported p))
  end.

(** ** The node *)
Section node.
Context {W : Type} {NT : Net W GoValue} (rnd : nat -> Z -> Z) (rndf : nat -> spec_float).
Context (cfg : Config) {R : Type}.

(** A value passed as handler: whether it is a function, its parameter types and
    its effect on the application behind it. *)
Record Fn := mkFn { fn_func : bool; fn_In : list string; fn_call : GoValue -> M R unit }.

(** [n_hand] is the value the recv goroutine holds; [n_forwards] keeps the reply
    channel of each forwarded transaction, [None] for a nil channel. *)
Record node := mkNode {
  n_id : NodeID;
  n_isByz : bool;
  n_socket : socket (W := W) (A := GoValue);
  n_MessageChan : chan GoValue;
  n_TxChan : chan GoValue;
  n_handles : gmap string Fn;
  n_forwards : gmap string (option (chan TransactionReply));
  n_hand : option GoValue;
  n_app : R }.

Definition set_socket (s : socket) (n : node) : node :=
  mkNode (n_id n) (n_isByz n) s (n_MessageChan n) (n_TxChan n) (n_handles n) (n_forwards n) (n_hand n) (n_app n).
Definition set_MessageChan (c : chan GoValue) (n : node) : node :=
  mkNode (n_id n) (n_isByz n) (n_socket n) c (n_TxChan n) (n_handles n) (n_forwards n) (n_hand n) (n_app n).
Definition set_TxChan (c : chan GoValue) (n : node) : node :=
  mkNode (n_id n) (n_isByz n) (n_socket n) (n_MessageChan n) c (n_handles n) (n_forwards n) (n_hand n) (n_app n).
Definition set_handle (name : string) (f : Fn) (n : node) : node :=
  mkNode (n_id n) (n_isByz n) (n_socket n) (n_MessageChan n) (n_TxChan n) (<[name := f]> (n_handles n))
    (n_forwards n) (n_hand n) (n_app n).
Definition set_forward (k : string) (c : option (chan TransactionReply)) (n : node) : node :=
  mkNode (n_id n) (n_isByz n) (n_socket n) (n_MessageChan n) (n_TxChan n) (n_handles n)
    (<[k := c]> (n_forwards n)) (n_hand n) (n_app n).
Definition set_hand (v : option GoValue) (n : node) : node :=
  mkNode (n_id n) (n_isByz n) (n_socket n) (n_MessageChan n) (n_TxChan n) (n_handles n) (n_forwards n) v (n_app n).
Definition set_app (r : R) (n : node) : node :=
  mkNode (n_id n) (n_isByz n) (n_socket n) (n_MessageChan n) (n_TxChan n) (n_handles n) (n_forwards n) (n_hand n) r.

Definition NewNode (id : NodeID) (isByz : bool) (w : W) (app : R) : outcome node :=
  s ←? NewSocket id (default ∅ (Addrs cfg)) w;
  Ret (mkNode id isByz s (make_chan (ChanBufferSize cfg)) (make_chan (ChanBufferSize cfg)) ∅ ∅ None app).

Definition node_ID (n : node) : NodeID := n_id n.
Definition node_IsByz (n : node) : bool := n_isByz n.

(** [Register]: the checks of the code in their order; [In(0)] of a function
    without parameters panics like the failed comparisons. *)
Definition Register (m : GoValue) (f : Fn) : M node unit :=
  t ← lift (type_name m);
  if negb (fn_func f) then panic
  else
    match fn_In f with
    | [] => panic
    | t0 :: rest =>
        if negb (bool_decide (t0 = t)) then panic
        else if negb (bool_decide (length rest = 0%nat)) then panic
        else modify (set_handle t f)
    end.

Definition on_socket {X} (m : M socket X) : M node X := zoom n_socket set_socket m.
Definition on_app {X} (m : M R X) : M node X := zoom n_app set_app m.

(** The body of handle and txn for one value. *)
Definition dispatch (v : GoValue) : M node unit :=
  name ← lift (type_name v);
  n ← gets (fun n => n);
  match n_handles n !! name with
  | None => panic
  | Some f => on_app (fn_call f v)
  end.

(** One iteration of [handle] and of [txn]. *)
Definition handle : M node unit := fun n =>
  match ch_recv (n_MessageChan n) with
  | Some (Some v, c) => dispatch v (set_MessageChan c n)
  | _ => Ret (tt, n)
  end.
Definition txn : M node unit := fun n =>
  match ch_recv (n_TxChan n) with
  | Some (Some v, c) => dispatch v (set_TxChan c n)
  | _ => Ret (tt, n)
  end.

(** Put a value on a channel when there is room. *)
Definition put_message (v : GoValue) (n : node) : outcome (option node) :=
  o ←? ch_send v (n_MessageChan n); Ret ((fun c => set_MessageChan c n) <$> o).
Definition put_tx (v : GoValue) (n : node) : outcome (option node) :=
  o ←? ch_send v (n_TxChan n); Ret ((fun c => set_TxChan c n) <$> o).

(** [Reply] on the forwarded transaction of a command: an unknown one is a nil
    pointer. *)
Definition put_reply (r : TransactionReply) (n : node) : outcome (option node) :=
  let key := Command_String (tr_Command r) in
  match n_forwards n !! key with
  | None => Panic
  | Some C => o ←? Transaction_Reply C r; Ret ((fun c' => set_forward key (Some c') n) <$> o)
  end.

(** One step of [recv]: take a value from the socket, or pass on the one in
    hand. *)
Definition recv (fuel : nat) : M node unit := fun n =>
  match n_hand n with
  | None =>
      (o ← on_socket (Socket.Recv fuel);
       match (o : option GoValue) with
       | None => skip
       | Some v =>
           if n_isByz n && bool_decide (Strategy cfg = "silence"%string) then skip
           else modify (set_hand (Some v))
       end) n
  | Some v =>
      o ←? (match v with
            | VStruct (PTransaction _) => put_tx v n
            | VStruct (PTransactionReply r) => put_reply r n
            | _ => put_message v n
            end);
      match o with
      | Some n' => Ret (tt, set_hand None n')
      | None => Ret (tt, n)
      end
  end.

(** [Retry] puts a transaction on the message channel. *)
Definition Retry (t : Transaction) : M node unit := fun n =>
  o ←? put_message (VStruct (PTransaction t)) n;
  Ret (tt, default n o).

Definition set_NodeID (id : NodeID) (t : Transaction) : Transaction :=
  mkTxn (t_Command t) (t_Properties t) (t_Timestamp t) id (t_ID t).
Definition Forward (id : NodeID) (t : Transaction) (c : option (chan TransactionReply)) : M node unit :=
  me ← gets n_id;
  let t := set_NodeID me t in
  modify (set_forward (Command_String (t_Command t)) c);;
  on_socket (Socket.Send rndf id (VStruct (PTransaction t))).

(** ** HTTP *)

(** [handleRoot]: every request is a transaction with the body as value and the
    request's URI as id. *)
Definition handleRoot (body : list Z) (uri : string) (now : Z) : M node unit := fun n =>
  let t := mkTxn (mkCommand 0 (Some body) ""%string 0) ∅ now (n_id n) uri in
  o ←? put_tx (VStruct (PTransaction t)) n;
  Ret (tt, default n o).
Definition http_handleQuery : M node unit := fun n =>
  o ←? put_tx (VStruct (PQuery mkQuery)) n;
  Ret (tt, default n o).
Definition handleCrash : M node unit := on_socket (Socket.Crash (cfg_Crash cfg)).

Fixpoint slow_loop (ids : list NodeID) : M node unit :=
  match ids with
  | [] => skip
  | id :: rest =>
      d ← on_socket (draw_Intn rnd (cfg_Slow cfg));
      on_socket (Socket.Slow id d 10);;
      slow_loop rest
  end.
Definition handleSlow : M node unit := slow_loop ((map_to_list (default ∅ (HTTPAddrs cfg))).*1).

(** The double 0.5. *)
Definition float_half : spec_float := S754_finite false 4503599627370496 (-53).
Fixpoint flaky_loop (ids : list NodeID) : M node unit :=
  match ids with
  | [] => skip
  | id :: rest => on_socket (Socket.Flaky id float_half 10);; flaky_loop rest
  end.
Definition handleFlaky : M node unit := flaky_loop ((map_to_list (default ∅ (HTTPAddrs cfg))).*1).

(** The mux of [http]: "/" matches every path that has no pattern of its own.
    [uri] is the request's URI, whose path ends at the question mark. *)
Inductive Route := RRoot | RQuery | RSlow | RFlaky | RCrash.
Definition route (uri : string) : Route :=
  let path := str (fst (cut "?" (chars uri))) in
  if decide (path = "/query"%string) then RQuery
  else if decide (path = "/slow"%string) then RSlow
  else if decide (path = "/flaky"%string) then RFlaky
  else if decide (path = "/crash"%string) then RCrash
  else RRoot.
Definition handler_for (uri : string) (body : list Z) (now : Z) : M node unit :=
  match route uri with
  | RRoot => handleRoot body uri now
  | RQuery => http_handleQuery
  | RSlow => handleSlow
  | RFlaky => handleFlaky
  | RCrash => handleCrash
  end.
(** The address [http] serves on: the port of the node's own URL; a URL that
    does not parse is fatal.  A missing entry is the empty string. *)
Definition http (exotic : string -> option URL) (id : NodeID) : outcome string :=
  match url_Parse exotic (default ""%string (default ∅ (HTTPAddrs cfg) !! id)) with
  | None => Panic
  | Some ip => Ret (":" +:+ u_Port ip)%string
  end.
(** net/http recovers a panic of a handler; the only one that can panic is
    [handleSlow], at its first random draw. *)
Definition serve (uri : string) (body : list Z) (now : Z) : M node unit := fun n =>
  match handler_for uri body now n with
  | Panic => Ret (tt, n)
  | r => r
  end.

(** The address the HTTP server binds: the port of the node's HTTP address. *)
Definition http_port (exotic : string -> option URL) (n : node) : outcome string :=
  match url_Parse exotic (default ""%string (default ∅ (HTTPAddrs cfg) !! n_id n)) with
  | None => Panic
  | Some u => Ret (":" +:+ u_Port u)%string
  end.

(** [Run]: the goroutines are started only when a handler is registered. *)
Definition running (n : node) : bool := (0 <? size (n_handles n))%nat.

Inductive NLabel :=
| NRecv (fuel : nat)
| NHandle
| NTxn
| NServe (uri : string) (body : list Z) (now : Z)
| NCall (c : Call (A := GoValue)).
Definition nstep (l : NLabel) : M node unit := fun n =>
  match l with
  | NRecv fuel => if running n then recv fuel n else Ret (tt, n)
  | NHandle => if running n then handle n else Ret (tt, n)
  | NTxn => if running n then txn n else Ret (tt, n)
  | NServe uri body now => serve uri body now n
  | NCall c => on_socket (call rnd rndf c) n
  end.
Fixpoint nsteps (ls : list NLabel) : M node unit :=
  match ls with [] => skip | l :: ls' => nstep l;; nsteps ls' end.

(** ** The transaction channel is well typed *)

(** What the transaction channel may hold. *)
Definition tx_value (v : GoValue) : Prop :=
  match v with VStruct (PTransaction _) | VStruct (PQuery _) => True | _ => False end.
Definition tx_typed (n : node) : Prop := Forall tx_value (ch_buf (n_TxChan n)).

(** What a step keeps: the handlers, and the typing of the channel. *)
Definition keeps_types (n n' : node) : Prop :=
  n_handles n' = n_handles n /\ (tx_typed n -> tx_typed n').
#[export] Instance keeps_types_preorder : PreOrder keeps_types.
Proof. split; [by intros n|]. intros n1 n2 n3 [E1 H1] [E2 H2]. split; [congruence | auto]. Qed.

Lemma on_socket_types {X} (m : M socket X) : preserves keeps_types (on_socket m).
Proof. intros n x n' H. unfold on_socket in H. go_inv. by split. Qed.
Lemma on_app_types {X} (m : M R X) : preserves keeps_types (on_app m).
Proof. intros n x n' H. unfold on_app in H. go_inv. by split. Qed.

Lemma put_tx_types v n n' : tx_value v -> put_tx v n = Ret (Some n') -> keeps_types n n'.
Proof.
  intros Hv H. unfold put_tx in H. destruct (ch_send v (n_TxChan n)) as [[c|]| | |] eqn:E; try done.
  injection H as <-. split; [done|]. unfold tx_typed. simpl. intros Hn.
  apply ch_send_inv in E as (_ & -> & _). apply Forall_app. split; [done|]. by constructor.
Qed.

Lemma dispatch_types v : preserves keeps_types (dispatch v).
Proof.
  intros n x n' H. unfold dispatch in H. go_inv. destruct (type_name v) as [name| | |]; try done.
  unfold lift in *. go_inv. destruct (n_handles n !! name) as [f|] eqn:E; [|done]. by eapply on_app_types.
Qed.

Lemma handle_types : preserves keeps_types handle.
Proof.
  intros n x n' H. unfold handle in H. destruct (ch_recv (n_MessageChan n)) as [[[v|] c]|]; [| by go_inv | by go_inv].
  transitivity (set_MessageChan c n); [by split | by eapply dispatch_types].
Qed.
Lemma txn_types : preserves keeps_types txn.
Proof.
  intros n x n' H. unfold txn in H. destruct (ch_recv (n_TxChan n)) as [[[v|] c]|] eqn:E; [| by go_inv | by go_inv].
  transitivity (set_TxChan c n); [|by eapply dispatch_types]. split; [done|]. unfold tx_typed. simpl.
  apply ch_recv_inv in E as (-> & _). by intros [_ ?]%Forall_cons.
Qed.

Lemma recv_types fuel : preserves keeps_types (recv fuel).
Proof.
  intros n x n' H. unfold recv in H. destruct (n_hand n) as [v|].
  - assert (forall o, match o with Some n' => Ret (tt, set_hand None n') | None => Ret (tt, n) end = Ret (x, n') ->
              (forall n1, o = Some n1 -> keeps_types n n1) -> keeps_types n n') as Hdone.
    { intros [n1|] E Hk; injection E as _ <-; [|reflexivity]. transitivity n1; [auto | by split]. }
    assert (forall o, obind o (fun o => match o with Some n' => Ret (tt, set_hand None n') | None => Ret (tt, n) end) = Ret (x, n') ->
              (forall n1, o = Ret (Some n1) -> keeps_types n n1) -> keeps_types n n') as Hbind.
    { intros [o| | |] E Hk; try done. cbn [obind] in E. apply (Hdone o E). intros n1 ->. auto. }
    assert (forall v n1, put_message v n = Ret (Some n1) -> keeps_types n n1) as Hmsg.
    { intros v' n1 E. unfold put_message in E. destruct (ch_send v' (n_MessageChan n)) as [[c|]| | |]; try done.
      injection E as <-. by split. }
    assert (forall r n1, put_reply r n = Ret (Some n1) -> keeps_types n n1) as Hrep.
    { intros r n1 E. unfold put_reply in E. destruct (n_forwards n !! _) as [C|]; [|done].
      destruct (Transaction_Reply C r) as [[c'|]| | |]; try done. injection E as <-. by split. }
    apply Hbind in H; [done|]. intros n1.
    destruct v as [|[]|]; first [apply Hmsg | by apply put_tx_types | apply Hrep].
  - go_inv. transitivity s; [by eapply on_socket_types|].
    destruct r as [v|]; [|go_inv; reflexivity]. destruct (n_isByz n && _); go_inv; [reflexivity | by split].
Qed.

Lemma slow_types ids : preserves keeps_types (slow_loop ids).
Proof.
  induction ids as [|id ids IH]; cbn [slow_loop]; [apply preserves_skip; apply _|].
  apply preserves_bind; [apply _ | apply on_socket_types | intros d].
  apply preserves_bind; [apply _ | apply on_socket_types | intros _; apply IH].
Qed.
Lemma flaky_types ids : preserves keeps_types (flaky_loop ids).
Proof.
  induction ids as [|id ids IH]; cbn [flaky_loop]; [apply preserves_skip; apply _|].
  apply preserves_bind; [apply _ | apply on_socket_types | intros _; apply IH].
Qed.

Lemma serve_types uri body now : preserves keeps_types (serve uri body now).
Proof.
  assert (forall v, tx_value v -> preserves keeps_types
            (fun n => obind (put_tx v n) (fun o => Ret (tt, default n o)))) as Hput.
  { intros v Hv n x n' H. destruct (put_tx v n) as [[n1|]| | |] eqn:E; try done; injection H as _ <-; simpl;
      [by eapply put_tx_types | reflexivity]. }
  assert (preserves keeps_types (handler_for uri body now)) as Hh.
  { unfold handler_for. destruct (route uri).
    - intros n x n' H. unfold handleRoot in H.
      match type of H with obind (put_tx ?v _) _ = _ => exact (Hput v I n x n' H) end.
    - exact (Hput (VStruct (PQuery mkQuery)) I).
    - apply slow_types.
    - apply flaky_types.
    - apply on_socket_types. }
  intros n x n' H. unfold serve in H. destruct (handler_for uri body now n) as [[y n1]| | |] eqn:E; try done.
  - injection H as _ <-. by eapply Hh.
  - injection H as _ <-. reflexivity.
Qed.

Lemma nsteps_types ls : preserves keeps_types (nsteps ls).
Proof.
  induction ls as [|l ls IH]; cbn [nsteps]; [apply preserves_skip; apply _|].
  apply preserves_bind; [apply _ | | intros _; apply IH].
  intros n x n' H. destruct l; cbn [nstep] in H.
  - destruct (running n); [by eapply recv_types | go_inv; reflexivity].
  - destruct (running n); [by eapply handle_types | go_inv; reflexivity].
  - destruct (running n); [by eapply txn_types | go_inv; reflexivity].
  - by eapply serve_types.
  - by eapply on_socket_types.
Qed.
End node.

(** ** The replica's node *)
Section replica_node.
Context {EV : Env} {B : BitSet} {W : Type} {NT : Net W GoValue} (now : nat -> Z).

(** Which method of the replica takes a struct. *)
Definition handler (p : Payload) : option (M Replica unit) :=
  match p with
  | PBlock b => Some (HandleBlock now b)
  | PVote v => Some (HandleVote now v)
  | PTmo t => Some (HandleTmo t)
  | PVmo v => Some (HandleVmo v)
  | PTransaction t => Some (handleTxn now t)
  | PQuery _ => Some (handleQuery now)
  | _ => None
  end.
Definition replica_fn (name : string) : Fn (R := Replica) :=
  mkFn true [name] (fun v => match v with VStruct p => default panic (handler p) | _ => panic end).

(** The zero values [NewReplica] registers the methods for. *)
Definition zero_block : Block := mkBlock 0 None ""%string 0 [] [] [] [] 0 false 0 0 false.
Definition zero_vote : Vote := mkVote 0 ""%string [] [].
Definition zero_txn : Transaction := mkTxn (mkCommand 0 None ""%string 0) ∅ 0 ""%string ""%string.
Definition registrations : list (Payload * string) :=
  [(PBlock zero_block, "blockchain.Block"); (PVote zero_vote, "blockchain.Vote");
   (PTmo (mkTMO 0 ""%string None), "pacemaker.TMO"); (PTransaction zero_txn, "message.Transaction");
   (PQuery mkQuery, "message.Query"); (PVmo (mkVMO 0 ""%string None), "pacemaker.VMO")]%string.
Fixpoint register_all (l : list (Payload * string)) : M (node (W := W) (R := Replica)) unit :=
  match l with
  | [] => skip
  | (p, name) :: rest => Register (VStruct p) (replica_fn name);; register_all rest
  end.
Definition register_handlers : M node unit := register_all registrations.

Definition replica_handles : gmap string (Fn (R := Replica)) :=
  foldl (fun m x => <[x.2 := replica_fn x.2]> m) ∅ registrations.

(** [NewReplica]'s calls to [Register] pass its checks. *)
Lemma register_handlers_ok (n : node) :
  n_handles n = ∅ -> exists n', register_handlers n = Ret (tt, n') /\ n_handles n' = replica_handles /\
    n_app n' = n_app n /\ n_TxChan n' = n_TxChan n /\ n_MessageChan n' = n_MessageChan n.
Proof. intros E. eexists. split; [reflexivity|]. cbn. rewrite E. by split_and!. Qed.

Definition handled_names : list string := registrations.*2.

Lemma replica_handles_lookup k :
  replica_handles !! k = if bool_decide (k ∈ handled_names) then Some (replica_fn k) else None.
Proof.
  unfold replica_handles, handled_names.
  enough (forall l m, foldl (fun m x => <[x.2 := replica_fn x.2]> m) m l !! k =
            if bool_decide (k ∈ l.*2) then Some (replica_fn k) else m !! k) as H by (by rewrite H).
  induction l as [|[p name] l IH]; intros m; simpl; [done|]. rewrite IH.
  destruct (decide (k = name)) as [->|Hne].
  - rewrite lookup_insert_eq, (bool_decide_eq_true_2 (_ ∈ name :: _)) by left. by case_bool_decide.
  - rewrite lookup_insert_ne by done.
    rewrite (bool_decide_ext (k ∈ name :: _) (k ∈ l.*2)); [done|]. rewrite elem_of_cons. naive_solver.
Qed.

Lemma struct_handled p :
  replica_handles !! struct_name p =
    match handler p with Some _ => Some (replica_fn (struct_name p)) | None => None end.
Proof.
  rewrite replica_handles_lookup.
  assert (bool_decide (struct_name p ∈ handled_names) = match handler p with Some _ => true | None => false end) as ->
    by (destruct p; by compute_done).
  by destruct (handler p).
Qed.

Lemma pointer_unhandled p : replica_handles !! ("*" +:+ struct_name p)%string = None.
Proof.
  rewrite replica_handles_lookup. by rewrite bool_decide_eq_false_2 by (destruct p; by compute_done).
Qed.

(** Dispatch on a replica's node, for every value. *)
Lemma replica_dispatch v (n : node (W := W) (R := Replica)) :
  n_handles n = replica_handles ->
  dispatch v n = (match v with
                  | VStruct p => match handler p with Some h => on_app h | None => panic end
                  | _ => panic
                  end) n.
Proof.
  intros E. unfold dispatch. destruct v as [|p|p]; [done| |].
  - unfold gbind, lift, gets. simpl. rewrite E, struct_handled. destruct (handler p) eqn:Eh; [|done].
    unfold replica_fn. simpl. by rewrite Eh.
  - unfold gbind, lift, gets. simpl. by rewrite E, pointer_unhandled.
Qed.

(** What the protocols and the replica pass to [Send] and [Broadcast]: always
    pointers. *)
Definition sent_value (m : Msg) : GoValue :=
  VPtr (match m with MVote v => PVote v | MTmo t => PTmo t | MVmo v => PVmo v | MBlock b => PBlock b end).

(** The handler meant for a message, on what arrives of it. *)
Definition wire_Block (b : Block) : Block :=
  mkBlock (b_View b) (b_QC b) (b_Proposer b) (b_Timestamp b) (b_Payload b) (b_PrevID b) (b_Sig b)
          (b_ID b) (b_Ts b) (b_Mali b) 0 0 (b_CommitFromThis b).
Definition meant_for (m : Msg) : M Replica unit :=
  match m with
  | MVote v => HandleVote now v
  | MTmo t => HandleTmo t
  | MVmo v => HandleVmo v
  | MBlock b => HandleBlock now (wire_Block b)
  end.
End replica_node.

(** C16.  Every message a replica sends over tcp arrives as a value whose type has a
    handler at the receiver, and that handler is the one meant for the message;
    over in-process channels the same message keeps its pointer type, which has no
    handler, and the receiving node stops with a fatal error. *)
Theorem messages_find_handlers {EV : Env} {B : BitSet} {W} {NT : Net W GoValue} now (m : Msg) (n : node (W := W)) :
  n_handles n = replica_handles now ->
  (exists v, wire gob_value KTcp (sent_value m) = Some v /\ dispatch v n = on_app (meant_for now m) n) /\
  (exists v, wire gob_value KChan (sent_value m) = Some v /\ dispatch v n = Panic).
Proof.
  intros E. split.
  - destruct m; (eexists; split; [reflexivity|]); by rewrite (replica_dispatch now).
  - exists (sent_value m). split; [done|]. by rewrite (replica_dispatch now).
Qed.

(** C17.  Whatever happens to a replica's node, each value waiting in its
    transaction channel is a transaction or a query, and the goroutine that takes
    it calls the replica's method for it: the lookup of the handler never
    fails there. *)
Theorem transactions_find_handlers {EV : Env} {B : BitSet} {W} {NT : Net W GoValue} now rnd rndf cfg
    id isByz (w : W) n0 n1 ls (n : node (W := W)) v c :
  NewNode cfg id isByz w NewReplica = Ret n0 -> register_handlers now n0 = Ret (tt, n1) ->
  nsteps rnd rndf cfg ls n1 = Ret (tt, n) ->
  ch_recv (n_TxChan n) = Some (Some v, c) ->
  exists h, txn n = on_app h (set_TxChan c n) /\
    ((exists t, v = VStruct (PTransaction t) /\ h = handleTxn now t) \/
     (exists q, v = VStruct (PQuery q) /\ h = handleQuery now)).
Proof.
  intros Hnew Hreg Hrun Hv. unfold NewNode in Hnew.
  destruct (NewSocket id (default ∅ (Addrs cfg)) w) as [s| | |]; try done. cbn [obind] in Hnew. injection Hnew as <-.
  destruct (register_handlers_ok now _ (eq_refl : n_handles (mkNode id isByz s (make_chan (ChanBufferSize cfg))
    (make_chan (ChanBufferSize cfg)) ∅ ∅ None NewReplica) = ∅)) as (n' & E & Hh & _ & Htx & _).
  rewrite Hreg in E. injection E as <-.
  destruct (nsteps_types rnd rndf cfg ls n1 tt n Hrun) as [Eh Ht].
  assert (tx_typed n) as Htyped.
  { apply Ht. unfold tx_typed. rewrite Htx. constructor. }
  unfold txn. rewrite Hv. apply ch_recv_inv in Hv as (Hb & _). unfold tx_typed in Htyped. rewrite Hb in Htyped.
  apply Forall_cons in Htyped as [Hty _].
  assert (n_handles (set_TxChan c n) = replica_handles now) as Hhc by (simpl; by rewrite Eh, Hh).
  rewrite (replica_dispatch now v _ Hhc).
  destruct v as [|[]|]; try done; (eexists; split; [reflexivity|]); [left | right]; eauto.
Qed.

(** A node stops when it takes from its message channel nil, a pointer, or a
    struct of a type that has no handler -- each of which a peer can have it
    receive -- and when it receives a reply to a transaction it did not forward. *)
Theorem unhandled_message_fatal {EV : Env} {B : BitSet} {W} {NT : Net W GoValue} now cfg fuel (n : node (W := W)) :
  n_handles n = replica_handles now ->
  (forall v c, ch_recv (n_MessageChan n) = Some (Some v, c) ->
     (forall p, v = VStruct p -> handler now p = None) -> handle n = Panic) /\
  (forall r, n_hand n = Some (VStruct (PTransactionReply r)) ->
     n_forwards n !! Command_String (tr_Command r) = None -> recv cfg fuel n = Panic).
Proof.
  intros E. split.
  - intros v c Hv Hno. unfold handle. rewrite Hv. rewrite (replica_dispatch now) by done.
    destruct v as [|p|p]; [done| |done]. by rewrite (Hno p).
  - intros r Hr Hf. unfold recv. rewrite Hr. unfold put_reply. by rewrite Hf.
Qed.

(** Under the silence strategy a Byzantine node's recv takes values from the
    socket and changes nothing else. *)
Lemma silence_drops {W} {NT : Net W GoValue} {R} cfg fuel (n n' : node (R := R)) u :
  n_isByz n = true -> Strategy cfg = "silence"%string -> n_hand n = None ->
  recv cfg fuel n = Ret (u, n') -> exists s, n' = set_socket s n.
Proof.
  intros Hb Hs Hh H. unfold recv in H. rewrite Hh in H. go_inv. unfold on_socket in Hrun. go_inv.
  exists t. destruct r as [v|]; [|by go_inv]. rewrite Hb, bool_decide_eq_true_2 in H by done. cbn [andb] in H. by go_inv.
Qed.

(** gob loses the fork count and the height of a block, and nothing else. *)
Lemma block_over_tcp b :
  gob_value (VPtr (PBlock b)) = Some (VStruct (PBlock (wire_Block b))) /\
  (wire_Block b = b <-> b_forkNum b = 0 /\ b_height b = 0).
Proof.
  split; [done|]. destruct b as [v q pr ts pl pi sg id tm ml fn ht cm]. unfold wire_Block. simpl. split.
  - intros E. injection E as E1 E2. auto.
  - by intros [-> ->].
Qed.

(** ** A concrete node

    Node 1 over tcp; a peer connects and sends it pointers to messages, as
    replicas do, and two requests come over HTTP. *)
Module NodeDemo.
Definition net : Net (World (A := nat * GoValue)) GoValue :=
  transport_net gob_value 64 (fun _ => None) "tcp" "10.0.0.1".
#[local] Existing Instance net.
#[local] Existing Instance toy_env.
Definition cfg : Config :=
  set_tables MakeDefaultConfig
    (Some (<["1"%string := "tcp://10.0.0.1:3735"%string]> (<["2"%string := "tcp://10.0.0.2:3736"%string]> ∅)))
    (Some (<["1"%string := "http://10.0.0.1:8070"%string]> (<["2"%string := "http://10.0.0.2:8071"%string]> ∅))).
Definition now : nat -> Z := fun _ => 0.
Definition rnd : nat -> Z -> Z := fun k n => Z.of_nat k mod n.
Definition rndf : nat -> spec_float := fun _ => S754_zero false.
Abbreviation tnode := (node (W := World (A := nat * GoValue)) (R := Replica (B := gset_bits))).
Definition idle_socket : socket (W := World (A := nat * GoValue)) (A := GoValue) :=
  mkSocket ""%string ∅ ∅ false ∅ ∅ ∅ empty_world 0 [] 0 [].
Definition idle_node : tnode :=
  mkNode ""%string false idle_socket (make_chan 1) (make_chan 1) ∅ ∅ None (NewReplica (B := gset_bits)).
Definition after (o : outcome (unit * tnode)) : tnode := match o with Ret (_, n) => n | _ => idle_node end.

Definition n0 : tnode := match NewNode cfg "1"%string false empty_world NewReplica with Ret n => n | _ => idle_node end.
Definition n1 : tnode := after (register_handlers now n0).

(** The peer's transport, and a value it sends. *)
Definition peer_of (host : string) : transport (A := nat * GoValue) :=
  mkTransport KTcp (mkURL "tcp" host) (make_chan 10240) (make_chan 10240) false.
Definition peer_sends (v : GoValue) (n : tnode) : tnode :=
  let w := s_world (n_socket n) in
  let k := w_next w in
  match run (tagged_gob gob_value) 64 [LNew (peer_of "10.0.0.1:3735"); LDial k; LSend k (k, v)] w with
  | Some w' => set_socket (set_world w' (n_socket n)) n
  | None => n
  end.
Definition turns : list (NLabel) := replicate 6 (NCall (CElapse 1)).
Definition arrival : list NLabel := turns ++ [NRecv 1; NRecv 1; NHandle].

Definition the_vote : Vote := mkVote 3 "2"%string [7] [].
Definition n2 : tnode := after (nsteps rnd rndf cfg arrival (peer_sends (sent_value (MVote the_vote)) n1)).
Definition n3 : tnode :=
  after (nsteps rnd rndf cfg [NServe "/query" [] 0; NServe "/drop?id=2&t=10" [] 5; NTxn] n1).

Lemma n0_new : NewNode cfg "1"%string false empty_world NewReplica = Ret n0.
Proof. vm_compute. reflexivity. Qed.
Lemma n1_registered : register_handlers now n0 = Ret (tt, n1).
Proof. reflexivity. Qed.
Lemma n1_handles : n_handles n1 = replica_handles now.
Proof. reflexivity. Qed.
Lemma n3_steps : nsteps rnd rndf cfg [NServe "/query" [] 0; NServe "/drop?id=2&t=10" [] 5; NTxn] n1 = Ret (tt, n3).
Proof. reflexivity. Qed.

(** The vote reaches the replica's event channel through transport, socket, recv
    and handle. *)
Example vote_arrives : eventChan (n_app n2) = [REVote the_vote].
Proof. vm_compute. reflexivity. Qed.
End NodeDemo.

Lemma messages_find_handlers_witness :
  (exists v, wire gob_value KTcp (sent_value (MVote NodeDemo.the_vote)) = Some v /\
     dispatch v NodeDemo.n1 = on_app (meant_for (EV := toy_env) NodeDemo.now (MVote NodeDemo.the_vote)) NodeDemo.n1) /\
  (exists v, wire gob_value KChan (sent_value (MVote NodeDemo.the_vote)) = Some v /\ dispatch v NodeDemo.n1 = Panic).
Proof.
  exact (messages_find_handlers (EV := toy_env) (NT := NodeDemo.net) NodeDemo.now (MVote NodeDemo.the_vote)
           NodeDemo.n1 NodeDemo.n1_handles).
Defined.

(** After the two requests the query has been answered and the second one waits
    as a transaction: the server has no route for /drop. *)
Lemma transactions_find_handlers_witness :
  exists v c h, ch_recv (n_TxChan NodeDemo.n3) = Some (Some v, c) /\
    txn NodeDemo.n3 = on_app h (set_TxChan c NodeDemo.n3) /\
    ((exists t, v = VStruct (PTransaction t) /\ h = handleTxn (EV := toy_env) NodeDemo.now t) \/
     (exists q, v = VStruct (PQuery q) /\ h = handleQuery (EV := toy_env) NodeDemo.now)).
Proof.
  destruct (ch_recv (n_TxChan NodeDemo.n3)) as [[[v|] c]|] eqn:E; [|by vm_compute in E|by vm_compute in E].
  destruct (transactions_find_handlers (EV := toy_env) (NT := NodeDemo.net) NodeDemo.now NodeDemo.rnd NodeDemo.rndf
              NodeDemo.cfg "1"%string false empty_world NodeDemo.n0 NodeDemo.n1 _ NodeDemo.n3 v c
              NodeDemo.n0_new NodeDemo.n1_registered NodeDemo.n3_steps E) as (h & H1 & H2).
  exists v, c, h. split; [reflexivity|]. split; [exact H1 | exact H2].
Defined.

(** A peer sends a [Read], which gob knows and the replica does not handle. *)
Definition read_value : GoValue := VStruct (PRead (mkRead 1 2)).
Definition read_node : NodeDemo.tnode :=
  set_MessageChan (mkChan [read_value] 1024 false [read_value] []) NodeDemo.n1.
Lemma unhandled_message_fatal_witness :
  gob_value read_value = Some read_value /\ handle read_node = Panic.
Proof.
  split; [reflexivity|].
  destruct (unhandled_message_fatal (EV := toy_env) (NT := NodeDemo.net) NodeDemo.now NodeDemo.cfg 1 read_node
              NodeDemo.n1_handles) as [H _].
  apply (H read_value (mkChan [] 1024 false [read_value] [read_value])); [reflexivity|].
  intros p [= <-]. reflexivity.
Defined.
