(* ===== verification/Cluster.v ===== *)
(** * A cluster of replicas

    Replicas that exchange their messages.  The state has every node's replica and,
    for every ordered pair of nodes, how many of the messages sent on that link have
    been taken: a link delivers in order and loses nothing (TransportSpec.v and
    Socket.v prove this of the transports).  A step either delivers the next message
    of a link, which is the handler call of Node.v ([arrival_meant]), or is a local
    step of one node: an iteration of one of its loops or a client's transaction.
    Every interleaving is a run, so messages may be late by any amount.

    Results: the run of each node is a run of its replica in the sense of Replica.v
    ([cluster_node]), so that file's invariants hold of every node; and no
    certificate is made up ([certificates_backed]). *)

From Stdlib Require Import String.
From stdpp Require Import base gmap strings numbers relations list.
From S2P Require Import Prelude.
From S2P Require Import Identity.
From S2P Require Import Config.
From S2P Require Import Crypto.
From S2P Require Import Election.
From S2P Require Import Message.
From S2P Require Import Mempool.
From S2P Require Import Block.
From S2P Require Import Quorum.
From S2P Require Import Forest.
From S2P Require Import ForestSpec.
From S2P Require Import BlockChain.
From S2P Require Import Pacemaker.
From S2P Require Import Protocol.
From S2P Require Import HotStuff.
From S2P Require Import Tchs.
From S2P Require Import Fhs.
From S2P Require Import Safety.
From S2P Require Import Replica.
From S2P Require Import Certified.
From S2P Require Import Node.

Local Open Scope Z_scope.
Local Open Scope go_scope.

(** ** What crosses the network *)

(** What the node at the other end does with a message: [recv] decodes it and the
    handler registered for its type is called (Node.v); the block arrives without
    its unexported fields. *)
Definition arrival (m : Msg) : Label :=
  match m with
  | MVote v => LVote v
  | MTmo t => LTmo t
  | MVmo v => LVmo v
  | MBlock b => LBlock (wire_Block b)
  end.

(** What [from] sends to [to]: [Broadcast] leaves out the sender. *)
Definition addressed (from to : NodeID) (o : Out) : option Msg :=
  match o with
  | OSend t m => if decide (t = to) then Some m else None
  | OBroadcast m => if decide (to = from) then None else Some m
  | OKeep _ => None
  end.
Definition sent {B : BitSet} (from to : NodeID) (r : Replica) : list Msg := omap (addressed from to) (outbox (proto r)).

(** ** The cluster *)

Record Cluster {B : BitSet} := mkCluster {
  nodes : gmap NodeID Replica;
  taken : gmap (NodeID * NodeID) nat }.
Arguments mkCluster {B} _ _.

Inductive Act := Deliver (from to : NodeID) | Local (i : NodeID) (l : Label).

Definition is_local (l : Label) : bool :=
  match l with LBlock _ | LVote _ | LTmo _ | LVmo _ => false | _ => true end.

Section cluster.
Context {B : BitSet} (env : NodeID -> Env) (S : forall i, @Safety (env i)).

Definition boot (ids : list NodeID) : Cluster :=
  mkCluster (list_to_map ((fun i => (i, @NewReplica (env i) B)) <$> ids)) ∅.

Definition at_node (now : nat -> Z) (i : NodeID) (l : Label) (c : Cluster) : outcome Cluster :=
  match nodes c !! i with
  | None => Ret c
  | Some r => '(_, r') ←? @perform (env i) B (S i) now l r; Ret (mkCluster (<[i := r']> (nodes c)) (taken c))
  end.

(** The next message of a link. *)
Definition next (from to : NodeID) (c : Cluster) : option Msg :=
  nodes c !! from ≫= fun r => sent from to r !! default 0%nat (taken c !! (from, to)).

Definition act (now : nat -> Z) (a : Act) (c : Cluster) : outcome Cluster :=
  match a with
  | Local i l => if is_local l then at_node now i l c else Ret c
  | Deliver from to =>
      match next from to c with
      | None => Ret c
      | Some m =>
          at_node now to (arrival m)
            (mkCluster (nodes c) (<[(from, to) := Datatypes.S (default 0%nat (taken c !! (from, to)))]> (taken c)))
      end
  end.

Definition cstep (c c' : Cluster) : Prop := exists now a, act now a c = Ret c'.

Fixpoint act_all (now : nat -> Z) (l : list Act) (c : Cluster) : outcome Cluster :=
  match l with
  | [] => Ret c
  | a :: l' => c' ←? act now a c; act_all now l' c'
  end.

Lemma act_all_steps now l : forall c c', act_all now l c = Ret c' -> rtc cstep c c'.
Proof.
  induction l as [|a l IH]; intros c c' H; simpl in H; [by injection H as <-|].
  destruct (act now a c) as [c1| | |] eqn:E; try done. simpl in H.
  eapply rtc_l; [by exists now, a | by apply IH].
Qed.

(** A step touches one node, which performs one label. *)
Lemma cstep_inv now a c c' : act now a c = Ret c' ->
  nodes c' = nodes c \/
  exists i l r r', nodes c !! i = Some r /\ @perform (env i) B (S i) now l r = Ret (tt, r') /\
    nodes c' = <[i := r']> (nodes c) /\
    (is_local l = true \/ exists from m, next from i c = Some m /\ l = arrival m).
Proof.
  assert (Hat : forall i l c, at_node now i l c = Ret c' ->
    nodes c' = nodes c \/ exists r r', nodes c !! i = Some r /\
      @perform (env i) B (S i) now l r = Ret (tt, r') /\ nodes c' = <[i := r']> (nodes c)).
  { intros i l c0 H. unfold at_node in H. destruct (nodes c0 !! i) as [r|] eqn:Er; [|injection H as <-; by left].
    destruct (perform _ _ _ r) as [[[] r']| | |] eqn:Ep; try done. injection H as <-. right. by exists r, r'. }
  destruct a as [from to|i l]; simpl.
  - destruct (next from to c) as [m|] eqn:En; [|intros [= <-]; by left].
    intros [H|(r & r' & H1 & H2 & H3)]%Hat; [by left|]. right. exists to, (arrival m), r, r'.
    split_and!; try done. right. by exists from, m.
  - destruct (is_local l) eqn:El; [|intros [= <-]; by left].
    intros [H|(r & r' & H1 & H2 & H3)]%Hat; [by left|]. right. exists i, l, r, r'. by eauto.
Qed.

(** The label of an arriving message is the handler [messages_find_handlers] says
    it finds. *)
Lemma arrival_meant now i m : @perform (env i) B (S i) now (arrival m) = @meant_for (env i) B now m.
Proof. by destruct m. Qed.

(** ** Every node is a replica *)

Lemma boot_node ids i r : nodes (boot ids) !! i = Some r -> r = @NewReplica (env i) B.
Proof.
  intros H. apply elem_of_list_to_map_2, list_elem_of_fmap in H as (j & [= -> ->] & _). done.
Qed.

(** The run of a cluster, seen from one node, is a run of its replica. *)
Lemma cluster_node ids c i r :
  rtc cstep (boot ids) c -> nodes c !! i = Some r -> rtc (@rstep (env i) B (S i)) (@NewReplica (env i) B) r.
Proof.
  intros Hr. revert c Hr i r. apply (rtc_ind_r (fun c => forall i r, nodes c !! i = Some r -> _)).
  { intros i r Hi. by rewrite (boot_node _ _ _ Hi). }
  intros c1 c2 _ (now & a & Hstep) IH i r Hi.
  destruct (cstep_inv _ _ _ _ Hstep) as [E|(k & l & rk & rk' & Hk & Hp & E & _)]; rewrite E in Hi; [by apply IH|].
  apply lookup_insert_Some in Hi as [[-> <-]|[_ Hi]]; [|by apply IH].
  eapply rtc_r; [by apply IH | by exists now, l].
Qed.

(** ** What was sent stays sent *)

Context {SL : forall i, @SafetyLaws (env i) (S i)}.

Definition sends (c : Cluster) (i : NodeID) (o : Out) : Prop :=
  exists r, nodes c !! i = Some r /\ o ∈ outbox (proto r).

Lemma sends_step c c' i o : cstep c c' -> sends c i o -> sends c' i o.
Proof.
  intros (now & a & Hstep) (r & Hi & Ho).
  destruct (cstep_inv _ _ _ _ Hstep) as [E|(k & l & rk & rk' & Hk & Hp & E & _)]; unfold sends; rewrite E; [by eauto|].
  destruct (decide (k = i)) as [->|Hne]; [|rewrite lookup_insert_ne by done; by eauto].
  rewrite lookup_insert_eq. rewrite Hi in Hk. injection Hk as <-. eexists. split; [done|].
  pose proof (perform_frame (S i) outbox_grows _ _ _ _ _ Hp) as [k Hk]. rewrite Hk. apply elem_of_app. by left.
Qed.

(** ** Certificates are backed by votes *)

(** [v] was cast with the collector [j]: by a node that sent [v] to [j], or by [j]
    itself, which has a mark in its log where [ProcessBlock] hands the vote it just
    made to its own [ProcessVote]. *)
Definition cast (c : Cluster) (j : NodeID) (v : Vote) : Prop :=
  sends c (v_Voter v) (OSend j (MVote v)) \/ v_Voter v = j /\ sends c j (OKeep v).

(** The certificate of no block, or one whose signers are exactly a quorum of
    distinct nodes, each of which cast a vote for the block with the
    certificate's collector; one of the votes has the certificate's view. *)
Definition backed (c : Cluster) (qc : QC) : Prop :=
  qc = genesisQC \/
  (NoDup (qc_Signers qc) /\
   Z.of_nat (length (qc_Signers qc)) = quorum_threshold (@env_cfg (env (qc_Leader qc))) /\
   (forall i, i ∈ qc_Signers qc -> exists v, v_Voter v = i /\ v_BlockID v = qc_BlockID qc /\ cast c (qc_Leader qc) v) /\
   exists v, v_Voter v ∈ qc_Signers qc /\ v_BlockID v = qc_BlockID qc /\ v_View v = qc_View qc /\
     cast c (qc_Leader qc) v).

Lemma cast_step c c' j v : cstep c c' -> cast c j v -> cast c' j v.
Proof. intros Hs [H|[E H]]; [left | right; split; [done|]]; by eapply sends_step. Qed.
Lemma backed_step c c' qc : cstep c c' -> backed c qc -> backed c' qc.
Proof.
  intros Hs [->|(H1 & H2 & H3 & (v & Hv))]; [by left|]. right. split_and!; try done.
  - intros i (v' & ? & ? & ?)%H3. exists v'. split_and!; try done. by eapply cast_step.
  - exists v. destruct_and! Hv. split_and!; try done. by eapply cast_step.
Qed.

Context (me_env : forall i, @me (env i) = i).

Lemma backed_built c i : @admits_built (env i) (backed c) (cast c i).
Proof.
  intros q vote qc q' Hwf Hin H. right. cbn [qc_Leader set_Leader qc_Signers qc_BlockID qc_View]. rewrite me_env.
  destruct (quorum_Add_built _ _ _ _ _ Hwf H) as (_ & Hv & Hb & Hnd & Hlen & _ & Hs & Hvoter).
  assert (Hq' : votes_for q' (v_BlockID vote) !! v_Voter vote = Some vote).
  { rewrite quorum_Add_run in H. destruct (superMajority _ _ _); [done|]. injection H as _ <-.
    rewrite votes_for_record, decide_True by done. apply lookup_insert_eq. }
  assert (Hcast : forall k v, votes_for q' (v_BlockID vote) !! k = Some v -> cast c i v).
  { intros k v Hk. unfold votes_for in Hk. destruct (q_votes q' !! v_BlockID vote) as [vs|] eqn:E.
    - by eapply Hin.
    - simpl in Hk. by rewrite lookup_empty in Hk. }
  split_and!; try done.
  - intros k (n & Hn)%list_elem_of_lookup. destruct (Hs _ _ Hn) as (v & Hk & ? & ? & _). exists v. eauto.
  - exists vote. split_and!; try done. by eapply Hcast.
Qed.

Context {CL : forall i, @CertifiedLaws (env i) (S i)}.

Definition cinv (c : Cluster) : Prop :=
  forall i r, nodes c !! i = Some r -> @rcertified (env i) B (backed c) (cast c i) r.

(** The node that has just stepped to [r]. *)
Lemma cluster_certifies c i r : nodes c !! i = Some r -> @certifies (env i) (proto r) (backed c) (cast c i) (S i).
Proof.
  intros Hi. apply CL; [apply backed_built|]. intros v Hv Hin. right. rewrite Hv, me_env. split; [done|]. by exists r.
Qed.

(** A message in flight carries what its sender holds. *)
Lemma next_ok c from i m : cinv c -> next from i c = Some m -> ok_label (backed c) (cast c i) (arrival m).
Proof.
  intros Hc. unfold next. destruct (nodes c !! from) as [r|] eqn:Hr; [|done]. simpl. intros Hm.
  apply list_elem_of_lookup_2, list_elem_of_omap in Hm as (o & Ho & Hadr).
  destruct (Hc _ _ Hr) as [[] _].
  assert (Hok := proj1 (List.Forall_forall _ _) ct_outbox o (proj1 (list_elem_of_In _ _) Ho)).
  destruct o as [to x|x|x]; simpl in Hadr; [destruct (decide (to = i)) as [->|]|destruct (decide (i = from))|];
    try done; injection Hadr as ->; destruct m as [v|t|v|b]; simpl in *; try done.
  left. rewrite me_env in Hok. rewrite Hok. by exists r.
Qed.

(** What a step finds is also there after it. *)
Lemma ok_label_mono (P P' : QC -> Prop) (V V' : Vote -> Prop) l :
  (forall qc, P qc -> P' qc) -> (forall v, V v -> V' v) -> ok_label P V l -> ok_label P' V' l.
Proof. intros HP HV. destruct l; simpl; auto; intros Ho qc E; auto. Qed.

Lemma cinv_step c c' : cstep c c' -> cinv c -> cinv c'.
Proof.
  intros Hs Hc i r Hi. pose proof Hs as (now & a & Hstep).
  assert (HP : forall qc, backed c qc -> backed c' qc) by (intros; by eapply backed_step).
  assert (HV : forall v, cast c i v -> cast c' i v) by (intros; by eapply cast_step).
  assert (Hold : forall r, nodes c !! i = Some r -> @rcertified (env i) B (backed c') (cast c' i) r)
    by (intros r0 H0; eapply (rcertified_mono (backed c) _ (cast c i)); eauto).
  destruct (cstep_inv _ _ _ _ Hstep) as [E|(k & l & rk & rk' & Hk & Hp & E & Hl)]; rewrite E in Hi; [by apply Hold|].
  apply lookup_insert_Some in Hi as [[-> <-]|[_ Hi]]; [|by apply Hold].
  assert (Hok : ok_label (backed c') (cast c' i) l).
  { destruct Hl as [Hl|(from & m & Hm & ->)]; [by destruct l|]. eapply ok_label_mono; [done..|]. by eapply next_ok. }
  assert (Hi' : nodes c' !! i = Some rk') by (by rewrite E, lookup_insert_eq).
  refine (proj1 (perform_certified rk' _ _ (S i) (cluster_certifies c' i rk' Hi') now l Hok _ _ _ (Hold _ Hk) Hp _)).
  unfold onR, outbox_grows. done.
Qed.

Lemma cinv_reachable ids c : rtc cstep (boot ids) c -> cinv c.
Proof.
  intros Hr. revert c Hr. apply rtc_ind_r.
  - intros i r Hi. rewrite (boot_node _ _ _ Hi). split; [|constructor]. apply certified_new. by left.
  - intros c1 c2 _ Hs. by apply cinv_step.
Qed.

(** The certificate a message carries. *)
Inductive carries : Msg -> QC -> Prop :=
| carries_tmo t qc : tmo_HighQC t = Some qc -> carries (MTmo t) qc
| carries_vmo v qc : vmo_HighQC v = Some qc -> carries (MVmo v) qc
| carries_block b qc : b_QC b = Some qc -> carries (MBlock b) qc.

(** The message of an event. *)
Definition event_msg (e : REvent) : option Msg :=
  match e with
  | REView _ => None
  | REBlock b => Some (MBlock b)
  | REVote v => Some (MVote v)
  | RETmo t => Some (MTmo t)
  | REVmo v => Some (MVmo v)
  end.

(** The certificates a replica has: its highest one, those it buffers, those of
    the blocks it stores, keeps or has in a channel, those of the timeout and view-change
    messages it keeps or its pacemaker collects, those in its event queue, and those
    it sent. *)
Inductive holds (r : Replica) : QC -> Prop :=
| holds_high : holds r (highQC (proto r))
| holds_buffered id qc : bufferedQCs (proto r) !! id = Some qc -> holds r qc
| holds_stored id b qc : GetVertex (forrest (bc (proto r))) id = Some b -> b_QC b = Some qc -> holds r qc
| holds_block k b qc : bufferedBlocks (proto r) !! k = Some b -> b_QC b = Some qc -> holds r qc
| holds_received k b qc : recivedBlock (proto r) !! k = Some b -> b_QC b = Some qc -> holds r qc
| holds_committed b qc : b ∈ committedBlocks (proto r) -> b_QC b = Some qc -> holds r qc
| holds_forked b qc : b ∈ forkedBlocks (proto r) -> b_QC b = Some qc -> holds r qc
| holds_vmo k v qc : recivedVMO (proto r) !! k = Some v -> vmo_HighQC v = Some qc -> holds r qc
| holds_timeout view ms k t qc : ctl_timeouts (timeoutController (pm (proto r))) !! view = Some ms ->
    ms !! k = Some t -> tmo_HighQC t = Some qc -> holds r qc
| holds_change view ms k v qc : ctl_timeouts (viewChangeController (pm (proto r))) !! view = Some ms ->
    ms !! k = Some v -> vmo_HighQC v = Some qc -> holds r qc
| holds_event e m qc : e ∈ eventChan r -> event_msg e = Some m -> carries m qc -> holds r qc
| holds_sent to m qc : OSend to m ∈ outbox (proto r) -> carries m qc -> holds r qc
| holds_broadcast m qc : OBroadcast m ∈ outbox (proto r) -> carries m qc -> holds r qc.

Lemma Forall_in {A} (Q : A -> Prop) l x : Forall Q l -> x ∈ l -> Q x.
Proof. intros H Hx. by apply (proj1 (Forall_forall _ _) H). Qed.
Lemma carries_ok i (P : QC -> Prop) m qc : @ok_msg (env i) P m -> carries m qc -> P qc.
Proof. intros H Hc. destruct Hc as [t qc E|v qc E|b qc E]; exact (H _ E). Qed.
Lemma event_ok (P : QC -> Prop) V e m qc : ok_event P V e -> event_msg e = Some m -> carries m qc -> P qc.
Proof. intros H Em Hc. destruct Hc as [t qc E|v qc E|b qc E]; destruct e; simplify_eq/=; exact (H _ E). Qed.

(** C11.  Certificates are never made up: in every state a cluster reaches, every
    certificate any of its replicas has in any part of its state, in its queue or in
    a message it sent is the initial one or has exactly a quorum of distinct signers,
    each of which made a vote for the certified block and either sent it to the
    certificate's collector or, being the collector, handed it to itself; one of
    these votes has the certificate's view. *)
Theorem certificates_backed ids c i r qc :
  rtc cstep (boot ids) c -> nodes c !! i = Some r -> holds r qc -> backed c qc.
Proof.
  intros Hr Hi Hq. destruct (cinv_reachable _ _ Hr _ _ Hi) as [[] He].
  destruct Hq as [|? ? E|? ? ? E Eq|? ? ? E Eq|? ? ? E Eq|? ? E Eq|? ? E Eq|? ? ? E Eq|? ? ? ? ? E1 E2 Eq|? ? ? ? ? E1 E2 Eq
    |e m ? E Em Eq|to m ? E Eq|m ? E Eq]; try by eauto.
  - exact (heap_GetVertex _ _ _ _ ct_stored E _ Eq).
  - exact (ct_buffered _ _ E _ Eq).
  - exact (ct_received _ _ E _ Eq).
  - exact (Forall_in _ _ _ ct_committed E _ Eq).
  - exact (Forall_in _ _ _ ct_forked E _ Eq).
  - exact (ct_vmos _ _ E _ Eq).
  - exact (ct_timeouts _ _ _ _ E1 E2 _ Eq).
  - exact (ct_changes _ _ _ _ E1 E2 _ Eq).
  - exact (event_ok _ _ _ _ _ (Forall_in _ _ _ He E) Em Eq).
  - exact (carries_ok i _ _ _ (Forall_in _ _ _ ct_outbox E) Eq).
  - pose proof (Forall_in _ _ _ ct_outbox E) as H. by destruct m; [| exact (carries_ok i _ _ _ H Eq)..].
Qed.
End cluster.
