(* ===== verification/Agreement.v ===== *)
(** * Agreement between replicas

    Four replicas as server/server.go starts them (replica ["1"] configured
    Byzantine, which in this code keeps it from proposing and from collecting
    votes, one tolerated fault, rotating leaders), connected as in Cluster.v.
    While messages arrive in time they commit the same chain.  When the
    messages of one leader are merely late, two honest replicas commit
    conflicting blocks, in each of the three protocols: a replica votes for a
    block of a view it has left long ago, also when it has meanwhile voted
    for a conflicting block of a later view. *)

From Stdlib Require Import String.
From stdpp Require Import base gmap strings numbers relations list.
From S2P Require Import Prelude.
From S2P Require Import Identity.
From S2P Require Import Config.
From S2P Require Import Crypto.
From S2P Require Import Election.
From S2P Require Import Message.
From S2P Require Import Mempool.
From S2P Require Import Block.
From S2P Require Import Quorum.
From S2P Require Import Protocol.
From S2P Require Import Safety.
From S2P Require Import Replica.
From S2P Require Import Certified.
From S2P Require Import Cluster.

Local Open Scope Z_scope.
Local Open Scope list_scope.

(** ** The environment *)

(** Block ids that tell the views apart. *)
Definition run_crypto : CryptoEnv := {|
  ce_sha3 := toy_sha3; ce_ecdsa := toy_ecdsa; ce_keys := toy_keys;
  ce_encode r := replicate (Z.to_nat (raw_View r)) 0 |}.

Definition run_env (i : NodeID) : Env := {|
  env_crypto := run_crypto; env_election := rotation_election (NewRotation 4);
  env_cfg := cfg_f 1; me := i; IsByz := IsByzantine (cfg_f 1) i |}.

Definition members : list NodeID := ["1"; "2"; "3"; "4"]%string.

Definition run_hotstuff (i : NodeID) : @Safety (run_env i) := @hotstuff_safety (run_env i).
Definition run_tchs (i : NodeID) : @Safety (run_env i) := @tchs_safety (run_env i).
Definition run_fhs (i : NodeID) : @Safety (run_env i) := @fhs_safety (run_env i).

#[local] Existing Instance gset_bits.

Definition committed_at (c : Cluster) (i : NodeID) : list Block :=
  match nodes c !! i with Some r => committedBlocks (proto r) | None => [] end.

(** Two blocks committed on the same parent. *)
Definition conflict (b b' : Block) : Prop := b_PrevID b = b_PrevID b' /\ b_ID b <> b_ID b'.
#[local] Instance conflict_dec b b' : Decision (conflict b b').
Proof. unfold conflict. apply _. Defined.

(** ** Schedules *)

Definition step_of (i : NodeID) : list Act := [Local i LNewView; Local i (LEvent 50)].
Definition pass (i j : NodeID) : list Act := [Deliver i j; Local j (LEvent 50)].
Definition times (k : nat) (l : list Act) : list Act := mjoin (replicate k l).

(** One message of every link of the group, then every node looks at its view. *)
Definition round (g : list NodeID) : list Act :=
  (i ← g; j ← g; if decide (i = j) then [] else pass i j) ++ (i ← g; step_of i).
Definition timeouts (g : list NodeID) (k : nat) : list Act :=
  ((fun i => Local i LTimer) <$> g) ++ times k (round g).

(** The first transaction reaches the first leader. *)
Definition kick : list Act := Local "4"%string (LTxn (toy_txn "x"%string)) :: step_of "4"%string.

(** Up to view 25, whose leader ["4"] has just proposed on the certificate of
    view 24, which the others have not seen; the views of Byzantine leaders time
    out. *)
Definition until_25 : list Act :=
  kick ++ times 16 (round members) ++ (k ← [1; 2; 2; 13; 10; 5; 9; 15]%nat; timeouts members k) ++
  times 4 (round members).
(** ["4"] is slow: the others time out up to view 31, whose leader ["3"]
    proposes on the certificate of view 23; they vote. *)
Definition without_4 : list Act :=
  let g := ["1"; "2"; "3"]%string in (k ← [2; 2; 2; 4; 4; 1]%nat; timeouts g k) ++ round g.
(** The messages between ["4"] and two of the others arrive; ["4"] times out. *)
Definition late : list Act :=
  let a := "4"%string in let b := "1"%string in let c := "2"%string in
  times 8 (pass a b ++ pass a c) ++ times 14 (pass b a ++ pass c a) ++ Local a LTimer :: times 2 (step_of a).

Definition delayed_long : list Act :=
  until_25 ++ without_4 ++ times 2 late ++ times 8 (round ["1"; "2"; "3"]%string).

(** A two-chain needs one leader for two views only: ["3"] has proposed in view 4
    on the certificate of view 3, its messages are late; the others vote for
    the block ["2"] proposes in view 6 on view 2; the late block gets its votes
    too; from view 15 on the others certify two blocks in a row. *)
Definition delayed_short : list Act :=
  let g := ["1"; "2"; "4"]%string in
  let a := "3"%string in let b := "1"%string in let c := "4"%string in
  kick ++ times 9 (round members) ++ timeouts g 2 ++ timeouts g 2 ++ round g ++
  times 4 (pass a b ++ pass a c) ++ times 5 (pass b a ++ pass c a) ++ Local a LTimer :: times 2 (step_of a) ++
  times 2 (round g) ++ times 8 (timeouts g 2) ++ times 7 (round g).

Definition after (S : forall i, @Safety (run_env i)) (l : list Act) : Cluster :=
  match act_all run_env S (fun _ => 0) l (boot run_env members) with Ret c => c | _ => boot run_env members end.

Lemma after_steps S l : rtc (cstep run_env S) (boot run_env members) (after S l).
Proof.
  unfold after. destruct (act_all _ _ _ _ _) as [c| | |] eqn:E; [|done..]. by eapply act_all_steps.
Qed.

(** ** Messages on time *)

(** After twenty rounds every replica has committed the blocks of the first four
    views, in order. *)
Example on_time :
  (fun i => b_View <$> committed_at (after run_hotstuff (kick ++ times 20 (round members))) i) <$> members =
  [[1; 2; 3; 4]; [1; 2; 3; 4]; [1; 2; 3; 4]; [1; 2; 3; 4]].
Proof. vm_compute. reflexivity. Qed.

(** ** Messages late *)

Definition forked (i j : NodeID) (c : Cluster) : bool :=
  existsb (fun b => existsb (fun b' => bool_decide (conflict b b')) (committed_at c j)) (committed_at c i).
Lemma forked_conflict i j c : forked i j c = true ->
  exists b b', b ∈ committed_at c i /\ b' ∈ committed_at c j /\ conflict b b'.
Proof.
  intros (b & Hb & (b' & Hb' & H)%existsb_exists)%existsb_exists. apply bool_decide_eq_true in H.
  exists b, b'. by rewrite !list_elem_of_In.
Qed.

Lemma hotstuff_forked : forked "3"%string "4"%string (after run_hotstuff delayed_long) = true.
Proof. vm_compute. reflexivity. Qed.
Lemma tchs_forked : forked "3"%string "2"%string (after run_tchs delayed_short) = true.
Proof. vm_compute. reflexivity. Qed.
Lemma fhs_forked : forked "3"%string "2"%string (after run_fhs delayed_short) = true.
Proof. vm_compute. reflexivity. Qed.

(** C35.  Delays break agreement: in each protocol, a cluster of four replicas in
    which nothing but the order of arrival differs from a normal run reaches a
    state where two honest replicas have committed two different blocks on the
    same parent. *)
Theorem delays_break_agreement S :
  S = run_hotstuff \/ S = run_tchs \/ S = run_fhs ->
  exists c i j b b', rtc (cstep run_env S) (boot run_env members) c /\
    @IsByz (run_env i) = false /\ @IsByz (run_env j) = false /\
    b ∈ committed_at c i /\ b' ∈ committed_at c j /\ conflict b b'.
Proof.
  assert (Hgen : forall S l i j, forked i j (after S l) = true ->
    @IsByz (run_env i) = false -> @IsByz (run_env j) = false -> exists c i j b b',
    rtc (cstep run_env S) (boot run_env members) c /\ @IsByz (run_env i) = false /\ @IsByz (run_env j) = false /\
    b ∈ committed_at c i /\ b' ∈ committed_at c j /\ conflict b b').
  { intros S0 l i j (b & b' & Hb & Hb' & Hc)%forked_conflict Hi Hj. exists (after S0 l), i, j, b, b'.
    split; [apply after_steps|]. by split_and!. }
  intros [->|[->| ->]]; eapply Hgen;
    [exact hotstuff_forked | done | done | exact tchs_forked | done | done | exact fhs_forked | done | done].
Qed.

Lemma delays_break_agreement_witness : exists c i j b b',
  rtc (cstep run_env run_tchs) (boot run_env members) c /\
  @IsByz (run_env i) = false /\ @IsByz (run_env j) = false /\
  b ∈ committed_at c i /\ b' ∈ committed_at c j /\ conflict b b'.
Proof. exact (delays_break_agreement run_tchs (or_intror (or_introl eq_refl))). Defined.

(** After nine rounds of Tchs replica ["3"] holds a certificate of view 3. *)
Definition nine_rounds : Cluster := after run_tchs (kick ++ times 9 (round members)).
Definition high_view (c : Cluster) (i : NodeID) : option Z :=
  (fun r => qc_View (highQC (proto r))) <$> nodes c !! i.
Lemma certificates_backed_witness :
  exists r, nodes nine_rounds !! "3"%string = Some r /\ qc_View (highQC (proto r)) = 3 /\
    backed run_env nine_rounds (highQC (proto r)).
Proof.
  assert (Hv : high_view nine_rounds "3"%string = Some 3) by (vm_compute; reflexivity).
  apply fmap_Some in Hv as (r & Hr & Hv). exists r. split; [exact Hr|]. split; [symmetry; exact Hv|].
  eapply (certificates_backed run_env run_tchs (fun i => eq_refl) members nine_rounds "3"%string r _
    (after_steps run_tchs _) Hr). apply holds_high.
Defined.
