(* ===== verification/Debug.v ===== *)
(** * Profiling (server/debug.go)

    With [Pprof] set, [setupDebug] starts the pprof HTTP endpoint and the recorder:
    every five seconds the CPU profile of the interval and a heap profile are
    written below ./debug.  The operating system answers through arguments (the
    result of [os.Stat] and [os.Mkdir], whether an [os.Create] succeeds, the
    formatted clock readings); what the recorder does is a trace of operations.

    Result: whatever fails, the recorder never runs two CPU profiles at once, uses
    only files that are open and keeps at most one of them open between ticks. *)

From Stdlib Require Import String.
From stdpp Require Import base strings list numbers.
From S2P Require Import Prelude.
From S2P Require Import Config.

Local Open Scope Z_scope.
Local Open Scope go_scope.

Definition DefaultURL : string := "0.0.0.0".

(** What [setupDebug] launches: a server on an address, a recorder with a period
    in nanoseconds. *)
Inductive Routine := ListenAndServe (addr : string) | RecordPProf (duration : Z).

Definition setupDebug (c : Config) : list Routine :=
  if cfg_Pprof c
  then [ListenAndServe (DefaultURL +:+ ":" +:+ "10001")%string; RecordPProf (5 * 1000000000)]
  else [].

(** [os.Stat]. *)
Inductive StatResult := StatOk | StatNotExist | StatError (e : error).
Definition pathExists (r : StatResult) : bool * option error :=
  match r with
  | StatOk => (true, None)
  | StatNotExist => (false, None)
  | StatError e => (false, Some e)
  end.

(** A file is its path; a nil [*os.File], left by a failed [os.Create], is [None]. *)
Abbreviation File := (option string) (only parsing).
Inductive Op :=
| Mkdir (path : string) | Create (path : string) (file : File)
| StartCPUProfile (w : File) | StopCPUProfile | WriteHeapProfile (w : File) | Close (f : File).

(** The variables of [recordPProf] and what it has done. *)
Record Recorder := mkRecorder {
  cpuProfile : string;
  memProfile : string;
  cpuFile : File;
  memFile : File;
  trace : list Op }.
Definition new_recorder : Recorder := mkRecorder "" "" None None [].

Definition emit_op (o : Op) : M Recorder unit :=
  modify (fun r => mkRecorder (cpuProfile r) (memProfile r) (cpuFile r) (memFile r) (trace r ++ [o])).

(** [os.Create] whose error is dropped; [ok]: it succeeds. *)
Definition create (path : string) (ok : bool) : M Recorder File :=
  let file := if ok then Some path else None in
  emit_op (Create path file);; ret file.

(** The two names, from two readings of the clock, then the next CPU profile. *)
Definition begin_profile (t0 t1 : string) (ok : bool) : M Recorder unit :=
  modify (fun r => mkRecorder ("./debug/cpu_" +:+ t0) ("./debug/mem_" +:+ t1) (cpuFile r) (memFile r) (trace r));;
  path ← gets cpuProfile;
  file ← create path ok;
  modify (fun r => mkRecorder (cpuProfile r) (memProfile r) file (memFile r) (trace r));;
  emit_op (StartCPUProfile file).

(** [recordPProf] up to its loop; [false]: it has returned. *)
Definition recordPProf (st : StatResult) (mkdir : option error) (t0 t1 : string) (ok : bool) :
    M Recorder bool :=
  match pathExists st with
  | (_, Some _) => ret false
  | (found, None) =>
      err ← (if found then ret None else emit_op (Mkdir "./debug");; ret mkdir);
      match (err : option error) with
      | Some _ => ret false
      | None => begin_profile t0 t1 ok;; ret true
      end
  end.

(** One tick of the loop. *)
Record Tick := mkTick { tick_mem : bool; tick_cpu : bool; tick_t0 : string; tick_t1 : string }.
Definition on_tick (t : Tick) : M Recorder unit :=
  emit_op StopCPUProfile;;
  r ← gets (fun r => r);
  emit_op (Close (cpuFile r));;
  file ← create (memProfile r) (tick_mem t);
  modify (fun r => mkRecorder (cpuProfile r) (memProfile r) (cpuFile r) file (trace r));;
  emit_op (WriteHeapProfile file);;
  emit_op (Close file);;
  begin_profile (tick_t0 t) (tick_t1 t) (tick_cpu t).

Fixpoint ticks (l : list Tick) : M Recorder unit :=
  match l with [] => skip | t :: rest => on_tick t;; ticks rest end.

(** ** A monitor for the trace *)

(** Whether a CPU profile runs, and the open files. *)
Record Mon := mkMon { profiling : bool; opened : list string }.

Definition usable (w : File) (m : Mon) : bool :=
  match w with None => true | Some p => bool_decide (p ∈ opened m) end.
Fixpoint remove_one (p : string) (l : list string) : list string :=
  match l with [] => [] | q :: rest => if decide (p = q) then rest else q :: remove_one p rest end.

Definition monitor (m : Mon) (o : Op) : option Mon :=
  match o with
  | Mkdir _ => Some m
  | Create _ None => Some m
  | Create _ (Some p) => Some (mkMon (profiling m) (p :: opened m))
  | StartCPUProfile w => if negb (profiling m) && usable w m then Some (mkMon true (opened m)) else None
  | StopCPUProfile => if profiling m then Some (mkMon false (opened m)) else None
  | WriteHeapProfile w => if usable w m then Some m else None
  | Close None => Some m
  | Close (Some p) => if usable (Some p) m then Some (mkMon (profiling m) (remove_one p (opened m))) else None
  end.
Fixpoint monitors (m : Mon) (l : list Op) : option Mon :=
  match l with [] => Some m | o :: rest => monitor m o ≫= (fun m' => monitors m' rest) end.

Lemma monitors_app m l k : monitors m (l ++ k) = (monitors m l ≫= (fun m' => monitors m' k)).
Proof. revert m. induction l as [|o l IH]; intros m; simpl; [done|]. destruct (monitor m o); [apply IH | done]. Qed.

Lemma monitors_snoc m l o m1 m2 :
  monitors m l = Some m1 -> monitor m1 o = Some m2 -> monitors m (l ++ [o]) = Some m2.
Proof. intros H1 H2. rewrite monitors_app, H1. simpl. by rewrite H2. Qed.

Lemma remove_one_head p l : remove_one p (p :: l) = l.
Proof. simpl. by rewrite decide_True. Qed.

(** The state the recorder is in between ticks. *)
Definition recording (r : Recorder) : Prop :=
  monitors (mkMon false []) (trace r) = Some (mkMon true (option_list (cpuFile r))).

Lemma begin_profile_run t0 t1 ok r l :
  monitors (mkMon false []) (trace r) = Some (mkMon false l) -> l = [] ->
  exists r', begin_profile t0 t1 ok r = Ret (tt, r') /\ recording r'.
Proof.
  intros H ->. eexists. split; [reflexivity|]. unfold recording. simpl.
  destruct ok; simpl; (eapply monitors_snoc; [eapply monitors_snoc; [exact H | reflexivity]|]); simpl; [|done].
  by rewrite bool_decide_eq_true_2 by (by left).
Qed.

Lemma on_tick_run t r : recording r -> exists r', on_tick t r = Ret (tt, r') /\ recording r'.
Proof.
  intros H. unfold recording in H.
  assert (Hc : monitors (mkMon false []) ((trace r ++ [StopCPUProfile]) ++ [Close (cpuFile r)]) = Some (mkMon false [])).
  { eapply monitors_snoc; [eapply monitors_snoc; [exact H | reflexivity]|]. destruct (cpuFile r) as [p|]; simpl; [|done].
    rewrite bool_decide_eq_true_2 by (by left). by rewrite decide_True. }
  set (file := if tick_mem t then Some (memProfile r) else None).
  assert (Hm : monitors (mkMon false []) (((((trace r ++ [StopCPUProfile]) ++ [Close (cpuFile r)]) ++
            [Create (memProfile r) file]) ++ [WriteHeapProfile file]) ++ [Close file]) = Some (mkMon false [])).
  { rewrite <- (app_assoc _ [_] [_]), <- (app_assoc _ [_] (_ ++ _)), monitors_app, Hc. subst file.
    destruct (tick_mem t); simpl; [|done].
    rewrite !bool_decide_eq_true_2 by (by left). simpl. rewrite !bool_decide_eq_true_2 by (by left).
    simpl. by rewrite decide_True. }
  destruct (begin_profile_run (tick_t0 t) (tick_t1 t) (tick_cpu t)
    (mkRecorder (cpuProfile r) (memProfile r) (cpuFile r) file
       (((((trace r ++ [StopCPUProfile]) ++ [Close (cpuFile r)]) ++ [Create (memProfile r) file]) ++
         [WriteHeapProfile file]) ++ [Close file])) [] Hm eq_refl) as (r' & Hr & Hrec).
  by exists r'.
Qed.

Lemma ticks_run l : forall r, recording r -> exists r', ticks l r = Ret (tt, r') /\ recording r'.
Proof.
  induction l as [|t l IH]; intros r H; simpl; [by exists r|].
  destruct (on_tick_run t r H) as (r1 & H1 & Hr1). unfold gbind. rewrite H1. by apply IH.
Qed.

(** The recorder either returns at once, having opened nothing, or records: after
    any number of ticks, whichever files could not be created, exactly one CPU
    profile runs and the only open file is the one it goes to. *)
Theorem recorder_brackets st mkdir t0 t1 ok l :
  exists started r, recordPProf st mkdir t0 t1 ok new_recorder = Ret (started, r) /\
    (started = false -> monitors (mkMon false []) (trace r) = Some (mkMon false [])) /\
    (started = true -> exists r', ticks l r = Ret (tt, r') /\
       monitors (mkMon false []) (trace r') = Some (mkMon true (option_list (cpuFile r')))).
Proof.
  assert (Hb : forall r, monitors (mkMon false []) (trace r) = Some (mkMon false []) ->
    exists r1, begin_profile t0 t1 ok r = Ret (tt, r1) /\
      exists r', ticks l r1 = Ret (tt, r') /\ recording r').
  { intros r Hr. destruct (begin_profile_run t0 t1 ok r _ Hr eq_refl) as (r1 & H1 & Hr1).
    exists r1. split; [done|]. by apply ticks_run. }
  unfold recordPProf. destruct st as [| |e]; cbn [pathExists].
  - destruct (Hb new_recorder eq_refl) as (r1 & H1 & Hr). exists true, r1.
    unfold gbind at 1, ret at 1. unfold gbind. rewrite H1. by split_and!.
  - destruct mkdir as [e|].
    + eexists false, _. split; [reflexivity|]. by split.
    + destruct (Hb (mkRecorder "" "" None None [Mkdir "./debug"]) eq_refl) as (r1 & H1 & Hr).
      exists true, r1. unfold gbind, emit_op, modify, ret. cbn -[begin_profile]. rewrite H1. by split_and!.
  - exists false, new_recorder. by split_and!.
Qed.
