(* ===== verification/Server.v ===== *)
(** * Starting a server (init.go, server/server.go)

    The process a server binary runs: the log and the configuration are set up, the
    keys generated, and one replica started, or in simulation mode one per
    configured node.  Flags are arguments; the profiling routines a server launches are those of
    Debug.v.  What is recorded of a replica that is started is its id, the algorithm
    flag and whether it is Byzantine.

    Result: which replicas start with which role, in both modes. *)

From Stdlib Require Import String.
From stdpp Require Import base gmap strings numbers list.
From S2P Require Import Prelude.
From S2P Require Import Identity.
From S2P Require Import Json.
From S2P Require Import Log.
From S2P Require Import Config.
From S2P Require Import Crypto.
From S2P Require Import Transport.
From S2P Require Import Debug.

Local Open Scope Z_scope.
Local Open Scope go_scope.

Record Flags := mkFlags { fl_algorithm : string; fl_id : string; fl_sim : bool }.
Record Start := mkStart { st_id : NodeID; st_alg : string; st_isByz : bool }.

Section main.
Context {E : Ecdsa}.

Record Process := mkProcess {
  p_log : logger;
  p_cfg : Config;
  p_scheme : string;
  p_keys : option KeyTable;
  p_started : list Start;
  p_debug : list Routine }.

Definition set_p_log (l : logger) (p : Process) : Process :=
  mkProcess l (p_cfg p) (p_scheme p) (p_keys p) (p_started p) (p_debug p).
Definition set_p_scheme (s : string) (p : Process) : Process :=
  mkProcess (p_log p) (p_cfg p) s (p_keys p) (p_started p) (p_debug p).

(** [Init]: [path] is the log file, [text] the configuration file and [lines] the
    lines of ips.txt. *)
Definition Init (exotic : list Ascii.ascii -> option json) (path : string) (text : option string) (lines : list string) :
    M Process unit :=
  zoom p_log set_p_log (Setup path);;
  c ← gets p_cfg;
  c ← lift (LoadFile exotic text lines c);
  modify (fun p => mkProcess (p_log p) c (p_scheme p) (p_keys p) (p_started p) (p_debug p)).

Definition on_log (m : M logger unit) : M Process unit := zoom p_log set_p_log m.
Definition initReplica (id : NodeID) (alg : string) (isByz : bool) : M Process unit :=
  on_log (Info ("node " +:+ id +:+ " starting...")%string);;
  when isByz (on_log (Info ("node " +:+ id +:+ " is Byzantine")%string));;
  modify (fun p => mkProcess (p_log p) (p_cfg p) (p_scheme p) (p_keys p) (p_started p ++ [mkStart id alg isByz]) (p_debug p)).

(** The loop of simulation mode over the ids of the address table. *)
Fixpoint start_all (alg : string) (ids : list NodeID) : M Process unit :=
  match ids with
  | [] => skip
  | id :: more =>
      c ← gets p_cfg;
      initReplica id alg (Node id <=? ByzNo c);;
      start_all alg more
  end.

(** [main] after [Init]; a key error is fatal.  [order] is the order in which
    the address table is iterated. *)
Definition main (f : Flags) (order : list NodeID) : M Process unit :=
  c ← gets p_cfg;
  '(err, t) ← lift (SetKeys c);
  match (err : option error) with
  | Some e => on_log (Fatal "Could not generate keys:")
  | None =>
      modify (fun p => mkProcess (p_log p) (p_cfg p) (p_scheme p) (Some t) (p_started p) (p_debug p));;
      if fl_sim f then
        zoom p_scheme set_p_scheme Simulation;;
        start_all (fl_algorithm f) order
      else
        modify (fun p => mkProcess (p_log p) (p_cfg p) (p_scheme p) (p_keys p) (p_started p) (p_debug p ++ setupDebug c));;
        initReplica (fl_id f) (fl_algorithm f) ((Strconv.Atoi (fl_id f)).1 <=? ByzNo c)
  end.

Lemma on_log_Info text p : exists l, on_log (Info text) p = Ret (tt, set_p_log l p).
Proof. unfold on_log, zoom. destruct (Info_returns text (p_log p)) as [l ->]. by exists l. Qed.

Lemma initReplica_run id alg isByz p :
  exists l, initReplica id alg isByz p =
    Ret (tt, mkProcess l (p_cfg p) (p_scheme p) (p_keys p) (p_started p ++ [mkStart id alg isByz]) (p_debug p)).
Proof.
  unfold initReplica, gbind. destruct (on_log_Info ("node " +:+ id +:+ " starting...")%string p) as [l ->].
  destruct isByz; cbn [when].
  - destruct (on_log_Info ("node " +:+ id +:+ " is Byzantine")%string (set_p_log l p)) as [l' ->]. by exists l'.
  - by exists l.
Qed.

Lemma start_all_run alg ids : forall p,
  exists l, start_all alg ids p =
    Ret (tt, mkProcess l (p_cfg p) (p_scheme p) (p_keys p)
               (p_started p ++ ((fun id => mkStart id alg (IsByzantine (p_cfg p) id)) <$> ids)) (p_debug p)).
Proof.
  induction ids as [|id ids IH]; intros p; cbn [start_all].
  - exists (p_log p). rewrite app_nil_r. by destruct p.
  - unfold gbind, gets. destruct (initReplica_run id alg (Node id <=? ByzNo (p_cfg p)) p) as [l ->].
    destruct (IH (mkProcess l (p_cfg p) (p_scheme p) (p_keys p)
                    (p_started p ++ [mkStart id alg (Node id <=? ByzNo (p_cfg p))]) (p_debug p))) as [l' ->].
    exists l'. simpl. by rewrite <- app_assoc.
Qed.
End main.

(** Once the keys are generated, a simulation starts every node of the table
    once, a server its own; the role of each replica is the one the configuration
    gives its number; only a server launches the profiling routines.  A server
    without an id has the role of node 0, which is Byzantine. *)
Theorem server_roles {E : Ecdsa} f order p t :
  SetKeys (p_cfg p) = Ret (None, t) -> p_started p = [] ->
  exists p', main f order p = Ret (tt, p') /\ p_keys p' = Some t /\
    p_debug p' = p_debug p ++ (if fl_sim f then [] else setupDebug (p_cfg p)) /\
    (fl_sim f = true -> p_scheme p' = "chan"%string /\
       p_started p' = (fun id => mkStart id (fl_algorithm f) (IsByzantine (p_cfg p) id)) <$> order) /\
    (fl_sim f = false -> exists isByz, p_started p' = [mkStart (fl_id f) (fl_algorithm f) isByz] /\
       (forall k, 0 <= k < two63 -> fl_id f = NewNodeID k -> isByz = IsByzantine (p_cfg p) (NewNodeID k)) /\
       (fl_id f = ""%string -> 0 <= ByzNo (p_cfg p) -> isByz = true)).
Proof.
  intros Hk Hs. unfold main, gbind, gets, lift. rewrite Hk. unfold modify. cbv iota beta.
  destruct (fl_sim f) eqn:Ef.
  - unfold zoom, Simulation, modify. cbv iota beta.
    destruct (start_all_run (fl_algorithm f) order
                (set_p_scheme "chan" (mkProcess (p_log p) (p_cfg p) (p_scheme p) (Some t) (p_started p) (p_debug p)))) as [l ->].
    eexists. split; [reflexivity|]. simpl. rewrite Hs, app_nil_r. by split_and!.
  - cbn [p_log p_cfg p_scheme p_keys p_started p_debug].
    destruct (initReplica_run (fl_id f) (fl_algorithm f) ((Strconv.Atoi (fl_id f)).1 <=? ByzNo (p_cfg p))
                (mkProcess (p_log p) (p_cfg p) (p_scheme p) (Some t) (p_started p) (p_debug p ++ setupDebug (p_cfg p)))) as [l ->].
    eexists. split; [reflexivity|]. simpl. rewrite Hs. split_and!; [done | done | done |]. intros _.
    eexists. split_and!; [reflexivity | |].
    + intros k Hk' ->. unfold IsByzantine. rewrite Node_NewNodeID_nonneg by done.
      unfold NewNodeID. destruct (Z.ltb_spec k 0); [lia|].
      rewrite Strconv.Atoi_Itoa by (unfold is_i64; lia). done.
    + intros -> Hb. simpl. by apply Z.leb_le.
Qed.

Definition toy_process : Process (E := toy_ecdsa) := mkProcess init_logger toy_config "tcp" None [] [].
Lemma server_roles_witness :
  exists p', main (E := toy_ecdsa) (mkFlags "hotstuff" "" false) [] toy_process = Ret (tt, p') /\
    exists isByz, p_started p' = [mkStart "" "hotstuff" isByz] /\ (0 <= ByzNo toy_config -> isByz = true).
Proof.
  destruct (server_roles (E := toy_ecdsa) (mkFlags "hotstuff" "" false) [] toy_process toy_keys) as (p' & Hm & _ & _ & _ & Hs);
    [reflexivity | reflexivity |].
  exists p'. split; [exact Hm|]. destruct (Hs eq_refl) as (isByz & H1 & _ & H2). exists isByz.
  split; [exact H1|]. intros Hb. apply H2; [reflexivity | exact Hb].
Defined.
