(* ===== verification/Client.v ===== *)
(** * The HTTP client (client.go, client/client.go)

    The client holds the address tables of the configuration and sends requests
    through net/http.  The network is a parameter: [Do] exchanges a request for a
    response or an error and threads the state of whatever answers.  Maps are
    iterated in an order the runtime chooses, and the goroutines of [AllPut] end
    in an order the network chooses: both orders are arguments.

    Results: whom a client talks to and what creating one does to the shared
    configuration; what [Put] reports when requests fail; [Consensus] against a
    definition of agreeing histories; what a node's HTTP server makes of each of
    the client's requests. *)

From Stdlib Require Import Ascii String.
From stdpp Require Import base gmap strings numbers list.
From S2P Require Import Prelude.
From S2P Require Import Identity.
From S2P Require Import Url.
From S2P Require Import Config.
From S2P Require Import Db.
From S2P Require Import Transport.
From S2P Require Import Node.

Local Open Scope Z_scope.
Local Open Scope go_scope.

(** ** Requests and responses *)

Inductive Method := MethodGet | MethodPut | MethodPost.
Record Request := mkRequest {
  rq_Method : Method;
  rq_URL : string;
  rq_Body : list Z;
  rq_Header : list (string * string) }.
(** [rs_Body] is [None] when reading the body fails. *)
Record Response := mkResponse { rs_StatusCode : Z; rs_Status : string; rs_Body : option (list Z) }.

Section client.
Context {W : Type} (Do : Request -> M W (error + Response)) (exotic : string -> option URL).
(** encoding/json on the types the client uses. *)
Context (Marshal : Command -> list Z) (Unmarshal : list Z -> option (list Value)).

(** [hc_net] is the embedded [*http.Client] with what it reaches. *)
Record HTTPClient := mkHTTPClient {
  hc_Addrs : option (gmap NodeID string);
  hc_HTTP : option (gmap NodeID string);
  hc_ID : NodeID;
  hc_N : Z;
  hc_CID : Z;
  hc_net : W }.

Definition set_net (w : W) (c : HTTPClient) : HTTPClient :=
  mkHTTPClient (hc_Addrs c) (hc_HTTP c) (hc_ID c) (hc_N c) (hc_CID c) w.
Definition next_CID (c : HTTPClient) : HTTPClient :=
  mkHTTPClient (hc_Addrs c) (hc_HTTP c) (hc_ID c) (hc_N c) (i64 (hc_CID c + 1)) (hc_net c).
Definition request (r : Request) : M HTTPClient (error + Response) := zoom hc_net set_net (Do r).

(** The deletions of [NewHTTPClient] for the nodes [i .. i + k - 1]; deleting from a
    nil map does nothing. *)
Fixpoint forget (k : nat) (i : Z) (m : option (gmap NodeID string)) : option (gmap NodeID string) :=
  match k with
  | O => m
  | S k' => forget k' (i + 1) (delete (NewNodeID i) <$> m)
  end.

(** [NewHTTPClient]: the client's tables are the configuration's own maps, so the
    deletions change both.  The counting loop does not end for the greatest
    [int]. *)
Definition NewHTTPClient (cfg : Config) (w : W) : outcome (HTTPClient * Config) :=
  let n := Z.of_nat (size (default ∅ (Addrs cfg))) in
  let make (a h : option (gmap NodeID string)) :=
    (mkHTTPClient a h ""%string n 0 w, with_tables a h (Config_N cfg) cfg) in
  if bool_decide (Strategy cfg = "silence"%string) then
    if ByzNo cfg =? two63 - 1 then Diverge
    else Ret (make (forget (Z.to_nat (ByzNo cfg)) 1 (Addrs cfg)) (forget (Z.to_nat (ByzNo cfg)) 1 (HTTPAddrs cfg)))
  else Ret (make (Addrs cfg) (HTTPAddrs cfg)).

(** [Get] only counts. *)
Definition Get (key : Key) : M HTTPClient (string * option error) :=
  modify next_CID;; ret (""%string, None).

Definition StatusOK : Z := 200.

(** [rest]: a nil value is a read. *)
Definition rest (url : string) (value : Value) : M HTTPClient (option error) :=
  c ← gets (fun c => c);
  let method := match value with None => MethodGet | Some _ => MethodPut end in
  match url_Parse exotic url with
  | None => ret (Some ("parse " +:+ url)%string)
  | Some _ =>
      rep ← request (mkRequest method url (default [] value)
                       [("Id", hc_ID c); ("Cid", Strconv.Itoa (hc_CID c)); ("Connection", "keep-alive")]%string);
      match rep with
      | inl err => ret (Some err)
      | inr rep => ret (if rs_StatusCode rep =? StatusOK then None else Some (rs_Status rep))
      end
  end.

Definition lookup_url (c : HTTPClient) (id : NodeID) : string := default ""%string (default ∅ (hc_HTTP c) !! id).

(** [json]: the error of [Marshal] is overwritten. *)
Definition json (id : NodeID) (key : Key) (value : Value) : M HTTPClient (Value * option error) :=
  c ← gets (fun c => c);
  rep ← request (mkRequest MethodPost (lookup_url c id) (Marshal (mkCommand key value (hc_ID c) (hc_CID c)))
                   [("Content-Type", "json")]%string);
  match rep with
  | inl err => ret (None, Some err)
  | inr rep =>
      ret (if rs_StatusCode rep =? StatusOK then (Some (default [] (rs_Body rep)), None)
           else (None, Some (rs_Status rep)))
  end.
Definition JSONGet (key : Key) : M HTTPClient (Value * option error) :=
  id ← gets hc_ID; json id key None.
Definition JSONPut (key : Key) (value : Value) : M HTTPClient (Value * option error) :=
  id ← gets hc_ID; json id key value.

(** ** AllPut

    One goroutine per entry of the table: they send in the order [sends] and
    store their result in the shared [err] in the order [ends]. *)
Definition put_url (key : Key) (id : NodeID) (ip : string) : string :=
  (ip +:+ "/" +:+ Strconv.Itoa (i64 (key + Node id)))%string.
Fixpoint put_each (key : Key) (value : Value) (sends : list (NodeID * string)) :
    M HTTPClient (list (NodeID * option error)) :=
  match sends with
  | [] => ret []
  | (id, ip) :: more =>
      e ← rest (put_url key id ip) value;
      es ← put_each key value more;
      ret ((id, e) :: es)
  end.
Fixpoint store_err (results : list (NodeID * option error)) (ends : list NodeID) (err : option error) : option error :=
  match ends with
  | [] => err
  | id :: more => store_err results more (default None (list_to_map (M := gmap NodeID _) results !! id))
  end.
Definition AllPut (sends : list (NodeID * string)) (ends : list NodeID) (key : Key) (value : Value) :
    M HTTPClient (option error) :=
  results ← put_each key value sends;
  ret (store_err results ends None).

Definition RESTPut := AllPut.
Definition Put (sends : list (NodeID * string)) (ends : list NodeID) (key : Key) (value : Value) :
    M HTTPClient (option error) :=
  modify next_CID;; RESTPut sends ends key value.

(** ** Consensus *)
Definition get_url (url : string) : M HTTPClient (error + Response) := request (mkRequest MethodGet url [] []).

(** What one node's answer makes of its history: every failure leaves it
    empty. *)
Definition read_history (rep : error + Response) : list Value :=
  match rep with
  | inl _ => []
  | inr rep =>
      match rs_Body rep with
      | None => []
      | Some b => default [] (Unmarshal b)
      end
  end.
Fixpoint collect (k : Key) (l : list (NodeID * string)) (h : gmap NodeID (list Value)) :
    M HTTPClient (gmap NodeID (list Value)) :=
  match l with
  | [] => ret h
  | (id, url) :: more =>
      r ← get_url (url +:+ "/history?key=" +:+ Strconv.Itoa k)%string;
      collect k more (<[id := read_history r]> h)
  end.

(** [string(v)]: nil and the empty slice are the same string. *)
Definition value_string (v : Value) : list Z := default [] v.
Definition longest (h : gmap NodeID (list Value)) : nat := map_fold (fun _ v n => Nat.max (length v) n) 0%nat h.
Definition column (i : nat) (ids : list NodeID) (h : gmap NodeID (list Value)) : gset (list Z) :=
  foldr (fun id s => match default [] (h !! id) !! i with Some v => {[value_string v]} ∪ s | None => s end) ∅ ids.
Fixpoint rows_agree (i : nat) (k : nat) (ids : list NodeID) (h : gmap NodeID (list Value)) : bool :=
  match k with
  | O => true
  | S k' => if (1 <? size (column i ids h))%nat then false else rows_agree (S i) k' ids h
  end.
(** [l] is the order in which the table is iterated. *)
Definition Consensus (l : list (NodeID * string)) (k : Key) : M HTTPClient bool :=
  h ← collect k l ∅;
  ret (rows_agree 0 (longest h) l.*1 h).

(** ** Faults *)
Definition crash_url (base : string) (t : Z) : string := (base +:+ "/crash?t=" +:+ Strconv.Itoa t)%string.
Definition drop_url (base : string) (to : NodeID) (t : Z) : string :=
  (base +:+ "/drop?id=" +:+ to +:+ "&t=" +:+ Strconv.Itoa t)%string.
Definition Crash (id : NodeID) (t : Z) : M HTTPClient unit :=
  c ← gets (fun c => c);
  r ← get_url (crash_url (lookup_url c id) t);
  skip.
Definition Drop (from to : NodeID) (t : Z) : M HTTPClient unit :=
  c ← gets (fun c => c);
  r ← get_url (drop_url (lookup_url c from) to t);
  skip.

(** client/client.go: the database the benchmark writes to. *)
Definition Database_Write (sends : list (NodeID * string)) (ends : list NodeID) (k : Z) (v : list Z) :
    M HTTPClient (option error) := Put sends ends k (Some v).
End client.

(** ** Whom a client talks to *)

Lemma forget_lookup k : forall i m id url,
  default ∅ (forget k i m) !! id = Some url <->
    default ∅ m !! id = Some url /\ forall j, i <= j < i + Z.of_nat k -> id <> NewNodeID j.
Proof.
  induction k as [|k IH]; intros i m id url; cbn [forget].
  - split; [|by intros [? _]]. intros H. split; [done|]. intros j Hj. lia.
  - rewrite IH. assert (default ∅ (delete (NewNodeID i) <$> m) = delete (NewNodeID i) (default ∅ m)) as ->
      by (destruct m; simpl; [done | by rewrite delete_empty]).
    rewrite lookup_delete_Some. split.
    + intros [[Hne Hu] Hj]. split; [done|]. intros j Hr. destruct (decide (j = i)) as [->|]; [done|]. apply Hj. lia.
    + intros [Hu Hj]. split_and!; [intros <-; by apply (Hj i); [lia|] | done | intros j Hr; apply Hj; lia].
Qed.

Lemma NewHTTPClient_lookup {W} cfg (w : W) c cfg' :
  NewHTTPClient cfg w = Ret (c, cfg') ->
  Addrs cfg' = hc_Addrs c /\ HTTPAddrs cfg' = hc_HTTP c /\
  Config_N cfg' = Config_N cfg /\ hc_N c = Z.of_nat (size (default ∅ (Addrs cfg))) /\
  forall id url, default ∅ (hc_HTTP c) !! id = Some url <->
    default ∅ (HTTPAddrs cfg) !! id = Some url /\
    (Strategy cfg = "silence"%string -> forall i, 1 <= i <= ByzNo cfg -> id <> NewNodeID i).
Proof.
  unfold NewHTTPClient. case_bool_decide as Hs.
  - destruct (ByzNo cfg =? two63 - 1); [done|]. intros [= <- <-].
    split_and!; [done..|]. intros id url. simpl. rewrite forget_lookup.
    split; (intros [Hu Hj]; split; [done|]); [intros _ i Hi | intros i Hi]; [|apply Hj; [done|]]; [apply Hj|]; lia.
  - intros [= <- <-]. split_and!; [done..|]. intros id url. simpl. naive_solver.
Qed.

(** Creating a client under the silence strategy removes the nodes
    [1 .. ByzNo] from the client's tables and, since the maps are shared, from
    the configuration itself, whose node count stays; the client remembers the
    count from before.  Under any other strategy the client talks to every
    configured node. *)
Theorem NewHTTPClient_tables {W} cfg (w : W) :
  ByzNo cfg < two63 - 1 ->
  exists c cfg', NewHTTPClient cfg w = Ret (c, cfg') /\
    Addrs cfg' = hc_Addrs c /\ HTTPAddrs cfg' = hc_HTTP c /\
    Config_N cfg' = Config_N cfg /\ hc_N c = Z.of_nat (size (default ∅ (Addrs cfg))) /\
    forall id url, default ∅ (HTTPAddrs cfg') !! id = Some url <->
      default ∅ (HTTPAddrs cfg) !! id = Some url /\
      (Strategy cfg = "silence"%string -> forall i, 1 <= i <= ByzNo cfg -> id <> NewNodeID i).
Proof.
  intros Hb. assert (exists c cfg', NewHTTPClient cfg w = Ret (c, cfg')) as (c & cfg' & E).
  { unfold NewHTTPClient. case_bool_decide; [|eauto]. destruct (Z.eqb_spec (ByzNo cfg) (two63 - 1)); [lia | eauto]. }
  exists c, cfg'. split; [done|]. destruct (NewHTTPClient_lookup cfg w c cfg' E) as (H1 & H2 & H3 & H4 & H5).
  split_and!; [done..|]. by rewrite H2.
Qed.

Definition three_nodes (strategy : string) : Config :=
  set_faults 1 strategy 0 0 zero_Bconfig
    (set_tables MakeDefaultConfig
      (Some (list_to_map [("1", "tcp://10.0.0.1:3735"); ("2", "tcp://10.0.0.2:3736"); ("3", "tcp://10.0.0.3:3737")]))
      (Some (list_to_map [("1", "http://10.0.0.1:8070"); ("2", "http://10.0.0.2:8071");
                          ("3", "http://10.0.0.3:8072")])))%string.
Lemma NewHTTPClient_tables_witness :
  exists c cfg', NewHTTPClient (three_nodes "silence") tt = Ret (c, cfg') /\
    Config_N cfg' = 3 /\ default ∅ (HTTPAddrs cfg') !! "1"%string = None /\
    default ∅ (hc_HTTP c) !! "2"%string = Some "http://10.0.0.2:8071"%string.
Proof.
  destruct (NewHTTPClient_tables (three_nodes "silence") tt ltac:(reflexivity)) as (c & cfg' & E & _ & Eh & En & _ & H).
  exists c, cfg'. split_and!; [exact E | rewrite En; reflexivity | | rewrite <- Eh; apply H].
  - destruct (default ∅ (HTTPAddrs cfg') !! "1"%string) as [url|] eqn:Eu; [|reflexivity].
    apply H in Eu as [_ Hn]. exfalso. by apply (Hn eq_refl 1 ltac:(vm_compute; split; discriminate)).
  - split; [reflexivity|]. intros _ i Hi. assert (i = 1) as -> by (simpl in Hi; lia). discriminate.
Defined.

(** ** Against a network that answers *)
Section answering.
Context (answer : Request -> error + Response) (exotic : string -> option URL).
Context (Unmarshal : list Z -> option (list Value)).

(** Every exchange is logged. *)
Definition log_Do (r : Request) : M (list Request) (error + Response) :=
  modify (fun l => l ++ [r]);; ret (answer r).
Definition logged (rs : list Request) (c : HTTPClient) : HTTPClient := set_net (hc_net c ++ rs) c.

(** The request of a put, and the error its goroutine stores. *)
Definition put_request (c : HTTPClient (W := list Request)) (key : Key) (v : list Z) (id : NodeID) (ip : string) : Request :=
  mkRequest MethodPut (put_url key id ip) v
    [("Id", hc_ID c); ("Cid", Strconv.Itoa (hc_CID c)); ("Connection", "keep-alive")]%string.
Definition failure (rep : error + Response) : option error :=
  match rep with
  | inl err => Some err
  | inr rep => if rs_StatusCode rep =? StatusOK then None else Some (rs_Status rep)
  end.
Definition parses (key : Key) (x : NodeID * string) : Prop := is_Some (url_Parse exotic (put_url key x.1 x.2)).

Lemma logged_logged rs rs' c : logged rs' (logged rs c) = logged (rs ++ rs') c.
Proof. unfold logged. simpl. by rewrite <- app_assoc. Qed.

Lemma request_log r c : request log_Do r c = Ret (answer r, logged [r] c).
Proof. reflexivity. Qed.

Lemma rest_log key v id ip c :
  parses key (id, ip) -> rest log_Do exotic (put_url key id ip) (Some v) c =
    Ret (failure (answer (put_request c key v id ip)), logged [put_request c key v id ip] c).
Proof.
  intros [u Hu]. simpl in Hu. unfold rest, gbind, gets. rewrite Hu, request_log. unfold failure.
  change (mkRequest _ _ (default [] (Some v)) _) with (put_request c key v id ip).
  by destruct (answer (put_request c key v id ip)).
Qed.

Lemma put_each_run key v sends : forall c,
  Forall (parses key) sends ->
  put_each log_Do exotic key (Some v) sends c =
    Ret ((fun x => (x.1, failure (answer (put_request c key v x.1 x.2)))) <$> sends,
         logged ((fun x => put_request c key v x.1 x.2) <$> sends) c).
Proof.
  induction sends as [|[id ip] sends IH]; intros c Hp.
  - unfold logged. simpl. rewrite app_nil_r. by destruct c.
  - apply Forall_cons in Hp as [Hp Hps]. cbn [put_each]. unfold gbind. rewrite rest_log by done.
    rewrite IH by done. by rewrite logged_logged.
Qed.

Lemma store_err_last results ends id err :
  store_err results (ends ++ [id]) err = default None (list_to_map (M := gmap NodeID _) results !! id).
Proof. revert err. induction ends as [|e ends IH]; intros err; simpl; [done | apply IH]. Qed.

(** What a node answers to the request for its history. *)
Definition history_request (k : Key) (url : string) : Request :=
  mkRequest MethodGet (url +:+ "/history?key=" +:+ Strconv.Itoa k)%string [] [].
Definition history_of (k : Key) (url : string) : list Value := read_history Unmarshal (answer (history_request k url)).

Definition gather (k : Key) (l : list (NodeID * string)) (h : gmap NodeID (list Value)) : gmap NodeID (list Value) :=
  foldl (fun h x => <[x.1 := history_of k x.2]> h) h l.

Lemma collect_run k l : forall h c,
  collect log_Do Unmarshal k l h c =
    Ret (gather k l h, logged (history_request k <$> l.*2) c).
Proof.
  induction l as [|[id url] l IH]; intros h c.
  - unfold logged. simpl. rewrite app_nil_r. by destruct c.
  - cbn [collect]. unfold gbind, get_url. rewrite request_log, IH. by rewrite logged_logged.
Qed.

Lemma collected_notin k l : forall h id,
  id ∉ l.*1 -> gather k l h !! id = h !! id.
Proof.
  induction l as [|[i u] l IH]; intros h id Hn; simpl; [done|]. apply not_elem_of_cons in Hn as [Hne Hn].
  simpl in Hne. rewrite IH by done. by rewrite lookup_insert_ne.
Qed.

Lemma collected_lookup k l : forall h id url,
  NoDup l.*1 -> (id, url) ∈ l -> gather k l h !! id = Some (history_of k url).
Proof.
  induction l as [|[i u] l IH]; intros h id url Hnd Hin; simpl; [by apply elem_of_nil in Hin|].
  apply NoDup_cons in Hnd as [Hni Hnd]. apply elem_of_cons in Hin as [[= -> ->]|Hin]; [|by apply IH].
  rewrite collected_notin by done. by rewrite lookup_insert_eq.
Qed.
End answering.

(** ** Agreement of the collected histories *)

Lemma elem_of_column i ids h x :
  x ∈ column i ids h <-> exists id v, id ∈ ids /\ default [] (h !! id) !! i = Some v /\ x = value_string v.
Proof.
  induction ids as [|id ids IH]; simpl.
  - rewrite elem_of_empty. split; [done|]. intros (? & ? & []%elem_of_nil & _).
  - destruct (default [] (h !! id) !! i) as [v|] eqn:E.
    + rewrite elem_of_union, elem_of_singleton, IH. split.
      * intros [->|(id' & w & ? & ? & ?)]; [exists id, v | exists id', w]; (split; [set_solver | done]).
      * intros (id' & w & [->|Hin]%elem_of_cons & Hw & ->); [left; congruence | right; eauto].
    + rewrite IH. split; intros (id' & w & Hin & Hw & ->); exists id', w; (split; [|done]); [set_solver|].
      apply elem_of_cons in Hin as [->|]; [congruence | done].
Qed.

Lemma small_set (X : gset (list Z)) : (1 <? size X)%nat = false <-> forall x y, x ∈ X -> y ∈ X -> x = y.
Proof.
  rewrite Nat.ltb_ge. split.
  - intros Hs x y Hx Hy. destruct (decide (x = y)); [done|].
    assert (size ({[x]} ∪ {[y]} : gset (list Z)) <= size X)%nat as Hle by (apply subseteq_size; set_solver).
    rewrite size_union, !size_singleton in Hle by set_solver. lia.
  - intros H. destruct (decide (X = ∅)) as [->|(x & Hx)%set_choose_L]; [rewrite size_empty; lia|].
    assert (X = {[x]}) as -> by (apply set_eq; intros y; rewrite elem_of_singleton; naive_solver).
    by rewrite size_singleton.
Qed.

Lemma rows_agree_spec k : forall i ids h,
  rows_agree i k ids h = true <->
    forall j x y, (i <= j < i + k)%nat -> x ∈ column j ids h -> y ∈ column j ids h -> x = y.
Proof.
  induction k as [|k IH]; intros i ids h; cbn [rows_agree].
  - split; [|done]. intros _ j x y Hj. lia.
  - destruct (1 <? size (column i ids h))%nat eqn:E.
    + split; [done|]. intros H. enough ((1 <? size (column i ids h))%nat = false) by congruence.
      apply small_set. intros x y. apply H. lia.
    + rewrite small_set in E. rewrite IH. split.
      * intros H j x y Hj. destruct (decide (j = i)) as [->|]; [apply E | apply H; lia].
      * intros H j x y Hj. apply H. lia.
Qed.

Lemma longest_max h id l : h !! id = Some l -> (length l <= longest h)%nat.
Proof.
  revert id l. unfold longest.
  apply (map_fold_weak_ind (fun r m => forall id l, m !! id = Some l -> (length l <= r)%nat)); [done|].
  intros i x m r _ IH id l [[<- <-]|[_ Hl]]%lookup_insert_Some; [lia|]. apply IH in Hl. lia.
Qed.

(** Two histories agree when they hold the same strings at their common
    positions. *)
Definition agree (a b : list Value) : Prop :=
  forall i x y, a !! i = Some x -> b !! i = Some y -> value_string x = value_string y.

(** C31.  [Consensus] asks every node of the table once and returns true exactly when
    the histories the nodes answered agree pairwise, an unreadable answer counting as
    the empty history. *)
Theorem Consensus_agree answer Unmarshal l k c :
  NoDup l.*1 ->
  exists b, Consensus (log_Do answer) Unmarshal l k c = Ret (b, logged (history_request k <$> l.*2) c) /\
    (b = true <-> forall x y, x ∈ l -> y ∈ l ->
       agree (history_of answer Unmarshal k x.2) (history_of answer Unmarshal k y.2)).
Proof.
  intros Hnd. unfold Consensus, gbind. rewrite collect_run. eexists. split; [reflexivity|].
  set (h := gather answer Unmarshal k l ∅).
  assert (forall id url, (id, url) ∈ l -> h !! id = Some (history_of answer Unmarshal k url)) as Hh
    by (intros id url Hin; by apply collected_lookup).
  rewrite rows_agree_spec. split.
  - intros H [id1 u1] [id2 u2] H1 H2 i x y Hx Hy.
    apply (H i); [| apply elem_of_column; exists id1, x | apply elem_of_column; exists id2, y].
    + apply lookup_lt_Some in Hx. pose proof (longest_max h id1 _ (Hh _ _ H1)). simpl in Hx. lia.
    + rewrite (Hh _ _ H1). split; [|done]. apply list_elem_of_fmap. by exists (id1, u1).
    + rewrite (Hh _ _ H2). split; [|done]. apply list_elem_of_fmap. by exists (id2, u2).
  - intros H j x y _ (id1 & v1 & Hi1 & E1 & ->)%elem_of_column (id2 & v2 & Hi2 & E2 & ->)%elem_of_column.
    apply list_elem_of_fmap in Hi1 as ([? u1] & -> & Hi1). apply list_elem_of_fmap in Hi2 as ([? u2] & -> & Hi2).
    simpl in *. rewrite (Hh _ _ Hi1) in E1. rewrite (Hh _ _ Hi2) in E2. by apply (H _ _ Hi1 Hi2 j).
Qed.

(** [Put] sends one request to every node of the table, with the node's number
    added to the key in the URL, and returns the outcome of the request whose
    goroutine ends last, whatever became of the others. *)
Theorem Put_reports_last answer exotic sends ends id ip key v c :
  sends ≡ₚ map_to_list (default ∅ (hc_HTTP c)) -> (ends ++ [id]) ≡ₚ sends.*1 -> (id, ip) ∈ sends ->
  Forall (parses exotic key) sends ->
  Put (log_Do answer) exotic sends (ends ++ [id]) key (Some v) c =
    Ret (failure (answer (put_request (next_CID c) key v id ip)),
         logged ((fun x => put_request (next_CID c) key v x.1 x.2) <$> sends) (next_CID c)).
Proof.
  intros Hs He Hin Hp. unfold Put, RESTPut, AllPut, gbind, modify. rewrite put_each_run by done.
  unfold ret. rewrite store_err_last. repeat f_equal.
  rewrite (elem_of_list_to_map_1 _ id (failure (answer (put_request (next_CID c) key v id ip)))); [done | |].
  - rewrite <- list_fmap_compose. simpl. change (NoDup sends.*1). rewrite Hs. apply NoDup_fst_map_to_list.
  - apply list_elem_of_fmap. by exists (id, ip).
Qed.

(** Three nodes; the second answers 500, and so do all requests for
    histories. *)
Module ClientDemo.
Definition cfg : Config := three_nodes "fork".
Definition c0 : HTTPClient (W := list Request) := mkHTTPClient (Addrs cfg) (HTTPAddrs cfg) ""%string 3 0 [].
Definition ok (body : list Z) : error + Response := inr (mkResponse 200 "200 OK" (Some body)).
Definition answer (r : Request) : error + Response :=
  if HasPrefix (chars "http://10.0.0.2:8071") (chars (rq_URL r))
  then inr (mkResponse 500 "500 Internal Server Error" (Some [])) else ok [].
Definition nodes : list (NodeID * string) := map_to_list (default ∅ (HTTPAddrs cfg)).
(** Histories of the three nodes, the third one behind. *)
Definition Unmarshal (b : list Z) : option (list Value) :=
  match b with
  | [k] => Some (take (Z.to_nat k) [Some [1]; Some [2]; Some [3]])
  | _ => None
  end.
Definition histories (r : Request) : error + Response :=
  if HasPrefix (chars "http://10.0.0.3:8072") (chars (rq_URL r)) then ok [1] else ok [3].
End ClientDemo.

(** The put succeeds although node 2 failed: node 3 ended last. *)
Lemma Put_reports_last_witness :
  exists log c', Put (log_Do ClientDemo.answer) (fun _ => None) ClientDemo.nodes ["1"; "2"; "3"]%string 10 (Some [7]) ClientDemo.c0
      = Ret (None, logged log c') /\ length log = 3%nat /\
    failure (ClientDemo.answer (put_request (next_CID ClientDemo.c0) 10 [7] "2" "http://10.0.0.2:8071")) =
      Some "500 Internal Server Error"%string.
Proof.
  eexists ((fun x => put_request (next_CID ClientDemo.c0) 10 [7] x.1 x.2) <$> ClientDemo.nodes), _.
  split_and!; [| vm_compute; reflexivity | vm_compute; reflexivity].
  apply (Put_reports_last ClientDemo.answer (fun _ => None) ClientDemo.nodes ["1"; "2"]%string "3"%string
           "http://10.0.0.3:8072"%string 10 [7] ClientDemo.c0).
  - reflexivity.
  - apply (bool_decide_eq_true_1 _). vm_compute. reflexivity.
  - vm_compute. set_solver.
  - apply (bool_decide_eq_true_1 _). vm_compute. reflexivity.
Defined.

Lemma Consensus_agree_witness :
  exists b, Consensus (log_Do ClientDemo.histories) ClientDemo.Unmarshal ClientDemo.nodes 5 ClientDemo.c0 =
      Ret (b, logged (history_request 5 <$> ClientDemo.nodes.*2) ClientDemo.c0) /\ b = true.
Proof.
  destruct (Consensus_agree ClientDemo.histories ClientDemo.Unmarshal ClientDemo.nodes 5 ClientDemo.c0
              ltac:(apply NoDup_fst_map_to_list)) as (b & E & H).
  exists b. split; [exact E|]. vm_compute in E. congruence.
Defined.

(** ** What the nodes make of the client's requests *)

(** The request URI a server sees: what follows the authority of the URL, for
    URLs whose characters need no escaping. *)
Definition RequestURI (url : string) : string :=
  match get_scheme (chars url) [] (chars url) with
  | Some (_, r) => match cut "/" (drop 2 r) with (_, Some path) => str ("/"%char :: path) | _ => "/" end
  | None => "/"
  end.

Definition http_base (ip port : string) : string := ("http://" +:+ ip +:+ ":" +:+ port)%string.

Lemma RequestURI_base ip port path :
  plain ip = true -> forallb is_digit (chars port) = true ->
  RequestURI (http_base ip port +:+ "/" +:+ path) = ("/" +:+ path)%string.
Proof.
  intros Hip Hport. unfold RequestURI, http_base.
  assert (get_scheme (chars (("http://" +:+ ip +:+ ":" +:+ port) +:+ "/" +:+ path)) []
            (chars (("http://" +:+ ip +:+ ":" +:+ port) +:+ "/" +:+ path)) =
          Some (chars "http", chars ("//" +:+ (ip +:+ ":" +:+ port) +:+ "/" +:+ path))) as -> by done.
  change (drop 2 (chars ("//" +:+ (ip +:+ ":" +:+ port) +:+ "/" +:+ path)))
    with (chars ((ip +:+ ":" +:+ port) +:+ "/" +:+ path)).
  rewrite (chars_app (ip +:+ ":" +:+ port)).
  change (chars ("/" +:+ path)) with ("/"%char :: chars path). rewrite cut_app.
  - change ("/"%char :: chars path) with (chars ("/" +:+ path)). by rewrite str_chars.
  - intros Hc. apply (hostport_chars ip port _ Hip (is_digit_plain _ Hport)) in Hc as [?|?]; done.
Qed.

Lemma Itoa_chars n c : c ∈ chars (Strconv.Itoa n) -> is_digit c = true \/ c = "-"%char.
Proof.
  assert (forall k, 0 <= k -> c ∈ chars (Strconv.Itoa k) -> is_digit c = true) as Hpos.
  { intros k Hk Hc. pose proof (Itoa_digits k Hk) as H. rewrite forallb_forall in H. by apply H, list_elem_of_In. }
  destruct (Z.lt_ge_cases n 0) as [Hn|Hn]; [|left; by apply (Hpos n)].
  unfold Strconv.Itoa, Strconv.big_String. destruct (Z.ltb_spec n 0); [|lia]. simpl.
  intros [->|Hc]%elem_of_cons; [by right|]. left. apply (Hpos (- n)); [lia|].
  unfold Strconv.Itoa, Strconv.big_String. by destruct (Z.ltb_spec (- n) 0); [lia|].
Qed.

(** The URL a client has for a node is the one the node serves on: with the tables
    [Load] builds, [http] listens on the port the node's URL names. *)
Theorem http_reaches exotic c lines i ip :
  Addrs c = Some ∅ -> HTTPAddrs c = Some ∅ -> Z.of_nat (length lines) < two63 - 10000 ->
  lines !! i = Some ip -> plain ip = true ->
  exists c' port, Load c lines = Ret c' /\ forallb is_digit (chars port) = true /\
    default ∅ (HTTPAddrs c') !! NewNodeID (Z.of_nat i + 1) = Some (http_base ip port) /\
    http c' exotic (NewNodeID (Z.of_nat i + 1)) = Ret (":" +:+ port)%string.
Proof.
  intros HA HH Hlen Hi Hip. unfold Load. rewrite HA, HH.
  destruct (load_ips_returns lines 1 ∅ ∅) as [[a h] E]. rewrite E.
  apply load_ips_lookup in E as (a' & h' & -> & -> & _ & Hj); [|lia|lia].
  destruct (Hj i ip Hi) as [_ Hh]. clear Hj.
  replace (1 + Z.of_nat i) with (Z.of_nat i + 1) in Hh by lia.
  set (c' := set_tables c (Some a') (Some h')). set (port := Strconv.Itoa (8069 + (Z.of_nat i + 1))) in *.
  assert (Hc : default ∅ (HTTPAddrs c') !! NewNodeID (Z.of_nat i + 1) =
               Some ("http" +:+ "://" +:+ ip +:+ ":" +:+ port)%string) by exact Hh.
  assert (Hport : forallb is_digit (chars port) = true) by (apply Itoa_digits; lia).
  exists c', port. split; [done|]. split; [done|]. split; [exact Hc|].
  unfold http. rewrite Hc. cbn [default from_option id]. rewrite url_Parse_plain by auto. by rewrite u_Port_plain.
Qed.

(** A path of a number is no pattern of the mux. *)
Lemma route_number n : route ("/" +:+ Strconv.Itoa n)%string = RRoot.
Proof.
  unfold route. change (chars ("/" +:+ Strconv.Itoa n)) with ("/"%char :: chars (Strconv.Itoa n)).
  rewrite cut_notin.
  2:{ rewrite not_elem_of_cons. split; [done|]. intros [Hc|Hc]%Itoa_chars; by vm_compute in Hc. }
  cbn [fst]. change ("/"%char :: chars (Strconv.Itoa n)) with (chars ("/" +:+ Strconv.Itoa n)). rewrite str_chars.
  pose proof (Itoa_chars n) as H. destruct (Strconv.Itoa n) as [|a s]; [done|].
  specialize (H a ltac:(left)).
  repeat (rewrite decide_False; [|intros [= -> _]; by destruct H as [H|H]; vm_compute in H]). done.
Qed.

(** What a node does with each request of a client, at an address [Load] builds:
    a put is a transaction whose id is the number in the path; a crash goes to the
    crash handler, whatever its duration; a drop and a request for a history have
    no route and become transactions like any other. *)
Theorem client_requests_served {W R} rnd cfg ip port body now :
  plain ip = true -> forallb is_digit (chars port) = true ->
  let base := http_base ip port in
  (forall key id, handler_for (W := W) (R := R) rnd cfg (RequestURI (put_url key id base)) body now =
     handleRoot body ("/" +:+ Strconv.Itoa (i64 (key + Node id)))%string now) /\
  (forall t, handler_for (W := W) (R := R) rnd cfg (RequestURI (crash_url base t)) body now = handleCrash cfg) /\
  (forall to t, handler_for (W := W) (R := R) rnd cfg (RequestURI (drop_url base to t)) body now =
     handleRoot body ("/drop?id=" +:+ to +:+ "&t=" +:+ Strconv.Itoa t)%string now) /\
  (forall k, handler_for (W := W) (R := R) rnd cfg (RequestURI (base +:+ "/history?key=" +:+ Strconv.Itoa k)%string) body now =
     handleRoot body ("/history?key=" +:+ Strconv.Itoa k)%string now).
Proof.
  intros Hip Hport base. split_and!.
  - intros key id. unfold put_url. rewrite (RequestURI_base ip port) by done. unfold handler_for. by rewrite route_number.
  - intros t. unfold crash_url.
    rewrite (RequestURI_base ip port ("crash?t=" +:+ Strconv.Itoa t) Hip Hport : RequestURI (base +:+ "/crash?t=" +:+ Strconv.Itoa t)%string = _).
    done.
  - intros to t. unfold drop_url.
    rewrite (RequestURI_base ip port ("drop?id=" +:+ to +:+ "&t=" +:+ Strconv.Itoa t) Hip Hport :
               RequestURI (base +:+ "/drop?id=" +:+ to +:+ "&t=" +:+ Strconv.Itoa t)%string = _). done.
  - intros k.
    rewrite (RequestURI_base ip port ("history?key=" +:+ Strconv.Itoa k) Hip Hport :
               RequestURI (base +:+ "/history?key=" +:+ Strconv.Itoa k)%string = _). done.
Qed.

Lemma client_requests_served_witness :
  RequestURI (drop_url (http_base "10.0.0.1" "8070") "2" 10) = "/drop?id=2&t=10"%string /\
  handler_for (W := unit) (R := unit) NodeDemo.rnd NodeDemo.cfg
    (RequestURI (drop_url (http_base "10.0.0.1" "8070") "2" 10)) [] 5 = handleRoot [] "/drop?id=2&t=10" 5.
Proof.
  split; [vm_compute; reflexivity|].
  destruct (client_requests_served (W := unit) (R := unit) NodeDemo.rnd NodeDemo.cfg "10.0.0.1" "8070" [] 5
              ltac:(vm_compute; reflexivity) ltac:(vm_compute; reflexivity)) as (_ & _ & H & _).
  exact (H "2"%string 10).
Defined.

(** Since a node answers the request for a history with an empty body, which is
    not JSON, [Consensus] is true whatever the nodes have stored. *)
Lemma Consensus_vacuous answer Unmarshal l k c :
  NoDup l.*1 -> (forall r, exists code status, answer r = inr (mkResponse code status (Some []))) -> Unmarshal [] = None ->
  Consensus (log_Do answer) Unmarshal l k c = Ret (true, logged (history_request k <$> l.*2) c).
Proof.
  intros Hnd Ha Hu. unfold Consensus, gbind. rewrite collect_run. unfold ret.
  enough (rows_agree 0 (longest (gather answer Unmarshal k l ∅)) l.*1 (gather answer Unmarshal k l ∅) = true) as -> by done.
  apply rows_agree_spec. intros j x y _ (id & v & Hid & Hv & _)%elem_of_column _. exfalso.
  apply list_elem_of_fmap in Hid as ([i u] & -> & Hin). simpl in Hv.
  rewrite (collected_lookup answer Unmarshal k l ∅ i u Hnd Hin) in Hv. simpl in Hv.
  unfold history_of, read_history in Hv. destruct (Ha (history_request k u)) as (code & status & E).
  rewrite E in Hv. simpl in Hv. by rewrite Hu in Hv.
Qed.
