(* ===== verification/History.v ===== *)
(** * Operation histories and statistics (benchmark/operation.go, history.go, stat.go)

    The records a benchmark keeps of its operations, their CSV files and the
    summary of latencies.  Times are nanoseconds in [int64]; float64 is IEEE binary64
    in the Standard Library's [spec_float], with its rounding.  Files are lists of
    lines: opening, flushing and closing them are left out.  [sort.Sort] is not
    stable, so [WriteFile] takes the order it leaves as an argument; [Float64s] has
    one answer on the values it gets.

    Results: the order laws of [happenBefore]; a history is the two projections of
    the sequence of its additions; [ReadFile] reads back what its format says; what
    [WriteFile] writes, [ReadFile] rejects; no percentile of up to 1024 latencies
    is out of range. *)

From Stdlib Require Import Ascii String SpecFloat.
From stdpp Require Import base gmap strings numbers list sorting.
From S2P Require Import Prelude.
From S2P Require Import Identity.
From S2P Require Import Url.
From S2P Require Import Float.

Local Open Scope Z_scope.
Local Open Scope go_scope.

(** ** Operations *)

(** Inputs and outputs are [interface{}]: nil or a string, as [ReadFile] makes
    them. *)
Record operation := mkOperation {
  o_input : option string;
  o_output : option string;
  o_start : Z;
  o_end : Z }.
#[global] Instance operation_eq_dec : EqDecision operation.
Proof. solve_decision. Defined.

Definition happenBefore (a b : operation) : bool := o_end a <? o_start b.
Definition concurrent (a b : operation) : bool := negb (happenBefore a b) && negb (happenBefore b a).
Definition operation_equal (a b : operation) : bool :=
  bool_decide (o_input a = o_input b) && bool_decide (o_output a = o_output b) &&
  bool_decide (o_start a = o_start b) && bool_decide (o_end a = o_end b).
(** [byTime.Less]. *)
Definition by_time (a b : operation) : Prop := o_start a <= o_start b.

(** ** Histories *)
Record History := mkHistory {
  h_shard : gmap Z (list operation);
  h_operations : list operation }.
Definition NewHistory : History := mkHistory ∅ [].

Definition AddOperation (key : Z) (o : operation) : M History unit :=
  modify (fun h =>
    let shard := match h_shard h !! key with Some _ => h_shard h | None => <[key := []]> (h_shard h) end in
    mkHistory (<[key := default [] (shard !! key) ++ [o]]> shard) (h_operations h ++ [o])).
Definition Add (key : Z) (input output : option string) (start end_ : Z) : M History unit :=
  modify (fun h =>
    let shard := match h_shard h !! key with Some _ => h_shard h | None => <[key := []]> (h_shard h) end in
    let o := mkOperation input output start end_ in
    mkHistory (<[key := default [] (shard !! key) ++ [o]]> shard) (h_operations h ++ [o])).

(** ** WriteFile *)
(** The verb %v on an operation's input or output. *)
Definition fmt_any (x : option string) : string := default "<nil>"%string x.
Definition billion : spec_float := f64_of_Z 1000000000.
Definition op_line (o : operation) : string :=
  (fmt_any (o_input o) +:+ "," +:+ fmt_any (o_output o) +:+ "," +:+
   fmt_f (f64_div (f64_of_Z (o_start o)) billion) +:+ "," +:+ fmt_f (f64_div (f64_of_Z (o_end o)) billion))%string.
Definition second_line (latency : spec_float) (throughput : Z) : string :=
  ("PerSecond " +:+ fmt_f (f64_mul (f64_div latency (f64_of_Z throughput)) (f64_of_Z 1000)) +:+ " " +:+
   Strconv.Itoa throughput)%string.
Fixpoint write_lines (ops : list operation) (latency : spec_float) (throughput : Z) (s : spec_float) : list string :=
  match ops with
  | [] => []
  | o :: rest =>
      let start := f64_div (f64_of_Z (o_start o)) billion in
      let end_ := f64_div (f64_of_Z (o_end o)) billion in
      let latency := f64_add latency (f64_sub end_ start) in
      let throughput := throughput +! 1 in
      op_line o ::
        (if SFltb s end_
         then second_line latency throughput ::
                write_lines rest (S754_zero false) 0 (f64_add s (f64_of_Z 1))
         else write_lines rest latency throughput s)
  end.
(** [sorted] is what [sort.Sort] leaves of the operations. *)
Definition WriteFile (sorted : list operation) : M History (list string) :=
  modify (fun h => mkHistory (h_shard h) sorted);;
  ret (write_lines sorted (S754_zero false) 0 (f64_of_Z 1)).

(** ** ReadFile *)

(** A record of csv.Reader, or [None] for its error. *)
Definition nil_or (s : string) : option string :=
  if bool_decide (s = "null"%string) || bool_decide (s = ""%string) then None else Some s.
Definition format_error : error := "operation history file format error"%string.
(** [log.Fatal] on unreadable times is a panic. *)
Fixpoint ReadFile (records : list (option (list string))) : M History (option error) :=
  match records with
  | [] => ret None
  | None :: _ => ret (Some "csv"%string)
  | Some record :: more =>
      match record with
      | id :: input :: output :: start :: end_ :: _ =>
          match Strconv.Atoi id with
          | (_, Some _) => ret (Some ("strconv.Atoi: " +:+ id)%string)
          | (key, None) =>
              match Strconv.ParseInt start with
              | (_, Some _) => panic
              | (s, None) =>
                  match Strconv.ParseInt end_ with
                  | (_, Some _) => panic
                  | (e, None) =>
                      AddOperation key (mkOperation (nil_or input) (nil_or output) s e);;
                      ReadFile more
                  end
              end
          end
      | _ => ret (Some format_error)
      end
  end.

(** csv.Reader on a line without quotes: the fields between the commas. *)
Fixpoint split_commas (l : list ascii) (field : list ascii) : list string :=
  match l with
  | [] => [str field]
  | c :: r => if decide (c = ","%char) then str field :: split_commas r [] else split_commas r (field ++ [c])
  end.
Definition csv_fields (quoted : string -> option (list string)) (line : string) : option (list string) :=
  if bool_decide (ascii_of_N 34 ∈ chars line) then quoted line else Some (split_commas (chars line) []).

(** ** Statistic *)
Record Stat := mkStat {
  st_Data : list spec_float;
  st_Size : Z;
  st_Mean : spec_float;
  st_Min : spec_float;
  st_Max : spec_float;
  st_Median : spec_float;
  st_P95 : spec_float;
  st_P99 : spec_float;
  st_P999 : spec_float }.
Definition zero_Stat : Stat :=
  let z := S754_zero false in mkStat [] 0 z z z z z z z.

(** [sort.Float64s]: no NaN and no negative zero occurs, so the order is total and
    equal values are the same. *)
Fixpoint insert_f64 (x : spec_float) (l : list spec_float) : list spec_float :=
  match l with
  | [] => [x]
  | y :: r => if SFleb x y then x :: l else y :: insert_f64 x r
  end.
Definition Float64s (l : list spec_float) : list spec_float := foldr insert_f64 [] l.

(** The constants 0.5, 0.95, 0.99 and 0.999 as binary64. *)
Definition c50 : spec_float := S754_finite false 4503599627370496 (-53).
Definition c95 : spec_float := S754_finite false 8556839292003942 (-53).
Definition c99 : spec_float := S754_finite false 8917127262193582 (-53).
Definition c999 : spec_float := S754_finite false 8998192055486251 (-53).
Definition rank (c : spec_float) (size : Z) : Z := f64_trunc (f64_mul c (f64_of_Z size)).
Definition at_rank (l : list spec_float) (i : Z) : outcome spec_float :=
  if (0 <=? i) then match l !! Z.to_nat i with Some x => Ret x | None => Panic end else Panic.

Definition millis (d : Z) : spec_float := f64_div (f64_of_Z d) (f64_of_Z 1000000).
Definition Statistic (latency : list Z) : outcome Stat :=
  if bool_decide (latency = []) then Ret zero_Stat
  else
    let ms := Float64s (millis <$> latency) in
    let sum := foldl (fun s m => f64_add s m) (S754_zero false) ms in
    let size := Z.of_nat (length ms) in
    min ←? at_rank ms 0;
    max ←? at_rank ms (size - 1);
    median ←? at_rank ms (rank c50 size);
    p95 ←? at_rank ms (rank c95 size);
    p99 ←? at_rank ms (rank c99 size);
    p999 ←? at_rank ms (rank c999 size);
    Ret (mkStat ms size (f64_div sum (f64_of_Z size)) min max median p95 p99 p999).

Definition operation_String (a : operation) : string :=
  ("{input=" +:+ fmt_any (o_input a) +:+ ", output=" +:+ fmt_any (o_output a) +:+ ", start=" +:+ Strconv.Itoa (o_start a) +:+
   ", end=" +:+ Strconv.Itoa (o_end a) +:+ "}")%string.
(** [Stat.WriteFile]: one datum per line; [created] and [flushed] are the errors of
    [os.Create] and [Flush].  The result is the error and what was printed to the
    writer. *)
Definition Stat_WriteFile (created flushed : option error) (s : Stat) : option error * string :=
  match created with
  | Some err => (Some err, ""%string)
  | None => (flushed, String.concat "" ((fun line => fmt_v line +:+ newline)%string <$> st_Data s))
  end.
Definition Stat_String (s : Stat) : string :=
  ("size = " +:+ Strconv.Itoa (st_Size s) +:+ newline +:+ "mean = " +:+ fmt_f (st_Mean s) +:+ newline +:+
   "min = " +:+ fmt_f (st_Min s) +:+ newline +:+ "max = " +:+ fmt_f (st_Max s) +:+ newline +:+
   "median = " +:+ fmt_f (st_Median s) +:+ newline +:+ "p95 = " +:+ fmt_f (st_P95 s) +:+ newline +:+
   "p99 = " +:+ fmt_f (st_P99 s) +:+ newline +:+ "p999 = " +:+ fmt_f (st_P999 s) +:+ newline)%string.

(** ** The order of operations *)

(** Among operations that end no earlier than they start, [happenBefore] is the
    strict order of intervals (irreflexive, transitive, and of two pairs one crosses),
    and any two operations are ordered one way, the other way or concurrent, exactly
    one of the three. *)
Theorem happenBefore_order a b c d :
  o_start a <= o_end a -> o_start b <= o_end b -> o_start c <= o_end c ->
  happenBefore a a = false /\
  (happenBefore a b = true -> happenBefore b c = true -> happenBefore a c = true) /\
  (happenBefore a b = true -> happenBefore c d = true -> happenBefore a d = true \/ happenBefore c b = true) /\
  (Nat.b2n (happenBefore a b) + Nat.b2n (happenBefore b a) + Nat.b2n (concurrent a b) = 1)%nat.
Proof.
  intros Ha Hb Hc. unfold concurrent, happenBefore. rewrite !Z.ltb_lt, Z.ltb_ge. split_and!; [lia..|].
  destruct (Z.ltb_spec (o_end a) (o_start b)), (Z.ltb_spec (o_end b) (o_start a)); simpl; lia.
Qed.

Lemma happenBefore_order_witness :
  happenBefore (mkOperation None None 1 2) (mkOperation None None 5 6) = true.
Proof.
  apply (happenBefore_order (mkOperation None None 1 2) (mkOperation None None 3 4) (mkOperation None None 5 6)
           (mkOperation None None 7 8)); simpl; [lia | lia | lia | reflexivity | reflexivity].
Defined.

(** ** A history is its sequence of additions *)
Fixpoint add_all (l : list (Z * operation)) : M History unit :=
  match l with [] => skip | (k, o) :: more => AddOperation k o;; add_all more end.
Definition of_key (k : Z) (l : list (Z * operation)) : list operation := (filter (fun x => x.1 = k) l).*2.

Lemma AddOperation_run k o h :
  AddOperation k o h =
    Ret (tt, mkHistory (<[k := default [] (h_shard h !! k) ++ [o]]> (h_shard h)) (h_operations h ++ [o])).
Proof.
  unfold AddOperation, modify. destruct (h_shard h !! k) as [l|] eqn:E; simpl; [by rewrite E|].
  by rewrite lookup_insert_eq, insert_insert_eq.
Qed.

(** Two ways in, one effect. *)
Lemma Add_AddOperation k i o s e : Add k i o s e = AddOperation k (mkOperation i o s e).
Proof. reflexivity. Qed.

Definition records (h : History) (l : list (Z * operation)) : Prop :=
  h_operations h = l.*2 /\
  forall k, h_shard h !! k = (if bool_decide (k ∈ l.*1) then Some (of_key k l) else None).

Lemma of_key_snoc k l k' o : of_key k (l ++ [(k', o)]) = of_key k l ++ (if decide (k' = k) then [o] else []).
Proof.
  unfold of_key. rewrite filter_app, fmap_app. f_equal. rewrite filter_cons. simpl. by destruct (decide (k' = k)).
Qed.

Lemma of_key_none k l : k ∉ l.*1 -> of_key k l = [].
Proof.
  intros Hn. unfold of_key. induction l as [|[k' o] l IH]; [done|]. simpl in Hn. apply not_elem_of_cons in Hn as [? ?].
  rewrite filter_cons_False by (simpl; congruence). by apply IH.
Qed.

Lemma AddOperation_records h l k o :
  records h l -> exists h', AddOperation k o h = Ret (tt, h') /\ records h' (l ++ [(k, o)]).
Proof.
  intros [Ho Hs]. rewrite AddOperation_run. eexists. split; [reflexivity|]. split; simpl.
  - by rewrite fmap_app, Ho.
  - intros j. rewrite fmap_app, of_key_snoc. simpl. destruct (decide (k = j)) as [->|Hne].
    + rewrite lookup_insert_eq, bool_decide_eq_true_2 by set_solver. f_equal. rewrite Hs.
      case_bool_decide; simpl; [done|]. by rewrite of_key_none.
    + rewrite lookup_insert_ne, Hs, app_nil_r by done.
      rewrite (bool_decide_ext (j ∈ l.*1 ++ [k]) (j ∈ l.*1)) by set_solver. done.
Qed.

Lemma add_all_records l : forall h l0, records h l0 -> exists h', add_all l h = Ret (tt, h') /\ records h' (l0 ++ l).
Proof.
  induction l as [|[k o] l IH]; intros h l0 Hr; cbn [add_all].
  - exists h. split; [done|]. by rewrite app_nil_r.
  - destruct (AddOperation_records h l0 k o Hr) as (h1 & E & Hr1). destruct (IH h1 _ Hr1) as (h2 & E2 & Hr2).
    exists h2. unfold gbind. rewrite E. split; [done|]. by rewrite <- app_assoc in Hr2.
Qed.

Lemma NewHistory_records : records NewHistory [].
Proof. split; [done|]. intros k. done. Qed.

(** ** ReadFile *)

(** A line of the format [ReadFile] expects. *)
Definition print_record (x : Z * operation) : option (list string) :=
  Some [Strconv.Itoa x.1; default "null"%string (o_input x.2); default "null"%string (o_output x.2);
        Strconv.Itoa (o_start x.2); Strconv.Itoa (o_end x.2)].
(** Strings that are not taken for nil, and times in range. *)
Definition printable (x : Z * operation) : Prop :=
  is_i64 x.1 /\ is_i64 (o_start x.2) /\ is_i64 (o_end x.2) /\
  o_input x.2 <> Some "null"%string /\ o_input x.2 <> Some ""%string /\
  o_output x.2 <> Some "null"%string /\ o_output x.2 <> Some ""%string.

Lemma nil_or_print v : v <> Some "null"%string -> v <> Some ""%string -> nil_or (default "null"%string v) = v.
Proof.
  intros H1 H2. unfold nil_or. destruct v as [s|]; [|done]. simpl.
  rewrite !bool_decide_eq_false_2 by congruence. done.
Qed.

Lemma ReadFile_print l : Forall printable l ->
  forall h, ReadFile (print_record <$> l) h = (add_all l;; ret None) h.
Proof.
  induction 1 as [|[k o] l (Hk & Hs & He & Hi1 & Hi2 & Ho1 & Ho2) _ IH]; intros h; [done|].
  cbn [fmap list_fmap ReadFile print_record add_all]. cbn [fst snd] in *.
  rewrite (Strconv.Atoi_Itoa k) by done.
  change Strconv.ParseInt with Strconv.Atoi. rewrite !Strconv.Atoi_Itoa by done.
  rewrite !nil_or_print by done. destruct o as [i out s e]. simpl.
  unfold gbind. rewrite AddOperation_run. apply IH.
Qed.

(** Reading a file of records in the format of [ReadFile] gives the history
    of the operations printed there: the flat list in file order and per key the
    operations of that key in file order. *)
Theorem ReadFile_roundtrip l :
  Forall printable l ->
  exists h, ReadFile (print_record <$> l) NewHistory = Ret (None, h) /\
    h_operations h = l.*2 /\
    forall k, h_shard h !! k = (if bool_decide (k ∈ l.*1) then Some (of_key k l) else None).
Proof.
  intros Hp. destruct (add_all_records l NewHistory [] NewHistory_records) as (h & E & Hr).
  exists h. rewrite ReadFile_print by done. unfold gbind. rewrite E. by split.
Qed.

Definition sample_ops : list (Z * operation) :=
  [(3, mkOperation (Some "w") None 5 9); (-2, mkOperation None (Some "r") 6 7); (3, mkOperation None None 8 20)]%string.
Lemma ReadFile_roundtrip_witness :
  exists h, ReadFile (print_record <$> sample_ops) NewHistory = Ret (None, h) /\ length (h_operations h) = 3%nat /\
    length <$> (h_shard h !! 3) = Some 2%nat.
Proof.
  destruct (ReadFile_roundtrip sample_ops) as (h & E & Ho & Hs).
  - repeat constructor; simpl; try (unfold two63; lia); discriminate.
  - exists h. split_and!; [exact E | by rewrite Ho | by rewrite Hs].
Defined.

(** ** What WriteFile writes *)

(** No comma, no quote and no end of line. *)
Definition field_char (c : ascii) : bool :=
  negb (bool_decide (c ∈ [","%char; ascii_of_N 34; ascii_of_N 10; ascii_of_N 13])).
Definition field_ok (s : string) : bool := forallb field_char (chars s).

Lemma field_ok_app a b : field_ok (a +:+ b) = field_ok a && field_ok b.
Proof. unfold field_ok. by rewrite chars_app, forallb_app. Qed.

Lemma digits_ok s : forallb is_digit (chars s) = true -> field_ok s = true.
Proof.
  unfold field_ok. rewrite !forallb_forall. intros H c Hc. apply H in Hc.
  apply negb_true_iff, bool_decide_eq_false. intros Hin. set_unfold.
  by destruct Hin as [->|[->|[->|[->|[]]]]]; vm_compute in Hc.
Qed.

Lemma pad_zeros_digits k s : forallb is_digit (chars s) = true -> forallb is_digit (chars (pad_zeros k s)) = true.
Proof.
  intros Hs. induction k as [|k IH]; cbn [pad_zeros]; [done|]. by destruct (length (chars s) <? S k)%nat.
Qed.

Lemma scaled_nonneg m e : 0 <= scaled m e.
Proof.
  unfold scaled. destruct (Z.leb_spec 0 e); [nia|].
  pose proof (Z.div_pos (Z.pos m * 1000000) (2 ^ (- e)) ltac:(lia) ltac:(lia)).
  destruct (_ || _); lia.
Qed.

Lemma fmt_f_ok x : field_ok (fmt_f x) = true.
Proof.
  destruct x as [[]|[]| |s m e]; [reflexivity..|]. unfold fmt_f. pose proof (scaled_nonneg m e).
  rewrite !field_ok_app. assert (field_ok (if s then "-" else "")%string = true) as -> by (by destruct s).
  rewrite (digits_ok (Strconv.Itoa (scaled m e / 1000000))) by (apply Itoa_digits, Z.div_pos; lia).
  rewrite (digits_ok (pad_zeros 6 _)); [done|]. apply pad_zeros_digits, Itoa_digits, Z.mod_pos_bound. lia.
Qed.

Lemma split_field s r acc :
  field_ok s = true -> split_commas (chars s ++ ","%char :: r) acc = str (acc ++ chars s) :: split_commas r [].
Proof.
  unfold field_ok. revert acc. induction (chars s) as [|c l IH]; intros acc; simpl.
  - intros _. by rewrite app_nil_r.
  - intros [Hc Hl]%andb_prop. apply negb_true_iff, bool_decide_eq_false in Hc.
    rewrite decide_False by set_solver. rewrite IH by done. by rewrite <- app_assoc.
Qed.
Lemma split_last s acc : field_ok s = true -> split_commas (chars s) acc = [str (acc ++ chars s)].
Proof.
  unfold field_ok. revert acc. induction (chars s) as [|c l IH]; intros acc; simpl.
  - intros _. by rewrite app_nil_r.
  - intros [Hc Hl]%andb_prop. apply negb_true_iff, bool_decide_eq_false in Hc.
    rewrite decide_False by set_solver. rewrite IH by done. by rewrite <- app_assoc.
Qed.

Lemma field_ok_noquote s : field_ok s = true -> ascii_of_N 34 ∉ chars s.
Proof. unfold field_ok. rewrite forallb_forall. intros H Hc%list_elem_of_In%H. by vm_compute in Hc. Qed.

(** The line of an operation has four fields. *)
Lemma op_line_fields quoted o :
  field_ok (fmt_any (o_input o)) = true -> field_ok (fmt_any (o_output o)) = true ->
  exists a b c d, csv_fields quoted (op_line o) = Some [a; b; c; d].
Proof.
  intros Hi Ho. unfold op_line.
  set (s := fmt_f _). set (e := fmt_f (f64_div (f64_of_Z (o_end o)) billion)).
  assert (field_ok s = true /\ field_ok e = true) as [Hs He] by (split; apply fmt_f_ok).
  set (i := fmt_any (o_input o)) in *. set (t := fmt_any (o_output o)) in *. clearbody s e i t.
  unfold csv_fields. rewrite bool_decide_eq_false_2.
  2:{ rewrite !chars_app, !not_elem_of_app. split_and!; try (by apply field_ok_noquote); compute_done. }
  rewrite !chars_app. change (chars ",") with [","%char]. simpl app.
  rewrite !split_field, split_last by done. by eexists _, _, _, _.
Qed.

(** Whatever a non-empty history contains, as long as its first operation
    holds no separator, the file [WriteFile] writes is not one [ReadFile] reads: it
    returns the format error at the first line, since a line has four fields and
    five are expected. *)
Theorem WriteFile_unreadable quoted o more h h' lines :
  field_ok (fmt_any (o_input o)) = true -> field_ok (fmt_any (o_output o)) = true ->
  WriteFile (o :: more) h = Ret (lines, h') ->
  ReadFile (csv_fields quoted <$> lines) NewHistory = Ret (Some format_error, NewHistory).
Proof.
  intros Hi Ho H. unfold WriteFile in H. go_inv.
  destruct (op_line_fields quoted o Hi Ho) as (a & b & c & d & E). cbn [write_lines fmap list_fmap]. rewrite E. done.
Qed.

Lemma WriteFile_unreadable_witness :
  exists lines h', WriteFile (sample_ops.*2) NewHistory = Ret (lines, h') /\
    lines !! 0%nat = Some "w,<nil>,0.000000,0.000000"%string /\
    ReadFile (csv_fields (fun _ => None) <$> lines) NewHistory = Ret (Some format_error, NewHistory).
Proof.
  eexists _, _. split_and!; [reflexivity | vm_compute; reflexivity |].
  eapply (WriteFile_unreadable (fun _ => None) (mkOperation (Some "w"%string) None 5 9) _ NewHistory);
    [reflexivity | reflexivity | reflexivity].
Defined.

(** ** Statistic *)

Lemma insert_f64_length x l : length (insert_f64 x l) = S (length l).
Proof. induction l as [|y l IH]; simpl; [done|]. destruct (SFleb x y); simpl; [done | by rewrite IH]. Qed.
Lemma Float64s_length l : length (Float64s l) = length l.
Proof. unfold Float64s. induction l as [|x l IH]; simpl; [done|]. by rewrite insert_f64_length, IH. Qed.
Lemma insert_f64_perm x l : insert_f64 x l ≡ₚ x :: l.
Proof.
  induction l as [|y l IH]; simpl; [done|]. destruct (SFleb x y); [done|]. rewrite IH. apply Permutation_swap.
Qed.
Lemma Float64s_perm l : Float64s l ≡ₚ l.
Proof. unfold Float64s. induction l as [|x l IH]; simpl; [done|]. by rewrite insert_f64_perm, IH. Qed.

(** The ranks of a sample, checked for every size up to 1024. *)
Definition ranks_ok (n : nat) : bool :=
  let size := Z.of_nat n in
  (0 <=? rank c50 size) && (rank c50 size <=? rank c95 size) && (rank c95 size <=? rank c99 size) &&
  (rank c99 size <=? rank c999 size) && (rank c999 size <? size).
Lemma ranks_ok_1024 : forallb ranks_ok (seq 1 1024) = true.
Proof. vm_compute. reflexivity. Qed.

Lemma ranks_in_range n : (1 <= n <= 1024)%nat -> ranks_ok n = true.
Proof. intros Hn. pose proof ranks_ok_1024 as H. rewrite forallb_forall in H. apply H, in_seq. lia. Qed.

Lemma at_rank_some l i : 0 <= i < Z.of_nat (length l) -> exists x, at_rank l i = Ret x /\ l !! Z.to_nat i = Some x.
Proof.
  intros Hi. unfold at_rank. destruct (Z.leb_spec 0 i); [|lia].
  destruct (lookup_lt_is_Some_2 l (Z.to_nat i)) as [x E]; [lia|]. rewrite E. eauto.
Qed.

(** The summary of at most 1024 latencies never indexes out of range, and its
    data are the latencies, in milliseconds, in another order. *)
Theorem Statistic_total latency :
  (length latency <= 1024)%nat ->
  exists s, Statistic latency = Ret s /\ st_Size s = Z.of_nat (length latency) /\
    st_Data s ≡ₚ millis <$> latency.
Proof.
  intros Hl. unfold Statistic. case_bool_decide as E; [by subst; eexists|].
  set (ms := Float64s (millis <$> latency)).
  assert (length ms = length latency) as Hlen by (unfold ms; by rewrite Float64s_length, length_fmap).
  assert (1 <= length latency)%nat by (destruct latency; simpl; [done | lia]).
  pose proof (ranks_in_range (length latency) ltac:(lia)) as Hr. unfold ranks_ok in Hr.
  rewrite !andb_true_iff, !Z.leb_le, Z.ltb_lt in Hr. destruct Hr as [[[[? ?] ?] ?] ?].
  rewrite <- Hlen in *.
  destruct (at_rank_some ms 0) as (? & -> & _); [lia|].
  destruct (at_rank_some ms (Z.of_nat (length ms) - 1)) as (? & -> & _); [lia|].
  destruct (at_rank_some ms (rank c50 (Z.of_nat (length ms)))) as (? & -> & _); [lia|].
  destruct (at_rank_some ms (rank c95 (Z.of_nat (length ms)))) as (? & -> & _); [lia|].
  destruct (at_rank_some ms (rank c99 (Z.of_nat (length ms)))) as (? & -> & _); [lia|].
  destruct (at_rank_some ms (rank c999 (Z.of_nat (length ms)))) as (? & -> & _); [lia|].
  eexists. split; [reflexivity|]. split; [done|]. apply Float64s_perm.
Qed.

Lemma Statistic_total_witness :
  exists s, Statistic [3000000; 1000000; 2000000] = Ret s /\ st_Size s = 3 /\ st_Median s = f64_of_Z 2.
Proof.
  destruct (Statistic_total [3000000; 1000000; 2000000]) as (s & E & Hs & _); [simpl; lia|].
  exists s. split_and!; [exact E | exact Hs |]. vm_compute in E. injection E as <-. reflexivity.
Defined.
