(* ===== verification/Benchmark.v ===== *)
(** * The benchmark (benchmark/benchmark.go, rate.go)

    The rate limiter, the key generator and [Run] with its goroutines: the main
    loop, the workers that call the database's [Write], and the collector of
    latencies, as steps of one state that any schedule may interleave.  A step
    that would block leaves the state unchanged.  The clock is an argument of each
    step; the database is the interface [DB], which client/client.go implements.
    A [sync.WaitGroup] counts in 32 bits and panics when the counter leaves them.

    Results: the rate bound of the limiter; every generated key is written at most
    once and none is lost; the ids of the transactions of a workload; no run
    confirms anything, and a run of a fixed number of requests never ends. *)

From Stdlib Require Import Ascii String.
From stdpp Require Import base gmap strings numbers list.
From S2P Require Import Prelude.
From S2P Require Import Channel.
From S2P Require Import Identity.
From S2P Require Import Config.
From S2P Require Import Json.
From S2P Require Import Db.
From S2P Require Import Url.
From S2P Require Import Client.
From S2P Require Import History.

Local Open Scope Z_scope.
Local Open Scope go_scope.

(** ** The limiter *)

(** [lm_last] is [None] for the zero time; durations are [int64] nanoseconds. *)
Record Limiter := mkLimiter {
  lm_last : option Z;
  lm_sleep : Z;
  lm_interval : Z;
  lm_slack : Z }.

Definition second : Z := 1000000000.
Definition NewLimiter (rate : Z) : outcome Limiter :=
  if rate =? 0 then Panic
  else Ret (mkLimiter None 0 (Z.quot second rate) (Z.quot (-10 * second) rate)).

(** [Wait] when its clock reads [now]: the duration it passes to [time.Sleep], 0
    when it does not sleep.  [time.Sleep] may take longer, so the call returns at
    [now] plus that duration or later. *)
Definition Wait (now : Z) : M Limiter Z := fun l =>
  match lm_last l with
  | None => Ret (0, mkLimiter (Some now) (lm_sleep l) (lm_interval l) (lm_slack l))
  | Some last =>
      let sleep := lm_sleep l +! (lm_interval l -! time_Sub now last) in
      let sleep := if sleep <? lm_slack l then lm_slack l else sleep in
      if 0 <? sleep then Ret (sleep, mkLimiter (Some (now + sleep)) 0 (lm_interval l) (lm_slack l))
      else Ret (0, mkLimiter (Some now) sleep (lm_interval l) (lm_slack l))
  end.

(** ** The database a benchmark writes to *)
Class DB (W : Type) := {
  db_Init : M W (option error);
  db_Write : Z -> list Z -> M W (option error);
  db_Stop : M W (option error) }.

Definition DefaultBConfig : Bconfig :=
  mkBconfig 60 0 0 0 1 "" 0 0 (SpecFloat.S754_zero false) (SpecFloat.S754_zero false) false 0.

(** ** A benchmark and its run *)
Record Benchmark := mkBenchmark {
  b_Bconfig : Bconfig;
  b_History : History;
  b_rate : option Limiter;
  b_latency : list Z;
  b_wait : Z }.

(** Where the main goroutine stands: at the top of its loop with [i] keys done,
    sending a key, waiting for the group, or returned with its statistics. *)
Inductive MainAt := AtTop (i : Z) | AtSend (k i : Z) | AtWait | AtEnd (s : Stat).
Inductive Worker := Idle | Busy (k : Z) | Gone.

(** [r_generated] and [r_written] are history: the keys [next] returned and the
    keys passed to [Write].  [r_count] is the package variable [count]. *)
Record Run := mkRun {
  r_b : Benchmark;
  r_count : Z;
  r_keys : chan Z;
  r_latencies : chan Z;
  r_genCount : Z;
  r_sendCount : Z;
  r_main : MainAt;
  r_workers : list Worker;
  r_generated : list Z;
  r_written : list Z }.

Definition set_b (b : Benchmark) (r : Run) : Run :=
  mkRun b (r_count r) (r_keys r) (r_latencies r) (r_genCount r) (r_sendCount r) (r_main r) (r_workers r)
    (r_generated r) (r_written r).
Definition set_count (c : Z) (r : Run) : Run :=
  mkRun (r_b r) c (r_keys r) (r_latencies r) (r_genCount r) (r_sendCount r) (r_main r) (r_workers r)
    (r_generated r) (r_written r).
Definition set_keys (k : chan Z) (r : Run) : Run :=
  mkRun (r_b r) (r_count r) k (r_latencies r) (r_genCount r) (r_sendCount r) (r_main r) (r_workers r)
    (r_generated r) (r_written r).
Definition set_latencies (c : chan Z) (r : Run) : Run :=
  mkRun (r_b r) (r_count r) (r_keys r) c (r_genCount r) (r_sendCount r) (r_main r) (r_workers r)
    (r_generated r) (r_written r).
Definition set_counts (g s : Z) (r : Run) : Run :=
  mkRun (r_b r) (r_count r) (r_keys r) (r_latencies r) g s (r_main r) (r_workers r) (r_generated r) (r_written r).
Definition set_main (m : MainAt) (r : Run) : Run :=
  mkRun (r_b r) (r_count r) (r_keys r) (r_latencies r) (r_genCount r) (r_sendCount r) m (r_workers r)
    (r_generated r) (r_written r).
Definition set_worker (i : nat) (w : Worker) (r : Run) : Run :=
  mkRun (r_b r) (r_count r) (r_keys r) (r_latencies r) (r_genCount r) (r_sendCount r) (r_main r)
    (<[i := w]> (r_workers r)) (r_generated r) (r_written r).
Definition note_generated (k : Z) (r : Run) : Run :=
  mkRun (r_b r) (r_count r) (r_keys r) (r_latencies r) (r_genCount r) (r_sendCount r) (r_main r) (r_workers r)
    (r_generated r ++ [k]) (r_written r).
Definition note_written (k : Z) (r : Run) : Run :=
  mkRun (r_b r) (r_count r) (r_keys r) (r_latencies r) (r_genCount r) (r_sendCount r) (r_main r) (r_workers r)
    (r_generated r) (r_written r ++ [k]).
Definition set_rate (l : Limiter) (b : Benchmark) : Benchmark :=
  mkBenchmark (b_Bconfig b) (b_History b) (Some l) (b_latency b) (b_wait b).
Definition set_wait (n : Z) (b : Benchmark) : Benchmark :=
  mkBenchmark (b_Bconfig b) (b_History b) (b_rate b) (b_latency b) n.
Definition add_latency (t : Z) (b : Benchmark) : Benchmark :=
  mkBenchmark (b_Bconfig b) (b_History b) (b_rate b) (b_latency b ++ [t]) (b_wait b).

Section run.
Context {W : Type} {D : DB W} (cfg : Config) (bytes : nat -> nat -> Z).

Definition NewBenchmark : outcome Benchmark :=
  let bc := cfg_Benchmark cfg in
  if 0 <? bench_Throttle bc then
    l ←? NewLimiter (bench_Throttle bc);
    Ret (mkBenchmark bc NewHistory (Some l) [] 0)
  else Ret (mkBenchmark bc NewHistory None [] 0).

(** The part of [Run] before its loop; [count] starts at 0 with the process.  A
    negative channel size panics. *)
Definition start_run (b : Benchmark) : M W Run :=
  let c := bench_Concurrency (b_Bconfig b) in
  if c <? 0 then panic
  else
    db_Init;;
    ret (mkRun (mkBenchmark (b_Bconfig b) (b_History b) (b_rate b) [] (b_wait b)) 0 (make_chan c) (make_chan 1000)
           0 0 (AtTop 0) (replicate (Z.to_nat c) Idle) [] []).

(** A run and the database behind it. *)
Definition RState : Type := Run * W.
Definition on_run {X} (m : M Run X) : M RState X := zoom fst (fun r s => (r, s.2)) m.
Definition on_db {X} (m : M W X) : M RState X := zoom snd (fun w s => (s.1, w)) m.

Definition wg_Add (d : Z) : M Run unit := fun r =>
  let v := b_wait (r_b r) + d in
  if (v <? 0) || (2 ^ 31 <=? v) then Panic else Ret (tt, set_b (set_wait v (r_b r)) r).

(** [next]: the key is the counter, which steps by the number of honest nodes. *)
Definition next (now : Z) : M Run Z := fun r =>
  let bc := b_Bconfig (r_b r) in
  if bool_decide (bench_Distribution bc = "uniform"%string) then
    let key := i64 (r_count r) in
    let r := set_count (u64 (r_count r + u64 (Config_N cfg -! ByzNo cfg))) r in
    if 0 <? bench_Throttle bc then
      match b_rate (r_b r) with
      | None => Panic
      | Some l => '(_, l') ←? Wait now l; Ret (key, set_b (set_rate l' (r_b r)) r)
      end
    else Ret (key, r)
  else Panic.

(** The body of both loops up to the send. *)
Definition generate (i now : Z) : M Run unit :=
  wg_Add 1;;
  k ← next now;
  r ← gets (fun r => r);
  modify (note_generated k);;
  when (0 <? bench_T (b_Bconfig (r_b r))) (modify (fun r => set_counts (u64 (r_genCount r + 1)) (r_sendCount r) r));;
  modify (set_main (AtSend k i)).

(** The end of [Run]: the deferred close of the latencies comes last. *)
Definition finish : M RState unit :=
  on_db db_Stop;;
  r ← on_run (gets (fun r => r));
  keys ← lift (ch_close (r_keys r));
  stat ← lift (Statistic (b_latency (r_b r)));
  lat ← lift (ch_close (r_latencies r));
  on_run (modify (fun r => set_main (AtEnd stat) (set_latencies lat (set_keys keys r)))).

(** One step of the main goroutine at the time [now]; [fired] says whether the
    timer has fired. *)
Definition main_step (fired : bool) (now : Z) : M RState unit := fun s =>
  let r := s.1 in
  let bc := b_Bconfig (r_b r) in
  match r_main r with
  | AtTop i =>
      if 0 <? bench_T bc then
        if fired then finish s else on_run (generate i now) s
      else if i <? bench_N bc then on_run (generate i now) s
      else on_run (modify (set_main AtWait)) s
  | AtSend k i =>
      o ←? ch_send k (r_keys r);
      match o with
      | None => Ret (tt, s)
      | Some c =>
          on_run (modify (fun r => set_main (AtTop (i +! 1))
            (set_counts (r_genCount r) (if 0 <? bench_T bc then u64 (r_sendCount r + 1) else r_sendCount r)
              (set_keys c r)))) s
      end
  | AtWait => if b_wait (r_b r) =? 0 then finish s else Ret (tt, s)
  | AtEnd _ => Ret (tt, s)
  end.

(** One step of worker [i]: take a key, or write the one it holds with a fresh
    random payload.  The error is dropped, and nothing is sent to the collector. *)
Definition worker_step (i : nat) : M RState unit := fun s =>
  let r := s.1 in
  match r_workers r !! i with
  | Some Idle =>
      match ch_recv (r_keys r) with
      | None => Ret (tt, s)
      | Some (Some k, c) => on_run (modify (fun r => set_worker i (Busy k) (set_keys c r))) s
      | Some (None, c) => on_run (modify (set_worker i Gone)) s
      end
  | Some (Busy k) =>
      if PayloadSize cfg <? 0 then Panic
      else
        (on_db (db_Write k (bytes (length (r_written r)) <$> seq 0 (Z.to_nat (PayloadSize cfg))));;
         on_run (modify (fun r => set_worker i Idle (note_written k r)))) s
  | _ => Ret (tt, s)
  end.

Definition collect_step : M RState unit := fun s =>
  let r := s.1 in
  match ch_recv (r_latencies r) with
  | Some (Some t, c) =>
      on_run (modify (fun r => set_b (add_latency t (r_b r)) (set_latencies c r));; wg_Add (-1)) s
  | _ => Ret (tt, s)
  end.

Inductive BLabel := BMain (fired : bool) (now : Z) | BWorker (i : nat) | BCollect.
Definition bstep (l : BLabel) : M RState unit :=
  match l with
  | BMain fired now => main_step fired now
  | BWorker i => worker_step i
  | BCollect => collect_step
  end.
Fixpoint bsteps (ls : list BLabel) : M RState unit :=
  match ls with [] => skip | l :: ls' => bstep l;; bsteps ls' end.
End run.

(** The client's database; [ends] gives the order in which the requests of a key
    end. *)
Definition Database_DB {W} (Do : Request -> M W (error + Response)) (exotic : string -> option URL)
    (ends : Z -> list NodeID) : DB (HTTPClient (W := W)) := {|
  db_Init := ret None;
  db_Write k v := c ← gets (fun c => c);
                  Database_Write Do exotic (map_to_list (default ∅ (hc_HTTP c))) (ends k) k v;
  db_Stop := ret None |}.

(** [main] of client/client.go up to the loop of [Run]; [text] and [lines] are
    the files [Init] loads. *)
Definition client_main {W} (Do : Request -> M W (error + Response)) (exotic : string -> option URL)
    (ends : Z -> list NodeID) (foreign : list Ascii.ascii -> option Json.json) (text : option string) (lines : list string)
    (w : W) : outcome (Run * HTTPClient) :=
  c ←? LoadFile foreign text lines MakeDefaultConfig;
  '(d, c) ←? NewHTTPClient c w;
  b ←? NewBenchmark c;
  start_run (D := Database_DB Do exotic ends) b d.

(** ** The rate of a limiter *)

(** Calls one after the other, as the mutex has them: each is given the time it
    reads and by how much it returns late (the sleep may overrun, and the
    goroutine may be kept waiting); the result is when each returns. *)
Fixpoint waits (calls : list (Z * Z)) : M Limiter (list Z) :=
  match calls with
  | [] => ret []
  | (now, late) :: more => d ← Wait now; rest ← waits more; ret (now + d + late :: rest)
  end.
(** Each call starts after the one before has returned. *)
Fixpoint one_by_one (after : Z) (calls : list (Z * Z)) (wakes : list Z) : Prop :=
  match calls, wakes with
  | (now, late) :: calls', wake :: wakes' => after <= now <= 2 ^ 62 /\ 0 <= late /\ one_by_one wake calls' wakes'
  | _, _ => True
  end.

(** A limiter in use: the last call was due to return at [last]. *)
Definition limiter_wf (l : Limiter) (last : Z) : Prop :=
  lm_last l = Some last /\ 0 <= last /\ 0 <= lm_interval l <= second /\
  -10 * second <= lm_slack l <= 0 /\ lm_slack l <= lm_sleep l <= 0.

(** One call: it sleeps at most one interval, and due time plus credit grow by at
    least one interval. *)
Lemma Wait_step now l last :
  limiter_wf l last -> last <= now <= 2 ^ 62 ->
  exists d l', Wait now l = Ret (d, l') /\ 0 <= d <= lm_interval l /\ limiter_wf l' (now + d) /\
    lm_interval l' = lm_interval l /\ lm_slack l' = lm_slack l /\
    last + lm_sleep l + lm_interval l <= now + d + lm_sleep l'.
Proof.
  intros (Hl & H0 & Hi & Hk & Hs) Hnow. unfold Wait. rewrite Hl.
  assert (time_Sub now last = now - last) as -> by (unfold time_Sub, two63; lia).
  rewrite !i64_id by (unfold is_i64, two63, second in *; rewrite ?i64_id; unfold is_i64, two63; lia).
  unfold limiter_wf.
  destruct (Z.ltb_spec (lm_sleep l + (lm_interval l - (now - last))) (lm_slack l)) as [H1|H1].
  - destruct (Z.ltb_spec 0 (lm_slack l)); [lia|]. eexists _, _. split; [reflexivity|]. simpl. rewrite Z.add_0_r.
    split_and!; try done; lia.
  - destruct (Z.ltb_spec 0 (lm_sleep l + (lm_interval l - (now - last)))) as [H2|H2];
      (eexists _, _; split; [reflexivity|]; simpl; rewrite ?Z.add_0_r; split_and!; try done; lia).
Qed.

Lemma waits_late calls : forall l last after wakes l' n b,
  limiter_wf l last -> last <= after -> waits calls l = Ret (wakes, l') -> one_by_one after calls wakes ->
  wakes !! n = Some b ->
  last + lm_sleep l + (Z.of_nat n + 1) * lm_interval l <= b /\
  after + lm_slack l + Z.of_nat n * lm_interval l <= b.
Proof.
  induction calls as [|[now late] calls IH]; intros l last after wakes l' n b Hwf Haf H Ho Hn; cbn [waits] in H; go_inv; [done|].
  destruct Ho as (Hnow & Hlate & Ho).
  destruct (Wait_step now l last Hwf ltac:(lia)) as (d' & l1 & E & Hd & Hwf1 & Hi & Hk & Hp).
  rewrite E in Hrun. go_inv. pose proof Hwf as (_ & _ & _ & Hk0 & Hs0). pose proof Hwf1 as (_ & _ & _ & _ & Hs1).
  destruct n as [|n]; simpl in Hn.
  - injection Hn as <-. lia.
  - eapply IH in Hn; [| exact Hwf1 | | eassumption | done]; [|lia]. rewrite Hi, Hk in Hn. lia.
Qed.

Lemma waits_spaced calls : forall l last after wakes l' m n a b,
  limiter_wf l last -> last <= after -> waits calls l = Ret (wakes, l') -> one_by_one after calls wakes ->
  wakes !! m = Some a -> wakes !! n = Some b -> (m < n)%nat ->
  (Z.of_nat n - Z.of_nat m - 1) * lm_interval l + lm_slack l <= b - a.
Proof.
  induction calls as [|[now late] calls IH]; intros l last after wakes l' m n a b Hwf Haf H Ho Hm Hn Hlt; cbn [waits] in H; go_inv; [done|].
  destruct Ho as (Hnow & Hlate & Ho).
  destruct (Wait_step now l last Hwf ltac:(lia)) as (d' & l1 & E & Hd & Hwf1 & Hi & Hk & Hp).
  rewrite E in Hrun. go_inv. pose proof Hwf1 as (_ & _ & _ & _ & Hs1).
  destruct n as [|n]; [lia|]. simpl in Hn. destruct m as [|m]; simpl in Hm.
  - injection Hm as <-. eapply (waits_late _ _ _ (now + d' + late)) in Hn; [| exact Hwf1 | lia | eassumption | done].
    rewrite Hi, Hk in Hn. lia.
  - eapply (IH _ _ (now + d' + late) _ _ m n a b) in Hwf1; [| lia | eassumption | done | done | done | lia].
    rewrite Hi, Hk in Hwf1. lia.
Qed.

Lemma waits_short calls : forall l last after wakes l' n now late w,
  limiter_wf l last -> last <= after -> waits calls l = Ret (wakes, l') -> one_by_one after calls wakes ->
  calls !! n = Some (now, late) -> wakes !! n = Some w -> now + late <= w <= now + late + lm_interval l.
Proof.
  induction calls as [|[now late] calls IH]; intros l last after wakes l' n t k w Hwf Haf H Ho Ht Hw; cbn [waits] in H; go_inv; [done|].
  destruct Ho as (Hnow & Hlate & Ho).
  destruct (Wait_step now l last Hwf ltac:(lia)) as (d' & l1 & E & Hd & Hwf1 & Hi & _ & _).
  rewrite E in Hrun. go_inv. destruct n as [|n]; simpl in Ht, Hw; [simplify_eq; lia|].
  rewrite <- Hi. eapply (IH _ _ (now + d' + late)); try eassumption. lia.
Qed.

(** A new limiter, and the first call, which sets its clock. *)
Lemma NewLimiter_fields rate l :
  0 < rate -> NewLimiter rate = Ret l -> l = mkLimiter None 0 (second / rate) (- (10 * second / rate)).
Proof.
  intros Hr. unfold NewLimiter. destruct (Z.eqb_spec rate 0); [lia|]. intros [= <-]. f_equal.
  - rewrite Z.quot_div_nonneg; unfold second; lia.
  - change (-10 * second) with (- (10 * second)). rewrite Z.quot_opp_l by lia.
    rewrite Z.quot_div_nonneg; unfold second; lia.
Qed.

Lemma first_wait rate l now late calls wakes l' :
  0 < rate -> NewLimiter rate = Ret l -> 0 <= now -> waits ((now, late) :: calls) l = Ret (wakes, l') ->
  exists l1 rest, limiter_wf l1 now /\ waits calls l1 = Ret (rest, l') /\ wakes = now + late :: rest /\
    lm_interval l1 = second / rate /\ lm_slack l1 = - (10 * second / rate).
Proof.
  intros Hr ->%NewLimiter_fields Hn H; [|done]. cbn [waits] in H. go_inv. cbn in Hrun. go_inv. rewrite Z.add_0_r.
  eexists _, _. split; [|by split_and!]. unfold limiter_wf. simpl.
  assert (0 <= second / rate <= second) by (split; [apply Z.div_pos | apply Z.div_le_upper_bound]; unfold second; nia).
  assert (0 <= 10 * second / rate <= 10 * second)
    by (split; [apply Z.div_pos | apply Z.div_le_upper_bound]; unfold second; nia).
  split_and!; try done; lia.
Qed.

(** C30.  A limiter for a positive rate, under its mutex, with sleeps that may
    overrun by any amount: between the returns of the [m]-th and the [n]-th call
    pass at least [n - m - 1] intervals less the slack (ten seconds divided by the
    rate), however late calls woke up; and no call asks to sleep longer than one
    interval. *)
Theorem Limiter_rate rate l now late calls wakes l' :
  0 < rate -> NewLimiter rate = Ret l -> 0 <= now ->
  waits ((now, late) :: calls) l = Ret (wakes, l') -> one_by_one now ((now, late) :: calls) wakes ->
  (forall m n a b, wakes !! m = Some a -> wakes !! n = Some b -> (m < n)%nat ->
     (Z.of_nat n - Z.of_nat m - 1) * (second / rate) - 10 * second / rate <= b - a) /\
  (forall n t k w, ((now, late) :: calls) !! n = Some (t, k) -> wakes !! n = Some w ->
     t + k <= w <= t + k + second / rate).
Proof.
  intros Hr Hl Hn H Ho.
  destruct (first_wait rate l now late calls wakes l' Hr Hl Hn H) as (l1 & rest & Hwf & Hrun & -> & Hi & Hk).
  simpl in Ho. destruct Ho as (_ & Hlate & Ho). split.
  - intros m n a b Hm Hb Hlt. destruct n as [|n]; [lia|]. simpl in Hb. destruct m as [|m]; simpl in Hm.
    + injection Hm as <-. eapply (waits_late _ _ _ (now + late)) in Hb; [| exact Hwf | lia | eassumption | done].
      rewrite Hi, Hk in Hb. lia.
    + eapply (waits_spaced calls l1 now (now + late) rest l' m n a b) in Hwf; [| lia | done | done | done | done | lia].
      rewrite Hi, Hk in Hwf. lia.
  - intros [|n] t k w Ht Hw; simpl in Ht, Hw.
    + simplify_eq. assert (0 <= second / rate) by (apply Z.div_pos; unfold second; lia). lia.
    + rewrite <- Hi. eapply (waits_short calls l1 now (now + late)); try eassumption. lia.
Qed.

(** Ten calls a second, called without pause: each call but the first waits for
    its turn.  The second oversleeps by two seconds, and the eleven after it find
    ten intervals of credit: they return at once. *)
Definition overslept : list (Z * Z) :=
  [(7, 0); (7, 2000000000)] ++ replicate 11 (2100000007, 0) ++ [(2100000007, 0)].
Definition overslept_wakes : list Z :=
  [7] ++ replicate 12 2100000007 ++ [2200000007].
Lemma Limiter_rate_witness :
  exists l l', NewLimiter 10 = Ret l /\ waits overslept l = Ret (overslept_wakes, l') /\
    (forall m n a b, overslept_wakes !! m = Some a -> overslept_wakes !! n = Some b -> (m < n)%nat ->
       (Z.of_nat n - Z.of_nat m - 1) * (second / 10) - 10 * second / 10 <= b - a).
Proof.
  eexists _, _. split_and!; [reflexivity | vm_compute; reflexivity |].
  apply (Limiter_rate 10 (mkLimiter None 0 100000000 (-1000000000)) 7 0 (tail overslept) _
           (mkLimiter (Some 2200000007) 0 100000000 (-1000000000)));
    [lia | reflexivity | lia | vm_compute; reflexivity | vm_compute; intuition discriminate].
Defined.

(** ** The workload *)

Definition hand (w : Worker) : list Z := match w with Busy k => [k] | _ => [] end.
Definition hands (ws : list Worker) : list Z := ws ≫= hand.
Definition main_hand (m : MainAt) : list Z := match m with AtSend k _ => [k] | _ => [] end.

Lemma hands_insert ws : forall i w w', ws !! i = Some w -> hands (<[i := w']> ws) ++ hand w ≡ₚ hands ws ++ hand w'.
Proof.
  unfold hands. induction ws as [|x ws IH]; intros [|i] w w' H; simplify_eq/=.
  - rewrite (Permutation_app_comm (hand w')), <- !app_assoc. rewrite (Permutation_app_comm (hand w)), <- app_assoc.
    done.
  - rewrite <- !app_assoc. f_equiv. by apply IH.
Qed.

Section workload.
Context {W : Type} {D : DB W} (cfg : Config) (bytes : nat -> nat -> Z).

(** The [j]-th key: the counter after [j] steps. *)
Definition stride : Z := u64 (Config_N cfg -! ByzNo cfg).
Definition nth_key (j : nat) : Z := i64 (u64 (Z.of_nat j * stride)).

(** Where the keys are, and what the counters say of them. *)
Definition conserved (r : Run) : Prop :=
  r_generated r ≡ₚ r_written r ++ hands (r_workers r) ++ ch_buf (r_keys r) ++ main_hand (r_main r).
Definition counted (r : Run) : Prop :=
  r_generated r = nth_key <$> seq 0 (length (r_generated r)) /\
  r_count r = u64 (Z.of_nat (length (r_generated r)) * stride) /\
  b_wait (r_b r) = Z.of_nat (length (r_generated r)) /\ b_wait (r_b r) < 2 ^ 31.
Definition unconfirmed (r : Run) : Prop := b_latency (r_b r) = [] /\ ch_buf (r_latencies r) = [].
Definition placed (r : Run) : Prop :=
  let n := Z.of_nat (length (r_generated r)) in
  let bc := b_Bconfig (r_b r) in
  bc = cfg_Benchmark cfg /\
  match r_main r with
  | AtTop i => bench_T bc <= 0 -> i = n
  | AtSend _ i => bench_T bc <= 0 -> i + 1 = n
  | AtWait => bench_N bc <= n
  | AtEnd s => s = zero_Stat /\ (bench_T bc <= 0 -> bench_N bc <= 0)
  end.
Definition run_inv (r : Run) : Prop := conserved r /\ counted r /\ unconfirmed r /\ placed r.

Lemma u64_add_l a b : u64 (u64 a + b) = u64 (a + b).
Proof. unfold u64. apply Zplus_mod_idemp_l. Qed.

Lemma wg_Add_inv d r u r' :
  wg_Add d r = Ret (u, r') -> r' = set_b (set_wait (b_wait (r_b r) + d) (r_b r)) r /\ 0 <= b_wait (r_b r) + d < 2 ^ 31.
Proof.
  unfold wg_Add. destruct (Z.ltb_spec (b_wait (r_b r) + d) 0); [done|].
  destruct (Z.leb_spec (2 ^ 31) (b_wait (r_b r) + d)); [done|]. intros [= _ <-]. done.
Qed.

(** [next] returns the counter and advances it; of the rest only the limiter
    changes. *)
Lemma next_inv now r k r' :
  next cfg now r = Ret (k, r') ->
  k = i64 (r_count r) /\
  exists l, r' = set_b (mkBenchmark (b_Bconfig (r_b r)) (b_History (r_b r)) l (b_latency (r_b r)) (b_wait (r_b r)))
                   (set_count (u64 (r_count r + stride)) r).
Proof.
  unfold next. case_bool_decide; [|done]. destruct (0 <? bench_Throttle (b_Bconfig (r_b r))).
  - simpl. destruct (b_rate (r_b r)) as [l|]; [|done]. destruct (Wait now l) as [[d l']| | |]; try done.
    intros [= <- <-]. split; [done|]. by exists (Some l').
  - intros [= <- <-]. split; [done|]. exists (b_rate (r_b r)). by destruct r as [[] ? ? ? ? ? ? ? ? ?].
Qed.

(** The state after generating a key. *)
Lemma generate_inv i now r u r' :
  generate cfg i now r = Ret (u, r') ->
  let k := i64 (r_count r) in
  exists l g, 0 <= b_wait (r_b r) + 1 < 2 ^ 31 /\
    r' = mkRun (mkBenchmark (b_Bconfig (r_b r)) (b_History (r_b r)) l (b_latency (r_b r)) (b_wait (r_b r) + 1))
           (u64 (r_count r + stride)) (r_keys r) (r_latencies r) g (r_sendCount r) (AtSend k i) (r_workers r)
           (r_generated r ++ [k]) (r_written r).
Proof.
  unfold generate. intros H. go_inv. apply wg_Add_inv in Hrun as [-> Hw]. apply next_inv in Hrun0 as (-> & l & ->).
  cbn in *. unfold when in *. destruct (0 <? bench_T (b_Bconfig (r_b r))); go_inv; eexists l, _; (split; [exact Hw | reflexivity]).
Qed.

Lemma generate_run_inv i now r u r' :
  run_inv r -> r_main r = AtTop i -> generate cfg i now r = Ret (u, r') -> run_inv r'.
Proof.
  intros (Hc & (Hg & Hn & Hw & Hlt) & (Hl & Hb) & Hbc & Hp) Em H.
  apply generate_inv in H as (l & g & Hb1 & ->). rewrite Em in Hp. unfold conserved in Hc. rewrite Em, app_nil_r in Hc.
  assert (i64 (r_count r) = nth_key (length (r_generated r))) as Ek by (unfold nth_key; by rewrite Hn).
  split; [|split; [|split]].
  - unfold conserved. simpl. rewrite Hc, <- !app_assoc. done.
  - unfold counted. simpl. rewrite length_app. simpl. split_and!; [| | lia | lia].
    + rewrite Nat.add_1_r, seq_S, fmap_app, <- Hg, Ek. done.
    + rewrite Hn, u64_add_l. f_equal. lia.
  - done.
  - split; [done|]. simpl in *. rewrite length_app. simpl. intros Ht%Hp. lia.
Qed.

(** A step of the database leaves the run alone, and the other way round. *)
Lemma on_db_inv {X} (m : M W X) s x s' : on_db m s = Ret (x, s') -> s'.1 = s.1.
Proof. unfold on_db. intros H. go_inv. done. Qed.
Lemma on_run_inv {X} (m : M Run X) s x s' : on_run (W := W) m s = Ret (x, s') -> m s.1 = Ret (x, s'.1).
Proof. unfold on_run. intros H. go_inv. done. Qed.

Lemma finish_inv (s : RState (W := W)) u s' :
  finish s = Ret (u, s') ->
  exists keys stat lat, ch_close (r_keys s.1) = Ret keys /\ Statistic (b_latency (r_b s.1)) = Ret stat /\
    ch_close (r_latencies s.1) = Ret lat /\ s'.1 = set_main (AtEnd stat) (set_latencies lat (set_keys keys s.1)).
Proof.
  unfold finish. intros H. apply bind_ret in H as (e & s1 & H1 & H). apply on_db_inv in H1. rewrite <- H1. clear H1.
  apply bind_ret in H as (r & s2 & H2 & H). unfold on_run in H2. go_inv. unfold lift in *.
  destruct (ch_close (r_keys s1.1)) as [keys| | |] eqn:E1; go_inv.
  destruct (Statistic (b_latency (r_b s1.1))) as [stat| | |] eqn:E2; go_inv.
  destruct (ch_close (r_latencies s1.1)) as [lat| | |] eqn:E3; go_inv.
  eexists keys, stat, lat. split_and!; try done. apply on_run_inv in H. unfold modify in H. by injection H.
Qed.

Lemma finish_run_inv (s : RState (W := W)) u s' :
  run_inv s.1 -> main_hand (r_main s.1) = [] ->
  (bench_T (cfg_Benchmark cfg) <= 0 -> bench_N (cfg_Benchmark cfg) <= 0) -> finish s = Ret (u, s') -> run_inv s'.1.
Proof.
  intros (Hc & Hn & (Hl & Hb) & Hbc & _) Em Hp (keys & stat & lat & E1 & E2 & E3 & ->)%finish_inv.
  unfold ch_close in E1, E3. destruct (ch_closed (r_keys s.1)); [done|]. destruct (ch_closed (r_latencies s.1)); [done|].
  injection E1 as <-. injection E3 as <-. rewrite Hl in E2. injection E2 as <-.
  split; [|split; [|split]]; [| done | done |].
  - unfold conserved in *. simpl. rewrite Em in Hc. done.
  - split; [done|]. simpl. rewrite Hbc. done.
Qed.

Lemma send_run_inv (s : RState (W := W)) k i c g n :
  run_inv s.1 -> r_main s.1 = AtSend k i -> ch_send k (r_keys s.1) = Ret (Some c) ->
  run_inv (set_main (AtTop (i +! 1)) (set_counts g n (set_keys c s.1))).
Proof.
  intros (Hc & (Hg & Hcnt & Hw & Hlt) & Hl & Hbc & Hp) Em (_ & Hb & _)%ch_send_inv.
  rewrite Em in Hp. unfold conserved in Hc. rewrite Em in Hc.
  split; [|split; [|split]]; [| done | done |].
  - unfold conserved. simpl. rewrite Hb, app_nil_r. done.
  - split; [done|]. simpl in *. intros Ht%Hp. rewrite i64_id; [done|]. unfold is_i64, two63. lia.
Qed.

Lemma main_run_inv fired now s u s' : run_inv s.1 -> main_step cfg fired now s = Ret (u, s') -> run_inv s'.1.
Proof.
  intros Hi H. pose proof Hi as (Hc & (_ & _ & Hw & _) & Hl & Hbc & Hp). unfold main_step in H.
  rewrite Hbc in H. rewrite Hbc in Hp. destruct (r_main s.1) as [i|k i| |stat] eqn:Em.
  - destruct (Z.ltb_spec 0 (bench_T (cfg_Benchmark cfg))) as [Ht|Ht]; [destruct fired|].
    + eapply finish_run_inv; [done | by rewrite Em | lia | done].
    + apply on_run_inv in H. by eapply generate_run_inv.
    + destruct (Z.ltb_spec i (bench_N (cfg_Benchmark cfg))) as [Hlt|Hge].
      * apply on_run_inv in H. by eapply generate_run_inv.
      * apply on_run_inv in H. apply Ret_pair_inj in H as [_ <-]. destruct Hi as (_ & Hn & _). unfold conserved in Hc. rewrite Em in Hc.
        split; [done|]. split; [done|]. split; [done|]. split; [done|]. simpl. rewrite Hbc, <- Hp by done. done.
  - destruct (ch_send k (r_keys s.1)) as [[c|]| | |] eqn:E; try done; simpl in H.
    + apply on_run_inv in H. apply Ret_pair_inj in H as [_ <-]. by eapply send_run_inv.
    + by apply Ret_pair_inj in H as [_ <-].
  - destruct (Z.eqb_spec (b_wait (r_b s.1)) 0) as [E|E].
    + eapply finish_run_inv; [done | by rewrite Em | lia | done].
    + by apply Ret_pair_inj in H as [_ <-].
  - by apply Ret_pair_inj in H as [_ <-].
Qed.

Lemma worker_run_inv i s u s' : run_inv s.1 -> worker_step cfg bytes i s = Ret (u, s') -> run_inv s'.1.
Proof.
  intros Hi H. pose proof Hi as (Hc & Hn & Hl & Hp). unfold worker_step in H.
  destruct (r_workers s.1 !! i) as [[|k|]|] eqn:Ew; [| | by apply Ret_pair_inj in H as [_ <-] | by apply Ret_pair_inj in H as [_ <-]].
  - destruct (ch_recv (r_keys s.1)) as [[[k|] c]|] eqn:Er; [| | by apply Ret_pair_inj in H as [_ <-]]; apply on_run_inv in H; apply Ret_pair_inj in H as [_ <-].
    + apply ch_recv_inv in Er as (Hb & _). split; [|done]. unfold conserved in *. simpl. rewrite Hc, Hb.
      pose proof (hands_insert _ i Idle (Busy k) Ew) as Hh. rewrite app_nil_r in Hh. rewrite Hh. simpl.
      by rewrite <- !app_assoc.
    + split; [|done]. unfold conserved in *. simpl. rewrite Hc.
      pose proof (hands_insert _ i Idle Gone Ew) as Hh. rewrite !app_nil_r in Hh. by rewrite Hh.
  - destruct (PayloadSize cfg <? 0); [done|]. apply bind_ret in H as (e & s1 & H1 & H).
    apply on_db_inv in H1. apply on_run_inv in H. rewrite H1 in H. apply Ret_pair_inj in H as [_ <-].
    split; [|done]. unfold conserved in *. simpl. rewrite Hc.
    pose proof (hands_insert _ i (Busy k) Idle Ew) as Hh. rewrite app_nil_r in Hh. rewrite <- Hh. simpl.
    rewrite <- !app_assoc. f_equiv. simpl. symmetry. apply Permutation_middle.
Qed.

Lemma collect_run_inv s u s' : run_inv s.1 -> collect_step (W := W) s = Ret (u, s') -> run_inv s'.1.
Proof.
  intros Hi H. pose proof Hi as (_ & _ & (_ & Hb) & _). unfold collect_step, ch_recv in H. rewrite Hb in H.
  destruct (ch_closed (r_latencies s.1)); by apply Ret_pair_inj in H as [_ <-].
Qed.

Lemma bsteps_run_inv ls : forall s u s', run_inv s.1 -> bsteps cfg bytes ls s = Ret (u, s') -> run_inv s'.1.
Proof.
  induction ls as [|l ls IH]; intros s u s' Hi H; cbn [bsteps] in H; [by go_inv|].
  apply bind_ret in H as (e & s1 & H1 & H). eapply IH; [|exact H].
  destruct l; [by eapply main_run_inv | by eapply worker_run_inv | by eapply collect_run_inv].
Qed.

Lemma start_run_run_inv b w r w' : NewBenchmark cfg = Ret b -> start_run b w = Ret (r, w') -> run_inv r.
Proof.
  intros Hb H. unfold start_run in H. destruct (bench_Concurrency (b_Bconfig b) <? 0); [done|]. go_inv.
  assert (b_Bconfig b = cfg_Benchmark cfg /\ b_wait b = 0) as [Eb Ew].
  { unfold NewBenchmark in Hb. destruct (0 <? bench_Throttle (cfg_Benchmark cfg)).
    - destruct (NewLimiter (bench_Throttle (cfg_Benchmark cfg))) as [l| | |]; try done. by injection Hb as <-.
    - by injection Hb as <-. }
  split; [|split; [|split]].
  - unfold conserved. simpl. rewrite !app_nil_r. unfold hands.
    induction (Z.to_nat (bench_Concurrency (b_Bconfig b))) as [|n IHn]; simpl; done.
  - unfold counted. simpl. by rewrite Ew.
  - done.
  - split; [done|]. simpl. done.
Qed.
End workload.

(** C29.  Through any interleaving of a run's goroutines no generated key is lost or
    duplicated: the keys generated so far are the keys written, held by a worker,
    waiting in the channel and held by the main loop, together; and they are the
    multiples of the number of honest nodes, in order. *)
Theorem workload_conserved {W} {D : DB W} cfg bytes b w r w1 ls r' w' :
  NewBenchmark cfg = Ret b -> start_run b w = Ret (r, w1) -> bsteps cfg bytes ls (r, w1) = Ret (tt, (r', w')) ->
  r_generated r' ≡ₚ r_written r' ++ hands (r_workers r') ++ ch_buf (r_keys r') ++ main_hand (r_main r') /\
  r_generated r' = nth_key cfg <$> seq 0 (length (r_generated r')).
Proof.
  intros Hb Hs Hr. apply (bsteps_run_inv cfg bytes) in Hr as (Hc & (Hg & _) & _); [done|].
  by apply (start_run_run_inv cfg b w r w1).
Qed.

(** C40.  No run confirms anything: the workers never report a latency, so the
    statistics a run ends with are the zero ones, and a run of a positive number of
    requests without a time limit never ends, under any interleaving. *)
Theorem Run_confirms_nothing {W} {D : DB W} cfg bytes b w r w1 ls r' w' :
  NewBenchmark cfg = Ret b -> start_run b w = Ret (r, w1) -> bsteps cfg bytes ls (r, w1) = Ret (tt, (r', w')) ->
  b_latency (r_b r') = [] /\
  (forall s, r_main r' = AtEnd s -> s = zero_Stat) /\
  (bench_T (cfg_Benchmark cfg) <= 0 -> 0 < bench_N (cfg_Benchmark cfg) -> forall s, r_main r' <> AtEnd s).
Proof.
  intros Hb Hs Hr. apply (bsteps_run_inv cfg bytes) in Hr as (_ & _ & (Hl & _) & Hbc & Hp);
    [|by apply (start_run_run_inv cfg b w r w1)].
  simpl in *. split; [done|]. split.
  - intros s E. rewrite E in Hp. by destruct Hp.
  - intros HT HN s E. rewrite E, Hbc in Hp. destruct Hp as [_ Hp]. specialize (Hp HT). lia.
Qed.

(** ** A concrete run

    Two workers and two requests without a time limit, over a client of three
    nodes, the first one Byzantine; the main loop ends up waiting. *)
Module BenchDemo.
Definition bconfig (t n : Z) : Bconfig :=
  mkBconfig t n 0 0 2 "uniform" 0 0 (SpecFloat.S754_zero false) (SpecFloat.S754_zero false) false 0.
Definition given (strategy : string) (t n : Z) : Config := set_faults 1 strategy 0 0 (bconfig t n) (three_nodes strategy).
Definition made (strategy : string) (t n : Z) : HTTPClient (W := list Request) * Config :=
  match NewHTTPClient (given strategy t n) [] with Ret x => x | _ => (ClientDemo.c0, given strategy t n) end.
Definition cfg (strategy : string) (t n : Z) : Config := (made strategy t n).2.
Definition client (strategy : string) (t n : Z) : HTTPClient (W := list Request) := (made strategy t n).1.
Definition db : DB (HTTPClient (W := list Request)) :=
  Database_DB (log_Do (fun _ => ClientDemo.ok [])) (fun _ => None) (fun _ => ["2"; "3"]%string).
#[local] Existing Instance db.
Definition bytes : nat -> nat -> Z := fun j i => Z.of_nat (j + i).
Definition schedule : list BLabel :=
  [BMain false 0; BMain false 0; BMain false 0; BWorker 0; BMain false 0; BWorker 1; BWorker 1; BMain false 0;
   BCollect; BMain false 0; BMain true 0].
Definition bench (t n : Z) : Benchmark := mkBenchmark (bconfig t n) NewHistory None [] 0.
Definition start (t n : Z) : Run :=
  mkRun (bench t n) 0 (make_chan 2) (make_chan 1000) 0 0 (AtTop 0) [Idle; Idle] [] [].
Definition ended (strategy : string) (t n : Z) : Run * HTTPClient (W := list Request) :=
  match bsteps (D := db) (cfg strategy t n) bytes schedule (start t n, client strategy t n) with
  | Ret (_, s) => s
  | _ => (start t n, client strategy t n)
  end.
Abbreviation final := (ended "fork" 0 2).
Lemma counted_run :
  bsteps (D := db) (cfg "fork" 0 2) bytes schedule (start 0 2, client "fork" 0 2) = Ret (tt, (final.1, final.2)).
Proof. vm_compute. reflexivity. Qed.
End BenchDemo.

Lemma workload_conserved_witness :
  r_written BenchDemo.final.1 = [2] /\ hands (r_workers BenchDemo.final.1) = [0] /\
  r_generated BenchDemo.final.1 = nth_key (BenchDemo.cfg "fork" 0 2) <$> seq 0 (length (r_generated BenchDemo.final.1)).
Proof.
  split_and!; [vm_compute; reflexivity | vm_compute; reflexivity |].
  refine (proj2 (workload_conserved (D := BenchDemo.db) (BenchDemo.cfg "fork" 0 2) BenchDemo.bytes (BenchDemo.bench 0 2)
           (BenchDemo.client "fork" 0 2) (BenchDemo.start 0 2) (BenchDemo.client "fork" 0 2) BenchDemo.schedule
           BenchDemo.final.1 BenchDemo.final.2 _ _ _));
    [reflexivity | reflexivity | exact BenchDemo.counted_run].
Defined.

Lemma Run_confirms_nothing_witness :
  r_main BenchDemo.final.1 = AtWait /\ (forall s, r_main BenchDemo.final.1 <> AtEnd s).
Proof.
  split; [vm_compute; reflexivity|].
  destruct (Run_confirms_nothing (D := BenchDemo.db) (BenchDemo.cfg "fork" 0 2) BenchDemo.bytes (BenchDemo.bench 0 2)
             (BenchDemo.client "fork" 0 2) (BenchDemo.start 0 2) (BenchDemo.client "fork" 0 2) BenchDemo.schedule
             BenchDemo.final.1 BenchDemo.final.2) as (_ & _ & H);
    [reflexivity | reflexivity | exact BenchDemo.counted_run |].
  apply H; vm_compute; [discriminate | reflexivity].
Defined.

(** A timed run ends with the zero statistics after writing keys. *)
Example timed_run_ends : exists s, r_main (BenchDemo.ended "silence" 60 0).1 = AtEnd s /\ st_Size s = 0.
Proof. eexists. split; vm_compute; reflexivity. Qed.

(** ** The transactions of a workload *)

(** The id a node gives the transaction of a key: the path of the request, which is
    the URL without its base. *)
Definition tx_id (key : Z) (id : NodeID) : string := put_url key id ""%string.

Lemma nth_key_small cfg j :
  0 <= ByzNo cfg <= Config_N cfg -> Config_N cfg < 2 ^ 31 -> Z.of_nat j < 2 ^ 31 ->
  nth_key cfg j = Z.of_nat j * (Config_N cfg - ByzNo cfg).
Proof.
  intros Hb HN Hj. unfold nth_key, stride.
  rewrite (i64_id (Config_N cfg - ByzNo cfg)) by (unfold is_i64, two63; lia).
  rewrite (u64_id (Config_N cfg - ByzNo cfg)) by (unfold is_u64, two64; lia).
  rewrite u64_id by (unfold is_u64, two64; nia). apply i64_id. unfold is_i64, two63. nia.
Qed.

Lemma tx_id_eq j1 j2 n1 n2 :
  0 <= j1 < 2 ^ 62 -> 0 <= j2 < 2 ^ 62 -> 0 <= n1 < 2 ^ 31 -> 0 <= n2 < 2 ^ 31 ->
  tx_id j1 (NewNodeID n1) = tx_id j2 (NewNodeID n2) <-> j1 + n1 = j2 + n2.
Proof.
  intros. unfold tx_id, put_url. rewrite !Node_NewNodeID_nonneg by (unfold two63; lia).
  rewrite !i64_id by (unfold is_i64, two63; lia). split; [|congruence].
  intros E. simpl in E. injection E as E. by apply Strconv.Itoa_inj in E.
Qed.

(** The nodes a client knows, of [n] configured ones. *)
Lemma client_knows {W} cfg (w : W) c cfg' n :
  Z.of_nat n < two63 - 1 /\ 0 <= ByzNo cfg < Z.of_nat n ->
  (forall id, is_Some (default ∅ (HTTPAddrs cfg) !! id) <-> id ∈ node_ids n) ->
  NewHTTPClient cfg w = Ret (c, cfg') ->
  forall id, is_Some (default ∅ (hc_HTTP c) !! id) <->
    exists i, 1 <= i < 1 + Z.of_nat n /\ id = NewNodeID i /\ (Strategy cfg = "silence"%string -> ByzNo cfg < i).
Proof.
  intros [Hn Hb] Hdom Hc id.
  destruct (NewHTTPClient_lookup cfg w c cfg' Hc) as (_ & _ & _ & _ & Hl). split.
  - intros [url Hu]. apply Hl in Hu as [Hu Hs].
    destruct (proj1 (elem_of_node_ids n id) (proj1 (Hdom id) (ex_intro _ url Hu))) as (i & Hi & ->).
    exists i. split_and!; [lia | lia | done |]. intros E. destruct (Z.lt_ge_cases (ByzNo cfg) i); [done|].
    exfalso. apply (Hs E i); [lia | done].
  - intros (i & Hi & -> & Hs). destruct (proj2 (Hdom (NewNodeID i))) as [url Hu]; [apply elem_of_node_ids; eauto|].
    exists url. apply Hl. split; [done|]. intros E k Hk Heq. apply NewNodeID_inj in Heq; [|lia..].
    specialize (Hs E). lia.
Qed.

Lemma counted_lookup cfg r j k : counted cfg r -> r_generated r !! j = Some k -> Z.of_nat j < 2 ^ 31 /\ k = nth_key cfg j.
Proof.
  intros (Hg & _ & Hw & Hlt) Hj. pose proof (lookup_lt_Some _ _ _ Hj). split; [lia|].
  rewrite Hg, list_lookup_fmap, lookup_seq_lt in Hj by done. by injection Hj as <-.
Qed.

(** Creating a client changes neither the node count nor the number of Byzantine
    nodes. *)
Lemma NewHTTPClient_counts {W} cfg (w : W) c cfg' :
  NewHTTPClient cfg w = Ret (c, cfg') -> Config_N cfg' = Config_N cfg /\ ByzNo cfg' = ByzNo cfg.
Proof.
  unfold NewHTTPClient. case_bool_decide; [destruct (ByzNo cfg =? two63 - 1); [done|]|]; by intros [= _ <-].
Qed.

(** The ids of the transactions of a run over a client of [n] configured
    nodes [1 .. n] of which the first [ByzNo] are Byzantine, a key making one
    transaction at each node the client knows: under the silence strategy all are
    different; under any other strategy with a Byzantine node, every two consecutive
    keys give two of their transactions the same id. *)
Theorem transaction_ids {W V} {D : DB V} cfg (w : W) c cfg' n bytes b v r v1 ls r' v' :
  Config_N cfg = Z.of_nat n -> Z.of_nat n < 2 ^ 31 -> 0 <= ByzNo cfg < Z.of_nat n ->
  (forall id, is_Some (default ∅ (HTTPAddrs cfg) !! id) <-> id ∈ node_ids n) ->
  NewHTTPClient cfg w = Ret (c, cfg') ->
  NewBenchmark cfg' = Ret b -> start_run b v = Ret (r, v1) -> bsteps cfg' bytes ls (r, v1) = Ret (tt, (r', v')) ->
  let knows id := is_Some (default ∅ (hc_HTTP c) !! id) in
  (Strategy cfg = "silence"%string -> forall j1 j2 k1 k2 id1 id2,
     r_generated r' !! j1 = Some k1 -> r_generated r' !! j2 = Some k2 -> knows id1 -> knows id2 ->
     tx_id k1 id1 = tx_id k2 id2 -> j1 = j2 /\ id1 = id2) /\
  (Strategy cfg <> "silence"%string -> 0 < ByzNo cfg -> forall j k1 k2,
     r_generated r' !! j = Some k1 -> r_generated r' !! S j = Some k2 ->
     exists id1 id2, knows id1 /\ knows id2 /\ tx_id k1 id1 = tx_id k2 id2).
Proof.
  intros HN Hn Hb Hdom Hc Hnew Hstart Hrun knows.
  assert (forall id, knows id <-> exists i, 1 <= i < 1 + Z.of_nat n /\ id = NewNodeID i /\
            (Strategy cfg = "silence"%string -> ByzNo cfg < i)) as Hk.
  { apply (client_knows cfg w c cfg' n); [unfold two63; lia | done | done]. }
  destruct (NewHTTPClient_counts cfg w c cfg' Hc) as [EN EB].
  apply (bsteps_run_inv cfg' bytes) in Hrun as (_ & Hcnt & _); [|by apply (start_run_run_inv cfg' b v r v1)].
  assert (forall j k, r_generated r' !! j = Some k -> Z.of_nat j < 2 ^ 31 /\ k = Z.of_nat j * (Z.of_nat n - ByzNo cfg)) as Hg.
  { intros j k Hj. apply (counted_lookup cfg' r') in Hj as [Hlt ->]; [|done]. split; [done|].
    rewrite nth_key_small, EN, EB, HN by lia. done. }
  split.
  - intros Hs j1 j2 k1 k2 id1 id2 [Hj1 ->]%Hg [Hj2 ->]%Hg (i1 & Hi1 & -> & Hb1)%Hk (i2 & Hi2 & -> & Hb2)%Hk E.
    specialize (Hb1 Hs). specialize (Hb2 Hs). apply tx_id_eq in E; [|nia..].
    assert (j1 = j2) as -> by (apply Nat2Z.inj; nia). split; [done|]. f_equal. lia.
  - intros Hs Hpos j k1 k2 [Hj ->]%Hg [Hj' ->]%Hg. exists (NewNodeID (Z.of_nat n - ByzNo cfg + 1)), (NewNodeID 1).
    split_and!; [apply Hk; eexists; split_and!; [| |reflexivity|done]; lia.. |].
    apply tx_id_eq; nia.
Qed.

Lemma three_nodes_known strategy id :
  is_Some (default ∅ (HTTPAddrs (three_nodes strategy)) !! id) <-> id ∈ node_ids 3.
Proof.
  rewrite <- elem_of_dom.
  assert (dom (default ∅ (HTTPAddrs (three_nodes strategy))) = list_to_set (node_ids 3)) as -> by (vm_compute; reflexivity).
  by rewrite elem_of_list_to_set.
Qed.

(** The transaction of node 3 for the first key and that of node 1 for the second
    are both called /3. *)
Lemma transaction_ids_witness :
  exists id1 id2, tx_id 0 id1 = tx_id 2 id2 /\ r_generated BenchDemo.final.1 = [0; 2].
Proof.
  destruct (transaction_ids (D := BenchDemo.db) (BenchDemo.given "fork" 0 2) [] (BenchDemo.client "fork" 0 2)
              (BenchDemo.cfg "fork" 0 2) 3 BenchDemo.bytes (BenchDemo.bench 0 2) (BenchDemo.client "fork" 0 2)
              (BenchDemo.start 0 2) (BenchDemo.client "fork" 0 2) BenchDemo.schedule BenchDemo.final.1 BenchDemo.final.2)
    as [_ H]; [reflexivity | reflexivity | simpl; lia | exact (three_nodes_known "fork") | reflexivity | reflexivity
              | reflexivity | exact BenchDemo.counted_run |].
  destruct (H ltac:(discriminate) eq_refl 0%nat 0 2) as (id1 & id2 & _ & _ & E); [vm_compute; reflexivity..|].
  exists id1, id2. split; [exact E | vm_compute; reflexivity].
Defined.
